(** * Location values of the Solidity legacy code generator

    A shallow embedding of [libsolidity/codegen/LValue.cpp] and
    [libsolidity/codegen/GenericStorageItem.cpp]: the code generators are
    functions that append assembly items to a compiler context, and the
    emitted items are given the semantics of the 256-bit stack machine they
    target, so that statements about the packed storage layout can be proved
    about the code that is really emitted. *)

From Stdlib Require Import ZArith List String Bool Lia.
From coqutil Require Import Z.bitblast.
Import ListNotations.
Local Open Scope Z_scope.

(** ** Machine words *)

Module Word.

(** [u256]: an unsigned 256-bit integer, kept as a [Z] in [0, 2^256). *)
Definition modulus : Z := 2 ^ 256.

Definition wrap (x : Z) : Z := x mod modulus.

Definition isWord (x : Z) : Prop := 0 <= x < modulus.

(** [unsigned]: the 32-bit C++ type the generator counts stack slots in. *)
Definition u32 (x : Z) : Z := x mod 2 ^ 32.

Definition add (a b : Z) : Z := wrap (a + b).
Definition sub (a b : Z) : Z := wrap (a - b).
Definition mul (a b : Z) : Z := wrap (a * b).
Definition div (a b : Z) : Z := if b =? 0 then 0 else a / b.
Definition exp (a b : Z) : Z := wrap (a ^ b).
Definition bitnot (a : Z) : Z := wrap (Z.lnot a).
Definition iszero (a : Z) : Z := if a =? 0 then 1 else 0.
Definition shl (shift value : Z) : Z :=
  if shift <? 256 then wrap (Z.shiftl value shift) else 0.
Definition shr (shift value : Z) : Z :=
  if shift <? 256 then Z.shiftr value shift else 0.

(** [BYTE i x]: the [i]-th byte of [x], counted from the most significant. *)
Definition byte (i x : Z) : Z :=
  if i <? 32 then (x / 256 ^ (31 - i)) mod 256 else 0.

(** [SIGNEXTEND b x]: bit [8b+7] of [x] is copied into every higher bit. *)
Definition signextend (b x : Z) : Z :=
  if b <? 31 then
    let t := 8 * b + 7 in
    if Z.testbit x t
    then Z.lor x (modulus - 2 ^ t)
    else Z.land x (2 ^ t - 1)
  else x.

End Word.

(** ** Instructions and assembly items *)

(** The instructions of [libevmasm/Instruction.h] that the location values
    emit.  [DUP n] and [SWAP n] stand for [DUP1..DUP16], [SWAP1..SWAP16]. *)
Inductive Instruction : Type :=
| ADD | MUL | SUB | DIV | EXP | SIGNEXTEND
| ISZERO | AND | OR | NOT | BYTE | SHL | SHR
| POP | MLOAD | MSTORE | MSTORE8
| SLOAD | SSTORE | TLOAD | TSTORE
| DUP (n : Z) | SWAP (n : Z).

(** What [CompilerContext::operator<<] accepts: an instruction, a [u256]
    constant to push, the placeholder of an immutable, or an item of a
    collaborator this development does not interpret (a jump into a utility
    function, for instance), of which only the stack deposit is known. *)
Inductive AssemblyItem : Type :=
| Operation (i : Instruction)
| Push (v : Z)
| PushImmutable (name : string)
| Foreign (what : string) (deposit : Z).

Coercion Operation : Instruction >-> AssemblyItem.

(** Arguments taken from and values returned to the stack. *)
Definition instructionInfo (i : Instruction) : Z * Z :=
  match i with
  | ADD | MUL | SUB | DIV | EXP | SIGNEXTEND
  | AND | OR | BYTE | SHL | SHR => (2, 1)
  | ISZERO | NOT => (1, 1)
  | POP => (1, 0)
  | MLOAD | SLOAD | TLOAD => (1, 1)
  | MSTORE | MSTORE8 | SSTORE | TSTORE => (2, 0)
  | DUP n => (n, n + 1)
  | SWAP n => (n + 1, n + 1)
  end.

Definition itemDeposit (it : AssemblyItem) : Z :=
  match it with
  | Operation i => snd (instructionInfo i) - fst (instructionInfo i)
  | Push _ => 1
  | PushImmutable _ => 1
  | Foreign _ d => d
  end.

(** ** The target machine

    The operand stack (top first), persistent storage and transient storage.
    Memory, immutables and foreign items are outside this machine model:
    executing them is not defined. *)
Module EVM.

Record State : Type := mkState {
  stack : list Z;
  storage : Z -> Z;
  transient : Z -> Z
}.

Definition upd (f : Z -> Z) (k v : Z) : Z -> Z :=
  fun k' => if k' =? k then v else f k'.

Definition binop (f : Z -> Z -> Z) (s : State) : option State :=
  match stack s with
  | a :: b :: r => Some (mkState (f a b :: r) (storage s) (transient s))
  | _ => None
  end.

Definition unop (f : Z -> Z) (s : State) : option State :=
  match stack s with
  | a :: r => Some (mkState (f a :: r) (storage s) (transient s))
  | _ => None
  end.

Definition swapTop (n : nat) (st : list Z) : option (list Z) :=
  match st with
  | a :: r =>
      match n with
      | O => None
      | S k =>
          match nth_error r k with
          | Some b => Some (b :: firstn k r ++ a :: skipn (S k) r)
          | None => None
          end
      end
  | [] => None
  end.

Definition step (i : Instruction) (s : State) : option State :=
  match i with
  | ADD => binop Word.add s
  | MUL => binop Word.mul s
  | SUB => binop Word.sub s
  | DIV => binop Word.div s
  | EXP => binop Word.exp s
  | SIGNEXTEND => binop Word.signextend s
  | AND => binop Z.land s
  | OR => binop Z.lor s
  | BYTE => binop Word.byte s
  | SHL => binop Word.shl s
  | SHR => binop Word.shr s
  | ISZERO => unop Word.iszero s
  | NOT => unop Word.bitnot s
  | POP =>
      match stack s with
      | _ :: r => Some (mkState r (storage s) (transient s))
      | [] => None
      end
  | SLOAD => unop (storage s) s
  | TLOAD => unop (transient s) s
  | SSTORE =>
      match stack s with
      | k :: v :: r => Some (mkState r (upd (storage s) k v) (transient s))
      | _ => None
      end
  | TSTORE =>
      match stack s with
      | k :: v :: r => Some (mkState r (storage s) (upd (transient s) k v))
      | _ => None
      end
  | DUP n =>
      if (1 <=? n) && (n <=? 16) then
        match nth_error (stack s) (Z.to_nat (n - 1)) with
        | Some x => Some (mkState (x :: stack s) (storage s) (transient s))
        | None => None
        end
      else None
  | SWAP n =>
      if (1 <=? n) && (n <=? 16) then
        match swapTop (Z.to_nat n) (stack s) with
        | Some st => Some (mkState st (storage s) (transient s))
        | None => None
        end
      else None
  | MLOAD | MSTORE | MSTORE8 => None
  end.

Definition exec1 (it : AssemblyItem) (s : State) : option State :=
  match it with
  | Operation i => step i s
  | Push v => Some (mkState (v :: stack s) (storage s) (transient s))
  | PushImmutable _ => None
  | Foreign _ _ => None
  end.

Fixpoint exec (code : list AssemblyItem) (s : State) : option State :=
  match code with
  | [] => Some s
  | it :: rest =>
      match exec1 it s with
      | Some s' => exec rest s'
      | None => None
      end
  end.

End EVM.

(** ** The type query interface

    The type system is a collaborator: the location values only ask it
    questions.  A type is therefore the record of the answers the code in
    [LValue.cpp] and [GenericStorageItem.cpp] asks for. *)

Inductive Category : Type :=
| Address | Integer | RationalNumber | StringLiteral | Bool | FixedPoint
| Array | ArraySlice | FixedBytes | Contract | Struct | Function | Enum
| UserDefinedValueType | Tuple | Mapping | TypeType | Modifier | Magic.

Inductive DataLocation : Type := Storage | Transient | CallData | Memory.

Inductive FunctionKind : Type := Internal | External | OtherKind.

#[local] Set Warnings "-register-all".
Inductive Ty : Type := mkType {
  category : Category;
  isValueType : bool;
  storageBytes : Z;
  storageSize : Z;
  sizeOnStack : Z;
  leftAligned : bool;
  (** [IntegerType::isSigned], asked only when [category] is [Integer] *)
  isSigned : bool;
  (** [FunctionType::kind] and [hasBoundFirstArgument], for [Function] *)
  kind : FunctionKind;
  hasBoundFirstArgument : bool;
  nameable : bool;
  calldataEncodedSize : bool -> Z;
  (** a null pointer is [None] *)
  encodingType : option Ty;
  (** [ReferenceType::location] *)
  location : DataLocation;
  (** [StructType]: the definition, and [members(nullptr)] in declared order *)
  structDefinition : Z;
  containsNestedMapping : bool;
  members : list (string * Ty);
  storageOffsetsOfMember : string -> Z * Z;
  memoryOffsetOfMember : string -> Z;
  (** [TupleType::components]; an absent component is a null pointer *)
  components : list (option Ty)
}.

Definition Category_eqb (a b : Category) : bool :=
  match a, b with
  | Address, Address | Integer, Integer | RationalNumber, RationalNumber
  | StringLiteral, StringLiteral | Bool, Bool | FixedPoint, FixedPoint
  | Array, Array | ArraySlice, ArraySlice | FixedBytes, FixedBytes
  | Contract, Contract | Struct, Struct | Function, Function | Enum, Enum
  | UserDefinedValueType, UserDefinedValueType | Tuple, Tuple
  | Mapping, Mapping | TypeType, TypeType | Modifier, Modifier
  | Magic, Magic => true
  | _, _ => false
  end.

Definition DataLocation_eqb (a b : DataLocation) : bool :=
  match a, b with
  | Storage, Storage | Transient, Transient
  | CallData, CallData | Memory, Memory => true
  | _, _ => false
  end.

Definition FunctionKind_eqb (a b : FunctionKind) : bool :=
  match a, b with
  | Internal, Internal | External, External | OtherKind, OtherKind => true
  | _, _ => false
  end.

(** [StructType::memberType]: the type of the member called [name], a null
    pointer when there is none. *)
Fixpoint lookupMember (name : string) (ms : list (string * Ty)) : option Ty :=
  match ms with
  | [] => None
  | (n, t) :: rest => if String.eqb n name then Some t else lookupMember name rest
  end.

Definition memberType (t : Ty) (name : string) : option Ty :=
  lookupMember name (members t).

(** ** Failures of code generation *)

Record SourceLocation : Type := mkLoc { locStart : Z; locEnd : Z }.

(** [langutil::SourceLocation()], the default argument of the header. *)
Definition noLocation : SourceLocation := mkLoc (-1) (-1).

Inductive Exception : Type :=
| StackTooDeepError (location : option SourceLocation)
| InternalCompilerError (message : string)
| UnimplementedFeatureError (message : string)
| InvalidOpcode
| BadCast.

Inductive Result (A : Type) : Type :=
| OK (a : A)
| Throw (e : Exception).
Arguments OK {A} a.
Arguments Throw {A} e.

(** ** The compiler context *)

Record VariableDeclaration : Type := mkDecl {
  declId : Z;
  declType : Ty;
  immutable : bool
}.

Record CompilerContext : Type := mkContext {
  (** the items appended so far, oldest first *)
  assembly : list AssemblyItem;
  (** [m_asm->deposit()], the tracked height of the operand stack *)
  deposit : Z;
  (** whether [runtimeContext()] is non-null: the context of creation code
      has a runtime context, the context of runtime code has none *)
  runtimeContext : bool;
  (** [evmVersion().hasBitwiseShifting()] *)
  hasBitwiseShifting : bool;
  baseStackOffsetOfVariable : Z -> Z;
  storageLocationOfVariable : Z -> Z * Z;
  (** memory offsets reserved for immutables, by declaration *)
  immutableVariables : Z -> option Z
}.

(** Code generators: a state and exception monad over the context. *)
Definition Gen (A : Type) : Type := CompilerContext -> Result (A * CompilerContext).

Definition ret {A} (a : A) : Gen A := fun c => OK (a, c).

Definition bind {A B} (g : Gen A) (k : A -> Gen B) : Gen B :=
  fun c =>
    match g c with
    | OK (a, c') => k a c'
    | Throw e => Throw e
    end.

Definition throw {A} (e : Exception) : Gen A := fun _ => Throw e.

Declare Scope gen_scope.
Delimit Scope gen_scope with gen.
Notation "x <- g ;; k" := (bind g (fun x => k))
  (at level 61, g at next level, right associativity) : gen_scope.
Notation "g ;; k" := (bind g (fun _ => k))
  (at level 61, right associativity) : gen_scope.
Local Open Scope gen_scope.

Definition getContext : Gen CompilerContext := fun c => OK (c, c).

(** [m_context << item] *)
Definition emit (it : AssemblyItem) : Gen unit :=
  fun c =>
    OK (tt, mkContext (assembly c ++ [it]) (deposit c + itemDeposit it)
              (runtimeContext c) (hasBitwiseShifting c)
              (baseStackOffsetOfVariable c) (storageLocationOfVariable c)
              (immutableVariables c)).

Fixpoint emitAll (its : list AssemblyItem) : Gen unit :=
  match its with
  | [] => ret tt
  | it :: rest => emit it ;; emitAll rest
  end.

(** The code a collaborator appends, or the exception it raises. *)
Definition append (r : Result (list AssemblyItem)) : Gen unit :=
  match r with
  | OK its => emitAll its
  | Throw e => throw e
  end.

Definition solAssert (cond : bool) (message : string) : Gen unit :=
  if cond then ret tt else throw (InternalCompilerError message).

Definition solUnimplementedAssert (cond : bool) (message : string) : Gen unit :=
  if cond then ret tt else throw (UnimplementedFeatureError message).

Definition solUnimplemented {A} (message : string) : Gen A :=
  throw (UnimplementedFeatureError message).

Fixpoint forEach {A} (l : list A) (body : A -> Gen unit) : Gen unit :=
  match l with
  | [] => ret tt
  | a :: rest => body a ;; forEach rest body
  end.

(** [for (unsigned i = 0; i < n; ++i) body] *)
Definition times (n : Z) (body : Gen unit) : Gen unit :=
  forEach (repeat tt (Z.to_nat n)) (fun _ => body).

(** [dupInstruction] and [swapInstruction] of [libevmasm/Instruction.h]
    refuse a number outside 1..16. *)
Definition dupInstruction (n : Z) : Gen Instruction :=
  if (1 <=? n) && (n <=? 16) then ret (DUP n) else throw InvalidOpcode.

Definition swapInstruction (n : Z) : Gen Instruction :=
  if (1 <=? n) && (n <=? 16) then ret (SWAP n) else throw InvalidOpcode.

Definition emitDup (n : Z) : Gen unit := i <- dupInstruction n ;; emit i.
Definition emitSwap (n : Z) : Gen unit := i <- swapInstruction n ;; emit i.

(** Modelled from the spec: [CompilerContext::stackHeight] is not under
    src/; the spec (5) has the operand stack tracked as an integer height. *)
Definition stackHeight : Gen Z :=
  c <- getContext ;;
  solAssert (0 <=? deposit c) "" ;;
  ret (Word.u32 (deposit c)).

(** Modelled from the spec: [CompilerContext::baseToCurrentStackOffset] is
    not under src/; the spec (5) addresses a stack-resident value by its
    distance from the current top, which is the tracked height less the
    fixed base offset of the value, counted from zero. *)
Definition baseToCurrentStackOffset (base : Z) : Gen Z :=
  c <- getContext ;;
  ret (Word.u32 (Word.u32 (deposit c) - base - 1)).

(** Modelled from the spec: [CompilerContext::immutableMemoryOffset] is not
    under src/; the spec (3, 4.5) binds an immutable to a memory cell only
    before finalization, and has asking for that cell afterwards be an
    asserted invariant violation. *)
Definition immutableMemoryOffset (v : VariableDeclaration) : Gen Z :=
  c <- getContext ;;
  match immutableVariables c (declId v) with
  | None => throw (InternalCompilerError "Memory offset of unknown immutable queried.")
  | Some off =>
      solAssert (runtimeContext c)
        "Attempted to fetch the memory offset of an immutable variable during runtime code generation." ;;
      ret off
  end.

(** ** Stack utilities of [CompilerUtils] *)

(** Modelled from the spec: [CompilerUtils::copyToStackTop] is not under
    src/; the spec (4.7, 5) has a value copied to the top of the stack by
    duplication, which reaches at most 16 slots deep and otherwise fails with
    the resource-exhaustion condition. *)
Definition copyToStackTop (_stackDepth _itemSize : Z) : Gen unit :=
  (if _stackDepth <=? 16 then ret tt else throw (StackTooDeepError None)) ;;
  times _itemSize (emitDup _stackDepth).

(** Modelled from the spec: [CompilerUtils::rotateStackUp] and
    [rotateStackDown] are not under src/; they move the top slot below, or
    the lowest slot above, the other [_items - 1] slots by swaps within the
    16-slot window of the spec (5). *)
Definition rotateStackUp (_items : Z) : Gen unit :=
  (if Word.u32 (_items - 1) <=? 16 then ret tt else throw (StackTooDeepError None)) ;;
  forEach (map Z.of_nat (seq 1 (Z.to_nat (_items - 1))))
    (fun i => emitSwap (_items - i)).

Definition rotateStackDown (_items : Z) : Gen unit :=
  (if Word.u32 (_items - 1) <=? 16 then ret tt else throw (StackTooDeepError None)) ;;
  forEach (map Z.of_nat (seq 1 (Z.to_nat (_items - 1))))
    (fun i => emitSwap i).

(** Modelled from the spec: [CompilerUtils::moveIntoStack] is not under
    src/; it moves the top [_itemSize] slots below the [_stackDepth] slots
    under them. *)
Definition moveIntoStack (_stackDepth _itemSize : Z) : Gen unit :=
  if _stackDepth <=? _itemSize
  then times _stackDepth (rotateStackDown (Word.u32 (_stackDepth + _itemSize)))
  else times _itemSize (rotateStackUp (Word.u32 (_stackDepth + _itemSize))).

(** Modelled from the spec: [CompilerUtils::moveToStackTop] is not under
    src/; the spec (4.7) has the addressing operands, [_itemSize] slots lying
    under [_stackDepth] slots, moved above them. *)
Definition moveToStackTop (_stackDepth _itemSize : Z) : Gen unit :=
  moveIntoStack _itemSize _stackDepth.

(** Modelled from the spec: [CompilerUtils::popStackSlots] and
    [popStackElement] are not under src/; the spec (4.7) discards the stack
    slots of a value, one [POP] for each. *)
Definition popStackSlots (_amount : Z) : Gen unit := times _amount (emit POP).

Definition popStackElement (_type : Ty) : Gen unit :=
  popStackSlots (sizeOnStack _type).

(** Modelled from the spec: [CompilerUtils::leftShiftNumberOnStack] and
    [rightShiftNumberOnStack] are not under src/; the spec (4.2) re-aligns a
    left-aligned value by a shift of the bits on top of the stack, which is the
    shift instruction of the machine or, on a machine without one, the
    multiplication or division by the power of two. *)
Definition leftShiftNumberOnStack (_bits : Z) : Gen unit :=
  solAssert (_bits <? 256) "" ;;
  c <- getContext ;;
  if hasBitwiseShifting c
  then emit (Push _bits) ;; emit SHL
  else emit (Push (Z.shiftl 1 _bits)) ;; emit MUL.

Definition rightShiftNumberOnStack (_bits : Z) : Gen unit :=
  solAssert (_bits <? 256) "" ;;
  c <- getContext ;;
  if hasBitwiseShifting c
  then emit (Push _bits) ;; emit SHR
  else emit (Push (Z.shiftl 1 _bits)) ;; emit (SWAP 1) ;; emit DIV.

(** ** Collaborators consumed as provided primitives

    The conversion, memory and array routines of [CompilerUtils] and
    [ArrayUtils], the Yul utility functions, and two relations and the
    printing of types of the type system, are not under src/ and are
    parameters of the development: each routine is the list of items it
    appends, or the exception it raises. *)
Record Collaborators : Type := mkCollaborators {
  (** [convertType(_typeOnStack, _targetType, _cleanupNeeded, _chopSignBits)] *)
  convertType : Ty -> Ty -> bool -> bool -> Result (list AssemblyItem);
  pushZeroValue : Ty -> Result (list AssemblyItem);
  splitExternalFunctionType : bool -> Result (list AssemblyItem);
  combineExternalFunctionType : bool -> Result (list AssemblyItem);
  (** [loadFromMemoryDynamic(_type, _fromCalldata, _padded, _keepUpdatedMemoryOffset)] *)
  loadFromMemoryDynamic : Ty -> bool -> bool -> bool -> Result (list AssemblyItem);
  (** [loadFromMemory(_offset, _type, _fromCalldata, _padded)] *)
  loadFromMemory : Z -> Ty -> bool -> bool -> Result (list AssemblyItem);
  (** [storeInMemoryDynamic(_type, _padded)] *)
  storeInMemoryDynamic : Ty -> bool -> Result (list AssemblyItem);
  (** [ArrayUtils::copyArrayToStorage(_targetType, _sourceType)] *)
  copyArrayToStorage : Ty -> Ty -> Result (list AssemblyItem);
  clearArray : Ty -> Result (list AssemblyItem);
  (** [callYulFunction(utilFunctions().updateStorageValueFunction(from, to, 0), 2, 0)] *)
  callUpdateStorageValueFunction : Ty -> Ty -> Result (list AssemblyItem);
  immutableVariableSlotNames : VariableDeclaration -> list string;
  (** [Type::operator==], [Type::isImplicitlyConvertibleTo] and
      [Type::toString] *)
  typeEquals : Ty -> Ty -> bool;
  isImplicitlyConvertibleTo : Ty -> Ty -> bool;
  toString : Ty -> string
}.

(** ** Location values *)

(** The classes of [LValue.h].  What each keeps of its constructor's
    arguments is what its operations read. *)
Inductive LValue : Type :=
| StackVariable (m_dataType : Ty) (m_baseStackOffset : Z) (m_size : Z)
| MemoryItem (m_dataType : Ty) (m_padded : bool)
| GenericStorageItem (isTransient : bool) (m_dataType : Ty)
| ImmutableItem (m_dataType : Ty) (m_variable : VariableDeclaration)
| StorageByteArrayElement
| TupleObject (m_lvalues : list (option LValue)).

(** Modelled from the spec: the [sizeOnStack] overrides live in [LValue.h],
    which is not under src/; the table of spec 4.1 gives the addressing
    operands of each variant, the slots that [retrieveValue] duplicates and
    [TupleObject::storeValue] moves above the value.  [TupleObject::sizeOnStack]
    is in [LValue.cpp]. *)
Fixpoint LValue_sizeOnStack (lv : LValue) : Z :=
  match lv with
  | StackVariable _ _ _ => 0
  | MemoryItem _ _ => 1
  | GenericStorageItem _ _ => 2
  | ImmutableItem _ _ => 0
  | StorageByteArrayElement => 2
  | TupleObject lvs =>
      (fix sum (l : list (option LValue)) (size : Z) : Z :=
         match l with
         | [] => size
         | Some lv :: rest => sum rest (Word.u32 (size + LValue_sizeOnStack lv))
         | None :: rest => sum rest size
         end) lvs 0
  end.

(** Modelled from the spec: [m_loadInstruction] and [m_storeInstruction] are
    set in [LValue.h], which is not under src/; the spec (4.1, 9) has the
    transient variant differ from the persistent one in the key space its
    load and store address. *)
Definition m_loadInstruction (isTransient : bool) : Instruction :=
  if isTransient then TLOAD else SLOAD.

Definition m_storeInstruction (isTransient : bool) : Instruction :=
  if isTransient then TSTORE else SSTORE.

Section LocationValues.

Variable C : Collaborators.

(** *** [StackVariable] *)

Definition StackVariable_new (_declaration : VariableDeclaration) : Gen LValue :=
  c <- getContext ;;
  ret (StackVariable (declType _declaration)
         (baseStackOffsetOfVariable c (declId _declaration))
         (sizeOnStack (declType _declaration))).

Definition StackVariable_retrieveValue (m_baseStackOffset m_size : Z)
    (_location : SourceLocation) (_remove : bool) : Gen unit :=
  stackPos <- baseToCurrentStackOffset m_baseStackOffset ;;
  if Word.u32 (stackPos + 1) >? 16
  then throw (StackTooDeepError (Some _location))
  else
    solAssert (Word.u32 (stackPos + 1) >=? m_size) "Size and stack pos mismatch." ;;
    times m_size (emitDup (Word.u32 (stackPos + 1))).

Definition StackVariable_storeValue (m_baseStackOffset m_size : Z)
    (_sourceType : Ty) (_location : SourceLocation) (_move : bool) : Gen unit :=
  pos <- baseToCurrentStackOffset m_baseStackOffset ;;
  let stackDiff := Word.u32 (pos - m_size + 1) in
  (if stackDiff >? 16
   then throw (StackTooDeepError (Some _location))
   else if stackDiff >? 0
   then times m_size (emitSwap stackDiff ;; emit POP)
   else ret tt) ;;
  if negb _move
  then StackVariable_retrieveValue m_baseStackOffset m_size _location false
  else ret tt.

Definition StackVariable_setToZero (m_dataType : Ty) (m_baseStackOffset m_size : Z)
    (_location : SourceLocation) (_removeReference : bool) : Gen unit :=
  append (pushZeroValue C m_dataType) ;;
  StackVariable_storeValue m_baseStackOffset m_size m_dataType _location true.

(** *** [MemoryItem] *)

Definition MemoryItem_retrieveValue (m_dataType : Ty) (m_padded : bool)
    (_location : SourceLocation) (_remove : bool) : Gen unit :=
  if isValueType m_dataType then
    (if negb _remove then emit (DUP 1) else ret tt) ;;
    append (loadFromMemoryDynamic C m_dataType false m_padded false)
  else emit MLOAD.

Definition MemoryItem_storeValue (m_dataType : Ty) (m_padded : bool)
    (_sourceType : Ty) (_location : SourceLocation) (_move : bool) : Gen unit :=
  if isValueType m_dataType then
    solAssert (isValueType _sourceType) "" ;;
    moveIntoStack (sizeOnStack _sourceType) 1 ;;
    append (convertType C _sourceType m_dataType true false) ;;
    (if negb _move then
       moveToStackTop (sizeOnStack m_dataType) 1 ;;
       copyToStackTop (Word.u32 (1 + sizeOnStack m_dataType)) (sizeOnStack m_dataType)
     else ret tt) ;;
    if negb m_padded then
      solAssert (calldataEncodedSize m_dataType false =? 1) "Invalid non-padded type." ;;
      solAssert (negb (Category_eqb (category m_dataType) UserDefinedValueType)) "" ;;
      (if Category_eqb (category m_dataType) FixedBytes
       then emit (Push 0) ;; emit BYTE
       else ret tt) ;;
      emit (SWAP 1) ;; emit MSTORE8
    else
      append (storeInMemoryDynamic C m_dataType m_padded) ;;
      emit POP
  else
    solUnimplementedAssert (typeEquals C _sourceType m_dataType)
      "Conversion not implemented for assignment to memory." ;;
    solAssert (sizeOnStack m_dataType =? 1) "" ;;
    (if negb _move then emit (DUP 2) ;; emit (SWAP 1) else ret tt) ;;
    emit MSTORE.

Definition MemoryItem_setToZero (m_dataType : Ty) (m_padded : bool)
    (_location : SourceLocation) (_removeReference : bool) : Gen unit :=
  solAssert _removeReference "" ;;
  append (pushZeroValue C m_dataType) ;;
  append (storeInMemoryDynamic C m_dataType m_padded) ;;
  emit POP.

(** *** [ImmutableItem] *)

Definition ImmutableItem_new (_variable : VariableDeclaration) : Gen LValue :=
  solAssert (immutable _variable) "" ;;
  ret (ImmutableItem (declType _variable) _variable).

Definition ImmutableItem_retrieveValue (m_dataType : Ty) (m_variable : VariableDeclaration)
    (_location : SourceLocation) (_remove : bool) : Gen unit :=
  solUnimplementedAssert (isValueType m_dataType) "" ;;
  c <- getContext ;;
  if runtimeContext c then
    off <- immutableMemoryOffset m_variable ;;
    append (loadFromMemory C (Word.u32 off) m_dataType false true)
  else
    forEach (immutableVariableSlotNames C m_variable)
      (fun slotName => emit (PushImmutable slotName)).

Definition ImmutableItem_storeValue (m_dataType : Ty) (m_variable : VariableDeclaration)
    (_sourceType : Ty) (_location : SourceLocation) (_move : bool) : Gen unit :=
  solUnimplementedAssert (isValueType m_dataType) "" ;;
  solAssert (isValueType _sourceType) "" ;;
  append (convertType C _sourceType m_dataType true false) ;;
  off <- immutableMemoryOffset m_variable ;;
  emit (Push off) ;;
  (if _move
   then moveIntoStack (sizeOnStack m_dataType) 1
   else copyToStackTop (Word.u32 (sizeOnStack m_dataType + 1)) (sizeOnStack m_dataType)) ;;
  append (storeInMemoryDynamic C m_dataType true) ;;
  emit POP.

Definition ImmutableItem_setToZero (m_dataType : Ty) (m_variable : VariableDeclaration)
    (_location : SourceLocation) (_removeReference : bool) : Gen unit :=
  solUnimplementedAssert (isValueType m_dataType) "" ;;
  solAssert _removeReference "" ;;
  off <- immutableMemoryOffset m_variable ;;
  emit (Push off) ;;
  append (pushZeroValue C m_dataType) ;;
  append (storeInMemoryDynamic C m_dataType true) ;;
  emit POP.

(** *** [StorageByteArrayElement] *)

Definition StorageByteArrayElement_retrieveValue
    (_location : SourceLocation) (_remove : bool) : Gen unit :=
  (if _remove
   then emitAll [Operation (SWAP 1); Operation SLOAD; Operation (SWAP 1); Operation BYTE]
   else emitAll [Operation (DUP 2); Operation SLOAD; Operation (DUP 2); Operation BYTE]) ;;
  emitAll [Push (Z.shiftl 1 (256 - 8)); Operation MUL].

Definition StorageByteArrayElement_storeValue
    (_sourceType : Ty) (_location : SourceLocation) (_move : bool) : Gen unit :=
  emitAll [Push 31; Operation SUB; Push 256; Operation EXP] ;;
  emitAll [Operation (DUP 2); Operation SLOAD] ;;
  emitAll [Operation (DUP 2); Push 255; Operation MUL; Operation NOT; Operation AND] ;;
  emit (SWAP 1) ;;
  emitAll [Push (Z.shiftl 1 (256 - 8)); Operation (DUP 5); Operation DIV;
           Operation MUL; Operation OR] ;;
  emitAll [Operation (SWAP 1); Operation SSTORE] ;;
  if _move then emit POP else ret tt.

Definition StorageByteArrayElement_setToZero
    (_location : SourceLocation) (_removeReference : bool) : Gen unit :=
  solAssert _removeReference "" ;;
  emitAll [Push 31; Operation SUB; Push 256; Operation EXP] ;;
  emitAll [Operation (DUP 2); Operation SLOAD] ;;
  emitAll [Operation (SWAP 1); Push 255; Operation MUL] ;;
  emitAll [Operation NOT; Operation AND] ;;
  emitAll [Operation (SWAP 1); Operation SSTORE].

(** *** [GenericStorageItem]: [StorageItem] and [TransientStorageItem] *)

(** [(u256(1) << (8 * bytes)) - 1] *)
Definition byteMask (bytes : Z) : Z :=
  Word.wrap (Word.wrap (Z.shiftl 1 (Word.u32 (8 * bytes))) - 1).

(** The assertions of the constructor that assumes the storage reference to
    be on the stack already. *)
Definition GenericStorageItem_check (_type : Ty) : Gen unit :=
  if isValueType _type then
    (if negb (Category_eqb (category _type) Function)
     then solAssert (storageSize _type =? sizeOnStack _type) ""
     else ret tt) ;;
    solAssert (storageSize _type =? 1) "Invalid storage size."
  else ret tt.

Definition GenericStorageItem_new (isTransient : bool) (_type : Ty) : Gen LValue :=
  GenericStorageItem_check _type ;;
  ret (GenericStorageItem isTransient _type).

(** The constructor that pushes the location of a declaration. *)
Definition GenericStorageItem_ofDeclaration (isTransient : bool)
    (_declaration : VariableDeclaration) : Gen LValue :=
  lv <- GenericStorageItem_new isTransient (declType _declaration) ;;
  solAssert (negb (immutable _declaration)) "" ;;
  c <- getContext ;;
  emit (Push (fst (storageLocationOfVariable c (declId _declaration)))) ;;
  emit (Push (snd (storageLocationOfVariable c (declId _declaration)))) ;;
  ret lv.

Definition GenericStorageItem_retrieveValue (isTransient : bool) (m_dataType : Ty)
    (_location : SourceLocation) (_remove : bool) : Gen unit :=
  if negb (isValueType m_dataType) then
    solUnimplementedAssert (negb isTransient)
      "Transient storage reference types are not supported yet." ;;
    solAssert (sizeOnStack m_dataType =? 1) "Invalid storage ref size." ;;
    if _remove then emit POP else emit (DUP 2)
  else
    (if negb _remove then copyToStackTop 2 2 else ret tt) ;;
    if storageBytes m_dataType =? 32 then
      emit POP ;; emit (m_loadInstruction isTransient)
    else
      type <- (if Category_eqb (category m_dataType) UserDefinedValueType
               then match encodingType m_dataType with
                    | Some t => ret t
                    | None => throw (InternalCompilerError "null encoding type")
                    end
               else ret m_dataType) ;;
      emitAll [Operation (SWAP 1); Operation SLOAD; Operation (SWAP 1);
               Push 256; Operation EXP; Operation (SWAP 1); Operation DIV] ;;
      cleaned <-
        (if Category_eqb (category type) FixedPoint then
           solUnimplemented "Not yet implemented - FixedPointType."
         else if Category_eqb (category type) Function then
           if FunctionKind_eqb (kind type) External then
             append (splitExternalFunctionType C false) ;;
             ret true
           else if FunctionKind_eqb (kind type) Internal then
             emit (DUP 1) ;; emit ISZERO ;;
             append (pushZeroValue C type) ;;
             emit MUL ;; emit OR ;;
             ret false
           else ret false
         else if leftAligned type then
           leftShiftNumberOnStack (Word.u32 (256 - 8 * storageBytes type)) ;;
           ret true
         else if Category_eqb (category type) Integer && isSigned type then
           emit (Push (Word.u32 (storageBytes type - 1))) ;; emit SIGNEXTEND ;;
           ret true
         else ret false) ;;
      if negb cleaned then
        solAssert (sizeOnStack type =? 1) "" ;;
        emit (Push (byteMask (storageBytes type))) ;; emit AND
      else ret tt.

Fixpoint GenericStorageItem_storeValue (isTransient : bool) (m_dataType : Ty)
    (_sourceType : Ty) (_location : SourceLocation) (_move : bool)
    {struct m_dataType} : Gen unit :=
  if isValueType m_dataType then
    solAssert (storageBytes m_dataType <=? 32) "Invalid storage bytes size." ;;
    solAssert (storageBytes m_dataType >? 0) "Invalid storage bytes size." ;;
    if storageBytes m_dataType =? 32 then
      solAssert (sizeOnStack m_dataType =? 1) "Invalid stack size." ;;
      emit POP ;;
      (if negb _move then emit (DUP 2) ;; emit (SWAP 1) else ret tt) ;;
      emit (SWAP 1) ;;
      append (convertType C _sourceType m_dataType true false) ;;
      emit (SWAP 1) ;;
      emit (m_storeInstruction isTransient)
    else
      emitAll [Push 256; Operation EXP] ;;
      emitAll [Operation (DUP 2); Operation (m_loadInstruction isTransient)] ;;
      emitAll [Operation (DUP 2); Push (byteMask (storageBytes m_dataType));
               Operation MUL] ;;
      emitAll [Operation NOT; Operation AND; Operation (SWAP 1)] ;;
      copyToStackTop (Word.u32 (3 + sizeOnStack m_dataType)) (sizeOnStack m_dataType) ;;
      (if Category_eqb (category m_dataType) Function then
         solAssert (isImplicitlyConvertibleTo C _sourceType m_dataType)
           "function item stored but target is not implicitly convertible to source" ;;
         solAssert (negb (hasBoundFirstArgument m_dataType)) "" ;;
         if FunctionKind_eqb (kind m_dataType) External then
           solAssert (sizeOnStack m_dataType =? 2) "" ;;
           append (combineExternalFunctionType C false)
         else
           solAssert (sizeOnStack m_dataType =? 1) "" ;;
           emit (Push (byteMask (storageBytes m_dataType))) ;; emit AND
       else if leftAligned m_dataType then
         solAssert
           (Category_eqb (category _sourceType) FixedBytes ||
            match encodingType _sourceType with
            | Some e => Category_eqb (category e) FixedBytes
            | None => false
            end) "source not fixed bytes" ;;
         rightShiftNumberOnStack (Word.u32 (256 - 8 * storageBytes m_dataType))
       else
         solAssert (sizeOnStack m_dataType =? 1) "Invalid stack size for opaque type." ;;
         append (convertType C _sourceType m_dataType true true)) ;;
      emitAll [Operation MUL; Operation OR] ;;
      emitAll [Operation (SWAP 1); Operation (m_storeInstruction isTransient)] ;;
      if _move then popStackElement m_dataType else ret tt
  else
    solUnimplementedAssert (negb isTransient)
      "Transient storage reference types are not supported yet." ;;
    solAssert (Category_eqb (category _sourceType) (category m_dataType))
      "Wrong type conversation for assignment." ;;
    if Category_eqb (category m_dataType) Array then
      emit POP ;;
      append (copyArrayToStorage C m_dataType _sourceType) ;;
      if _move then emit POP else ret tt
    else if Category_eqb (category m_dataType) Struct then
      emit POP ;;
      solAssert (structDefinition m_dataType =? structDefinition _sourceType)
        "Struct assignment with conversion." ;;
      solAssert (negb (containsNestedMapping m_dataType)) "" ;;
      (if DataLocation_eqb (location _sourceType) CallData then
         solAssert (sizeOnStack _sourceType =? 1) "" ;;
         solAssert (sizeOnStack m_dataType =? 1) "" ;;
         emit (DUP 2) ;; emit (DUP 2) ;;
         append (callUpdateStorageValueFunction C _sourceType m_dataType)
       else
         (fix assignMembers (ms : list (string * Ty)) : Gen unit :=
            match ms with
            | [] => ret tt
            | (name, memberTy) :: rest =>
                solAssert (nameable memberTy) "" ;;
                sourceMemberType <-
                  match memberType _sourceType name with
                  | Some t => ret t
                  | None => throw (InternalCompilerError "null member type")
                  end ;;
                (if DataLocation_eqb (location _sourceType) Storage then
                   emitAll [Push (fst (storageOffsetsOfMember _sourceType name));
                            Operation (DUP 3); Operation ADD] ;;
                   emit (Push (snd (storageOffsetsOfMember _sourceType name))) ;;
                   GenericStorageItem_check sourceMemberType ;;
                   GenericStorageItem_retrieveValue false sourceMemberType _location true
                 else
                   solAssert (DataLocation_eqb (location _sourceType) Memory) "" ;;
                   emit (Push (memoryOffsetOfMember _sourceType name)) ;;
                   emit (DUP 3) ;; emit ADD ;;
                   MemoryItem_retrieveValue sourceMemberType true _location true) ;;
                emitDup (Word.u32 (1 + sizeOnStack sourceMemberType)) ;;
                emit (Push (fst (storageOffsetsOfMember m_dataType name))) ;;
                emit ADD ;;
                emit (Push (snd (storageOffsetsOfMember m_dataType name))) ;;
                GenericStorageItem_check memberTy ;;
                GenericStorageItem_storeValue false memberTy sourceMemberType _location true ;;
                assignMembers rest
            end) (members m_dataType)) ;;
      solAssert (sizeOnStack _sourceType =? 1) "Unexpected source size." ;;
      if _move then popStackSlots 2 else emit (SWAP 1) ;; emit POP
    else
      solAssert false "Invalid non-value type for assignment.".

Fixpoint GenericStorageItem_setToZero (isTransient : bool) (m_dataType : Ty)
    (_location : SourceLocation) (_removeReference : bool)
    {struct m_dataType} : Gen unit :=
  if Category_eqb (category m_dataType) Array then
    (if negb _removeReference then copyToStackTop 2 2 else ret tt) ;;
    append (clearArray C m_dataType)
  else if Category_eqb (category m_dataType) Struct then
    (fix zeroMembers (ms : list (string * Ty)) : Gen unit :=
       match ms with
       | [] => ret tt
       | (name, memberTy) :: rest =>
           if Category_eqb (category memberTy) Mapping then zeroMembers rest
           else
             emitAll [Push (fst (storageOffsetsOfMember m_dataType name));
                      Operation (DUP 3); Operation ADD;
                      Push (snd (storageOffsetsOfMember m_dataType name))] ;;
             GenericStorageItem_check memberTy ;;
             GenericStorageItem_setToZero false memberTy noLocation true ;;
             zeroMembers rest
       end) (members m_dataType) ;;
    if _removeReference then emit POP ;; emit POP else ret tt
  else
    solAssert (isValueType m_dataType)
      (String.append "Clearing of unsupported type requested: " (toString C m_dataType)) ;;
    (if negb _removeReference then copyToStackTop 2 2 else ret tt) ;;
    if storageBytes m_dataType =? 32 then
      emitAll [Operation POP; Push 0; Operation (SWAP 1);
               Operation (m_storeInstruction isTransient)]
    else
      emitAll [Push 256; Operation EXP] ;;
      emitAll [Operation (DUP 2); Operation (m_loadInstruction isTransient)] ;;
      emitAll [Operation (SWAP 1); Push (byteMask (storageBytes m_dataType));
               Operation MUL] ;;
      emitAll [Operation NOT; Operation AND] ;;
      emitAll [Operation (SWAP 1); Operation (m_storeInstruction isTransient)].

(** *** [TupleObject] and the virtual dispatch of [LValue] *)

Definition LValue_retrieveValue (lv : LValue)
    (_location : SourceLocation) (_remove : bool) : Gen unit :=
  match lv with
  | StackVariable _ base size => StackVariable_retrieveValue base size _location _remove
  | MemoryItem t padded => MemoryItem_retrieveValue t padded _location _remove
  | GenericStorageItem tr t => GenericStorageItem_retrieveValue tr t _location _remove
  | ImmutableItem t v => ImmutableItem_retrieveValue t v _location _remove
  | StorageByteArrayElement => StorageByteArrayElement_retrieveValue _location _remove
  | TupleObject _ => solAssert false "Tried to retrieve value of tuple."
  end.

Definition LValue_setToZero (lv : LValue)
    (_location : SourceLocation) (_removeReference : bool) : Gen unit :=
  match lv with
  | StackVariable t base size => StackVariable_setToZero t base size _location _removeReference
  | MemoryItem t padded => MemoryItem_setToZero t padded _location _removeReference
  | GenericStorageItem tr t => GenericStorageItem_setToZero tr t _location _removeReference
  | ImmutableItem t v => ImmutableItem_setToZero t v _location _removeReference
  | StorageByteArrayElement => StorageByteArrayElement_setToZero _location _removeReference
  | TupleObject _ => solAssert false "Tried to delete tuple."
  end.

(** One turn of the loop of [TupleObject::storeValue], for the pair at one
    index; [store] is the virtual call [lvalue->storeValue]. *)
Definition TupleObject_assign (store : Ty -> SourceLocation -> bool -> Gen unit)
    (refSize : Z) (lvaluePresent : bool) (valType : option Ty)
    (_location : SourceLocation) (valuePos : Z) : Gen Z :=
  stackHeight0 <- stackHeight ;;
  solAssert
    (Bool.eqb (negb match valType with Some _ => true | None => false end)
              (negb lvaluePresent)) "" ;;
  if negb lvaluePresent then ret valuePos
  else
    match valType with
    | None => throw (InternalCompilerError "null value type")
    | Some vt =>
        let valuePos1 := Word.u32 (valuePos + sizeOnStack vt) in
        copyToStackTop valuePos1 (sizeOnStack vt) ;;
        moveToStackTop (sizeOnStack vt) refSize ;;
        store vt _location true ;;
        stackHeight1 <- stackHeight ;;
        ret (Word.u32 (valuePos1 + Word.u32 (stackHeight1 - stackHeight0)))
    end.

Fixpoint LValue_storeValue (lv : LValue) (_sourceType : Ty)
    (_location : SourceLocation) (_move : bool) {struct lv} : Gen unit :=
  match lv with
  | StackVariable _ base size => StackVariable_storeValue base size _sourceType _location _move
  | MemoryItem t padded => MemoryItem_storeValue t padded _sourceType _location _move
  | GenericStorageItem tr t => GenericStorageItem_storeValue tr t _sourceType _location _move
  | ImmutableItem t v => ImmutableItem_storeValue t v _sourceType _location _move
  | StorageByteArrayElement => StorageByteArrayElement_storeValue _sourceType _location _move
  | TupleObject m_lvalues =>
      (if Category_eqb (category _sourceType) Tuple then ret tt else throw BadCast) ;;
      let valueTypes := components _sourceType in
      solAssert (Nat.eqb (List.length valueTypes) (List.length m_lvalues)) "" ;;
      (* the pair at the highest index is assigned first *)
      (fix assign (lvs : list (option LValue)) (tys : list (option Ty))
           (valuePos : Z) {struct lvs} : Gen Z :=
         match lvs, tys with
         | lvalue :: lvs', valType :: tys' =>
             valuePos' <- assign lvs' tys' valuePos ;;
             match lvalue with
             | Some l =>
                 TupleObject_assign (LValue_storeValue l) (LValue_sizeOnStack l)
                   true valType _location valuePos'
             | None =>
                 TupleObject_assign (fun _ _ _ => ret tt) 0
                   false valType _location valuePos'
             end
         | _, _ => ret valuePos
         end) m_lvalues valueTypes (LValue_sizeOnStack (TupleObject m_lvalues)) ;;
      popStackElement _sourceType
  end.

End LocationValues.

(** ** Running a generator *)

(** The context after [code] has been appended to it. *)
Definition appended (c : CompilerContext) (code : list AssemblyItem) : CompilerContext :=
  mkContext (assembly c ++ code)
    (fold_left (fun d it => d + itemDeposit it) code (deposit c))
    (runtimeContext c) (hasBitwiseShifting c)
    (baseStackOffsetOfVariable c) (storageLocationOfVariable c)
    (immutableVariables c).

(** [generates g c code]: run in the context [c], the generator [g] returns
    normally, having appended exactly [code]. *)
Definition generates (g : Gen unit) (c : CompilerContext) (code : list AssemblyItem) : Prop :=
  g c = OK (tt, appended c code).

(** [fails g c e]: run in the context [c], the generator [g] raises [e]. *)
Definition fails {A} (g : Gen A) (c : CompilerContext) (e : Exception) : Prop :=
  g c = Throw e.

(** The items a generator appends to a context, or the exception it raises. *)
Definition codeOf (g : Gen unit) (c : CompilerContext) : Result (list AssemblyItem) :=
  match g c with
  | OK (_, c') => OK (skipn (List.length (assembly c)) (assembly c'))
  | Throw e => Throw e
  end.

(** ** Vocabulary of the statements *)

(** [size] copies of [DUP d], and [size] times [SWAP d; POP]. *)
Definition dups (d size : Z) : list AssemblyItem :=
  repeat (Operation (DUP d)) (Z.to_nat size).

Definition swapPops (d size : Z) : list AssemblyItem :=
  List.concat (repeat [Operation (SWAP d); Operation POP] (Z.to_nat size)).

(** The distance from the top of the stack that a stack-resident access
    addresses when the tracked height is [deposit c]: a read duplicates the
    slot at base offset [base]; a write swaps the top, where the [size] slots
    of the new value lie, with the slot [size] deeper than that. *)
Definition retrieveDistance (c : CompilerContext) (base : Z) : Z :=
  deposit c - base.

Definition storeDistance (c : CompilerContext) (base size : Z) : Z :=
  deposit c - base - size.

(** The code of the stack utilities. *)
Definition rotateStackUpCode (items : Z) : list AssemblyItem :=
  map (fun i => Operation (SWAP (items - Z.of_nat i))) (seq 1 (Z.to_nat (items - 1))).

Definition rotateStackDownCode (items : Z) : list AssemblyItem :=
  map (fun i => Operation (SWAP (Z.of_nat i))) (seq 1 (Z.to_nat (items - 1))).

Definition moveIntoStackCode (depth size : Z) : list AssemblyItem :=
  if depth <=? size
  then List.concat (repeat (rotateStackDownCode (depth + size)) (Z.to_nat depth))
  else List.concat (repeat (rotateStackUpCode (depth + size)) (Z.to_nat size)).

Definition pops (n : Z) : list AssemblyItem := repeat (Operation POP) (Z.to_nat n).

(** The stack deposit of a piece of code. *)
Definition depositOf (code : list AssemblyItem) : Z :=
  fold_left (fun d it => d + itemDeposit it) code 0.

(** The pieces of code of the packed storage codec. *)
Definition storePrefix (isTransient : bool) (w : Z) : list AssemblyItem :=
  [Push 256; Operation EXP; Operation (DUP 2); Operation (m_loadInstruction isTransient);
   Operation (DUP 2); Push (byteMask w); Operation MUL;
   Operation NOT; Operation AND; Operation (SWAP 1)].

Definition storeSuffix (isTransient : bool) : list AssemblyItem :=
  [Operation MUL; Operation OR; Operation (SWAP 1);
   Operation (m_storeInstruction isTransient)].

Definition packedStoreCode (isTransient : bool) (w n : Z) (align : list AssemblyItem)
    (move : bool) : list AssemblyItem :=
  storePrefix isTransient w ++ dups (3 + n) n ++ align ++ storeSuffix isTransient
  ++ (if move then pops n else []).

Definition fullStoreCode (isTransient : bool) (convert : list AssemblyItem)
    (move : bool) : list AssemblyItem :=
  [Operation POP] ++ (if move then [] else [Operation (DUP 2); Operation (SWAP 1)])
  ++ [Operation (SWAP 1)] ++ convert
  ++ [Operation (SWAP 1); Operation (m_storeInstruction isTransient)].

Definition zeroCode (isTransient : bool) (w : Z) : list AssemblyItem :=
  if w =? 32 then
    [Operation POP; Push 0; Operation (SWAP 1); Operation (m_storeInstruction isTransient)]
  else
    [Push 256; Operation EXP; Operation (DUP 2); Operation (m_loadInstruction isTransient);
     Operation (SWAP 1); Push (byteMask w); Operation MUL; Operation NOT; Operation AND;
     Operation (SWAP 1); Operation (m_storeInstruction isTransient)].

(** The copy of the two addressing operands that a non-removing operation
    of a storage item starts with. *)
Definition duplicateOperands (remove : bool) : list AssemblyItem :=
  if remove then [] else dups 2 2.

Definition retrievePrefix : list AssemblyItem :=
  [Operation (SWAP 1); Operation SLOAD; Operation (SWAP 1); Push 256; Operation EXP;
   Operation (SWAP 1); Operation DIV].

Definition leftShiftCode (shifting : bool) (bits : Z) : list AssemblyItem :=
  if shifting then [Push bits; Operation SHL]
  else [Push (Z.shiftl 1 bits); Operation MUL].

Definition rightShiftCode (shifting : bool) (bits : Z) : list AssemblyItem :=
  if shifting then [Push bits; Operation SHR]
  else [Push (Z.shiftl 1 bits); Operation (SWAP 1); Operation DIV].

(** The storage the variant addresses, and the state after a store to it. *)
Definition slots (isTransient : bool) (s : EVM.State) : Z -> Z :=
  if isTransient then EVM.transient s else EVM.storage s.

Definition withSlot (isTransient : bool) (st : list Z) (s : EVM.State) (key v : Z) : EVM.State :=
  if isTransient
  then EVM.mkState st (EVM.storage s) (EVM.upd (EVM.transient s) key v)
  else EVM.mkState st (EVM.upd (EVM.storage s) key v) (EVM.transient s).

Definition withStack (st : list Z) (s : EVM.State) : EVM.State :=
  EVM.mkState st (EVM.storage s) (EVM.transient s).

(** The byte window of a packed field: [w] bytes from byte offset [o]. *)
Definition windowMask (w o : Z) : Z := Z.shiftl (Z.ones (8 * w)) (8 * o).

(** The claimed effect of a packed write: the window is cleared by AND with
    the complement of its mask, and the aligned value [x] is ORed in. *)
Definition replaceWindow (w o old x : Z) : Z :=
  Z.lor (Z.land old (Word.bitnot (windowMask w o))) (Z.shiftl x (8 * o)).

Definition inWindow (w o n : Z) : bool := (8 * o <=? n) && (n <? 8 * (o + w)).

(** The word the emitted code computes for a packed write. *)
Definition packed (w o old x : Z) : Z :=
  Z.lor (Word.mul x (Word.exp 256 o))
        (Z.land (Word.bitnot (Word.mul (byteMask w) (Word.exp 256 o))) old).

(** The [w] bytes of [word] that start at byte offset [o], counted from the
    least significant byte. *)
Definition field (w o word : Z) : Z := (word / 256 ^ o) mod 256 ^ w.

(** Values as they lie on the stack: a signed integer of [w] bytes is sign
    extended, a left-aligned value of [w] bytes has its low bytes zero, and
    any other value of [w] bytes is below [2^(8w)]. *)
Definition isSignedValue (w v : Z) : Prop :=
  Word.isWord v /\ Word.signextend (w - 1) v = v.

Definition isLeftAlignedValue (w v : Z) : Prop :=
  Word.isWord v /\ v mod 2 ^ (256 - 8 * w) = 0.

Definition isUnsignedValue (w v : Z) : Prop := 0 <= v < 2 ^ (8 * w).

(** What a piece of collaborator code does to the top of the stack: it
    replaces the top [n] slots by the one word [f] of them and touches
    nothing else. *)
Definition computes (code : list AssemblyItem) (n : nat) (f : list Z -> Z) : Prop :=
  forall (vs rest : list Z) (s : EVM.State),
    List.length vs = n -> Forall Word.isWord vs ->
    EVM.exec code (withStack (vs ++ rest) s) = Some (withStack (f vs :: rest) s).

(** The type whose encoding [retrieveValue] reads: the underlying type of a
    user-defined value type, the type itself otherwise. *)
Definition readType (ty : Ty) : option Ty :=
  if Category_eqb (category ty) UserDefinedValueType then encodingType ty else Some ty.

(** How [storeValue] brings the value into the byte window of a packed
    field of [w] bytes, by the case of the target type [ty] that the code
    distinguishes: for a value that takes [n] stack slots the code [align] is
    emitted, and it computes the word [f] of those slots.  The two routines
    of collaborators come with what they are relied on for: the conversion
    removes the higher-order bits, and the combination of an external function
    yields a word that fits the field. *)
Inductive PackedAlignment (C : Collaborators) (ty src : Ty) (w : Z) (shifting : bool) :
    nat -> list AssemblyItem -> (list Z -> Z) -> Prop :=
| AlignExternalFunction (combine : list AssemblyItem) (f : list Z -> Z) :
    Category_eqb (category ty) Function = true ->
    FunctionKind_eqb (kind ty) External = true ->
    sizeOnStack ty = 2 ->
    isImplicitlyConvertibleTo C src ty = true ->
    hasBoundFirstArgument ty = false ->
    combineExternalFunctionType C false = OK combine ->
    computes combine 2 f ->
    (forall vs, 0 <= f vs < 2 ^ (8 * w)) ->
    PackedAlignment C ty src w shifting 2 combine f
| AlignFunction :
    Category_eqb (category ty) Function = true ->
    FunctionKind_eqb (kind ty) External = false ->
    sizeOnStack ty = 1 ->
    isImplicitlyConvertibleTo C src ty = true ->
    hasBoundFirstArgument ty = false ->
    PackedAlignment C ty src w shifting 1
      [Push (byteMask w); Operation AND]
      (fun vs => Z.land (byteMask w) (hd 0 vs))
| AlignLeft :
    Category_eqb (category ty) Function = false ->
    leftAligned ty = true ->
    sizeOnStack ty = 1 ->
    (Category_eqb (category src) FixedBytes ||
     match encodingType src with
     | Some e => Category_eqb (category e) FixedBytes
     | None => false
     end) = true ->
    PackedAlignment C ty src w shifting 1
      (rightShiftCode shifting (256 - 8 * w))
      (fun vs => Z.shiftr (hd 0 vs) (256 - 8 * w))
| AlignRight (convert : list AssemblyItem) :
    Category_eqb (category ty) Function = false ->
    leftAligned ty = false ->
    sizeOnStack ty = 1 ->
    convertType C src ty true true = OK convert ->
    computes convert 1 (fun vs => hd 0 vs mod 2 ^ (8 * w)) ->
    PackedAlignment C ty src w shifting 1 convert (fun vs => hd 0 vs mod 2 ^ (8 * w)).

(** A packed field of [w] bytes at byte offset [o] of a word. *)
Definition packedField (w o : Z) : Prop := 0 < w < 32 /\ 0 <= o /\ o + w <= 32.

(** [new] differs from [old] only within the window: every bit outside it,
    and so every field at a disjoint byte range, is unchanged. *)
Definition onlyWindowChanged (w o old new : Z) : Prop :=
  (forall n, 0 <= n -> inWindow w o n = false -> Z.testbit new n = Z.testbit old n)
  /\ (forall w' o', 0 <= w' -> 0 <= o' -> o' + w' <= o \/ o + w <= o' ->
        field w' o' new = field w' o' old).

(** A value [v] as it lies on the stack for a type [t] of [w] bytes. *)
Definition isValueOf (t : Ty) (w v : Z) : Prop :=
  if leftAligned t then isLeftAlignedValue w v
  else if Category_eqb (category t) Integer && isSigned t then isSignedValue w v
  else isUnsignedValue w v.

(** The round trip through persistent storage: [storeValue] generates code
    in the context [c] and [retrieveValue] in the context [c'], and on any
    machine state the store of [v] at [(key, o)] followed, once the addressing
    operands are pushed again, by the retrieval pushes [v]. *)
Definition roundTrip (C : Collaborators) (ty : Ty) (o key v : Z) (move remove : bool)
    (c c' : CompilerContext) : Prop :=
  exists codeS codeR,
    generates (LValue_storeValue C (GenericStorageItem false ty) ty noLocation move) c codeS
    /\ generates (LValue_retrieveValue C (GenericStorageItem false ty) noLocation remove) c' codeR
    /\ forall (rest : list Z) (s : EVM.State),
         Word.isWord (EVM.storage s key) ->
         exists s1,
           EVM.exec codeS (withStack (o :: key :: v :: rest) s) = Some s1
           /\ EVM.stack s1 = (if move then rest else v :: rest)
           /\ EVM.exec codeR (withStack (o :: key :: EVM.stack s1) s1)
              = Some (withStack
                        (v :: (if remove then [] else [o; key]) ++ EVM.stack s1) s1).

(** The value types that are stored through the conversion alone and read
    without a branch of their own: types of one stack slot other than function
    types and fixed-point types, a user-defined value type being stored like
    the type [t] it is read as. *)
Definition RoundTripType (ty t : Ty) (w : Z) : Prop :=
  isValueType ty = true /\ readType ty = Some t
  /\ storageBytes ty = w /\ storageBytes t = w
  /\ sizeOnStack ty = 1 /\ sizeOnStack t = 1
  /\ leftAligned t = leftAligned ty
  /\ Category_eqb (category ty) Function = false
  /\ Category_eqb (category t) Function = false
  /\ Category_eqb (category t) FixedPoint = false.

(** A piece of code that pushes the word [z] and touches nothing else. *)
Definition pushes (code : list AssemblyItem) (z : Z) : Prop :=
  forall (st : list Z) (s : EVM.State),
    EVM.exec code (withStack st s) = Some (withStack (z :: st) s).

(** A value type [ty] of one stack slot and [w] bytes of storage, with the
    type [t] it is read as.  A user-defined value type is stored by its own
    alignment and read by that of its underlying type, which agree, and it
    never wraps a function type: for such a type [t] is the type itself. *)
Definition StoredValueType (ty t : Ty) (w : Z) : Prop :=
  isValueType ty = true /\ readType ty = Some t
  /\ storageBytes ty = w /\ storageBytes t = w
  /\ sizeOnStack ty = 1 /\ sizeOnStack t = 1
  /\ leftAligned t = leftAligned ty
  /\ Category_eqb (category t) Function = Category_eqb (category ty) Function.

Definition isInternalFunction (t : Ty) : bool :=
  Category_eqb (category t) Function && FunctionKind_eqb (kind t) Internal.

(** A value [v] of the type [t] of [w] bytes as [storeValue] finds it on the
    stack.  A function value of one slot is a word of [w] bytes, whatever the
    alignment of its type, since both operations take the function branch
    first. *)
Definition isStoredValue (t : Ty) (w v : Z) : Prop :=
  if Category_eqb (category t) Function then isUnsignedValue w v else isValueOf t w v.

(** The code of a write to, and of the zeroing of, a byte-array element. *)
Definition byteStoreCode (mv : bool) : list AssemblyItem :=
  [Push 31; Operation SUB; Push 256; Operation EXP;
   Operation (DUP 2); Operation SLOAD;
   Operation (DUP 2); Push 255; Operation MUL; Operation NOT; Operation AND;
   Operation (SWAP 1);
   Push (Z.shiftl 1 (256 - 8)); Operation (DUP 5); Operation DIV;
   Operation MUL; Operation OR;
   Operation (SWAP 1); Operation SSTORE]
  ++ (if mv then [Operation POP] else []).

Definition byteZeroCode : list AssemblyItem :=
  [Push 31; Operation SUB; Push 256; Operation EXP;
   Operation (DUP 2); Operation SLOAD;
   Operation (SWAP 1); Push 255; Operation MUL;
   Operation NOT; Operation AND;
   Operation (SWAP 1); Operation SSTORE].

(** A type with its member list replaced, and a member list without its
    mapping-typed members. *)
Definition withMembers (t : Ty) (ms : list (string * Ty)) : Ty :=
  mkType (category t) (isValueType t) (storageBytes t) (storageSize t) (sizeOnStack t)
    (leftAligned t) (isSigned t) (kind t) (hasBoundFirstArgument t) (nameable t)
    (calldataEncodedSize t) (encodingType t) (location t) (structDefinition t)
    (containsNestedMapping t) ms (storageOffsetsOfMember t) (memoryOffsetOfMember t)
    (components t).

Definition isMappingMember (m : string * Ty) : bool :=
  Category_eqb (category (snd m)) Mapping.

Definition withoutMappings (ms : list (string * Ty)) : list (string * Ty) :=
  filter (fun m => negb (isMappingMember m)) ms.

(** A generator that raises an exception in every context. *)
Definition neverGenerates {A} (g : Gen A) : Prop :=
  forall c, exists e, g c = Throw e.

(** The loops of [setToZero] and of [storeValue] over the members of a
    struct [owner], named so that facts about them can be stated. *)
Definition zeroMembers (C : Collaborators) (owner : Ty) : list (string * Ty) -> Gen unit :=
  fix zeroMembers (ms : list (string * Ty)) : Gen unit :=
  match ms with
  | [] => ret tt
  | (name, memberTy) :: rest =>
      if Category_eqb (category memberTy) Mapping then zeroMembers rest
      else
        emitAll [Push (fst (storageOffsetsOfMember owner name));
                 Operation (DUP 3); Operation ADD;
                 Push (snd (storageOffsetsOfMember owner name))] ;;
        GenericStorageItem_check memberTy ;;
        GenericStorageItem_setToZero C false memberTy noLocation true ;;
        zeroMembers rest
  end.

Definition assignMembers (C : Collaborators) (owner _sourceType : Ty)
    (_location : SourceLocation) : list (string * Ty) -> Gen unit :=
  fix assignMembers (ms : list (string * Ty)) : Gen unit :=
  match ms with
  | [] => ret tt
  | (name, memberTy) :: rest =>
      solAssert (nameable memberTy) "" ;;
      sourceMemberType <-
        match memberType _sourceType name with
        | Some t => ret t
        | None => throw (InternalCompilerError "null member type")
        end ;;
      (if DataLocation_eqb (location _sourceType) Storage then
         emitAll [Push (fst (storageOffsetsOfMember _sourceType name));
                  Operation (DUP 3); Operation ADD] ;;
         emit (Push (snd (storageOffsetsOfMember _sourceType name))) ;;
         GenericStorageItem_check sourceMemberType ;;
         GenericStorageItem_retrieveValue C false sourceMemberType _location true
       else
         solAssert (DataLocation_eqb (location _sourceType) Memory) "" ;;
         emit (Push (memoryOffsetOfMember _sourceType name)) ;;
         emit (DUP 3) ;; emit ADD ;;
         MemoryItem_retrieveValue C sourceMemberType true _location true) ;;
      emitDup (Word.u32 (1 + sizeOnStack sourceMemberType)) ;;
      emit (Push (fst (storageOffsetsOfMember owner name))) ;;
      emit ADD ;;
      emit (Push (snd (storageOffsetsOfMember owner name))) ;;
      GenericStorageItem_check memberTy ;;
      GenericStorageItem_storeValue C false memberTy sourceMemberType _location true ;;
      assignMembers rest
  end.

(** A member list with a mapping-typed member; a mapping is no value type. *)
Definition hasMappingMember (ms : list (string * Ty)) : Prop :=
  exists name m, In (name, m) ms
                 /\ Category_eqb (category m) Mapping = true /\ isValueType m = false.

(** The member-wise zeroing of a struct in storage: a member that
    [setToZero] clears as a value of its own slot or of a byte window of a
    slot, the code emitted for it, what that code stores, and the bits of the
    slot with key [k] that the members [ms] of a struct at [key] cover. *)
Definition plainMember (owner : Ty) (m : string * Ty) : Prop :=
  isValueType (snd m) = true
  /\ Category_eqb (category (snd m)) Mapping = false
  /\ Category_eqb (category (snd m)) Array = false
  /\ Category_eqb (category (snd m)) Struct = false
  /\ (Category_eqb (category (snd m)) Function = false ->
      storageSize (snd m) = sizeOnStack (snd m))
  /\ storageSize (snd m) = 1
  /\ (storageBytes (snd m) = 32
      \/ packedField (storageBytes (snd m)) (snd (storageOffsetsOfMember owner (fst m)))).

Definition zeroMemberCode (owner : Ty) (m : string * Ty) : list AssemblyItem :=
  [Push (fst (storageOffsetsOfMember owner (fst m))); Operation (DUP 3); Operation ADD;
   Push (snd (storageOffsetsOfMember owner (fst m)))]
  ++ zeroCode false (storageBytes (snd m)).

Definition memberSlot (owner : Ty) (key : Z) (m : string * Ty) : Z :=
  Word.add key (fst (storageOffsetsOfMember owner (fst m))).

Definition zeroMemberStorage (owner : Ty) (key : Z) (sto : Z -> Z) (m : string * Ty) : Z -> Z :=
  EVM.upd sto (memberSlot owner key m)
    (if storageBytes (snd m) =? 32 then 0
     else packed (storageBytes (snd m)) (snd (storageOffsetsOfMember owner (fst m)))
            (sto (memberSlot owner key m)) 0).

Definition memberCovers (owner : Ty) (key : Z) (ms : list (string * Ty)) (k n : Z) : bool :=
  existsb (fun m => (k =? memberSlot owner key m)
                    && ((storageBytes (snd m) =? 32)
                        || inWindow (storageBytes (snd m))
                             (snd (storageOffsetsOfMember owner (fst m))) n)) ms.

(** The loop of [TupleObject::storeValue], named so that facts about it can
    be stated, and whether a pointer is non-null. *)
Definition present {A} (o : option A) : bool :=
  match o with Some _ => true | None => false end.

Definition tupleAssign (C : Collaborators) (_location : SourceLocation) :
    list (option LValue) -> list (option Ty) -> Z -> Gen Z :=
  fix assign (lvs : list (option LValue)) (tys : list (option Ty))
      (valuePos : Z) {struct lvs} : Gen Z :=
  match lvs, tys with
  | lvalue :: lvs', valType :: tys' =>
      valuePos' <- assign lvs' tys' valuePos ;;
      match lvalue with
      | Some l =>
          TupleObject_assign (LValue_storeValue C l) (LValue_sizeOnStack l)
            true valType _location valuePos'
      | None =>
          TupleObject_assign (fun _ _ _ => ret tt) 0
            false valType _location valuePos'
      end
  | _, _ => ret valuePos
  end.

(** The addressing operands of the members of a tuple that are present,
    counted without the wrap-around of [TupleObject::sizeOnStack]. *)
Fixpoint operandSlots (lvs : list (option LValue)) : Z :=
  match lvs with
  | [] => 0
  | Some l :: rest => LValue_sizeOnStack l + operandSlots rest
  | None :: rest => operandSlots rest
  end.

(** A destination whose [storeValue], asked to move, takes a value of the
    type [vt] and its own addressing operands off the tracked stack, in every
    context whose height lies above [floor] and below [2^32]. *)
Definition consumesValue (C : Collaborators) (loc : SourceLocation) (floor : Z)
    (l : LValue) (vt : Ty) : Prop :=
  forall c0 c1, floor < deposit c0 < 2 ^ 32 ->
    LValue_storeValue C l vt loc true c0 = OK (tt, c1) ->
    deposit c1 = deposit c0 - sizeOnStack vt - LValue_sizeOnStack l.

(** The pairs of a tuple assignment begun at the height [top]: what is
    present on either side is present on both, takes at least one slot, and is
    consumed by its destination. *)
Definition pairConsumed (C : Collaborators) (loc : SourceLocation) (floor top : Z)
    (lv : option LValue) (t : option Ty) : Prop :=
  match lv, t with
  | Some l, Some vt =>
      0 < sizeOnStack vt /\ top + sizeOnStack vt < 2 ^ 32 /\ consumesValue C loc floor l vt
  | _, _ => True
  end.

(** ** The driver of contract compilation

    [Compiler::compileContract] of [libsolidity/codegen/Compiler.cpp].  A
    state variable is a declaration with its reference location; the list of
    state variables of a contract holds pointers, which may be null. *)
Module Location.
Inductive t : Type := Unspecified | Storage | Transient | Memory | CallData.

Definition eqb (a b : t) : bool :=
  match a, b with
  | Unspecified, Unspecified | Storage, Storage | Transient, Transient
  | Memory, Memory | CallData, CallData => true
  | _, _ => false
  end.
End Location.

Record StateVariableDeclaration : Type := mkStateVariable {
  variable : VariableDeclaration;
  referenceLocation : Location.t
}.

Record ContractDefinition : Type := mkContract {
  stateVariables : list (option StateVariableDeclaration)
}.

(** The parts of the compiler that are not under src/, as they act on the
    state [S] of a [Compiler] (its creation context, its runtime context and
    its runtime sub-assembly): the two [ContractCompiler]s, the auxiliary data
    and the optimiser of [CompilerContext], and the two flags
    [appendYulUtilityFunctionsRan].  [O] is the map of the other compilers. *)
Record ContractCompiler (S O : Type) : Type := mkContractCompiler {
  runtimeCompiler_compileContract : ContractDefinition -> O -> S -> Result S;
  appendToAuxiliaryData : list Z -> S -> S;
  creationCompiler_compileConstructor : ContractDefinition -> O -> S -> Result S;
  optimise : S -> Result S;
  context_appendYulUtilityFunctionsRan : S -> bool;
  runtimeContext_appendYulUtilityFunctionsRan : S -> bool
}.
Arguments runtimeCompiler_compileContract {S O}.
Arguments appendToAuxiliaryData {S O}.
Arguments creationCompiler_compileConstructor {S O}.
Arguments optimise {S O}.
Arguments context_appendYulUtilityFunctionsRan {S O}.
Arguments runtimeContext_appendYulUtilityFunctionsRan {S O}.

Definition andThen {A B} (r : Result A) (k : A -> Result B) : Result B :=
  match r with
  | OK a => k a
  | Throw e => Throw e
  end.

Definition assertThat (cond : bool) (e : Exception) : Result unit :=
  if cond then OK tt else Throw e.

(** The lambda [notTransient], and [ranges::all_of], which stops at the
    first element that does not satisfy the predicate. *)
Definition notTransient (_varDeclaration : option StateVariableDeclaration) : Result bool :=
  andThen (assertThat (present _varDeclaration) (InternalCompilerError ""))
    (fun _ =>
       match _varDeclaration with
       | Some v => OK (negb (Location.eqb (referenceLocation v) Location.Transient))
       | None => OK true
       end).

Fixpoint all_of {A} (l : list A) (p : A -> Result bool) : Result bool :=
  match l with
  | [] => OK true
  | a :: rest =>
      andThen (p a) (fun holds => if holds then all_of rest p else OK false)
  end.

Definition Compiler_compileContract {S O} (K : ContractCompiler S O)
    (_contract : ContractDefinition) (_otherCompilers : O) (_metadata : list Z)
    (m : S) : Result S :=
  andThen (all_of (stateVariables _contract) notTransient) (fun allPersistent =>
  andThen (assertThat allPersistent
             (UnimplementedFeatureError "Transient storage variables are not supported."))
    (fun _ =>
  andThen (runtimeCompiler_compileContract K _contract _otherCompilers m) (fun m1 =>
  andThen (creationCompiler_compileConstructor K _contract _otherCompilers
             (appendToAuxiliaryData K _metadata m1)) (fun m2 =>
  andThen (optimise K m2) (fun m3 =>
  andThen (assertThat (context_appendYulUtilityFunctionsRan K m3)
             (InternalCompilerError "appendYulUtilityFunctions() was not called."))
    (fun _ =>
  andThen (assertThat (runtimeContext_appendYulUtilityFunctionsRan K m3)
             (InternalCompilerError "appendYulUtilityFunctions() was not called."))
    (fun _ => OK m3))))))).

(** A state variable that is declared and not transient. *)
Definition persistentVariable (v : option StateVariableDeclaration) : Prop :=
  exists d, v = Some d /\ referenceLocation d <> Location.Transient.

(** The member-wise copy of a struct from storage to storage: a value
    type that is stored and read back as an unsigned word of its width; a
    member that [storeValue] copies as such a value, with what the conversion
    routine of the collaborators is relied on for; the slot of the member in
    the source; what the copy of one member stores; the value of a member in a
    word; and when the windows of two members of the target are apart. *)
Definition plainStored (t : Ty) : Prop :=
  isValueType t = true
  /\ Category_eqb (category t) Array = false
  /\ Category_eqb (category t) Struct = false
  /\ Category_eqb (category t) Function = false
  /\ Category_eqb (category t) FixedPoint = false
  /\ Category_eqb (category t) UserDefinedValueType = false
  /\ leftAligned t = false
  /\ Category_eqb (category t) Integer && isSigned t = false
  /\ storageSize t = 1 /\ sizeOnStack t = 1.

Definition copyableMember (C : Collaborators) (owner src : Ty) (m : string * Ty) : Prop :=
  exists (st : Ty) (convert : list AssemblyItem),
    memberType src (fst m) = Some st
    /\ nameable (snd m) = true
    /\ plainStored st /\ plainStored (snd m)
    /\ storageBytes st = storageBytes (snd m)
    /\ ((storageBytes (snd m) = 32
         /\ convertType C st (snd m) true false = OK convert
         /\ computes convert 1 (fun vs => hd 0 vs))
        \/ (packedField (storageBytes (snd m)) (snd (storageOffsetsOfMember src (fst m)))
            /\ packedField (storageBytes (snd m)) (snd (storageOffsetsOfMember owner (fst m)))
            /\ convertType C st (snd m) true true = OK convert
            /\ computes convert 1 (fun vs => hd 0 vs mod 2 ^ (8 * storageBytes (snd m))))).

Definition sourceSlot (src : Ty) (skey : Z) (m : string * Ty) : Z :=
  Word.add skey (fst (storageOffsetsOfMember src (fst m))).

Definition memberValue (w o word : Z) : Z := if w =? 32 then word else field w o word.

Definition copyMemberStorage (owner src : Ty) (tkey skey : Z) (sto : Z -> Z)
    (m : string * Ty) : Z -> Z :=
  EVM.upd sto (memberSlot owner tkey m)
    (if storageBytes (snd m) =? 32 then sto (sourceSlot src skey m)
     else packed (storageBytes (snd m)) (snd (storageOffsetsOfMember owner (fst m)))
            (sto (memberSlot owner tkey m))
            (field (storageBytes (snd m)) (snd (storageOffsetsOfMember src (fst m)))
               (sto (sourceSlot src skey m)))).

Definition windowsApart (owner : Ty) (tkey : Z) (m m' : string * Ty) : Prop :=
  memberSlot owner tkey m <> memberSlot owner tkey m'
  \/ (storageBytes (snd m) <> 32 /\ storageBytes (snd m') <> 32
      /\ (snd (storageOffsetsOfMember owner (fst m)) + storageBytes (snd m)
          <= snd (storageOffsetsOfMember owner (fst m'))
          \/ snd (storageOffsetsOfMember owner (fst m')) + storageBytes (snd m')
             <= snd (storageOffsetsOfMember owner (fst m)))).

(** The source is not written, and the windows of the members of the
    target are pairwise apart. *)
Definition separated (owner src : Ty) (tkey skey : Z) (ms : list (string * Ty)) : Prop :=
  (forall m m', In m ms -> In m' ms -> sourceSlot src skey m <> memberSlot owner tkey m')
  /\ ForallOrdPairs (windowsApart owner tkey) ms.

(** ** Example types, contexts and collaborators *)

Module Example.

(** A value type of one storage slot and one stack slot. *)
Definition valueType (cat : Category) (bytes : Z) (signed left : bool) : Ty :=
  mkType cat true bytes 1 1 left signed OtherKind false true (fun _ => bytes)
    None Storage 0 false [] (fun _ => (0, 0)) (fun _ => 0) [].

Definition uint (bits : Z) : Ty := valueType Integer (bits / 8) false false.
Definition int (bits : Z) : Ty := valueType Integer (bits / 8) true false.
Definition bytesN (n : Z) : Ty := valueType FixedBytes n false true.
Definition address : Ty := valueType Address 20 false false.
Definition boolean : Ty := valueType Bool 1 false false.
Definition fixed128x18 : Ty := valueType FixedPoint 16 true false.

(** The type of an internal function, which takes 8 bytes of a slot. *)
Definition internalFunction : Ty :=
  mkType Function true 8 1 1 false false Internal false true (fun _ => 8)
    None Storage 0 false [] (fun _ => (0, 0)) (fun _ => 0) [].

(** The type of an external function: an address and a selector, 24 bytes
    of a slot and two stack slots, left-aligned. *)
Definition externalFunction : Ty :=
  mkType Function true 24 1 2 true false External false true (fun _ => 24)
    None Storage 0 false [] (fun _ => (0, 0)) (fun _ => 0) [].

Definition mapping : Ty :=
  mkType Mapping false 32 1 1 false false OtherKind false true (fun _ => 32)
    None Storage 0 true [] (fun _ => (0, 0)) (fun _ => 0) [].

(** A storage struct with the given definition and members, laid out one
    member to a slot in declared order. *)
Fixpoint slotOf (name : string) (ms : list (string * Ty)) (slot : Z) : Z * Z :=
  match ms with
  | [] => (0, 0)
  | (n, _) :: rest => if String.eqb n name then (slot, 0) else slotOf name rest (slot + 1)
  end.

Definition struct (definition : Z) (loc : DataLocation) (ms : list (string * Ty)) : Ty :=
  mkType Struct false 32 (Z.of_nat (List.length ms)) 1 false false OtherKind false true
    (fun _ => 32) None loc definition
    (existsb (fun m => Category_eqb (category (snd m)) Mapping
                       || containsNestedMapping (snd m)) ms)
    ms (fun name => slotOf name ms 0) (fun name => 32 * fst (slotOf name ms 0)) [].

Definition tuple (cs : list (option Ty)) : Ty :=
  mkType Tuple false 0 0
    (fold_left (fun n c => match c with Some t => n + sizeOnStack t | None => n end) cs 0)
    false false OtherKind false false (fun _ => 0)
    None Memory 0 false [] (fun _ => (0, 0)) (fun _ => 0) cs.

(** Collaborators that keep an integer within its width the way the storage
    codec expects, and whose other routines are single foreign items. *)
Definition collaborators : Collaborators :=
  mkCollaborators
    (fun _ target _cleanup chop =>
       if Category_eqb (category target) FixedPoint
       then Throw (UnimplementedFeatureError "Not yet implemented - FixedPointType.")
       else if storageBytes target <? 32 then
         if Category_eqb (category target) Integer && isSigned target then
           OK ([Push (storageBytes target - 1); Operation SIGNEXTEND]
               ++ if chop then [Push (byteMask (storageBytes target)); Operation AND]
                  else [])
         else OK [Push (byteMask (storageBytes target)); Operation AND]
       else OK [])
    (fun t => OK (repeat (Push 0) (Z.to_nat (sizeOnStack t))))
    (fun _ => OK [Foreign "splitExternalFunctionType" 1])
    (fun _ => OK [Foreign "combineExternalFunctionType" (-1)])
    (fun t _ _ _ => OK [Foreign "loadFromMemoryDynamic" (sizeOnStack t - 1)])
    (fun _ t _ _ => OK [Foreign "loadFromMemory" (sizeOnStack t)])
    (fun t _ => OK [Foreign "storeInMemoryDynamic" (- sizeOnStack t)])
    (fun _ _ => OK [Foreign "copyArrayToStorage" (-1)])
    (fun _ => OK [Foreign "clearArray" (-2)])
    (fun _ _ => OK [Foreign "updateStorageValueFunction" (-2)])
    (fun v => [String.append "immutable_" (if declId v =? 0 then "0" else "n")])
    (fun a b => Category_eqb (category a) (category b)
                && (structDefinition a =? structDefinition b))
    (fun a b => Category_eqb (category a) (category b))
    (fun t => match category t with
              | Mapping => "mapping"
              | Struct => "struct"
              | Array => "array"
              | Tuple => "tuple"
              | _ => "value"
              end%string).

(** A context of creation code ([creation = true]) or of runtime code, with
    [height] slots on the tracked stack. *)
Definition context (creation : bool) (height : Z) : CompilerContext :=
  mkContext [] height creation true (fun id => id) (fun id => (id, 0))
    (fun id => Some (128 + 32 * id)).

(** A machine state with the given stack and persistent storage. *)
Definition state (st : list Z) (sto : Z -> Z) : EVM.State :=
  EVM.mkState st sto (fun _ => 0).

(** A storage struct with a mapping between two value members, and the
    same struct without the mapping. *)
Definition structWithMapping : Ty :=
  struct 1 Storage
    [("a"%string, uint 256); ("m"%string, mapping);
     ("b"%string, uint 8)].

Definition structWithoutMapping : Ty :=
  struct 1 Storage
    [("a"%string, uint 256); ("b"%string, uint 8)].

End Example.

(** ** Basic facts about generators *)

Lemma appended_nil (c : CompilerContext) : appended c [] = c.
Proof. destruct c; unfold appended; simpl; now rewrite app_nil_r. Qed.

Lemma appended_app (c : CompilerContext) (a b : list AssemblyItem) :
  appended (appended c a) b = appended c (a ++ b).
Proof.
  unfold appended; simpl. now rewrite fold_left_app, app_assoc.
Qed.

Lemma emit_generates (it : AssemblyItem) (c : CompilerContext) :
  generates (emit it) c [it].
Proof. reflexivity. Qed.

Lemma ret_generates (c : CompilerContext) : generates (ret tt) c [].
Proof. unfold generates, ret. now rewrite appended_nil. Qed.

Lemma bind_generates (g : Gen unit) (k : unit -> Gen unit) (c : CompilerContext)
    (a b : list AssemblyItem) :
  generates g c a ->
  generates (k tt) (appended c a) b ->
  generates (bind g k) c (a ++ b).
Proof.
  unfold generates, bind. intros -> ->. now rewrite appended_app.
Qed.

Lemma bind_fails_left {A B} (g : Gen A) (k : A -> Gen B) (c : CompilerContext) e :
  fails g c e -> fails (bind g k) c e.
Proof. unfold fails, bind. now intros ->. Qed.

Lemma bind_fails_right (g : Gen unit) {B} (k : unit -> Gen B) (c : CompilerContext)
    (a : list AssemblyItem) e :
  generates g c a -> fails (k tt) (appended c a) e -> fails (bind g k) c e.
Proof. unfold generates, fails, bind. now intros -> ->. Qed.

Lemma emitAll_generates (code : list AssemblyItem) (c : CompilerContext) :
  generates (emitAll code) c code.
Proof.
  revert c. induction code as [|it code IH]; intros c.
  - apply ret_generates.
  - apply (bind_generates (emit it) (fun _ => emitAll code) c [it] code);
      [apply emit_generates | apply IH].
Qed.

Lemma append_generates (code : list AssemblyItem) (c : CompilerContext) :
  generates (append (OK code)) c code.
Proof. apply emitAll_generates. Qed.

Lemma forEach_generates {A} (l : list A) (body : A -> Gen unit) (f : A -> list AssemblyItem)
    (c : CompilerContext) :
  (forall a c', In a l -> generates (body a) c' (f a)) ->
  generates (forEach l body) c (List.concat (map f l)).
Proof.
  revert c. induction l as [|a l IH]; intros c H; simpl.
  - apply ret_generates.
  - apply (bind_generates (body a) (fun _ => forEach l body) c (f a) (List.concat (map f l))).
    + apply H. now left.
    + apply IH. intros a' c' Hin. apply H. now right.
Qed.

Lemma times_generates (n : Z) (body : Gen unit) (code : list AssemblyItem)
    (c : CompilerContext) :
  (forall c', generates body c' code) ->
  generates (times n body) c (List.concat (repeat code (Z.to_nat n))).
Proof.
  intros H. unfold times.
  replace (repeat code (Z.to_nat n))
    with (map (fun _ : unit => code) (repeat tt (Z.to_nat n))).
  - apply forEach_generates. intros; apply H.
  - induction (Z.to_nat n); simpl; congruence.
Qed.

Lemma times_zero (n : Z) (body : Gen unit) (c : CompilerContext) :
  n <= 0 -> generates (times n body) c [].
Proof.
  intros H. unfold times. replace (Z.to_nat n) with O by lia. apply ret_generates.
Qed.

Lemma emitDup_generates (n : Z) (c : CompilerContext) :
  1 <= n <= 16 -> generates (emitDup n) c [Operation (DUP n)].
Proof.
  intros H. unfold emitDup, dupInstruction.
  replace ((1 <=? n) && (n <=? 16)) with true
    by (symmetry; apply andb_true_intro; split; apply Z.leb_le; lia).
  reflexivity.
Qed.

Lemma emitSwap_generates (n : Z) (c : CompilerContext) :
  1 <= n <= 16 -> generates (emitSwap n) c [Operation (SWAP n)].
Proof.
  intros H. unfold emitSwap, swapInstruction.
  replace ((1 <=? n) && (n <=? 16)) with true
    by (symmetry; apply andb_true_intro; split; apply Z.leb_le; lia).
  reflexivity.
Qed.

Lemma deposit_appended (c : CompilerContext) (code : list AssemblyItem) :
  deposit (appended c code) = fold_left (fun d it => d + itemDeposit it) code (deposit c).
Proof. reflexivity. Qed.

Lemma fold_deposit_shift (code : list AssemblyItem) (d : Z) :
  fold_left (fun d it => d + itemDeposit it) code d
  = d + fold_left (fun d it => d + itemDeposit it) code 0.
Proof.
  revert d. induction code as [|it code IH]; intros d; simpl; [lia|].
  rewrite IH, (IH (itemDeposit it)). lia.
Qed.

Lemma u32_small (x : Z) : 0 <= x < 2 ^ 32 -> Word.u32 x = x.
Proof. intros H. unfold Word.u32. now apply Z.mod_small. Qed.

(** ** Stack-resident values and the addressing window *)

Lemma concat_repeat_singleton {A} (a : A) n : List.concat (repeat [a] n) = repeat a n.
Proof. induction n; simpl; congruence. Qed.

Lemma times_emitDup (d size : Z) c :
  size <= 0 \/ 1 <= d <= 16 ->
  generates (times size (emitDup d)) c (dups d size).
Proof.
  intros [H|H].
  - unfold dups. replace (Z.to_nat size) with O by lia. now apply times_zero.
  - unfold dups. rewrite <- concat_repeat_singleton. apply times_generates.
    intros c'. now apply emitDup_generates.
Qed.

Lemma times_swapPop (d size : Z) c :
  size <= 0 \/ 1 <= d <= 16 ->
  generates (times size (bind (emitSwap d) (fun _ => emit POP))) c (swapPops d size).
Proof.
  intros [H|H].
  - unfold swapPops. replace (Z.to_nat size) with O by lia. now apply times_zero.
  - apply times_generates. intros c'.
    apply (bind_generates (emitSwap d) (fun _ => emit POP) c' [Operation (SWAP d)] [Operation POP]).
    + now apply emitSwap_generates.
    + apply emit_generates.
Qed.

Lemma deposit_swapPops (d size : Z) c :
  0 <= size -> deposit (appended c (swapPops d size)) = deposit c - size.
Proof.
  intros H. rewrite deposit_appended. unfold swapPops.
  rewrite <- (Z2Nat.id size) at 2 by lia.
  generalize (deposit c). induction (Z.to_nat size) as [|n IH]; intros h.
  - simpl. lia.
  - rewrite Nat2Z.inj_succ. cbn [repeat List.concat app fold_left]. rewrite IH.
    unfold itemDeposit, instructionInfo; simpl. lia.
Qed.


Lemma u32_add_l a b : Word.u32 (Word.u32 a + b) = Word.u32 (a + b).
Proof. unfold Word.u32. apply Zplus_mod_idemp_l. Qed.

Lemma u32_sub_l a b : Word.u32 (Word.u32 a - b) = Word.u32 (a - b).
Proof. unfold Word.u32. apply Zminus_mod_idemp_l. Qed.

Lemma stackPos_succ h base :
  0 <= base <= h -> h < 2 ^ 32 ->
  Word.u32 (Word.u32 (Word.u32 h - base - 1) + 1) = h - base.
Proof.
  intros. rewrite u32_add_l, (u32_small h) by lia.
  replace (h - base - 1 + 1) with (h - base) by lia. apply u32_small; lia.
Qed.

Lemma stackDiff_eq h base size :
  0 <= base -> 0 <= size -> base + size <= h -> h < 2 ^ 32 ->
  Word.u32 (Word.u32 (Word.u32 h - base - 1) - size + 1) = h - base - size.
Proof.
  intros. replace (Word.u32 (Word.u32 h - base - 1) - size + 1)
    with (Word.u32 (Word.u32 h - base - 1) + (1 - size)) by lia.
  rewrite u32_add_l, (u32_small h) by lia.
  replace (h - base - 1 + (1 - size)) with (h - base - size) by lia. apply u32_small; lia.
Qed.

Lemma baseToCurrentStackOffset_bind {B} base (k : Z -> Gen B) c :
  bind (baseToCurrentStackOffset base) k c
  = k (Word.u32 (Word.u32 (deposit c) - base - 1)) c.
Proof. reflexivity. Qed.

Lemma retrieve_ok base size loc flag c :
  0 <= base -> 0 <= size -> base + size <= deposit c < 2 ^ 32 ->
  deposit c - base <= 16 ->
  generates (StackVariable_retrieveValue base size loc flag) c (dups (deposit c - base) size).
Proof.
  intros Hb Hs Hh Hd.
  unfold StackVariable_retrieveValue, generates.
  rewrite baseToCurrentStackOffset_bind, stackPos_succ by lia.
  destruct (Z.gtb_spec (deposit c - base) 16) as [?|_]; [lia|].
  unfold solAssert.
  destruct (Z.geb_spec (deposit c - base) size) as [_|?]; [|lia].
  apply (bind_generates (ret tt) _ c [] (dups (deposit c - base) size));
    [apply ret_generates|].
  apply times_emitDup. lia.
Qed.

Lemma retrieve_too_deep base size loc flag c :
  0 <= base -> base <= deposit c < 2 ^ 32 ->
  16 < deposit c - base ->
  fails (StackVariable_retrieveValue base size loc flag) c (StackTooDeepError (Some loc)).
Proof.
  intros Hb Hh Hd.
  unfold StackVariable_retrieveValue, fails.
  rewrite baseToCurrentStackOffset_bind, stackPos_succ by lia.
  destruct (Z.gtb_spec (deposit c - base) 16) as [_|?]; [|lia].
  reflexivity.
Qed.

Lemma store_ok base size ty loc move c :
  0 <= base -> 0 <= size -> base + 2 * size <= deposit c < 2 ^ 32 ->
  deposit c - base - size <= 16 ->
  generates (StackVariable_storeValue base size ty loc move) c
    (swapPops (deposit c - base - size) size
     ++ if move then [] else dups (deposit c - base - size) size).
Proof.
  intros Hb Hs Hh Hd.
  unfold StackVariable_storeValue.
  unfold generates; rewrite baseToCurrentStackOffset_bind; fold (generates).
  cbv zeta. rewrite stackDiff_eq by lia.
  set (d := deposit c - base - size) in *.
  destruct (Z.gtb_spec d 16) as [?|_]; [lia|].
  assert (Hswap : generates
            (if d >? 0 then times size (bind (emitSwap d) (fun _ => emit POP)) else ret tt)
            c (swapPops d size)).
  { destruct (Z.gtb_spec d 0) as [Hpos|Hz].
    - apply times_swapPop. lia.
    - assert (size = 0) by lia. subst size. apply ret_generates. }
  eapply bind_generates; [exact Hswap|].
  destruct move; simpl negb; cbv iota.
  - apply ret_generates.
  - pose proof (retrieve_ok base size loc false (appended c (swapPops d size))) as R.
    rewrite deposit_swapPops in R by lia.
    replace (deposit c - size - base) with d in R by (unfold d; lia).
    apply R; unfold d in *; lia.
Qed.

Lemma store_too_deep base size ty loc move c :
  0 <= base -> 0 <= size -> base + size <= deposit c < 2 ^ 32 ->
  16 < deposit c - base - size ->
  fails (StackVariable_storeValue base size ty loc move) c (StackTooDeepError (Some loc)).
Proof.
  intros Hb Hs Hh Hd.
  unfold StackVariable_storeValue, fails.
  rewrite baseToCurrentStackOffset_bind. cbv zeta. rewrite stackDiff_eq by lia.
  destruct (Z.gtb_spec (deposit c - base - size) 16) as [_|?]; [|lia].
  reflexivity.
Qed.

(** C5. A stack-resident access whose distance from the top of the stack is
    at most 16 generates its code, the [DUP]s of a read and the [SWAP; POP]
    pairs of a write (followed by the [DUP]s of a read when the value is to
    stay on the stack); at a distance beyond 16 it raises the stack-too-deep
    error that carries the source location of the access.  The variable is
    assumed to lie on the tracked stack and, for a write, the new value above
    it. *)
Theorem StackVariable_addressing_window (C : Collaborators) (ty sourceType : Ty)
    (base size : Z) (loc : SourceLocation) (flag : bool) (c : CompilerContext) :
  0 <= base -> 0 <= size -> base + size <= deposit c < 2 ^ 32 ->
  (retrieveDistance c base <= 16 ->
     generates (LValue_retrieveValue C (StackVariable ty base size) loc flag) c
       (dups (retrieveDistance c base) size))
  /\ (16 < retrieveDistance c base ->
     fails (LValue_retrieveValue C (StackVariable ty base size) loc flag) c
       (StackTooDeepError (Some loc)))
  /\ (size <= storeDistance c base size <= 16 ->
     generates (LValue_storeValue C (StackVariable ty base size) sourceType loc flag) c
       (swapPops (storeDistance c base size) size
        ++ if flag then [] else dups (storeDistance c base size) size))
  /\ (16 < storeDistance c base size ->
     fails (LValue_storeValue C (StackVariable ty base size) sourceType loc flag) c
       (StackTooDeepError (Some loc))).
Proof.
  intros Hb Hs Hh. unfold retrieveDistance, storeDistance. simpl.
  repeat split; intros Hd.
  - apply retrieve_ok; lia.
  - apply retrieve_too_deep; lia.
  - apply store_ok; lia.
  - apply store_too_deep; lia.
Qed.

(** At height 16 the variable at base offset 0 is read with [DUP16]; at
    height 17 the read is refused. *)
Lemma StackVariable_addressing_window_witness :
  generates (LValue_retrieveValue Example.collaborators
               (StackVariable (Example.uint 256) 0 1) noLocation true)
    (Example.context true 16) [Operation (DUP 16)]
  /\ fails (LValue_retrieveValue Example.collaborators
               (StackVariable (Example.uint 256) 0 1) (mkLoc 4 9) true)
    (Example.context true 17) (StackTooDeepError (Some (mkLoc 4 9)))
  /\ generates (LValue_storeValue Example.collaborators
               (StackVariable (Example.uint 256) 0 1) (Example.uint 256) noLocation true)
    (Example.context true 17) [Operation (SWAP 16); Operation POP]
  /\ fails (LValue_storeValue Example.collaborators
               (StackVariable (Example.uint 256) 0 1) (Example.uint 256) (mkLoc 4 9) true)
    (Example.context true 18) (StackTooDeepError (Some (mkLoc 4 9))).
Proof.
  split; [|split; [|split]].
  - apply (StackVariable_addressing_window Example.collaborators (Example.uint 256)
             (Example.uint 256) 0 1 noLocation true (Example.context true 16));
      simpl; unfold retrieveDistance; simpl; lia.
  - apply (StackVariable_addressing_window Example.collaborators (Example.uint 256)
             (Example.uint 256) 0 1 (mkLoc 4 9) true (Example.context true 17));
      simpl; unfold retrieveDistance; simpl; lia.
  - apply (StackVariable_addressing_window Example.collaborators (Example.uint 256)
             (Example.uint 256) 0 1 noLocation true (Example.context true 17));
      simpl; unfold storeDistance; simpl; lia.
  - apply (StackVariable_addressing_window Example.collaborators (Example.uint 256)
             (Example.uint 256) 0 1 (mkLoc 4 9) true (Example.context true 18));
      simpl; unfold storeDistance; simpl; lia.
Defined.

(** ** The stack utilities *)

Lemma concat_map_singleton {A B} (f : A -> B) l :
  List.concat (map (fun a => [f a]) l) = map f l.
Proof. induction l; simpl; congruence. Qed.

Lemma copyToStackTop_generates (d n : Z) c :
  d <= 16 -> n <= 0 \/ 1 <= d ->
  generates (copyToStackTop d n) c (dups d n).
Proof.
  intros Hd Hn. unfold copyToStackTop.
  destruct (Z.leb_spec d 16) as [_|?]; [|lia].
  apply (bind_generates (ret tt) _ c [] (dups d n)); [apply ret_generates|].
  apply times_emitDup. lia.
Qed.

Lemma copyToStackTop_too_deep (d n : Z) c :
  16 < d -> fails (copyToStackTop d n) c (StackTooDeepError None).
Proof.
  intros Hd. unfold copyToStackTop, fails, bind, throw.
  destruct (Z.leb_spec d 16) as [?|_]; [lia|]. reflexivity.
Qed.

Lemma rotateStackUp_generates (items : Z) c :
  1 <= items <= 17 ->
  generates (rotateStackUp items) c (rotateStackUpCode items).
Proof.
  intros H. unfold rotateStackUp.
  rewrite u32_small by lia.
  destruct (Z.leb_spec (items - 1) 16) as [_|?]; [|lia].
  apply (bind_generates (ret tt) _ c [] (rotateStackUpCode items)); [apply ret_generates|].
  unfold rotateStackUpCode.
  rewrite <- (concat_map_singleton (fun i => Operation (SWAP (items - Z.of_nat i)))).
  rewrite <- (map_map Z.of_nat (fun i => [Operation (SWAP (items - i))])).
  apply forEach_generates.
  intros a c' Hin. apply in_map_iff in Hin as (i & <- & Hi). apply in_seq in Hi.
  apply emitSwap_generates. lia.
Qed.

Lemma rotateStackDown_generates (items : Z) c :
  1 <= items <= 17 ->
  generates (rotateStackDown items) c (rotateStackDownCode items).
Proof.
  intros H. unfold rotateStackDown.
  rewrite u32_small by lia.
  destruct (Z.leb_spec (items - 1) 16) as [_|?]; [|lia].
  apply (bind_generates (ret tt) _ c [] (rotateStackDownCode items)); [apply ret_generates|].
  unfold rotateStackDownCode.
  rewrite <- (concat_map_singleton (fun i => Operation (SWAP (Z.of_nat i)))).
  rewrite <- (map_map Z.of_nat (fun i => [Operation (SWAP i)])).
  apply forEach_generates.
  intros a c' Hin. apply in_map_iff in Hin as (i & <- & Hi). apply in_seq in Hi.
  apply emitSwap_generates. lia.
Qed.

Lemma moveIntoStack_generates (depth size : Z) c :
  0 <= depth -> 0 <= size -> depth + size <= 17 ->
  generates (moveIntoStack depth size) c (moveIntoStackCode depth size).
Proof.
  intros Hd Hs Hsum. unfold moveIntoStack, moveIntoStackCode.
  rewrite u32_small by lia.
  destruct (Z.leb_spec depth size).
  - destruct (Z.eq_dec depth 0) as [->|].
    + apply times_zero. lia.
    + apply times_generates. intros c'. apply rotateStackDown_generates. lia.
  - destruct (Z.eq_dec size 0) as [->|].
    + apply times_zero. lia.
    + apply times_generates. intros c'. apply rotateStackUp_generates. lia.
Qed.

Lemma popStackSlots_generates (n : Z) c : generates (popStackSlots n) c (pops n).
Proof.
  unfold popStackSlots, pops. rewrite <- concat_repeat_singleton.
  apply times_generates. intros c'. apply emit_generates.
Qed.

Lemma depositOf_app a b : depositOf (a ++ b) = depositOf a + depositOf b.
Proof. unfold depositOf. rewrite fold_left_app, fold_deposit_shift. reflexivity. Qed.

Lemma deposit_appended' c code : deposit (appended c code) = deposit c + depositOf code.
Proof. rewrite deposit_appended. apply fold_deposit_shift. Qed.

Lemma depositOf_cons it code : depositOf (it :: code) = itemDeposit it + depositOf code.
Proof. change (it :: code) with ([it] ++ code). rewrite depositOf_app. reflexivity. Qed.

Lemma depositOf_concat_repeat code n :
  depositOf (List.concat (repeat code n)) = Z.of_nat n * depositOf code.
Proof.
  induction n.
  - reflexivity.
  - cbn [repeat List.concat]. rewrite depositOf_app, IHn. lia.
Qed.

Lemma depositOf_dups d n : 0 <= n -> depositOf (dups d n) = n.
Proof.
  intros H. unfold dups. rewrite <- concat_repeat_singleton, depositOf_concat_repeat.
  unfold depositOf; simpl. lia.
Qed.

Lemma depositOf_pops n : 0 <= n -> depositOf (pops n) = - n.
Proof.
  intros H. unfold pops. rewrite <- concat_repeat_singleton, depositOf_concat_repeat.
  unfold depositOf; simpl. lia.
Qed.

Lemma depositOf_swaps (f : nat -> Z) l :
  depositOf (map (fun i => Operation (SWAP (f i))) l) = 0.
Proof.
  induction l; [reflexivity|]. cbn [map]. rewrite depositOf_cons, IHl.
  unfold itemDeposit, instructionInfo; simpl. lia.
Qed.

Lemma depositOf_moveIntoStackCode depth size : depositOf (moveIntoStackCode depth size) = 0.
Proof.
  unfold moveIntoStackCode. destruct (depth <=? size);
    rewrite depositOf_concat_repeat.
  - unfold rotateStackDownCode. rewrite (depositOf_swaps (fun i => Z.of_nat i)). lia.
  - unfold rotateStackUpCode. rewrite (depositOf_swaps (fun i => depth + size - Z.of_nat i)). lia.
Qed.

(** ** Arithmetic of the byte window *)

Lemma isWord_bits x : Word.isWord x <-> (0 <= x /\ forall n, 256 <= n -> Z.testbit x n = false).
Proof.
  unfold Word.isWord, Word.modulus. split.
  - intros [H0 H1]. split; [assumption|]. intros n Hn.
    destruct (Z.eq_dec x 0) as [->|Hx]; [apply Z.testbit_0_l|].
    apply Z.bits_above_log2; [lia|].
    assert (Z.log2 x < 256) by (apply Z.log2_lt_pow2; lia). lia.
  - intros [H0 H]. split; [assumption|].
    destruct (Z.eq_dec x 0) as [->|Hx]; [reflexivity|].
    apply Z.log2_lt_pow2; [lia|].
    destruct (Z_lt_le_dec (Z.log2 x) 256) as [|Hge]; [assumption|].
    specialize (H (Z.log2 x) Hge). rewrite Z.bit_log2 in H by lia. discriminate.
Qed.

Lemma wrap_small x : Word.isWord x -> Word.wrap x = x.
Proof. intros H. apply Z.mod_small. exact H. Qed.

Lemma exp256 o : 0 <= o <= 31 -> Word.exp 256 o = 2 ^ (8 * o).
Proof.
  intros H. unfold Word.exp, Word.wrap, Word.modulus.
  change 256 with (2 ^ 8) at 1. rewrite <- Z.pow_mul_r by lia.
  apply Z.mod_small. split; [apply Z.pow_nonneg; lia|].
  apply Z.pow_lt_mono_r; lia.
Qed.

Lemma byteMask_ones w : 0 <= w <= 32 -> byteMask w = Z.ones (8 * w).
Proof.
  intros H. unfold byteMask, Word.wrap, Word.modulus.
  rewrite u32_small by lia.
  rewrite Z.shiftl_1_l.
  destruct (Z.eq_dec w 32) as [->|Hw].
  - reflexivity.
  - rewrite (Z.mod_small (2 ^ (8 * w))).
    + rewrite Z.ones_equiv, Z.mod_small; [lia|].
      assert (0 < 2 ^ (8 * w)) by (apply Z.pow_pos_nonneg; lia).
      assert (2 ^ (8 * w) < 2 ^ 256) by (apply Z.pow_lt_mono_r; lia). lia.
    + split; [apply Z.pow_nonneg; lia|]. apply Z.pow_lt_mono_r; lia.
Qed.

Lemma testbit_wrap x n : Z.testbit (Word.wrap x) n = (n <? 256) && Z.testbit x n.
Proof. unfold Word.wrap, Word.modulus. apply Z.testbit_mod_pow2. lia. Qed.

Lemma testbit_bitnot x n :
  0 <= n -> Z.testbit (Word.bitnot x) n = (n <? 256) && negb (Z.testbit x n).
Proof. intros H. unfold Word.bitnot. rewrite testbit_wrap, Z.lnot_spec by lia. reflexivity. Qed.

Lemma mul_pow2_word x o :
  0 <= o -> Word.mul x (2 ^ (8 * o)) = Word.wrap (Z.shiftl x (8 * o)).
Proof. intros. unfold Word.mul. now rewrite Z.shiftl_mul_pow2 by lia. Qed.

Lemma testbit_packed w o old x n :
  0 < w -> 0 <= o -> o + w <= 32 -> Word.isWord old -> 0 <= x < 2 ^ (8 * w) -> 0 <= n ->
  Z.testbit (packed w o old x) n =
  if (8 * o <=? n) && (n <? 8 * (o + w)) then Z.testbit x (n - 8 * o) else Z.testbit old n.
Proof.
  intros Hw Ho How Hold Hx Hn. unfold packed.
  rewrite exp256, byteMask_ones by lia.
  rewrite !mul_pow2_word by lia.
  rewrite Z.lor_spec, Z.land_spec, testbit_bitnot, !testbit_wrap by lia.
  apply isWord_bits in Hold as [Hold0 Holdhi].
  assert (Hxhi : forall k, 8 * w <= k -> Z.testbit x k = false).
  { intros k Hk. destruct (Z.eq_dec x 0) as [->|]; [apply Z.testbit_0_l|].
    apply Z.bits_above_log2; [lia|].
    assert (Z.log2 x < 8 * w) by (apply Z.log2_lt_pow2; lia). lia. }
  rewrite !Z.shiftl_spec by lia. rewrite Z.testbit_ones by lia.
  destruct (Z.leb_spec (8 * o) n), (Z.ltb_spec n (8 * (o + w))), (Z.ltb_spec n 256),
    (Z.ltb_spec (n - 8 * o) (8 * w)), (Z.leb_spec 0 (n - 8 * o)); cbn [andb orb negb]; try lia;
    try (rewrite (Z.testbit_neg_r x (n - 8 * o)) by lia);
    try (rewrite (Hxhi (n - 8 * o)) by lia);
    try (rewrite (Holdhi n) by lia);
    destruct (Z.testbit x (n - 8 * o)), (Z.testbit old n); reflexivity.
Qed.


Lemma bits_above x k n : 0 <= x < 2 ^ k -> k <= n -> Z.testbit x n = false.
Proof.
  intros Hx Hn. destruct (Z.eq_dec x 0) as [->|]; [apply Z.testbit_0_l|].
  apply Z.bits_above_log2; [lia|].
  assert (0 <= k) by (destruct (Z_lt_le_dec k 0); [rewrite Z.pow_neg_r in Hx; lia|lia]).
  assert (Z.log2 x < k) by (apply Z.log2_lt_pow2; lia). lia.
Qed.

Lemma testbit_replaceWindow w o old x n :
  0 < w -> 0 <= o -> o + w <= 32 -> Word.isWord old -> 0 <= x < 2 ^ (8 * w) -> 0 <= n ->
  Z.testbit (replaceWindow w o old x) n =
  if inWindow w o n then Z.testbit x (n - 8 * o) else Z.testbit old n.
Proof.
  intros Hw Ho How Hold Hx Hn. unfold replaceWindow, windowMask, inWindow.
  rewrite Z.lor_spec, Z.land_spec, testbit_bitnot by lia.
  apply isWord_bits in Hold as [Hold0 Holdhi].
  rewrite !Z.shiftl_spec by lia. rewrite Z.testbit_ones by lia.
  destruct (Z.leb_spec (8 * o) n), (Z.ltb_spec n (8 * (o + w))), (Z.ltb_spec n 256),
    (Z.ltb_spec (n - 8 * o) (8 * w)), (Z.leb_spec 0 (n - 8 * o)); cbn [andb orb negb]; try lia;
    try (rewrite (Z.testbit_neg_r x (n - 8 * o)) by lia);
    try (rewrite (bits_above x (8 * w) (n - 8 * o)) by lia);
    try (rewrite (Holdhi n) by lia);
    destruct (Z.testbit x (n - 8 * o)), (Z.testbit old n); reflexivity.
Qed.

Lemma packed_replaceWindow w o old x :
  0 < w -> 0 <= o -> o + w <= 32 -> Word.isWord old -> 0 <= x < 2 ^ (8 * w) ->
  packed w o old x = replaceWindow w o old x.
Proof.
  intros. apply Z.bits_inj'. intros n Hn.
  rewrite testbit_packed, testbit_replaceWindow by assumption. reflexivity.
Qed.

Lemma isWord_replaceWindow w o old x :
  0 < w -> 0 <= o -> o + w <= 32 -> Word.isWord old -> 0 <= x < 2 ^ (8 * w) ->
  Word.isWord (replaceWindow w o old x).
Proof.
  intros Hw Ho How Hold Hx. apply isWord_bits. split.
  - unfold replaceWindow. apply Z.lor_nonneg. split.
    + apply Z.land_nonneg. left. apply Hold.
    + apply Z.shiftl_nonneg. lia.
  - intros n Hn. rewrite testbit_replaceWindow by (assumption || lia).
    unfold inWindow.
    destruct (Z.leb_spec (8 * o) n), (Z.ltb_spec n (8 * (o + w))); cbn [andb]; try lia;
      apply isWord_bits in Hold as [_ Hhi]; apply Hhi; lia.
Qed.

Lemma div_exp256 word o :
  0 <= o <= 31 -> Word.div word (Word.exp 256 o) = Z.shiftr word (8 * o).
Proof.
  intros H. rewrite exp256 by lia. unfold Word.div.
  assert (0 < 2 ^ (8 * o)) by (apply Z.pow_pos_nonneg; lia).
  destruct (Z.eqb_spec (2 ^ (8 * o)) 0); [lia|].
  now rewrite Z.shiftr_div_pow2 by lia.
Qed.

Lemma testbit_field w o old x n :
  0 < w -> 0 <= o -> o + w <= 32 -> Word.isWord old -> 0 <= x < 2 ^ (8 * w) ->
  0 <= n < 8 * w ->
  Z.testbit (Word.div (replaceWindow w o old x) (Word.exp 256 o)) n = Z.testbit x n.
Proof.
  intros. rewrite div_exp256, Z.shiftr_spec, testbit_replaceWindow by (assumption || lia).
  unfold inWindow.
  destruct (Z.leb_spec (8 * o) (n + 8 * o)), (Z.ltb_spec (n + 8 * o) (8 * (o + w)));
    cbn [andb]; try lia.
  f_equal. lia.
Qed.

Lemma unsigned_extract w o old x :
  0 < w -> 0 <= o -> o + w <= 32 -> Word.isWord old -> 0 <= x < 2 ^ (8 * w) ->
  Z.land (byteMask w) (Word.div (replaceWindow w o old x) (Word.exp 256 o)) = x.
Proof.
  intros. rewrite byteMask_ones by lia. apply Z.bits_inj'. intros n Hn.
  rewrite Z.land_spec, Z.testbit_ones by lia.
  destruct (Z.leb_spec 0 n), (Z.ltb_spec n (8 * w)); cbn [andb]; try lia.
  - apply testbit_field; assumption || lia.
  - symmetry. apply (bits_above x (8 * w)); lia.
Qed.

Lemma testbit_signextend b y n :
  0 <= b < 31 -> Word.isWord y -> 0 <= n ->
  Z.testbit (Word.signextend b y) n =
  if n <? 8 * b + 7 then Z.testbit y n else (n <? 256) && Z.testbit y (8 * b + 7).
Proof.
  intros Hb Hy Hn. unfold Word.signextend.
  destruct (Z.ltb_spec b 31); [|lia]. cbv zeta.
  apply isWord_bits in Hy as [Hy0 Hyhi].
  destruct (Z.testbit y (8 * b + 7)) eqn:Hs.
  - replace (Word.modulus - 2 ^ (8 * b + 7))
      with (Z.shiftl (Z.ones (256 - (8 * b + 7))) (8 * b + 7)).
    + rewrite Z.lor_spec, Z.shiftl_spec, Z.testbit_ones by lia.
      destruct (Z.ltb_spec n (8 * b + 7)), (Z.ltb_spec n 256),
        (Z.leb_spec 0 (n - (8 * b + 7))), (Z.ltb_spec (n - (8 * b + 7)) (256 - (8 * b + 7)));
        cbn [andb orb]; try lia; rewrite ?orb_false_r, ?orb_true_r; try reflexivity.
      apply Hyhi; lia.
    + rewrite Z.shiftl_mul_pow2, Z.ones_equiv by lia. unfold Word.modulus.
      assert (E : 2 ^ 256 = 2 ^ (256 - (8 * b + 7)) * 2 ^ (8 * b + 7))
        by (rewrite <- Z.pow_add_r by lia; f_equal; lia).
      rewrite E. unfold Z.pred. ring.
  - replace (2 ^ (8 * b + 7) - 1) with (Z.ones (8 * b + 7))
      by (rewrite Z.ones_equiv; lia).
    rewrite Z.land_spec, Z.testbit_ones by lia.
    destruct (Z.ltb_spec n (8 * b + 7)), (Z.leb_spec 0 n); cbn [andb]; try lia;
      rewrite ?andb_true_r, ?andb_false_r; reflexivity.
Qed.

Lemma isWord_signextend b y : 0 <= b -> Word.isWord y -> Word.isWord (Word.signextend b y).
Proof.
  intros Hb Hy. unfold Word.signextend.
  destruct (Z.ltb_spec b 31); [|assumption]. cbv zeta.
  destruct (Z.testbit y (8 * b + 7)).
  - apply isWord_bits. pose proof Hy as Hy'. apply isWord_bits in Hy' as [Hy0 Hyhi].
    assert (0 < 2 ^ (8 * b + 7) < Word.modulus).
    { unfold Word.modulus. split; [apply Z.pow_pos_nonneg; lia|apply Z.pow_lt_mono_r; lia]. }
    split.
    + apply Z.lor_nonneg. lia.
    + intros n Hn. rewrite Z.lor_spec, Hyhi by lia.
      apply (bits_above _ 256); [|lia]. unfold Word.modulus in *. lia.
  - apply isWord_bits. apply isWord_bits in Hy as [Hy0 Hyhi]. split.
    + apply Z.land_nonneg. now left.
    + intros n Hn. rewrite Z.land_spec, Hyhi by lia. reflexivity.
Qed.

Lemma signed_extract w o old v :
  0 < w < 32 -> 0 <= o -> o + w <= 32 -> Word.isWord old -> isSignedValue w v ->
  Word.signextend (Word.u32 (w - 1))
    (Word.div (replaceWindow w o old (v mod 2 ^ (8 * w))) (Word.exp 256 o)) = v.
Proof.
  intros Hw Ho How Hold [Hv Hsv].
  assert (Hx : 0 <= v mod 2 ^ (8 * w) < 2 ^ (8 * w)).
  { apply Z.mod_pos_bound. apply Z.pow_pos_nonneg; lia. }
  rewrite u32_small by lia.
  assert (Hy : Word.isWord (Word.div (replaceWindow w o old (v mod 2 ^ (8 * w))) (Word.exp 256 o))).
  { rewrite div_exp256 by lia.
    pose proof (isWord_replaceWindow w o old _ ltac:(lia) Ho How Hold Hx) as Hr.
    unfold Word.isWord in *. rewrite Z.shiftr_div_pow2 by lia.
    assert (0 < 2 ^ (8 * o)) by (apply Z.pow_pos_nonneg; lia).
    split; [apply Z.div_pos; lia|].
    apply Z.le_lt_trans with (replaceWindow w o old (v mod 2 ^ (8 * w))); [|lia].
    apply Z.div_le_upper_bound; [lia|]. nia. }
  rewrite <- Hsv at 2.
  apply Z.bits_inj'. intros n Hn.
  rewrite !testbit_signextend by (assumption || lia).
  destruct (Z.ltb_spec n (8 * (w - 1) + 7)).
  - rewrite testbit_field by (assumption || lia).
    apply Z.mod_pow2_bits_low. lia.
  - rewrite testbit_field by (assumption || lia).
    rewrite Z.mod_pow2_bits_low by lia. reflexivity.
Qed.

Lemma pow256 k : 0 <= k -> 256 ^ k = 2 ^ (8 * k).
Proof. intros. change 256 with (2 ^ 8). now rewrite <- Z.pow_mul_r by lia. Qed.

Lemma testbit_field_def w o word n :
  0 <= w -> 0 <= o -> 0 <= n ->
  Z.testbit (field w o word) n = (n <? 8 * w) && Z.testbit word (n + 8 * o).
Proof.
  intros. unfold field. rewrite !pow256 by lia.
  rewrite Z.testbit_mod_pow2 by lia. f_equal.
  now rewrite Z.div_pow2_bits by lia.
Qed.

Lemma field_replaceWindow_same w o old x :
  0 < w -> 0 <= o -> o + w <= 32 -> Word.isWord old -> 0 <= x < 2 ^ (8 * w) ->
  field w o (replaceWindow w o old x) = x.
Proof.
  intros. apply Z.bits_inj'. intros n Hn.
  rewrite testbit_field_def, testbit_replaceWindow by (assumption || lia).
  unfold inWindow.
  destruct (Z.ltb_spec n (8 * w)), (Z.leb_spec (8 * o) (n + 8 * o)),
    (Z.ltb_spec (n + 8 * o) (8 * (o + w))); cbn [andb]; try lia.
  - f_equal; lia.
  - symmetry. apply (bits_above x (8 * w)); lia.
Qed.

Lemma field_replaceWindow_disjoint w o old x w' o' :
  0 < w -> 0 <= o -> o + w <= 32 -> Word.isWord old -> 0 <= x < 2 ^ (8 * w) ->
  0 <= w' -> 0 <= o' -> o' + w' <= o \/ o + w <= o' ->
  field w' o' (replaceWindow w o old x) = field w' o' old.
Proof.
  intros ? ? ? ? ? ? ? Hdis. apply Z.bits_inj'. intros n Hn.
  rewrite !testbit_field_def, testbit_replaceWindow by (assumption || lia).
  unfold inWindow.
  destruct (Z.ltb_spec n (8 * w')), (Z.leb_spec (8 * o) (n + 8 * o')),
    (Z.ltb_spec (n + 8 * o') (8 * (o + w))); cbn [andb]; try lia; reflexivity.
Qed.

Lemma shiftr_range v w :
  0 < w < 32 -> Word.isWord v -> 0 <= Z.shiftr v (256 - 8 * w) < 2 ^ (8 * w).
Proof.
  intros Hw [Hv0 Hv]. rewrite Z.shiftr_div_pow2 by lia.
  assert (0 < 2 ^ (256 - 8 * w)) by (apply Z.pow_pos_nonneg; lia).
  split; [apply Z.div_pos; lia|].
  apply Z.div_lt_upper_bound; [lia|].
  rewrite <- Z.pow_add_r by lia.
  replace (256 - 8 * w + 8 * w) with 256 by lia. exact Hv.
Qed.

Lemma left_extract w o old v :
  0 < w < 32 -> 0 <= o -> o + w <= 32 -> Word.isWord old -> isLeftAlignedValue w v ->
  Word.wrap (Z.shiftl (Word.div (replaceWindow w o old (Z.shiftr v (256 - 8 * w)))
                                (Word.exp 256 o)) (256 - 8 * w)) = v.
Proof.
  intros Hw Ho How Hold [Hv Hlow].
  pose proof (shiftr_range v w Hw Hv) as Hx.
  apply Z.bits_inj'. intros n Hn.
  rewrite testbit_wrap, Z.shiftl_spec by lia.
  pose proof Hv as Hv'. apply isWord_bits in Hv' as [_ Hvhi].
  destruct (Z.ltb_spec n 256); cbn [andb]; [|symmetry; apply Hvhi; lia].
  destruct (Z_lt_le_dec n (256 - 8 * w)).
  - rewrite Z.testbit_neg_r by lia.
    rewrite <- (Z.mod_pow2_bits_low v (256 - 8 * w) n) by lia.
    rewrite Hlow. symmetry. apply Z.testbit_0_l.
  - rewrite testbit_field by (assumption || lia).
    rewrite Z.shiftr_spec by lia. f_equal. lia.
Qed.

Lemma sign_extension_bits w o word n :
  0 < w < 32 -> 0 <= o -> o + w <= 32 -> Word.isWord word -> 0 <= n < 256 ->
  Z.testbit (Word.signextend (Word.u32 (w - 1)) (Word.div word (Word.exp 256 o))) n
  = if n <? 8 * w then Z.testbit word (8 * o + n) else Z.testbit word (8 * o + (8 * w - 1)).
Proof.
  intros Hw Ho How Hword Hn.
  rewrite u32_small by lia.
  assert (Hy : Word.isWord (Word.div word (Word.exp 256 o))).
  { rewrite div_exp256 by lia. unfold Word.isWord in *. rewrite Z.shiftr_div_pow2 by lia.
    assert (0 < 2 ^ (8 * o)) by (apply Z.pow_pos_nonneg; lia).
    split; [apply Z.div_pos; lia|].
    apply Z.le_lt_trans with word; [|lia].
    apply Z.div_le_upper_bound; [lia|]. nia. }
  rewrite testbit_signextend by (assumption || lia).
  rewrite div_exp256 by lia.
  destruct (Z.ltb_spec n (8 * (w - 1) + 7)), (Z.ltb_spec n (8 * w)), (Z.ltb_spec n 256);
    cbn [andb]; try lia; rewrite Z.shiftr_spec by lia; f_equal; lia.
Qed.

(** ** The code of the storage codec *)

Lemma generates_eq g c code code' :
  generates g c code' -> code' = code -> generates g c code.
Proof. now intros H <-. Qed.

Lemma generates_unique g c code code' :
  generates g c code -> generates g c code' -> code = code'.
Proof.
  unfold generates. intros H H'. rewrite H in H'. injection H' as E _.
  now apply app_inv_head in E.
Qed.

Lemma bind_getContext_generates (k : CompilerContext -> Gen unit) c code :
  generates (k c) c code -> generates (bind getContext k) c code.
Proof. exact (fun H => H). Qed.

Lemma bind_ret_generates {A} (a : A) (k : A -> Gen unit) c code :
  generates (k a) c code -> generates (bind (ret a) k) c code.
Proof. exact (fun H => H). Qed.

Lemma bind_assoc {A B D} (g : Gen A) (k1 : A -> Gen B) (k2 : B -> Gen D) c :
  bind (bind g k1) k2 c = bind g (fun x => bind (k1 x) k2) c.
Proof. unfold bind. destruct (g c) as [[a c']|e]; reflexivity. Qed.

Lemma bind_assoc_generates {A B} (g : Gen A) (k1 : A -> Gen B) (k2 : B -> Gen unit) c code :
  generates (bind g (fun x => bind (k1 x) k2)) c code ->
  generates (bind (bind g k1) k2) c code.
Proof. unfold generates. now rewrite bind_assoc. Qed.

Ltac gen_basic :=
  cbv beta; simpl negb; cbv iota;
  lazymatch goal with
  | |- generates (bind getContext _) _ _ => apply bind_getContext_generates
  | |- generates (bind (ret _) _) _ _ => apply bind_ret_generates
  | |- generates (bind (bind _ _) _) _ _ => apply bind_assoc_generates
  | |- generates (bind _ _) _ _ => eapply bind_generates
  | |- generates (ret tt) _ _ => apply ret_generates
  | |- generates (emit _) _ _ => apply emit_generates
  | |- generates (emitAll _) _ _ => apply emitAll_generates
  | |- generates (append (OK _)) _ _ => apply append_generates
  | |- generates (solAssert true _) _ _ => apply ret_generates
  | |- generates (solUnimplementedAssert true _) _ _ => apply ret_generates
  end.

Ltac list_norm := repeat rewrite <- app_assoc; cbn [app]; repeat rewrite app_nil_r.

Lemma leftShiftNumberOnStack_generates bits c :
  bits < 256 ->
  generates (leftShiftNumberOnStack bits) c (leftShiftCode (hasBitwiseShifting c) bits).
Proof.
  intros H. unfold leftShiftNumberOnStack, leftShiftCode, solAssert.
  destruct (Z.ltb_spec bits 256); [|lia].
  destruct (hasBitwiseShifting c) eqn:E;
    (eapply generates_eq;
     [ eapply bind_generates; [apply ret_generates|];
       cbv beta; apply bind_getContext_generates;
       change (hasBitwiseShifting (appended c [])) with (hasBitwiseShifting c);
       rewrite E; repeat gen_basic
     | reflexivity ]).
Qed.

Lemma rightShiftNumberOnStack_generates bits c :
  bits < 256 ->
  generates (rightShiftNumberOnStack bits) c (rightShiftCode (hasBitwiseShifting c) bits).
Proof.
  intros H. unfold rightShiftNumberOnStack, rightShiftCode, solAssert.
  destruct (Z.ltb_spec bits 256); [|lia].
  destruct (hasBitwiseShifting c) eqn:E;
    (eapply generates_eq;
     [ eapply bind_generates; [apply ret_generates|];
       cbv beta; apply bind_getContext_generates;
       change (hasBitwiseShifting (appended c [])) with (hasBitwiseShifting c);
       rewrite E; repeat gen_basic
     | reflexivity ]).
Qed.

Lemma popStackElement_generates ty c : generates (popStackElement ty) c (pops (sizeOnStack ty)).
Proof. apply popStackSlots_generates. Qed.

Ltac gen_step :=
  cbv beta; simpl negb; cbv iota;
  lazymatch goal with
  | |- generates (bind getContext _) _ _ => apply bind_getContext_generates
  | |- generates (bind (ret _) _) _ _ => apply bind_ret_generates
  | |- generates (bind (bind _ _) _) _ _ => apply bind_assoc_generates
  | |- generates (bind _ _) _ _ => eapply bind_generates
  | |- generates (ret tt) _ _ => apply ret_generates
  | |- generates (emit _) _ _ => apply emit_generates
  | |- generates (emitAll _) _ _ => apply emitAll_generates
  | |- generates (append (OK _)) _ _ => apply append_generates
  | |- generates (solAssert true _) _ _ => apply ret_generates
  | |- generates (solUnimplementedAssert true _) _ _ => apply ret_generates
  | |- generates (copyToStackTop _ _) _ _ => apply copyToStackTop_generates; lia
  | |- generates (popStackSlots _) _ _ => apply popStackSlots_generates
  | |- generates (popStackElement _) _ _ => apply popStackElement_generates
  | |- generates (leftShiftNumberOnStack _) _ _ => apply leftShiftNumberOnStack_generates; lia
  | |- generates (rightShiftNumberOnStack _) _ _ => apply rightShiftNumberOnStack_generates; lia
  end.

Section StorageCodeGeneration.
Variable C : Collaborators.

Lemma storeValue_value_type tr ty src loc mv :
  isValueType ty = true ->
  GenericStorageItem_storeValue C tr ty src loc mv =
    (solAssert (storageBytes ty <=? 32) "Invalid storage bytes size." ;;
     solAssert (storageBytes ty >? 0) "Invalid storage bytes size." ;;
     if storageBytes ty =? 32 then
       solAssert (sizeOnStack ty =? 1) "Invalid stack size." ;;
       emit POP ;;
       (if negb mv then emit (DUP 2) ;; emit (SWAP 1) else ret tt) ;;
       emit (SWAP 1) ;;
       append (convertType C src ty true false) ;;
       emit (SWAP 1) ;;
       emit (m_storeInstruction tr)
     else
       emitAll [Push 256; Operation EXP] ;;
       emitAll [Operation (DUP 2); Operation (m_loadInstruction tr)] ;;
       emitAll [Operation (DUP 2); Push (byteMask (storageBytes ty)); Operation MUL] ;;
       emitAll [Operation NOT; Operation AND; Operation (SWAP 1)] ;;
       copyToStackTop (Word.u32 (3 + sizeOnStack ty)) (sizeOnStack ty) ;;
       (if Category_eqb (category ty) Function then
          solAssert (isImplicitlyConvertibleTo C src ty)
            "function item stored but target is not implicitly convertible to source" ;;
          solAssert (negb (hasBoundFirstArgument ty)) "" ;;
          if FunctionKind_eqb (kind ty) External then
            solAssert (sizeOnStack ty =? 2) "" ;;
            append (combineExternalFunctionType C false)
          else
            solAssert (sizeOnStack ty =? 1) "" ;;
            emit (Push (byteMask (storageBytes ty))) ;; emit AND
        else if leftAligned ty then
          solAssert
            (Category_eqb (category src) FixedBytes ||
             match encodingType src with
             | Some e => Category_eqb (category e) FixedBytes
             | None => false
             end) "source not fixed bytes" ;;
          rightShiftNumberOnStack (Word.u32 (256 - 8 * storageBytes ty))
        else
          solAssert (sizeOnStack ty =? 1) "Invalid stack size for opaque type." ;;
          append (convertType C src ty true true)) ;;
       emitAll [Operation MUL; Operation OR] ;;
       emitAll [Operation (SWAP 1); Operation (m_storeInstruction tr)] ;;
       if mv then popStackElement ty else ret tt).
Proof.
  intros H. destruct ty; simpl in H |- *. rewrite H. reflexivity.
Qed.

Lemma storeValue_plain_generates tr ty src loc mv c w cv :
  isValueType ty = true -> storageBytes ty = w -> 0 < w < 32 -> sizeOnStack ty = 1 ->
  Category_eqb (category ty) Function = false -> leftAligned ty = false ->
  convertType C src ty true true = OK cv ->
  generates (GenericStorageItem_storeValue C tr ty src loc mv) c
    (packedStoreCode tr w 1 cv mv).
Proof.
  intros Hv Hw Hr Hn Hc Hl Hcv.
  rewrite storeValue_value_type by assumption.
  rewrite Hw, Hn, Hc, Hl, Hcv.
  destruct (Z.leb_spec w 32); [|lia].
  destruct (Z.gtb_spec w 0); [|lia].
  destruct (Z.eqb_spec w 32); [lia|].
  rewrite u32_small by lia. change (1 =? 1) with true. change (3 + 1) with 4.
  destruct mv;
    (eapply generates_eq;
     [ repeat gen_step
     | rewrite ?Hn; unfold packedStoreCode, storePrefix, storeSuffix; list_norm; reflexivity ]).
Qed.

Lemma storeValue_leftAligned_generates tr ty src loc mv c w :
  isValueType ty = true -> storageBytes ty = w -> 0 < w < 32 -> sizeOnStack ty = 1 ->
  Category_eqb (category ty) Function = false -> leftAligned ty = true ->
  (Category_eqb (category src) FixedBytes ||
   match encodingType src with
   | Some e => Category_eqb (category e) FixedBytes
   | None => false
   end) = true ->
  generates (GenericStorageItem_storeValue C tr ty src loc mv) c
    (packedStoreCode tr w 1 (rightShiftCode (hasBitwiseShifting c) (256 - 8 * w)) mv).
Proof.
  intros Hv Hw Hr Hn Hc Hl Hsrc.
  rewrite storeValue_value_type by assumption.
  rewrite Hw, Hn, Hc, Hl, Hsrc.
  destruct (Z.leb_spec w 32); [|lia].
  destruct (Z.gtb_spec w 0); [|lia].
  destruct (Z.eqb_spec w 32); [lia|].
  rewrite !u32_small by lia. change (3 + 1) with 4.
  destruct mv;
    (eapply generates_eq;
     [ repeat gen_step
     | rewrite ?Hn; unfold packedStoreCode, storePrefix, storeSuffix; list_norm; reflexivity ]).
Qed.

Lemma storeValue_function_generates tr ty src loc mv c w :
  isValueType ty = true -> storageBytes ty = w -> 0 < w < 32 -> sizeOnStack ty = 1 ->
  Category_eqb (category ty) Function = true ->
  FunctionKind_eqb (kind ty) External = false ->
  isImplicitlyConvertibleTo C src ty = true -> hasBoundFirstArgument ty = false ->
  generates (GenericStorageItem_storeValue C tr ty src loc mv) c
    (packedStoreCode tr w 1 [Push (byteMask w); Operation AND] mv).
Proof.
  intros Hv Hw Hr Hn Hc Hk Hi Hb.
  rewrite storeValue_value_type by assumption.
  rewrite Hw, Hn, Hc, Hk, Hi, Hb.
  destruct (Z.leb_spec w 32); [|lia].
  destruct (Z.gtb_spec w 0); [|lia].
  destruct (Z.eqb_spec w 32); [lia|].
  rewrite !u32_small by lia. change (3 + 1) with 4. change (1 =? 1) with true.
  cbn [negb].
  destruct mv;
    (eapply generates_eq;
     [ repeat gen_step
     | rewrite ?Hn; unfold packedStoreCode, storePrefix, storeSuffix; list_norm; reflexivity ]).
Qed.

Lemma storeValue_external_generates tr ty src loc mv c w cb :
  isValueType ty = true -> storageBytes ty = w -> 0 < w < 32 -> sizeOnStack ty = 2 ->
  Category_eqb (category ty) Function = true ->
  FunctionKind_eqb (kind ty) External = true ->
  isImplicitlyConvertibleTo C src ty = true -> hasBoundFirstArgument ty = false ->
  combineExternalFunctionType C false = OK cb ->
  generates (GenericStorageItem_storeValue C tr ty src loc mv) c
    (packedStoreCode tr w 2 cb mv).
Proof.
  intros Hv Hw Hr Hn Hc Hk Hi Hb Hcb.
  rewrite storeValue_value_type by assumption.
  rewrite Hw, Hn, Hc, Hk, Hi, Hb, Hcb.
  destruct (Z.leb_spec w 32); [|lia].
  destruct (Z.gtb_spec w 0); [|lia].
  destruct (Z.eqb_spec w 32); [lia|].
  rewrite !u32_small by lia. change (3 + 2) with 5. change (2 =? 2) with true.
  cbn [negb].
  destruct mv;
    (eapply generates_eq;
     [ repeat gen_step
     | rewrite ?Hn; unfold packedStoreCode, storePrefix, storeSuffix; list_norm; reflexivity ]).
Qed.

Lemma storeValue_full_generates tr ty src loc mv c cv :
  isValueType ty = true -> storageBytes ty = 32 -> sizeOnStack ty = 1 ->
  convertType C src ty true false = OK cv ->
  generates (GenericStorageItem_storeValue C tr ty src loc mv) c (fullStoreCode tr cv mv).
Proof.
  intros Hv Hw Hn Hcv.
  rewrite storeValue_value_type by assumption.
  rewrite Hw, Hn, Hcv. change (32 <=? 32) with true. change (32 >? 0) with true.
  change (32 =? 32) with true. change (1 =? 1) with true. cbv iota.
  destruct mv; cbn [negb];
    (eapply generates_eq;
     [ repeat gen_step | unfold fullStoreCode; list_norm; reflexivity ]).
Qed.

Lemma storeValue_alignment_fails tr ty src loc mv c e :
  isValueType ty = true -> 0 < storageBytes ty < 32 -> 0 <= sizeOnStack ty <= 13 ->
  (forall c0,
     fails
       (if Category_eqb (category ty) Function then
          solAssert (isImplicitlyConvertibleTo C src ty)
            "function item stored but target is not implicitly convertible to source" ;;
          solAssert (negb (hasBoundFirstArgument ty)) "" ;;
          if FunctionKind_eqb (kind ty) External then
            solAssert (sizeOnStack ty =? 2) "" ;;
            append (combineExternalFunctionType C false)
          else
            solAssert (sizeOnStack ty =? 1) "" ;;
            emit (Push (byteMask (storageBytes ty))) ;; emit AND
        else if leftAligned ty then
          solAssert
            (Category_eqb (category src) FixedBytes ||
             match encodingType src with
             | Some e => Category_eqb (category e) FixedBytes
             | None => false
             end) "source not fixed bytes" ;;
          rightShiftNumberOnStack (Word.u32 (256 - 8 * storageBytes ty))
        else
          solAssert (sizeOnStack ty =? 1) "Invalid stack size for opaque type." ;;
          append (convertType C src ty true true)) c0 e) ->
  fails (GenericStorageItem_storeValue C tr ty src loc mv) c e.
Proof.
  intros Hv Hw Hn Hbranch. rewrite storeValue_value_type by assumption.
  destruct (Z.leb_spec (storageBytes ty) 32); [|lia].
  destruct (Z.gtb_spec (storageBytes ty) 0); [|lia].
  destruct (Z.eqb_spec (storageBytes ty) 32); [lia|].
  rewrite u32_small by lia.
  eapply bind_fails_right; [apply ret_generates|].
  eapply bind_fails_right; [apply ret_generates|].
  eapply bind_fails_right; [apply emitAll_generates|].
  eapply bind_fails_right; [apply emitAll_generates|].
  eapply bind_fails_right; [apply emitAll_generates|].
  eapply bind_fails_right; [apply emitAll_generates|].
  eapply bind_fails_right; [apply copyToStackTop_generates; lia|].
  apply bind_fails_left. apply Hbranch.
Qed.

Lemma setToZero_value_type tr ty loc rm :
  Category_eqb (category ty) Array = false ->
  Category_eqb (category ty) Struct = false ->
  GenericStorageItem_setToZero C tr ty loc rm =
    (solAssert (isValueType ty)
       (String.append "Clearing of unsupported type requested: " (toString C ty)) ;;
     (if negb rm then copyToStackTop 2 2 else ret tt) ;;
     if storageBytes ty =? 32 then
       emitAll [Operation POP; Push 0; Operation (SWAP 1);
                Operation (m_storeInstruction tr)]
     else
       emitAll [Push 256; Operation EXP] ;;
       emitAll [Operation (DUP 2); Operation (m_loadInstruction tr)] ;;
       emitAll [Operation (SWAP 1); Push (byteMask (storageBytes ty)); Operation MUL] ;;
       emitAll [Operation NOT; Operation AND] ;;
       emitAll [Operation (SWAP 1); Operation (m_storeInstruction tr)]).
Proof.
  intros Ha Hs. destruct ty; simpl in Ha, Hs |- *. rewrite Ha, Hs. reflexivity.
Qed.

Lemma setToZero_value_generates tr ty loc rm c :
  Category_eqb (category ty) Array = false ->
  Category_eqb (category ty) Struct = false ->
  isValueType ty = true ->
  generates (GenericStorageItem_setToZero C tr ty loc rm) c
    (duplicateOperands rm ++ zeroCode tr (storageBytes ty)).
Proof.
  intros Ha Hs Hv. rewrite setToZero_value_type by assumption. rewrite Hv.
  unfold zeroCode.
  unfold duplicateOperands.
  destruct rm, (storageBytes ty =? 32); cbn [negb];
    (eapply generates_eq; [ repeat gen_step | list_norm; reflexivity ]).
Qed.

Lemma retrieveValue_full_generates tr ty loc rm c :
  isValueType ty = true -> storageBytes ty = 32 ->
  generates (GenericStorageItem_retrieveValue C tr ty loc rm) c
    (duplicateOperands rm ++ [Operation POP; Operation (m_loadInstruction tr)]).
Proof.
  intros Hv Hw. unfold GenericStorageItem_retrieveValue. rewrite Hv, Hw.
  change (32 =? 32) with true. cbn [negb]. unfold duplicateOperands.
  destruct rm; cbn [negb];
    (eapply generates_eq; [ repeat gen_step | list_norm; reflexivity ]).
Qed.

Lemma readType_bind ty t (k : Ty -> Gen unit) c :
  readType ty = Some t ->
  bind (if Category_eqb (category ty) UserDefinedValueType
        then match encodingType ty with
             | Some t => ret t
             | None => throw (InternalCompilerError "null encoding type")
             end
        else ret ty) k c = k t c.
Proof.
  unfold readType. destruct (Category_eqb (category ty) UserDefinedValueType).
  - intros ->. reflexivity.
  - intros [= ->]. reflexivity.
Qed.

Lemma retrieveValue_packed tr ty loc rm c t w :
  isValueType ty = true -> storageBytes ty = w -> w <> 32 -> readType ty = Some t ->
  forall code,
  generates
    (cleaned <-
        (if Category_eqb (category t) FixedPoint then
           solUnimplemented "Not yet implemented - FixedPointType."
         else if Category_eqb (category t) Function then
           if FunctionKind_eqb (kind t) External then
             append (splitExternalFunctionType C false) ;;
             ret true
           else if FunctionKind_eqb (kind t) Internal then
             emit (DUP 1) ;; emit ISZERO ;;
             append (pushZeroValue C t) ;;
             emit MUL ;; emit OR ;;
             ret false
           else ret false
         else if leftAligned t then
           leftShiftNumberOnStack (Word.u32 (256 - 8 * storageBytes t)) ;;
           ret true
         else if Category_eqb (category t) Integer && isSigned t then
           emit (Push (Word.u32 (storageBytes t - 1))) ;; emit SIGNEXTEND ;;
           ret true
         else ret false) ;;
      if negb cleaned then
        solAssert (sizeOnStack t =? 1) "" ;;
        emit (Push (byteMask (storageBytes t))) ;; emit AND
      else ret tt)
    (appended c (duplicateOperands rm ++ retrievePrefix)) code ->
  generates (GenericStorageItem_retrieveValue C tr ty loc rm) c
    (duplicateOperands rm ++ retrievePrefix ++ code).
Proof.
  intros Hv Hw Hne Ht code H. unfold GenericStorageItem_retrieveValue. rewrite Hv, Hw.
  destruct (Z.eqb_spec w 32); [contradiction|]. cbn [negb].
  apply (bind_generates _ _ c (duplicateOperands rm) (retrievePrefix ++ code)).
  { unfold duplicateOperands.
    destruct rm; cbn [negb]; [apply ret_generates | apply copyToStackTop_generates; lia]. }
  cbv beta. unfold generates. rewrite readType_bind with (t := t) by exact Ht.
  apply (bind_generates _ _ _ retrievePrefix code); [apply emitAll_generates|].
  rewrite appended_app. exact H.
Qed.

Lemma retrieveValue_unsigned_generates tr ty loc rm c t w :
  isValueType ty = true -> storageBytes ty = w -> w <> 32 -> readType ty = Some t ->
  storageBytes t = w -> sizeOnStack t = 1 ->
  Category_eqb (category t) FixedPoint = false ->
  Category_eqb (category t) Function = false ->
  leftAligned t = false ->
  Category_eqb (category t) Integer && isSigned t = false ->
  generates (GenericStorageItem_retrieveValue C tr ty loc rm) c
    (duplicateOperands rm ++ retrievePrefix ++ [Push (byteMask w); Operation AND]).
Proof.
  intros Hv Hw Hne Ht Htw Hn Hfp Hfn Hl Hs.
  apply retrieveValue_packed with (t := t) (w := w); try assumption.
  rewrite Hfp, Hfn, Hl, Hs, Hn, Htw. change (1 =? 1) with true.
  eapply generates_eq; [repeat gen_step | list_norm; reflexivity].
Qed.

Lemma retrieveValue_signed_generates tr ty loc rm c t w :
  isValueType ty = true -> storageBytes ty = w -> w <> 32 -> readType ty = Some t ->
  storageBytes t = w ->
  Category_eqb (category t) FixedPoint = false ->
  Category_eqb (category t) Function = false ->
  leftAligned t = false ->
  Category_eqb (category t) Integer && isSigned t = true ->
  generates (GenericStorageItem_retrieveValue C tr ty loc rm) c
    (duplicateOperands rm ++ retrievePrefix ++ [Push (Word.u32 (w - 1)); Operation SIGNEXTEND]).
Proof.
  intros Hv Hw Hne Ht Htw Hfp Hfn Hl Hs.
  apply retrieveValue_packed with (t := t) (w := w); try assumption.
  rewrite Hfp, Hfn, Hl, Hs, Htw.
  eapply generates_eq; [repeat gen_step | list_norm; reflexivity].
Qed.

Lemma retrieveValue_leftAligned_generates tr ty loc rm c t w :
  isValueType ty = true -> storageBytes ty = w -> 0 < w < 32 -> readType ty = Some t ->
  storageBytes t = w ->
  Category_eqb (category t) FixedPoint = false ->
  Category_eqb (category t) Function = false ->
  leftAligned t = true ->
  generates (GenericStorageItem_retrieveValue C tr ty loc rm) c
    (duplicateOperands rm ++ retrievePrefix
     ++ leftShiftCode (hasBitwiseShifting c) (256 - 8 * w)).
Proof.
  intros Hv Hw Hr Ht Htw Hfp Hfn Hl.
  apply retrieveValue_packed with (t := t) (w := w); try assumption; [lia|].
  rewrite Hfp, Hfn, Hl, Htw. rewrite u32_small by lia.
  eapply generates_eq; [repeat gen_step | list_norm; reflexivity].
Qed.

Lemma retrieveValue_fixedPoint_fails tr ty loc rm c t :
  isValueType ty = true -> storageBytes ty <> 32 -> readType ty = Some t ->
  Category_eqb (category t) FixedPoint = true ->
  fails (GenericStorageItem_retrieveValue C tr ty loc rm) c
    (UnimplementedFeatureError "Not yet implemented - FixedPointType.").
Proof.
  intros Hv Hne Ht Hfp. unfold GenericStorageItem_retrieveValue. rewrite Hv.
  destruct (Z.eqb_spec (storageBytes ty) 32); [contradiction|]. cbn [negb].
  apply (bind_fails_right _ _ c (duplicateOperands rm)).
  { unfold duplicateOperands.
    destruct rm; cbn [negb]; [apply ret_generates | apply copyToStackTop_generates; lia]. }
  unfold fails. rewrite readType_bind with (t := t) by exact Ht.
  apply (bind_fails_right _ _ _ retrievePrefix); [apply emitAll_generates|].
  rewrite Hfp. reflexivity.
Qed.
End StorageCodeGeneration.

(** ** Execution of the codec *)

Lemma exec_app a b s :
  EVM.exec (a ++ b) s = match EVM.exec a s with Some s' => EVM.exec b s' | None => None end.
Proof.
  revert s. induction a as [|it a IH]; intros s; simpl; [reflexivity|].
  destruct (EVM.exec1 it s); [apply IH|reflexivity].
Qed.

Lemma exec_storePrefix tr w o key st s :
  EVM.exec (storePrefix tr w) (withStack (o :: key :: st) s)
  = Some (withStack
            (Word.exp 256 o
             :: Z.land (Word.bitnot (Word.mul (byteMask w) (Word.exp 256 o))) (slots tr s key)
             :: key :: st) s).
Proof. destruct tr; reflexivity. Qed.

Lemma exec_storeSuffix tr x m cleared key st s :
  EVM.exec (storeSuffix tr) (withStack (x :: m :: cleared :: key :: st) s)
  = Some (withSlot tr st s key (Z.lor (Word.mul x m) cleared)).
Proof. destruct tr; reflexivity. Qed.

Lemma exec_withSlot_pops tr n st s key v (k : nat) :
  k = Z.to_nat n ->
  EVM.exec (pops n) (withSlot tr st s key v)
  = if (k <=? List.length st)%nat then Some (withSlot tr (skipn k st) s key v) else None.
Proof.
  intros ->. unfold pops. revert st.
  induction (Z.to_nat n) as [|m IH]; intros st.
  - destruct tr; reflexivity.
  - destruct st as [|a st].
    + destruct tr; reflexivity.
    + cbn [repeat]. change (S m <=? List.length (a :: st))%nat with (m <=? List.length st)%nat.
      change (skipn (S m) (a :: st)) with (skipn m st).
      rewrite <- IH. destruct tr; reflexivity.
Qed.

Lemma exec_packedStore_1 tr w align f mv o key v rest s :
  computes align 1 f -> Word.isWord v ->
  EVM.exec (packedStoreCode tr w 1 align mv) (withStack (o :: key :: v :: rest) s)
  = Some (withSlot tr (if mv then rest else v :: rest) s key
            (packed w o (slots tr s key) (f [v]))).
Proof.
  intros Hal Hv. unfold packedStoreCode.
  rewrite exec_app, exec_storePrefix.
  change (dups (3 + 1) 1) with [Operation (DUP 4)].
  rewrite exec_app.
  match goal with
  | |- context [EVM.exec [Operation (DUP 4)] (withStack (?m :: ?cl :: key :: v :: rest) s)] =>
      change (EVM.exec [Operation (DUP 4)] (withStack (m :: cl :: key :: v :: rest) s))
        with (Some (withStack ([v] ++ m :: cl :: key :: v :: rest) s))
  end.
  cbv beta iota.
  rewrite exec_app, Hal by (reflexivity || (constructor; [assumption|constructor])).
  rewrite exec_app, exec_storeSuffix.
  destruct mv.
  - rewrite (exec_withSlot_pops tr 1 _ s key _ 1%nat) by reflexivity. reflexivity.
  - reflexivity.
Qed.

Lemma exec_packedStore_2 tr w align f mv o key v1 v2 rest s :
  computes align 2 f -> Word.isWord v1 -> Word.isWord v2 ->
  EVM.exec (packedStoreCode tr w 2 align mv) (withStack (o :: key :: v1 :: v2 :: rest) s)
  = Some (withSlot tr (if mv then rest else v1 :: v2 :: rest) s key
            (packed w o (slots tr s key) (f [v1; v2]))).
Proof.
  intros Hal Hv1 Hv2. unfold packedStoreCode.
  rewrite exec_app, exec_storePrefix.
  change (dups (3 + 2) 2) with [Operation (DUP 5); Operation (DUP 5)].
  rewrite exec_app.
  match goal with
  | |- context [EVM.exec [Operation (DUP 5); Operation (DUP 5)]
                  (withStack (?m :: ?cl :: key :: v1 :: v2 :: rest) s)] =>
      change (EVM.exec [Operation (DUP 5); Operation (DUP 5)]
                (withStack (m :: cl :: key :: v1 :: v2 :: rest) s))
        with (Some (withStack ([v1; v2] ++ m :: cl :: key :: v1 :: v2 :: rest) s))
  end.
  cbv beta iota.
  rewrite exec_app, Hal
    by (reflexivity || (constructor; [assumption|constructor; [assumption|constructor]])).
  rewrite exec_app, exec_storeSuffix.
  destruct mv.
  - rewrite (exec_withSlot_pops tr 2 _ s key _ 2%nat) by reflexivity. reflexivity.
  - reflexivity.
Qed.

Lemma exec_zeroCode_packed tr w o key rest s :
  w <> 32 ->
  EVM.exec (zeroCode tr w) (withStack (o :: key :: rest) s)
  = Some (withSlot tr rest s key (packed w o (slots tr s key) 0)).
Proof.
  intros H. unfold zeroCode. destruct (Z.eqb_spec w 32); [contradiction|].
  destruct tr; reflexivity.
Qed.

Lemma exec_zeroCode_full tr o key rest s :
  EVM.exec (zeroCode tr 32) (withStack (o :: key :: rest) s)
  = Some (withSlot tr rest s key 0).
Proof. destruct tr; reflexivity. Qed.

Lemma exec_duplicateOperands rm o key rest s :
  EVM.exec (duplicateOperands rm) (withStack (o :: key :: rest) s)
  = Some (withStack (o :: key :: (if rm then rest else o :: key :: rest)) s).
Proof. destruct rm; reflexivity. Qed.

Lemma exec_retrievePrefix o key rest s :
  EVM.exec retrievePrefix (withStack (o :: key :: rest) s)
  = Some (withStack (Word.div (EVM.storage s key) (Word.exp 256 o) :: rest) s).
Proof. reflexivity. Qed.

(** ** Packed writes change only their window *)

Lemma computes_mask w :
  0 <= w <= 32 ->
  computes [Push (byteMask w); Operation AND] 1 (fun vs => Z.land (byteMask w) (hd 0 vs)).
Proof.
  intros Hw vs rest s Hlen _.
  destruct vs as [|v [|? ?]]; try discriminate. reflexivity.
Qed.

Lemma computes_rightShift shifting k :
  0 <= k < 256 ->
  computes (rightShiftCode shifting k) 1 (fun vs => Z.shiftr (hd 0 vs) k).
Proof.
  intros Hk vs rest s Hlen _.
  destruct vs as [|v [|? ?]]; try discriminate.
  destruct shifting; cbn [rightShiftCode app hd].
  - change (EVM.exec [Push k; Operation SHR] (withStack (v :: rest) s))
      with (Some (withStack (Word.shr k v :: rest) s)).
    unfold Word.shr. destruct (Z.ltb_spec k 256); [reflexivity|lia].
  - change (EVM.exec [Push (Z.shiftl 1 k); Operation (SWAP 1); Operation DIV]
              (withStack (v :: rest) s))
      with (Some (withStack (Word.div v (Z.shiftl 1 k) :: rest) s)).
    unfold Word.div. rewrite Z.shiftl_1_l.
    assert (0 < 2 ^ k) by (apply Z.pow_pos_nonneg; lia).
    destruct (Z.eqb_spec (2 ^ k) 0); [lia|].
    now rewrite Z.shiftr_div_pow2 by lia.
Qed.

Lemma computes_leftShift shifting k :
  0 <= k < 256 ->
  computes (leftShiftCode shifting k) 1 (fun vs => Word.wrap (Z.shiftl (hd 0 vs) k)).
Proof.
  intros Hk vs rest s Hlen _.
  destruct vs as [|v [|? ?]]; try discriminate.
  destruct shifting; cbn [leftShiftCode app hd].
  - change (EVM.exec [Push k; Operation SHL] (withStack (v :: rest) s))
      with (Some (withStack (Word.shl k v :: rest) s)).
    unfold Word.shl. destruct (Z.ltb_spec k 256); [reflexivity|lia].
  - change (EVM.exec [Push (Z.shiftl 1 k); Operation MUL] (withStack (v :: rest) s))
      with (Some (withStack (Word.mul (Z.shiftl 1 k) v :: rest) s)).
    unfold Word.mul. rewrite Z.shiftl_1_l, Z.shiftl_mul_pow2 by lia.
    do 4 f_equal. lia.
Qed.

Lemma computes_mask_mod w :
  0 <= w <= 32 ->
  computes [Push (byteMask w); Operation AND] 1 (fun vs => hd 0 vs mod 2 ^ (8 * w)).
Proof.
  intros Hw vs rest s Hlen _.
  destruct vs as [|v [|? ?]]; try discriminate. cbn [hd].
  rewrite <- Z.land_ones, Z.land_comm, <- byteMask_ones by lia. reflexivity.
Qed.

Lemma land_mask_range w v : 0 <= w <= 32 -> 0 <= Z.land (byteMask w) v < 2 ^ (8 * w).
Proof.
  intros Hw. rewrite byteMask_ones, Z.land_comm, Z.land_ones by lia.
  apply Z.mod_pos_bound. apply Z.pow_pos_nonneg; lia.
Qed.

Lemma onlyWindowChanged_replaceWindow w o old x :
  packedField w o -> Word.isWord old -> 0 <= x < 2 ^ (8 * w) ->
  onlyWindowChanged w o old (replaceWindow w o old x).
Proof.
  intros (Hw & Ho & How) Hold Hx. split.
  - intros n Hn Hout. rewrite testbit_replaceWindow by (assumption || lia).
    now rewrite Hout.
  - intros w' o' Hw' Ho' Hdis.
    apply field_replaceWindow_disjoint; assumption || lia.
Qed.

Section PackedWrite.
Variable C : Collaborators.

Lemma PackedAlignment_sound ty src w shifting n align f :
  0 < w < 32 ->
  PackedAlignment C ty src w shifting n align f ->
  computes align n f
  /\ (forall vs, List.length vs = n -> Forall Word.isWord vs -> 0 <= f vs < 2 ^ (8 * w))
  /\ (n = 1%nat \/ n = 2%nat) /\ sizeOnStack ty = Z.of_nat n.
Proof.
  intros Hw H. destruct H.
  - repeat split; try assumption; try (now right); intros; apply H6.
  - repeat split; try assumption; try (now left).
    + apply computes_mask; lia.
    + apply land_mask_range; lia.
    + apply land_mask_range; lia.
  - repeat split; try assumption; try (now left).
    + apply computes_rightShift; lia.
    + destruct vs as [|v [|? ?]]; try discriminate. cbn [hd].
      inversion H4; subst. apply shiftr_range; assumption.
    + destruct vs as [|v [|? ?]]; try discriminate. cbn [hd].
      inversion H4; subst. apply shiftr_range; assumption.
  - repeat split; try assumption; try (now left);
      apply Z.mod_pos_bound; apply Z.pow_pos_nonneg; lia.
Qed.

Lemma PackedAlignment_generates tr ty src loc mv c w n align f :
  isValueType ty = true -> storageBytes ty = w -> 0 < w < 32 ->
  PackedAlignment C ty src w (hasBitwiseShifting c) n align f ->
  generates (GenericStorageItem_storeValue C tr ty src loc mv) c
    (packedStoreCode tr w (Z.of_nat n) align mv).
Proof.
  intros Hv Hw Hr H. destruct H.
  - now apply storeValue_external_generates.
  - now apply storeValue_function_generates.
  - now apply storeValue_leftAligned_generates.
  - now apply storeValue_plain_generates.
Qed.
End PackedWrite.

(** C3. A packed write or zero of a value type of [w < 32] bytes at byte
    offset [o] stores back the loaded word with only the window of [w] bytes
    at [o] changed: the stored word is the old one ANDed with the complement
    of [((1 << 8w) - 1) << 8o] and ORed with the aligned value (zero for
    [setToZero]), so every bit outside the window, and every field packed at a
    disjoint byte range of the word, is unchanged.  This holds for the
    persistent and for the transient variant, and for each of the ways the
    code aligns a value. *)
Theorem packed_write_changes_only_its_window (C : Collaborators) (tr : bool)
    (ty src : Ty) (loc : SourceLocation) (flag : bool) (c : CompilerContext)
    (w o key : Z) (vs rest : list Z) (s : EVM.State)
    (align : list AssemblyItem) (f : list Z -> Z) :
  isValueType ty = true ->
  Category_eqb (category ty) Array = false ->
  Category_eqb (category ty) Struct = false ->
  storageBytes ty = w -> packedField w o ->
  PackedAlignment C ty src w (hasBitwiseShifting c) (List.length vs) align f ->
  Forall Word.isWord vs -> Word.isWord (slots tr s key) ->
  (exists code,
      generates (LValue_storeValue C (GenericStorageItem tr ty) src loc flag) c code
      /\ EVM.exec code (withStack (o :: key :: vs ++ rest) s)
         = Some (withSlot tr (if flag then rest else vs ++ rest) s key
                   (replaceWindow w o (slots tr s key) (f vs)))
      /\ 0 <= f vs < 2 ^ (8 * w)
      /\ onlyWindowChanged w o (slots tr s key) (replaceWindow w o (slots tr s key) (f vs)))
  /\ (exists code,
      generates (LValue_setToZero C (GenericStorageItem tr ty) loc flag) c code
      /\ EVM.exec code (withStack (o :: key :: rest) s)
         = Some (withSlot tr (if flag then rest else o :: key :: rest) s key
                   (replaceWindow w o (slots tr s key) 0))
      /\ onlyWindowChanged w o (slots tr s key) (replaceWindow w o (slots tr s key) 0)).
Proof.
  intros Hv Ha Hs Hw Hf Hal Hvs Hold.
  pose proof Hf as (Hr & Ho & How).
  destruct (PackedAlignment_sound C _ _ _ _ _ _ _ Hr Hal) as (Hcomp & Hrange & Hn & Hsize).
  specialize (Hrange vs eq_refl Hvs).
  split.
  - exists (packedStoreCode tr w (Z.of_nat (List.length vs)) align flag).
    split; [now apply PackedAlignment_generates with (f := f)|].
    split; [|split; [assumption|now apply onlyWindowChanged_replaceWindow]].
    rewrite <- packed_replaceWindow by (assumption || lia).
    destruct Hn as [Hn|Hn].
    + destruct vs as [|v [|? ?]]; try discriminate.
      inversion Hvs; subst.
      destruct flag; apply exec_packedStore_1; assumption.
    + destruct vs as [|v1 [|v2 [|? ?]]]; try discriminate.
      inversion Hvs as [|? ? Hv1 Hvs']; subst. inversion Hvs'; subst.
      destruct flag; apply exec_packedStore_2; assumption.
  - exists (duplicateOperands flag ++ zeroCode tr w).
    split; [rewrite <- Hw; now apply setToZero_value_generates|].
    split; [|apply onlyWindowChanged_replaceWindow; [assumption|assumption|]].
    + rewrite exec_app, exec_duplicateOperands, exec_zeroCode_packed by lia.
      rewrite <- packed_replaceWindow by (assumption || lia || (split; [lia|apply Z.pow_pos_nonneg; lia])).
      destruct flag; reflexivity.
    + split; [lia|apply Z.pow_pos_nonneg; lia].
Qed.

(** The write of the byte [0xAB] into byte 3 of a word that holds
    [0x1122334455], and the zeroing of that byte. *)
Lemma packed_write_changes_only_its_window_witness :
  let old := 73588229205 in
  let s := Example.state [] (fun _ => old) in
  let f := fun vs : list Z => hd 0 vs mod 2 ^ (8 * 1) in
  (exists code,
      generates (LValue_storeValue Example.collaborators
                   (GenericStorageItem false (Example.uint 8)) (Example.uint 8)
                   noLocation true) (Example.context true 3) code
      /\ EVM.exec code (withStack (3 :: 5 :: [171] ++ []) s)
         = Some (withSlot false [] s 5 (replaceWindow 1 3 (slots false s 5) (f [171])))
      /\ 0 <= f [171] < 2 ^ (8 * 1)
      /\ onlyWindowChanged 1 3 (slots false s 5)
           (replaceWindow 1 3 (slots false s 5) (f [171])))
  /\ (exists code,
      generates (LValue_setToZero Example.collaborators
                   (GenericStorageItem false (Example.uint 8)) noLocation true)
        (Example.context true 3) code
      /\ EVM.exec code (withStack (3 :: 5 :: []) s)
         = Some (withSlot false [] s 5 (replaceWindow 1 3 (slots false s 5) 0))
      /\ onlyWindowChanged 1 3 (slots false s 5)
           (replaceWindow 1 3 (slots false s 5) 0)).
Proof.
  intros old s f.
  apply (packed_write_changes_only_its_window Example.collaborators false
           (Example.uint 8) (Example.uint 8) noLocation true (Example.context true 3)
           1 3 5 [171] [] s [Push (byteMask 1); Operation AND] f).
  - reflexivity.
  - reflexivity.
  - reflexivity.
  - reflexivity.
  - unfold packedField. lia.
  - apply AlignRight; try reflexivity. apply computes_mask_mod. lia.
  - constructor; [unfold Word.isWord, Word.modulus; lia|constructor].
  - unfold Word.isWord, Word.modulus. simpl. lia.
Defined.

(** ** The round trip through packed storage *)

Lemma exec_fullStore tr cv mv o key v rest s :
  computes cv 1 (fun vs => hd 0 vs) -> Word.isWord v ->
  EVM.exec (fullStoreCode tr cv mv) (withStack (o :: key :: v :: rest) s)
  = Some (withSlot tr (if mv then rest else v :: rest) s key v).
Proof.
  intros Hcv Hv. unfold fullStoreCode.
  assert (Hc : forall st, EVM.exec cv (withStack (v :: st) s) = Some (withStack (v :: st) s)).
  { intros st. apply (Hcv [v] st s); [reflexivity|constructor; [assumption|constructor]]. }
  destruct mv; cbn [app].
  - change (EVM.exec (Operation POP :: Operation (SWAP 1) :: ?t) ?st)
      with (EVM.exec ([Operation POP; Operation (SWAP 1)] ++ t) st).
    rewrite exec_app.
    change (EVM.exec [Operation POP; Operation (SWAP 1)] (withStack (o :: key :: v :: rest) s))
      with (Some (withStack (v :: key :: rest) s)).
    cbv beta iota. rewrite exec_app, Hc.
    destruct tr; reflexivity.
  - change (EVM.exec (Operation POP :: Operation (DUP 2) :: Operation (SWAP 1)
                      :: Operation (SWAP 1) :: ?t) ?st)
      with (EVM.exec ([Operation POP; Operation (DUP 2); Operation (SWAP 1);
                       Operation (SWAP 1)] ++ t) st).
    rewrite exec_app.
    change (EVM.exec [Operation POP; Operation (DUP 2); Operation (SWAP 1);
                      Operation (SWAP 1)] (withStack (o :: key :: v :: rest) s))
      with (Some (withStack (v :: key :: v :: rest) s)).
    cbv beta iota. rewrite exec_app, Hc.
    destruct tr; reflexivity.
Qed.

Lemma exec_retrieve_full rm o key st s :
  EVM.exec (duplicateOperands rm ++ [Operation POP; Operation (m_loadInstruction false)])
    (withStack (o :: key :: st) s)
  = Some (withStack (EVM.storage s key :: (if rm then [] else [o; key]) ++ st) s).
Proof. destruct rm; reflexivity. Qed.

Lemma exec_retrieve_packed rm o key st s tail f :
  computes tail 1 f -> Word.isWord (Word.div (EVM.storage s key) (Word.exp 256 o)) ->
  EVM.exec (duplicateOperands rm ++ retrievePrefix ++ tail) (withStack (o :: key :: st) s)
  = Some (withStack (f [Word.div (EVM.storage s key) (Word.exp 256 o)]
                     :: (if rm then [] else [o; key]) ++ st) s).
Proof.
  intros Ht Hw. rewrite exec_app, exec_duplicateOperands. cbv beta iota.
  rewrite exec_app, exec_retrievePrefix. cbv beta iota.
  pose proof (Ht [Word.div (EVM.storage s key) (Word.exp 256 o)]
                (if rm then st else o :: key :: st) s eq_refl
                (Forall_cons _ Hw (Forall_nil _))) as E.
  cbn [app] in E. rewrite E.
  destruct rm; reflexivity.
Qed.

Lemma isWord_div_exp256 word o :
  0 <= o <= 31 -> Word.isWord word -> Word.isWord (Word.div word (Word.exp 256 o)).
Proof.
  intros Ho Hword. rewrite div_exp256 by lia. unfold Word.isWord in *.
  rewrite Z.shiftr_div_pow2 by lia.
  assert (0 < 2 ^ (8 * o)) by (apply Z.pow_pos_nonneg; lia).
  split; [apply Z.div_pos; lia|].
  apply Z.le_lt_trans with word; [|lia].
  apply Z.div_le_upper_bound; [lia|]. nia.
Qed.

Lemma computes_signextend w :
  computes [Push (Word.u32 (w - 1)); Operation SIGNEXTEND] 1
    (fun vs => Word.signextend (Word.u32 (w - 1)) (hd 0 vs)).
Proof.
  intros vs rest s Hlen _. destruct vs as [|v [|? ?]]; try discriminate. reflexivity.
Qed.

Lemma storage_withSlot st s key v :
  EVM.storage (withSlot false st s key v) key = v.
Proof. unfold withSlot, EVM.upd; cbn. now rewrite Z.eqb_refl. Qed.

Lemma withStack_withSlot st st' s key v :
  withStack st' (withSlot false st s key v) = withSlot false st' s key v.
Proof. reflexivity. Qed.

Lemma slots_withSlot_same tr st s key v : slots tr (withSlot tr st s key v) key = v.
Proof. destruct tr; unfold slots, withSlot, EVM.upd; cbn; now rewrite Z.eqb_refl. Qed.

Lemma slots_withSlot_other tr st s key v k :
  k <> key -> slots tr (withSlot tr st s key v) k = slots tr s k.
Proof.
  intros H. destruct tr; unfold slots, withSlot, EVM.upd; cbn;
    destruct (Z.eqb_spec k key); congruence.
Qed.

Lemma slots_withSlot_negb tr st s key v :
  slots (negb tr) (withSlot tr st s key v) = slots (negb tr) s.
Proof. destruct tr; reflexivity. Qed.

Lemma div_mod_field w o word :
  0 <= w -> 0 <= o <= 31 ->
  Word.div word (Word.exp 256 o) mod 2 ^ (8 * w) = field w o word.
Proof.
  intros Hw Ho. rewrite div_exp256 by lia. unfold field.
  rewrite !pow256 by lia. now rewrite Z.shiftr_div_pow2 by lia.
Qed.

Lemma computes_internal_function w zero z :
  0 <= w <= 32 -> Word.isWord z ->
  (forall st s, EVM.exec zero (withStack st s) = Some (withStack (z :: st) s)) ->
  computes ([Operation (DUP 1); Operation ISZERO] ++ zero
            ++ [Operation MUL; Operation OR; Push (byteMask w); Operation AND]) 1
    (fun vs => if hd 0 vs =? 0 then z mod 2 ^ (8 * w) else hd 0 vs mod 2 ^ (8 * w)).
Proof.
  intros Hw Hz Hzero vs rest s Hlen Hvs.
  destruct vs as [|x [|? ?]]; try discriminate. cbn [hd app].
  change (EVM.exec (Operation (DUP 1) :: Operation ISZERO :: ?t) (withStack (x :: rest) s))
    with (EVM.exec t (withStack (Word.iszero x :: x :: rest) s)).
  rewrite exec_app, Hzero.
  change (EVM.exec [Operation MUL; Operation OR; Push (byteMask w); Operation AND]
            (withStack (z :: Word.iszero x :: x :: rest) s))
    with (Some (withStack
                  (Z.land (byteMask w) (Z.lor (Word.mul z (Word.iszero x)) x) :: rest) s)).
  do 3 f_equal. rewrite byteMask_ones, Z.land_comm, Z.land_ones by lia.
  unfold Word.iszero, Word.mul. destruct (Z.eqb_spec x 0) as [->|Hx].
  - rewrite Z.mul_1_r, wrap_small, Z.lor_0_r by assumption. reflexivity.
  - rewrite Z.mul_0_r. reflexivity.
Qed.

Section RoundTrip.
Variable C : Collaborators.

Lemma roundTrip_full ty o key v move remove c c' convert :
  isValueType ty = true -> storageBytes ty = 32 -> sizeOnStack ty = 1 ->
  Word.isWord v ->
  convertType C ty ty true false = OK convert ->
  computes convert 1 (fun vs => hd 0 vs) ->
  roundTrip C ty o key v move remove c c'.
Proof.
  intros Hv Hw Hn Hword Hcv Hcomp.
  exists (fullStoreCode false convert move),
         (duplicateOperands remove ++ [Operation POP; Operation (m_loadInstruction false)]).
  split; [now apply storeValue_full_generates|].
  split; [now apply retrieveValue_full_generates|].
  intros rest s Hold.
  exists (withSlot false (if move then rest else v :: rest) s key v).
  split; [now apply exec_fullStore|]. split; [reflexivity|].
  change (EVM.stack (withSlot false ?st s key ?x)) with st.
  rewrite exec_retrieve_full, storage_withSlot. reflexivity.
Qed.

Lemma roundTrip_packed ty w o key v move remove c c' align f tail g :
  isValueType ty = true -> storageBytes ty = w -> packedField w o ->
  PackedAlignment C ty ty w (hasBitwiseShifting c) 1 align f ->
  generates (GenericStorageItem_retrieveValue C false ty noLocation remove) c'
    (duplicateOperands remove ++ retrievePrefix ++ tail) ->
  computes tail 1 g ->
  Word.isWord v ->
  (forall old, Word.isWord old ->
     g [Word.div (replaceWindow w o old (f [v])) (Word.exp 256 o)] = v) ->
  roundTrip C ty o key v move remove c c'.
Proof.
  intros Hv Hw Hfield Hal Hgen Htail Hword Hback.
  pose proof Hfield as (Hr & Ho & How).
  destruct (PackedAlignment_sound C _ _ _ _ _ _ _ Hr Hal) as (Hcomp & Hrange & _ & _).
  specialize (Hrange [v] eq_refl (Forall_cons _ Hword (Forall_nil _))).
  exists (packedStoreCode false w 1 align move),
         (duplicateOperands remove ++ retrievePrefix ++ tail).
  split; [now apply (PackedAlignment_generates C false ty ty noLocation move c w 1 align f)|].
  split; [exact Hgen|].
  intros rest s Hold.
  exists (withSlot false (if move then rest else v :: rest) s key
            (replaceWindow w o (EVM.storage s key) (f [v]))).
  split.
  { rewrite <- packed_replaceWindow by (assumption || lia).
    now apply exec_packedStore_1. }
  split; [reflexivity|].
  change (EVM.stack (withSlot false ?st s key ?x)) with st.
  rewrite exec_retrieve_packed with (f := g); try assumption.
  - rewrite storage_withSlot, Hback by assumption. reflexivity.
  - rewrite storage_withSlot. apply isWord_div_exp256; [lia|].
    apply isWord_replaceWindow; assumption || lia.
Qed.

Lemma isUnsignedValue_isWord w v : 0 < w <= 32 -> isUnsignedValue w v -> Word.isWord v.
Proof.
  intros Hw Hval. unfold isUnsignedValue in Hval. unfold Word.isWord, Word.modulus.
  assert (2 ^ (8 * w) <= 2 ^ 256) by (apply Z.pow_le_mono_r; lia). lia.
Qed.

Lemma isValueOf_isWord t w v : 0 < w <= 32 -> isValueOf t w v -> Word.isWord v.
Proof.
  intros Hw Hval. unfold isValueOf in Hval.
  destruct (leftAligned t); [apply Hval|].
  destruct (Category_eqb (category t) Integer && isSigned t); [apply Hval|].
  now apply (isUnsignedValue_isWord w).
Qed.

Lemma round_trip_of_value ty t w o key v move remove c c' align f :
  RoundTripType ty t w -> 0 < w <= 32 -> 0 <= o -> o + w <= 32 ->
  isValueOf t w v ->
  (w < 32 -> PackedAlignment C ty ty w (hasBitwiseShifting c) 1 align f) ->
  (w = 32 -> convertType C ty ty true false = OK align
             /\ computes align 1 (fun vs => hd 0 vs)) ->
  roundTrip C ty o key v move remove c c'.
Proof.
  intros HT Hw Ho How Hval Hpacked Hfull.
  pose proof HT as (Hv & Ht & Hsb & Htw & Hn & Htn & Hl & Hf & Htf & Hfp).
  pose proof (isValueOf_isWord t w v Hw Hval) as Hword.
  destruct (Z.eq_dec w 32) as [->|Hne].
  - destruct (Hfull eq_refl) as [Hcv Hcomp].
    now apply roundTrip_full with (convert := align).
  - assert (Hr : 0 < w < 32) by lia.
    specialize (Hpacked ltac:(lia)).
    assert (Hfield : packedField w o) by (unfold packedField; lia).
    unfold isValueOf in Hval.
    inversion Hpacked as [| |Hfn Hleft Hsz Hsrc|convert Hfn Hleft Hsz Hcv Hcomp]; subst.
    + congruence.
    + (* left aligned *)
      rewrite Hl, Hleft in Hval.
      apply roundTrip_packed with (w := storageBytes ty)
        (align := rightShiftCode (hasBitwiseShifting c) (256 - 8 * storageBytes ty))
        (f := fun vs => Z.shiftr (hd 0 vs) (256 - 8 * storageBytes ty))
        (tail := leftShiftCode (hasBitwiseShifting c') (256 - 8 * storageBytes ty))
        (g := fun vs => Word.wrap (Z.shiftl (hd 0 vs) (256 - 8 * storageBytes ty)));
        try assumption; try reflexivity.
      * apply retrieveValue_leftAligned_generates with (t := t); try assumption; try reflexivity.
        congruence.
      * apply computes_leftShift. lia.
      * intros old Hold. cbn [hd]. apply left_extract; assumption || lia.
    + (* right aligned *)
      rewrite Hl, Hleft in Hval.
      destruct (Category_eqb (category t) Integer && isSigned t) eqn:Hsigned.
      * apply roundTrip_packed with (w := storageBytes ty)
          (align := align) (f := fun vs => hd 0 vs mod 2 ^ (8 * storageBytes ty))
          (tail := [Push (Word.u32 (storageBytes ty - 1)); Operation SIGNEXTEND])
          (g := fun vs => Word.signextend (Word.u32 (storageBytes ty - 1)) (hd 0 vs));
          try assumption; try reflexivity.
        -- apply retrieveValue_signed_generates with (t := t); try assumption; try reflexivity.
           congruence.
        -- apply computes_signextend.
        -- intros old Hold. cbn [hd]. apply signed_extract; assumption || lia.
      * apply roundTrip_packed with (w := storageBytes ty)
          (align := align) (f := fun vs => hd 0 vs mod 2 ^ (8 * storageBytes ty))
          (tail := [Push (byteMask (storageBytes ty)); Operation AND])
          (g := fun vs => Z.land (byteMask (storageBytes ty)) (hd 0 vs));
          try assumption; try reflexivity.
        -- apply retrieveValue_unsigned_generates with (t := t); try assumption; try reflexivity.
           congruence.
        -- apply computes_mask. lia.
        -- intros old Hold. cbn [hd].
           unfold isUnsignedValue in Hval. rewrite (Z.mod_small v) by assumption.
           apply unsigned_extract; assumption || lia.
Qed.

Lemma function_readType ty t :
  Category_eqb (category ty) Function = true -> readType ty = Some t -> t = ty.
Proof.
  intros Hf Ht. unfold readType in Ht.
  destruct (category ty); try discriminate Hf. cbn in Ht. congruence.
Qed.

Lemma retrieveValue_function_generates tr ty loc rm c w :
  isValueType ty = true -> storageBytes ty = w -> w <> 32 -> sizeOnStack ty = 1 ->
  Category_eqb (category ty) Function = true ->
  FunctionKind_eqb (kind ty) External = false ->
  FunctionKind_eqb (kind ty) Internal = false ->
  generates (GenericStorageItem_retrieveValue C tr ty loc rm) c
    (duplicateOperands rm ++ retrievePrefix ++ [Push (byteMask w); Operation AND]).
Proof.
  intros Hv Hw Hne Hn Hf Hke Hki.
  assert (Hcat : category ty = Function)
    by (destruct (category ty); try discriminate; reflexivity).
  apply retrieveValue_packed with (t := ty) (w := w); try assumption.
  { unfold readType. rewrite Hcat. reflexivity. }
  rewrite Hcat, Hke, Hki, Hn, Hw. cbn [Category_eqb]. change (1 =? 1) with true.
  eapply generates_eq; [repeat gen_step | list_norm; reflexivity].
Qed.

Lemma retrieveValue_internal_generates tr ty loc rm c w zero :
  isValueType ty = true -> storageBytes ty = w -> w <> 32 -> sizeOnStack ty = 1 ->
  isInternalFunction ty = true -> pushZeroValue C ty = OK zero ->
  generates (GenericStorageItem_retrieveValue C tr ty loc rm) c
    (duplicateOperands rm ++ retrievePrefix
     ++ ([Operation (DUP 1); Operation ISZERO] ++ zero
         ++ [Operation MUL; Operation OR; Push (byteMask w); Operation AND])).
Proof.
  intros Hv Hw Hne Hn Hi Hz. unfold isInternalFunction in Hi.
  apply andb_prop in Hi as [Hf Hk].
  assert (Hcat : category ty = Function)
    by (destruct (category ty); try discriminate; reflexivity).
  assert (Hkind : kind ty = Internal)
    by (destruct (kind ty); try discriminate; reflexivity).
  apply retrieveValue_packed with (t := ty) (w := w); try assumption.
  { unfold readType. rewrite Hcat. reflexivity. }
  rewrite Hcat, Hkind, Hz, Hn, Hw. cbn [Category_eqb FunctionKind_eqb].
  change (1 =? 1) with true.
  eapply generates_eq; [repeat gen_step | list_norm; reflexivity].
Qed.

(** The word that the read divides out of a cleared field is zero when the
    bytes above the field are. *)
Lemma cleared_field_shifts_to_zero w o old :
  packedField w o -> Word.isWord old -> Z.shiftr old (8 * (o + w)) = 0 ->
  Word.div (replaceWindow w o old 0) (Word.exp 256 o) = 0.
Proof.
  intros (Hw & Ho & How) Hold Hhigh. rewrite div_exp256 by lia.
  apply Z.bits_inj'. intros n Hn.
  rewrite Z.shiftr_spec, testbit_replaceWindow
    by (assumption || lia || (split; [lia|apply Z.pow_pos_nonneg; lia])).
  rewrite !Z.bits_0. unfold inWindow.
  destruct (Z.leb_spec (8 * o) (n + 8 * o)), (Z.ltb_spec (n + 8 * o) (8 * (o + w)));
    cbn [andb]; try lia; try reflexivity.
  replace (n + 8 * o) with ((n - 8 * w) + 8 * (o + w)) by lia.
  rewrite <- Z.shiftr_spec, Hhigh by lia. apply Z.bits_0.
Qed.

Lemma round_trip_of_function ty w o key v move remove c c' align f zero z :
  isValueType ty = true -> storageBytes ty = w -> sizeOnStack ty = 1 ->
  Category_eqb (category ty) Function = true -> packedField w o ->
  PackedAlignment C ty ty w (hasBitwiseShifting c) 1 align f ->
  (isInternalFunction ty = true ->
   pushZeroValue C ty = OK zero /\ pushes zero z /\ Word.isWord z) ->
  isUnsignedValue w v ->
  (isInternalFunction ty = true -> v = 0 -> z mod 2 ^ (8 * w) = 0) ->
  roundTrip C ty o key v move remove c c'.
Proof.
  intros Hv Hw Hn Hf Hfield Hal Hzero Hval Hnz.
  pose proof Hfield as (Hr & Ho & How).
  assert (Hword : Word.isWord v) by (apply (isUnsignedValue_isWord w); [lia|assumption]).
  inversion Hal as [|Hfn Hke Hsz Hic Hb| |]; subst; try congruence.
  assert (Hmask : forall old, Word.isWord old ->
            Z.land (byteMask (storageBytes ty))
              (Word.div (replaceWindow (storageBytes ty) o old
                           (Z.land (byteMask (storageBytes ty)) v)) (Word.exp 256 o)) = v).
  { intros old Hold.
    replace (Z.land (byteMask (storageBytes ty)) v) with v.
    - apply unsigned_extract; assumption || lia.
    - rewrite byteMask_ones, Z.land_comm, Z.land_ones by lia.
      symmetry. apply Z.mod_small. exact Hval. }
  destruct (isInternalFunction ty) eqn:Hint.
  - destruct (Hzero eq_refl) as (Hz & Hpush & Hzw).
    apply roundTrip_packed with (w := storageBytes ty)
      (align := [Push (byteMask (storageBytes ty)); Operation AND])
      (f := fun vs => Z.land (byteMask (storageBytes ty)) (hd 0 vs))
      (tail := [Operation (DUP 1); Operation ISZERO] ++ zero
               ++ [Operation MUL; Operation OR; Push (byteMask (storageBytes ty));
                   Operation AND])
      (g := fun vs => if hd 0 vs =? 0 then z mod 2 ^ (8 * storageBytes ty)
                      else hd 0 vs mod 2 ^ (8 * storageBytes ty));
      try assumption; try reflexivity.
    + apply retrieveValue_internal_generates; try assumption; try reflexivity. lia.
    + apply computes_internal_function; [lia|assumption|exact Hpush].
    + intros old Hold. cbn [hd]. specialize (Hmask old Hold).
      destruct (Z.eqb_spec
                  (Word.div (replaceWindow (storageBytes ty) o old
                               (Z.land (byteMask (storageBytes ty)) v)) (Word.exp 256 o)) 0)
        as [E|_].
      * rewrite E, Z.land_0_r in Hmask. subst v. now apply Hnz.
      * rewrite <- Z.land_ones, Z.land_comm, <- byteMask_ones by lia. exact Hmask.
  - assert (Hki : FunctionKind_eqb (kind ty) Internal = false).
    { unfold isInternalFunction in Hint. rewrite Hf in Hint. exact Hint. }
    apply roundTrip_packed with (w := storageBytes ty)
      (align := [Push (byteMask (storageBytes ty)); Operation AND])
      (f := fun vs => Z.land (byteMask (storageBytes ty)) (hd 0 vs))
      (tail := [Push (byteMask (storageBytes ty)); Operation AND])
      (g := fun vs => Z.land (byteMask (storageBytes ty)) (hd 0 vs));
      try assumption; try reflexivity.
    + apply retrieveValue_function_generates; try assumption; try reflexivity. lia.
    + apply computes_mask. lia.
Qed.

(** C2 (amended). For every value type of one stack slot and of storage
    byte width [w] in 1..32 (so for each of 1, 2, 4, 8, 16, 20 and 32), at
    every byte offset [o] with [o + w <= 32], be it left-aligned, signed or
    unsigned, a function type included: the persistent-storage [storeValue]
    of a value [v] of the type at [(key, o)] followed by [retrieveValue] at
    the same [(key, o)] pushes exactly [v].  The conversion routine is relied
    on to remove the higher-order bits of a packed value and to leave a
    full-word value as it is, and [pushZeroValue] to push one word.  Three
    cases of a packed field are apart.

    For a fixed-point type [retrieveValue] raises the not-yet-implemented
    error, so that no value makes the round trip.

    For a function type with a bound first argument [storeValue] fails its
    assertion, so that no value makes the round trip either.

    For an internal function type the value zero, stored into a word whose
    bytes above the field are zero, is read back as the zero value of the
    function type cut to [w] bytes: zero makes the round trip where that
    zero value is zero in its low [w] bytes, and does not where it is
    not. *)
Theorem storage_round_trip ty t w o key move remove c c' align f zero z :
  StoredValueType ty t w -> 0 < w <= 32 -> 0 <= o -> o + w <= 32 ->
  ((w < 32 -> Category_eqb (category t) FixedPoint = false) ->
   (w < 32 -> PackedAlignment C ty ty w (hasBitwiseShifting c) 1 align f) ->
   (w = 32 -> convertType C ty ty true false = OK align
              /\ computes align 1 (fun vs => hd 0 vs)) ->
   (w < 32 -> isInternalFunction t = true ->
    pushZeroValue C t = OK zero /\ pushes zero z /\ Word.isWord z) ->
   forall v, isStoredValue t w v ->
     (w < 32 -> isInternalFunction t = true -> v = 0 -> z mod 2 ^ (8 * w) = 0) ->
     roundTrip C ty o key v move remove c c')
  /\ (w < 32 -> Category_eqb (category t) FixedPoint = true ->
      fails (LValue_retrieveValue C (GenericStorageItem false ty) noLocation remove) c'
        (UnimplementedFeatureError "Not yet implemented - FixedPointType.")
      /\ forall v, ~ roundTrip C ty o key v move remove c c')
  /\ (w < 32 -> Category_eqb (category ty) Function = true ->
      hasBoundFirstArgument ty = true ->
      (exists message,
          fails (LValue_storeValue C (GenericStorageItem false ty) ty noLocation move) c
            (InternalCompilerError message))
      /\ forall v, ~ roundTrip C ty o key v move remove c c')
  /\ (w < 32 -> isInternalFunction t = true ->
      PackedAlignment C ty ty w (hasBitwiseShifting c) 1 align f ->
      pushZeroValue C t = OK zero -> pushes zero z -> Word.isWord z ->
      (exists codeS codeR,
          generates (LValue_storeValue C (GenericStorageItem false ty) ty noLocation move)
            c codeS
          /\ generates (LValue_retrieveValue C (GenericStorageItem false ty) noLocation
                         remove) c' codeR
          /\ forall (rest : list Z) (s : EVM.State),
               Word.isWord (EVM.storage s key) ->
               Z.shiftr (EVM.storage s key) (8 * (o + w)) = 0 ->
               exists s1,
                 EVM.exec codeS (withStack (o :: key :: 0 :: rest) s) = Some s1
                 /\ EVM.stack s1 = (if move then rest else 0 :: rest)
                 /\ EVM.exec codeR (withStack (o :: key :: EVM.stack s1) s1)
                    = Some (withStack
                              (z mod 2 ^ (8 * w)
                               :: (if remove then [] else [o; key]) ++ EVM.stack s1) s1))
      /\ (z mod 2 ^ (8 * w) <> 0 -> ~ roundTrip C ty o key 0 move remove c c')).
Proof.
  intros (Hv & Ht & Hsb & Htw & Hn & Htn & Hl & Hcat) Hw Ho How.
  split; [|split; [|split]].
  - intros Hfp Hpacked Hfull Hzero v Hval Hnz. unfold isStoredValue in Hval.
    destruct (Z.eq_dec w 32) as [E|Hne].
    + destruct (Hfull E) as [Hcv Hcomp].
      apply roundTrip_full with (convert := align); try assumption; [congruence|].
      destruct (Category_eqb (category t) Function).
      * now apply (isUnsignedValue_isWord w).
      * now apply (isValueOf_isWord t w).
    + destruct (Category_eqb (category t) Function) eqn:Hft.
      * assert (t = ty) by (apply function_readType; congruence). subst t.
        apply round_trip_of_function with (w := w) (align := align) (f := f)
          (zero := zero) (z := z); try assumption.
        -- unfold packedField. lia.
        -- apply Hpacked. lia.
        -- apply Hzero. lia.
        -- apply Hnz. lia.
      * apply round_trip_of_value with (t := t) (w := w) (align := align) (f := f);
          try assumption.
        repeat split; try assumption; [congruence|apply Hfp; lia].
  - intros Hlt Hfp.
    assert (Hfails : fails (LValue_retrieveValue C (GenericStorageItem false ty)
                              noLocation remove) c'
                       (UnimplementedFeatureError "Not yet implemented - FixedPointType.")).
    { cbn [LValue_retrieveValue].
      apply retrieveValue_fixedPoint_fails with (t := t); try assumption. lia. }
    split; [exact Hfails|].
    intros v (codeS & codeR & _ & HR & _).
    unfold fails in Hfails. unfold generates in HR. congruence.
  - intros Hlt Hf Hb.
    assert (Hfails : exists message,
               fails (LValue_storeValue C (GenericStorageItem false ty) ty noLocation move) c
                 (InternalCompilerError message)).
    { cbn [LValue_storeValue].
      destruct (isImplicitlyConvertibleTo C ty ty) eqn:Hi; eexists;
        (apply storeValue_alignment_fails; [assumption|lia|lia|]);
        intros c0; rewrite Hf, Hi, ?Hb; reflexivity. }
    split; [exact Hfails|].
    destruct Hfails as [message Hfails].
    intros v (codeS & codeR & HS & _).
    unfold fails in Hfails. unfold generates in HS. congruence.
  - intros Hlt Hint Hal Hz Hpush Hzw.
    assert (Hft : Category_eqb (category t) Function = true).
    { unfold isInternalFunction in Hint. now apply andb_prop in Hint as [? _]. }
    assert (t = ty) by (apply function_readType; congruence). subst t.
    assert (Hfield : packedField w o) by (unfold packedField; lia).
    assert (Hr : 0 < w < 32) by lia.
    destruct (PackedAlignment_sound C _ _ _ _ _ _ _ Hr Hal) as (Hcomp & Hrange & _ & _).
    assert (Hzw0 : Word.isWord 0) by (unfold Word.isWord, Word.modulus; lia).
    specialize (Hrange [0] eq_refl (Forall_cons _ Hzw0 (Forall_nil _))).
    assert (Hf0 : f [0] = 0).
    { inversion Hal as [|Hfn Hke Hsz Hic Hb| |]; subst; try congruence.
      cbn [hd]. apply Z.land_0_r. }
    set (codeS := packedStoreCode false w 1 align move).
    set (codeR := duplicateOperands remove ++ retrievePrefix
                  ++ ([Operation (DUP 1); Operation ISZERO] ++ zero
                      ++ [Operation MUL; Operation OR; Push (byteMask w); Operation AND])).
    assert (HS : generates (LValue_storeValue C (GenericStorageItem false ty) ty noLocation
                              move) c codeS)
      by now apply (PackedAlignment_generates C false ty ty noLocation move c w 1 align f).
    assert (HR : generates (LValue_retrieveValue C (GenericStorageItem false ty) noLocation
                              remove) c' codeR).
    { cbn [LValue_retrieveValue]. apply retrieveValue_internal_generates; try assumption.
      lia. }
    assert (Hrun : forall (rest : list Z) (s : EVM.State),
               Word.isWord (EVM.storage s key) ->
               Z.shiftr (EVM.storage s key) (8 * (o + w)) = 0 ->
               exists s1,
                 EVM.exec codeS (withStack (o :: key :: 0 :: rest) s) = Some s1
                 /\ EVM.stack s1 = (if move then rest else 0 :: rest)
                 /\ EVM.exec codeR (withStack (o :: key :: EVM.stack s1) s1)
                    = Some (withStack
                              (z mod 2 ^ (8 * w)
                               :: (if remove then [] else [o; key]) ++ EVM.stack s1) s1)).
    { intros rest s Hold Hhigh.
      exists (withSlot false (if move then rest else 0 :: rest) s key
                (replaceWindow w o (EVM.storage s key) 0)).
      split.
      { rewrite <- packed_replaceWindow by (assumption || lia).
        unfold codeS.
        rewrite (exec_packedStore_1 false w align f move o key 0 rest s Hcomp Hzw0), Hf0.
        reflexivity. }
      split; [reflexivity|].
      change (EVM.stack (withSlot false ?st s key ?x)) with st.
      unfold codeR.
      rewrite (exec_retrieve_packed remove o key _ _ _ _
                 (computes_internal_function w zero z ltac:(lia) Hzw Hpush)).
      + rewrite storage_withSlot. cbn [hd].
        rewrite cleared_field_shifts_to_zero by assumption. reflexivity.
      + rewrite storage_withSlot, cleared_field_shifts_to_zero by assumption. exact Hzw0. }
    split.
    + exists codeS, codeR. split; [exact HS|]. split; [exact HR|exact Hrun].
    + intros Hz0 (codeS' & codeR' & HS' & HR' & Hrun').
      rewrite <- (generates_unique _ _ _ _ HS HS') in Hrun'.
      rewrite <- (generates_unique _ _ _ _ HR HR') in Hrun'.
      set (s := EVM.mkState [] (fun _ => 0) (fun _ => 0)).
      assert (Hold : Word.isWord (EVM.storage s key)) by exact Hzw0.
      destruct (Hrun [] s Hold (Z.shiftr_0_l _)) as (s1 & E1 & _ & R1).
      destruct (Hrun' [] s Hold) as (s1' & E1' & _ & R1').
      rewrite E1 in E1'. injection E1' as <-.
      rewrite R1 in R1'. injection R1' as E. apply Hz0. exact E.
Qed.
End RoundTrip.

Lemma testbit_negative x k n :
  0 <= k -> - 2 ^ k <= x < 0 -> k <= n -> Z.testbit x n = true.
Proof.
  intros Hk Hx Hn.
  replace x with (- (- x)) by lia. rewrite Z.bits_opp by lia.
  rewrite (bits_above (Z.pred (- x)) k n); [reflexivity| |assumption]. lia.
Qed.

Lemma negative_isSignedValue w x :
  0 < w < 32 -> - 2 ^ (8 * w - 1) <= x < 0 ->
  isSignedValue w (Word.wrap x)
  /\ forall n, 8 * w - 1 <= n < 256 -> Z.testbit (Word.wrap x) n = true.
Proof.
  intros Hw Hx.
  assert (Hhigh : forall n, 8 * w - 1 <= n < 256 -> Z.testbit (Word.wrap x) n = true).
  { intros n Hn. rewrite testbit_wrap.
    destruct (Z.ltb_spec n 256); [|lia]. cbn [andb].
    apply (testbit_negative x (8 * w - 1)); lia. }
  split; [|exact Hhigh].
  assert (Hword : Word.isWord (Word.wrap x)).
  { unfold Word.isWord, Word.wrap. apply Z.mod_pos_bound. reflexivity. }
  split; [exact Hword|].
  apply Z.bits_inj'. intros n Hn.
  rewrite testbit_signextend by (assumption || lia).
  replace (8 * (w - 1) + 7) with (8 * w - 1) by lia.
  destruct (Z.ltb_spec n (8 * w - 1)); [reflexivity|].
  rewrite (Hhigh (8 * w - 1)) by lia.
  destruct (Z.ltb_spec n 256); cbn [andb].
  - symmetry. apply Hhigh. lia.
  - symmetry. apply isWord_bits in Hword as [_ Hhi]. apply Hhi. lia.
Qed.

Section SignExtension.
Variable C : Collaborators.

(** C4. For a signed integer type of [w < 32] bytes packed at byte offset
    [o], [retrieveValue] right-aligns the field and sign-extends it: the word
    pushed is [SIGNEXTEND (w - 1)] of the stored word divided by [256^o], whose
    bits below [8w] are those of the field and whose bits from [8w] up to 255
    all equal the sign bit, bit [8w - 1] of the field.  So a negative value
    of the type, stored and retrieved, comes back as the same two's-complement
    word, whose bits from [8w - 1] up to 255 are all ones. *)
Theorem signed_retrieve_sign_extends ty t w o key move remove c c' align f :
  RoundTripType ty t w -> 0 < w < 32 -> 0 <= o -> o + w <= 32 ->
  leftAligned t = false ->
  Category_eqb (category t) Integer && isSigned t = true ->
  PackedAlignment C ty ty w (hasBitwiseShifting c) 1 align f ->
  (exists codeR,
      generates (LValue_retrieveValue C (GenericStorageItem false ty) noLocation remove) c' codeR
      /\ forall (rest : list Z) (s : EVM.State),
           Word.isWord (EVM.storage s key) ->
           let r := Word.signextend (w - 1) (EVM.storage s key / 256 ^ o) in
           EVM.exec codeR (withStack (o :: key :: rest) s)
           = Some (withStack (r :: (if remove then [] else [o; key]) ++ rest) s)
           /\ forall n, 0 <= n < 256 ->
                Z.testbit r n =
                if n <? 8 * w then Z.testbit (EVM.storage s key) (8 * o + n)
                else Z.testbit (EVM.storage s key) (8 * o + (8 * w - 1)))
  /\ (forall x, - 2 ^ (8 * w - 1) <= x < 0 ->
        roundTrip C ty o key (Word.wrap x) move remove c c'
        /\ forall n, 8 * w - 1 <= n < 256 -> Z.testbit (Word.wrap x) n = true).
Proof.
  intros HT Hw Ho How Hleft Hsigned Hal.
  pose proof HT as (Hv & Ht & Hsb & Htw & Hn & Htn & Hl & Hf & Htf & Hfp).
  split.
  - exists (duplicateOperands remove ++ retrievePrefix
            ++ [Push (Word.u32 (w - 1)); Operation SIGNEXTEND]).
    split.
    { apply retrieveValue_signed_generates with (t := t); try assumption. lia. }
    intros rest s Hold r.
    assert (Er : Word.signextend (Word.u32 (w - 1))
                   (Word.div (EVM.storage s key) (Word.exp 256 o)) = r).
    { unfold r. rewrite u32_small, div_exp256, Z.shiftr_div_pow2, pow256 by lia.
      reflexivity. }
    split.
    + rewrite exec_retrieve_packed
        with (f := fun vs => Word.signextend (Word.u32 (w - 1)) (hd 0 vs)).
      * cbn [hd]. now rewrite Er.
      * apply computes_signextend.
      * apply isWord_div_exp256; [lia|assumption].
    + intros n Hbit. rewrite <- Er. apply sign_extension_bits; assumption || lia.
  - intros x Hx. destruct (negative_isSignedValue w x Hw Hx) as [Hsv Hhigh].
    split; [|exact Hhigh].
    apply (round_trip_of_value C ty t w o key (Word.wrap x) move remove c c' align f);
      try assumption; try lia.
    + unfold isValueOf. rewrite Hleft, Hsigned. exact Hsv.
    + intros _. exact Hal.
Qed.
End SignExtension.

Lemma computes_signextend_mask w :
  0 < w < 32 ->
  computes [Push (w - 1); Operation SIGNEXTEND; Push (byteMask w); Operation AND] 1
    (fun vs => hd 0 vs mod 2 ^ (8 * w)).
Proof.
  intros Hw vs rest s Hlen Hvs. destruct vs as [|v [|? ?]]; try discriminate.
  inversion Hvs as [|? ? Hv _]; subst. cbn [hd app].
  change (EVM.exec [Push (w - 1); Operation SIGNEXTEND; Push (byteMask w); Operation AND]
            (withStack (v :: rest) s))
    with (Some (withStack (Z.land (byteMask w) (Word.signextend (w - 1) v) :: rest) s)).
  do 3 f_equal.
  rewrite byteMask_ones, Z.land_comm, Z.land_ones by lia.
  apply Z.bits_inj'. intros n Hn.
  rewrite !Z.testbit_mod_pow2 by lia.
  destruct (Z.ltb_spec n (8 * w)); cbn [andb]; [|reflexivity].
  rewrite testbit_signextend by (assumption || lia).
  destruct (Z.ltb_spec n (8 * (w - 1) + 7)); [reflexivity|].
  replace n with (8 * (w - 1) + 7) by lia.
  destruct (Z.ltb_spec (8 * (w - 1) + 7) 256); [reflexivity|lia].
Qed.

(** C2 as stated fails on the fixed-point type of 16 bytes, a value type
    whose width is among those of the claim: its [retrieveValue] raises the
    not-yet-implemented error, so nothing is pushed. *)
Lemma fixed_point_does_not_round_trip :
  isValueType Example.fixed128x18 = true
  /\ storageBytes Example.fixed128x18 = 16
  /\ ~ roundTrip Example.collaborators Example.fixed128x18 0 0 1 true true
         (Example.context true 3) (Example.context true 2).
Proof.
  split; [reflexivity|]. split; [reflexivity|].
  intros (codeS & codeR & _ & HR & _). discriminate HR.
Qed.

(** The round trip of [0xDEADBEEF] through a [uint32] in the top four bytes
    of the word at key 9, and that of the internal function value [0x1234]
    through the eight bytes at byte offset 8 of the same word. *)
Lemma storage_round_trip_witness :
  roundTrip Example.collaborators (Example.uint 32) 28 9 3735928559 true true
    (Example.context true 3) (Example.context true 2)
  /\ roundTrip Example.collaborators Example.internalFunction 8 9 4660 true false
       (Example.context true 3) (Example.context true 2).
Proof.
  split.
  - refine (proj1 (storage_round_trip Example.collaborators
                     (Example.uint 32) (Example.uint 32) 4 28 9 true true
                     (Example.context true 3) (Example.context true 2)
                     [Push (byteMask 4); Operation AND] (fun vs => hd 0 vs mod 2 ^ (8 * 4))
                     [] 0 _ _ _ _) _ _ _ _ 3735928559 _ _).
    + repeat split.
    + lia.
    + lia.
    + lia.
    + intros _. reflexivity.
    + intros _. apply AlignRight; try reflexivity. apply computes_mask_mod. lia.
    + intros H. discriminate H.
    + intros _ H. discriminate H.
    + unfold isStoredValue, isValueOf, isUnsignedValue. simpl. lia.
    + intros _ H. discriminate H.
  - refine (proj1 (storage_round_trip Example.collaborators
                     Example.internalFunction Example.internalFunction 8 8 9 true false
                     (Example.context true 3) (Example.context true 2)
                     [Push (byteMask 8); Operation AND]
                     (fun vs => Z.land (byteMask 8) (hd 0 vs))
                     [Push 0] 0 _ _ _ _) _ _ _ _ 4660 _ _).
    + repeat split.
    + lia.
    + lia.
    + lia.
    + intros _. reflexivity.
    + intros _. apply AlignFunction; reflexivity.
    + intros H. discriminate H.
    + intros _ _. split; [reflexivity|]. split.
      * intros st s. reflexivity.
      * unfold Word.isWord, Word.modulus. lia.
    + unfold isStoredValue, isUnsignedValue. simpl. lia.
    + intros _ _ H. discriminate H.
Defined.

(** An [int16] at byte offset 5 of the word at key 7. *)
Lemma signed_retrieve_sign_extends_witness :
  (exists codeR,
      generates (LValue_retrieveValue Example.collaborators
                   (GenericStorageItem false (Example.int 16)) noLocation true)
        (Example.context true 2) codeR
      /\ forall (rest : list Z) (s : EVM.State),
           Word.isWord (EVM.storage s 7) ->
           let r := Word.signextend (2 - 1) (EVM.storage s 7 / 256 ^ 5) in
           EVM.exec codeR (withStack (5 :: 7 :: rest) s)
           = Some (withStack (r :: [] ++ rest) s)
           /\ forall n, 0 <= n < 256 ->
                Z.testbit r n =
                if n <? 8 * 2 then Z.testbit (EVM.storage s 7) (8 * 5 + n)
                else Z.testbit (EVM.storage s 7) (8 * 5 + (8 * 2 - 1)))
  /\ (forall x, - 2 ^ (8 * 2 - 1) <= x < 0 ->
        roundTrip Example.collaborators (Example.int 16) 5 7 (Word.wrap x) true true
          (Example.context true 3) (Example.context true 2)
        /\ forall n, 8 * 2 - 1 <= n < 256 -> Z.testbit (Word.wrap x) n = true).
Proof.
  apply (signed_retrieve_sign_extends Example.collaborators (Example.int 16) (Example.int 16)
           2 5 7 true true (Example.context true 3) (Example.context true 2)
           [Push (2 - 1); Operation SIGNEXTEND; Push (byteMask 2); Operation AND]
           (fun vs => hd 0 vs mod 2 ^ (8 * 2))).
  - repeat split.
  - lia.
  - lia.
  - lia.
  - reflexivity.
  - reflexivity.
  - apply AlignRight; try reflexivity. apply computes_signextend_mask. lia.
Defined.

(** ** Byte-array elements *)

Lemma sub31 i : 0 <= i <= 31 -> Word.sub 31 i = 31 - i.
Proof. intros H. unfold Word.sub, Word.wrap, Word.modulus. apply Z.mod_small. lia. Qed.

Lemma byte_field i x : 0 <= i <= 31 -> Word.byte i x = field 1 (31 - i) x.
Proof.
  intros H. unfold Word.byte, field. destruct (Z.ltb_spec i 32); [|lia]. reflexivity.
Qed.

Lemma field_range w o x : 0 <= w -> 0 <= field w o x < 2 ^ (8 * w).
Proof.
  intros H. unfold field. rewrite (pow256 w) by lia.
  apply Z.mod_pos_bound. apply Z.pow_pos_nonneg; lia.
Qed.

Lemma mul_top_byte b : 0 <= b < 2 ^ 8 -> Word.mul (Z.shiftl 1 (256 - 8)) b = b * 2 ^ 248.
Proof.
  intros H. unfold Word.mul, Word.wrap, Word.modulus.
  change (Z.shiftl 1 (256 - 8)) with (2 ^ 248).
  rewrite Z.mod_small; [lia|].
  change (2 ^ 256) with (2 ^ 248 * 2 ^ 8). nia.
Qed.

Lemma div_top_byte v :
  Word.isWord v -> Word.div v (Z.shiftl 1 (256 - 8)) = v / 2 ^ 248
                   /\ 0 <= v / 2 ^ 248 < 2 ^ (8 * 1).
Proof.
  intros [H0 H1]. split; [reflexivity|].
  split; [apply Z.div_pos; lia|].
  apply Z.div_lt_upper_bound; [lia|]. exact H1.
Qed.

Section ByteArrayElement.
Variable C : Collaborators.

Lemma byteElement_retrieve_generates loc rm c :
  generates (StorageByteArrayElement_retrieveValue loc rm) c
    ((if rm
      then [Operation (SWAP 1); Operation SLOAD; Operation (SWAP 1); Operation BYTE]
      else [Operation (DUP 2); Operation SLOAD; Operation (DUP 2); Operation BYTE])
     ++ [Push (Z.shiftl 1 (256 - 8)); Operation MUL]).
Proof.
  unfold StorageByteArrayElement_retrieveValue.
  destruct rm; (eapply generates_eq; [repeat gen_step | reflexivity]).
Qed.

Lemma byteElement_store_generates src loc mv c :
  generates (StorageByteArrayElement_storeValue src loc mv) c (byteStoreCode mv).
Proof.
  unfold StorageByteArrayElement_storeValue, byteStoreCode.
  destruct mv; (eapply generates_eq; [repeat gen_step | reflexivity]).
Qed.

Lemma byteElement_zero_generates loc c :
  generates (StorageByteArrayElement_setToZero loc true) c byteZeroCode.
Proof.
  unfold StorageByteArrayElement_setToZero, byteZeroCode.
  eapply generates_eq; [repeat gen_step | reflexivity].
Qed.

Lemma exec_byteRetrieve (rm : bool) i ref rest s :
  EVM.exec ((if rm
      then [Operation (SWAP 1); Operation SLOAD; Operation (SWAP 1); Operation BYTE]
      else [Operation (DUP 2); Operation SLOAD; Operation (DUP 2); Operation BYTE])
     ++ [Push (Z.shiftl 1 (256 - 8)); Operation MUL]) (withStack (i :: ref :: rest) s)
  = Some (withStack (Word.mul (Z.shiftl 1 (256 - 8)) (Word.byte i (EVM.storage s ref))
                     :: (if rm then @nil Z else [i; ref]) ++ rest) s).
Proof. destruct rm; reflexivity. Qed.

Lemma exec_byteStore (mv : bool) i ref v rest s :
  EVM.exec (byteStoreCode mv) (withStack (i :: ref :: v :: rest) s)
  = Some (withSlot false (if mv then rest else v :: rest) s ref
            (packed 1 (Word.sub 31 i) (EVM.storage s ref)
               (Word.div v (Z.shiftl 1 (256 - 8))))).
Proof. destruct mv; reflexivity. Qed.

Lemma exec_byteZero i ref rest s :
  EVM.exec byteZeroCode (withStack (i :: ref :: rest) s)
  = Some (withSlot false rest s ref (packed 1 (Word.sub 31 i) (EVM.storage s ref) 0)).
Proof. reflexivity. Qed.

(** C6. For the byte-array element with index [i] in 0..31, the byte
    addressed is the one at position [31 - i] counted from the least
    significant byte of the word (index 0 is the most significant byte, index
    31 the least significant): [retrieveValue] pushes that byte multiplied by
    [2^248], that is left-aligned in the most significant byte; [storeValue]
    and [setToZero] store back the word with exactly that byte replaced, by
    the top byte of the value or by zero, and every other byte unchanged. *)
Theorem StorageByteArrayElement_addresses_byte (i ref v : Z) (rest : list Z)
    (s : EVM.State) (src : Ty) (loc : SourceLocation) (flag : bool) (c : CompilerContext) :
  0 <= i <= 31 -> Word.isWord v -> Word.isWord (EVM.storage s ref) ->
  let p := 31 - i in
  let old := EVM.storage s ref in
  (exists code,
      generates (LValue_retrieveValue C StorageByteArrayElement loc flag) c code
      /\ EVM.exec code (withStack (i :: ref :: rest) s)
         = Some (withStack (field 1 p old * 2 ^ 248
                            :: (if flag then [] else [i; ref]) ++ rest) s))
  /\ (exists code,
      generates (LValue_storeValue C StorageByteArrayElement src loc flag) c code
      /\ EVM.exec code (withStack (i :: ref :: v :: rest) s)
         = Some (withSlot false (if flag then rest else v :: rest) s ref
                   (replaceWindow 1 p old (v / 2 ^ 248)))
      /\ field 1 p (replaceWindow 1 p old (v / 2 ^ 248)) = v / 2 ^ 248
      /\ onlyWindowChanged 1 p old (replaceWindow 1 p old (v / 2 ^ 248)))
  /\ (exists code,
      generates (LValue_setToZero C StorageByteArrayElement loc true) c code
      /\ EVM.exec code (withStack (i :: ref :: rest) s)
         = Some (withSlot false rest s ref (replaceWindow 1 p old 0))
      /\ field 1 p (replaceWindow 1 p old 0) = 0
      /\ onlyWindowChanged 1 p old (replaceWindow 1 p old 0)).
Proof.
  intros Hi Hv Hold p old.
  assert (Hf : packedField 1 p) by (unfold packedField, p; lia).
  destruct (div_top_byte v Hv) as [Hdiv Hx].
  assert (H0 : 0 <= 0 < 2 ^ (8 * 1)) by (split; [lia|reflexivity]).
  split; [|split].
  - eexists. split; [apply byteElement_retrieve_generates|].
    rewrite exec_byteRetrieve, byte_field, mul_top_byte by (assumption || apply field_range; lia).
    reflexivity.
  - exists (byteStoreCode flag). split; [apply byteElement_store_generates|].
    split; [|split].
    + rewrite exec_byteStore, sub31, Hdiv by assumption.
      rewrite packed_replaceWindow by (assumption || unfold p; lia). reflexivity.
    + apply field_replaceWindow_same; assumption || unfold p; lia.
    + apply onlyWindowChanged_replaceWindow; assumption.
  - exists byteZeroCode. split; [apply byteElement_zero_generates|].
    split; [|split].
    + rewrite exec_byteZero, sub31 by assumption.
      rewrite packed_replaceWindow by (assumption || unfold p; lia). reflexivity.
    + apply field_replaceWindow_same; assumption || unfold p; lia.
    + apply onlyWindowChanged_replaceWindow; assumption.
Qed.
End ByteArrayElement.

(** Element 0 of the word at key 9: the byte [0xAB] goes to the most
    significant byte. *)
Lemma StorageByteArrayElement_addresses_byte_witness :
  let s := Example.state [] (fun _ => 0) in
  let v := 171 * 2 ^ 248 in
  (exists code,
      generates (LValue_retrieveValue Example.collaborators StorageByteArrayElement
                   noLocation true) (Example.context true 3) code
      /\ EVM.exec code (withStack (0 :: 9 :: []) s)
         = Some (withStack (field 1 (31 - 0) (EVM.storage s 9) * 2 ^ 248 :: [] ++ []) s))
  /\ (exists code,
      generates (LValue_storeValue Example.collaborators StorageByteArrayElement
                   Example.boolean noLocation true) (Example.context true 3) code
      /\ EVM.exec code (withStack (0 :: 9 :: v :: []) s)
         = Some (withSlot false [] s 9
                   (replaceWindow 1 (31 - 0) (EVM.storage s 9) (v / 2 ^ 248)))
      /\ field 1 (31 - 0) (replaceWindow 1 (31 - 0) (EVM.storage s 9) (v / 2 ^ 248))
         = v / 2 ^ 248
      /\ onlyWindowChanged 1 (31 - 0) (EVM.storage s 9)
           (replaceWindow 1 (31 - 0) (EVM.storage s 9) (v / 2 ^ 248)))
  /\ (exists code,
      generates (LValue_setToZero Example.collaborators StorageByteArrayElement
                   noLocation true) (Example.context true 3) code
      /\ EVM.exec code (withStack (0 :: 9 :: []) s)
         = Some (withSlot false [] s 9 (replaceWindow 1 (31 - 0) (EVM.storage s 9) 0))
      /\ field 1 (31 - 0) (replaceWindow 1 (31 - 0) (EVM.storage s 9) 0) = 0
      /\ onlyWindowChanged 1 (31 - 0) (EVM.storage s 9)
           (replaceWindow 1 (31 - 0) (EVM.storage s 9) 0)).
Proof.
  intros s v.
  apply (StorageByteArrayElement_addresses_byte Example.collaborators 0 9 v [] s
           Example.boolean noLocation true (Example.context true 3)).
  - lia.
  - unfold Word.isWord, Word.modulus, v. lia.
  - unfold Word.isWord, Word.modulus. simpl. lia.
Defined.


(** ** Structs in storage *)

Lemma neverGenerates_bind_left {A B} (g : Gen A) (k : A -> Gen B) :
  neverGenerates g -> neverGenerates (bind g k).
Proof. intros H c. destruct (H c) as [e He]. exists e. unfold bind. now rewrite He. Qed.

Lemma neverGenerates_bind_right {A B} (g : Gen A) (k : A -> Gen B) :
  (forall a, neverGenerates (k a)) -> neverGenerates (bind g k).
Proof.
  intros H c. unfold bind. destruct (g c) as [[a c']|e].
  - apply H.
  - now exists e.
Qed.

Lemma neverGenerates_throw {A} e : neverGenerates (@throw A e).
Proof. intros c. now exists e. Qed.

Section StructMembers.
Variable C : Collaborators.

Lemma setToZero_struct tr ty loc rm :
  Category_eqb (category ty) Array = false ->
  Category_eqb (category ty) Struct = true ->
  GenericStorageItem_setToZero C tr ty loc rm =
    (zeroMembers C ty (members ty) ;;
     if rm then emit POP ;; emit POP else ret tt).
Proof.
  intros Ha Hs. destruct ty; simpl in Ha, Hs.
  match goal with H : Category_eqb ?k _ = true |- _ => destruct k; try discriminate end. reflexivity.
Qed.

Lemma zeroMembers_withoutMappings owner ms :
  zeroMembers C owner ms = zeroMembers C owner (withoutMappings ms).
Proof.
  induction ms as [|[name memberTy] rest IH]; [reflexivity|].
  unfold withoutMappings, isMappingMember in *. cbn [filter snd].
  destruct (Category_eqb (category memberTy) Mapping) eqn:E; cbn [negb].
  - rewrite <- IH. simpl. now rewrite E.
  - simpl. rewrite E. simpl in IH. rewrite IH. reflexivity.
Qed.

Lemma zeroMembers_owner owner ms ms' :
  zeroMembers C (withMembers owner ms') ms = zeroMembers C owner ms.
Proof. induction ms as [|[name memberTy] rest IH]; [reflexivity|]. simpl. now rewrite IH. Qed.

Lemma setToZero_skips_mappings tr ty loc rm :
  Category_eqb (category ty) Struct = true ->
  GenericStorageItem_setToZero C tr ty loc rm
  = GenericStorageItem_setToZero C tr (withMembers ty (withoutMappings (members ty))) loc rm.
Proof.
  intros Hs.
  assert (Ha : Category_eqb (category ty) Array = false)
    by (destruct (category ty); try discriminate; reflexivity).
  rewrite (setToZero_struct tr ty) by assumption.
  rewrite (setToZero_struct tr (withMembers ty _)) by assumption.
  cbn [members withMembers]. rewrite zeroMembers_owner.
  now rewrite <- zeroMembers_withoutMappings.
Qed.

Lemma storeValue_struct tr ty src loc mv :
  isValueType ty = false ->
  Category_eqb (category ty) Struct = true ->
  GenericStorageItem_storeValue C tr ty src loc mv =
    (solUnimplementedAssert (negb tr)
       "Transient storage reference types are not supported yet." ;;
     solAssert (Category_eqb (category src) (category ty))
       "Wrong type conversation for assignment." ;;
     emit POP ;;
     solAssert (structDefinition ty =? structDefinition src)
       "Struct assignment with conversion." ;;
     solAssert (negb (containsNestedMapping ty)) "" ;;
     (if DataLocation_eqb (location src) CallData then
        solAssert (sizeOnStack src =? 1) "" ;;
        solAssert (sizeOnStack ty =? 1) "" ;;
        emit (DUP 2) ;; emit (DUP 2) ;;
        append (callUpdateStorageValueFunction C src ty)
      else assignMembers C ty src loc (members ty)) ;;
     solAssert (sizeOnStack src =? 1) "Unexpected source size." ;;
     if mv then popStackSlots 2 else emit (SWAP 1) ;; emit POP).
Proof.
  intros Hv Hs.
  assert (Ha : Category_eqb (category ty) Array = false)
    by (destruct (category ty); try discriminate; reflexivity).
  destruct ty; simpl in Hv, Ha, Hs. subst.
  match goal with H : Category_eqb ?k _ = true |- _ => destruct k; try discriminate end. reflexivity.
Qed.

Lemma storeValue_mapping_never m src loc mv :
  isValueType m = false -> Category_eqb (category m) Mapping = true ->
  neverGenerates (GenericStorageItem_storeValue C false m src loc mv).
Proof.
  intros Hv Hm. destruct m; simpl in Hv, Hm. subst.
  match goal with H : Category_eqb ?k _ = true |- _ => destruct k; try discriminate end. simpl.
  apply neverGenerates_bind_right; intros _.
  apply neverGenerates_bind_right; intros _.
  apply neverGenerates_throw.
Qed.

Lemma assignMembers_never owner src loc ms :
  hasMappingMember ms -> neverGenerates (assignMembers C owner src loc ms).
Proof.
  intros (name & m & Hin & Hm & Hv).
  induction ms as [|[name' m'] rest IH]; [contradiction|].
  simpl.
  do 8 (apply neverGenerates_bind_right; intros ?).
  destruct Hin as [[= -> ->]|Hin].
  - apply neverGenerates_bind_left. now apply storeValue_mapping_never.
  - apply neverGenerates_bind_right; intros _. now apply IH.
Qed.

Lemma storeValue_struct_with_mapping_never tr ty src loc mv :
  isValueType ty = false -> Category_eqb (category ty) Struct = true ->
  DataLocation_eqb (location src) CallData = false ->
  hasMappingMember (members ty) ->
  neverGenerates (GenericStorageItem_storeValue C tr ty src loc mv).
Proof.
  intros Hv Hs Hloc Hm. rewrite storeValue_struct by assumption. rewrite Hloc.
  do 5 (apply neverGenerates_bind_right; intros ?).
  apply neverGenerates_bind_left. now apply assignMembers_never.
Qed.

Lemma storeValue_nested_mapping_never tr ty src loc mv :
  isValueType ty = false -> Category_eqb (category ty) Struct = true ->
  containsNestedMapping ty = true ->
  neverGenerates (GenericStorageItem_storeValue C tr ty src loc mv).
Proof.
  intros Hv Hs Hn. rewrite storeValue_struct by assumption. rewrite Hn.
  do 4 (apply neverGenerates_bind_right; intros ?).
  apply neverGenerates_bind_left. apply neverGenerates_throw.
Qed.

Lemma storeValue_nested_mapping_asserts ty src loc mv c :
  isValueType ty = false -> Category_eqb (category ty) Struct = true ->
  containsNestedMapping ty = true ->
  Category_eqb (category src) (category ty) = true ->
  structDefinition ty = structDefinition src ->
  fails (GenericStorageItem_storeValue C false ty src loc mv) c (InternalCompilerError "").
Proof.
  intros Hv Hs Hn Hc Hd. rewrite storeValue_struct by assumption.
  rewrite Hn, Hc, Hd, Z.eqb_refl. reflexivity.
Qed.

End StructMembers.

(** ** Immutables and the phase of code generation *)

Lemma bind_value {A B} (g : Gen A) (k : A -> Gen B) c a c' :
  g c = OK (a, c') -> bind g k c = k a c'.
Proof. unfold bind. now intros ->. Qed.

Lemma bind_throw {A B} (g : Gen A) (k : A -> Gen B) c e :
  g c = Throw e -> bind g k c = Throw e.
Proof. unfold bind. now intros ->. Qed.

Lemma immutableMemoryOffset_bound v c off :
  immutableVariables c (declId v) = Some off -> runtimeContext c = true ->
  immutableMemoryOffset v c = OK (off, c).
Proof.
  intros Hoff Hrt. unfold immutableMemoryOffset, bind, getContext, solAssert, ret.
  now rewrite Hoff, Hrt.
Qed.

Lemma immutableMemoryOffset_finalized v c :
  runtimeContext c = false ->
  exists msg, immutableMemoryOffset v c = Throw (InternalCompilerError msg).
Proof.
  intros Hrt. unfold immutableMemoryOffset, bind, getContext, solAssert, ret.
  destruct (immutableVariables c (declId v)); [rewrite Hrt|]; eexists; reflexivity.
Qed.

Lemma forEach_PushImmutable names c :
  generates (forEach names (fun slotName => emit (PushImmutable slotName))) c
    (map PushImmutable names).
Proof.
  rewrite <- (concat_map_singleton PushImmutable).
  apply forEach_generates. intros a c' _. apply emit_generates.
Qed.

Section Immutable.
Variable C : Collaborators.

(** C8 (amended). An immutable variable of a value type.  After
    finalization, in the context of runtime code, [storeValue] and
    [setToZero] are caught by an internal assertion and [retrieveValue] emits
    the placeholders of the variable, one for each of its slot names.  Before
    finalization, in the context of creation code, where the variable is
    bound to a memory cell, [retrieveValue] is the load from that cell, and
    [storeValue] and [setToZero] generate the write to it.  For an immutable
    of a reference type each of the three operations raises the
    not-yet-implemented error instead, in either phase. *)
Theorem ImmutableItem_phases (ty src : Ty) (v : VariableDeclaration)
    (loc : SourceLocation) (flag : bool) (c : CompilerContext)
    (convert : list AssemblyItem) :
  (isValueType ty = true ->
   (isValueType src = true -> convertType C src ty true false = OK convert) ->
   (runtimeContext c = false ->
      (exists msg, fails (LValue_storeValue C (ImmutableItem ty v) src loc flag) c
                     (InternalCompilerError msg))
      /\ (exists msg, fails (LValue_setToZero C (ImmutableItem ty v) loc flag) c
                        (InternalCompilerError msg))
      /\ generates (LValue_retrieveValue C (ImmutableItem ty v) loc flag) c
           (map PushImmutable (immutableVariableSlotNames C v)))
   /\ (runtimeContext c = true ->
       forall off, immutableVariables c (declId v) = Some off ->
       (forall load, loadFromMemory C (Word.u32 off) ty false true = OK load ->
          generates (LValue_retrieveValue C (ImmutableItem ty v) loc flag) c load)
       /\ (forall store, isValueType src = true ->
             storeInMemoryDynamic C ty true = OK store ->
             0 <= sizeOnStack ty <= 15 ->
             generates (LValue_storeValue C (ImmutableItem ty v) src loc flag) c
               (convert ++ [Push off]
                ++ (if flag then moveIntoStackCode (sizeOnStack ty) 1
                    else dups (sizeOnStack ty + 1) (sizeOnStack ty))
                ++ store ++ [Operation POP]))
       /\ (forall zero store, pushZeroValue C ty = OK zero ->
             storeInMemoryDynamic C ty true = OK store ->
             generates (LValue_setToZero C (ImmutableItem ty v) loc true) c
               ([Push off] ++ zero ++ store ++ [Operation POP]))))
  /\ (isValueType ty = false ->
      fails (LValue_retrieveValue C (ImmutableItem ty v) loc flag) c
        (UnimplementedFeatureError "")
      /\ fails (LValue_storeValue C (ImmutableItem ty v) src loc flag) c
           (UnimplementedFeatureError "")
      /\ fails (LValue_setToZero C (ImmutableItem ty v) loc flag) c
           (UnimplementedFeatureError "")).
Proof.
  split.
  - intros Hv Hconv. split; intros Hrt.
    + split; [|split].
      * cbn [LValue_storeValue]. unfold ImmutableItem_storeValue, fails.
        rewrite Hv. unfold solUnimplementedAssert, solAssert.
        rewrite (bind_value _ _ c tt c eq_refl).
        destruct (isValueType src) eqn:Hsv; [|eexists; reflexivity].
        rewrite (Hconv eq_refl).
        destruct (immutableMemoryOffset_finalized v (appended c convert) Hrt)
          as [msg Hm].
        exists msg.
        rewrite (bind_value _ _ c tt c eq_refl).
        rewrite (bind_value _ _ c tt _ (append_generates convert c)).
        now apply bind_throw.
      * destruct (immutableMemoryOffset_finalized v c Hrt) as [msg Hm].
        destruct flag.
        -- exists msg. cbn [LValue_setToZero]. unfold ImmutableItem_setToZero, fails.
           rewrite Hv. unfold solUnimplementedAssert, solAssert.
           rewrite (bind_value _ _ c tt c eq_refl), (bind_value _ _ c tt c eq_refl).
           now apply bind_throw.
        -- eexists. cbn [LValue_setToZero]. unfold ImmutableItem_setToZero, fails.
           rewrite Hv. reflexivity.
      * cbn [LValue_retrieveValue]. unfold ImmutableItem_retrieveValue, generates.
        rewrite Hv. unfold solUnimplementedAssert.
        rewrite (bind_value _ _ c tt c eq_refl).
        unfold bind, getContext. rewrite Hrt.
        apply forEach_PushImmutable.
    + intros off Hoff. split; [|split].
      * intros load Hload. cbn [LValue_retrieveValue].
        unfold ImmutableItem_retrieveValue, generates.
        rewrite Hv. unfold solUnimplementedAssert.
        rewrite (bind_value _ _ c tt c eq_refl).
        unfold bind at 1, getContext. rewrite Hrt.
        rewrite (bind_value _ _ c off c (immutableMemoryOffset_bound v c off Hoff Hrt)).
        rewrite Hload. apply append_generates.
      * intros store Hsv Hstore Hsize. cbn [LValue_storeValue].
        unfold ImmutableItem_storeValue, generates.
        rewrite Hv, Hsv, (Hconv Hsv), Hstore. unfold solUnimplementedAssert, solAssert.
        rewrite (bind_value _ _ c tt c eq_refl), (bind_value _ _ c tt c eq_refl).
        apply bind_generates; [apply append_generates|].
        unfold generates.
        rewrite (bind_value _ _ _ off _
                   (immutableMemoryOffset_bound v (appended c convert) off Hoff Hrt)).
        apply bind_generates; [apply emit_generates|].
        apply bind_generates.
        { destruct flag.
          - apply moveIntoStack_generates; lia.
          - rewrite u32_small by lia. apply copyToStackTop_generates; lia. }
        apply bind_generates; [apply append_generates|apply emit_generates].
      * intros zero store Hzero Hstore. cbn [LValue_setToZero].
        unfold ImmutableItem_setToZero, generates.
        rewrite Hv, Hzero, Hstore. unfold solUnimplementedAssert, solAssert.
        rewrite (bind_value _ _ c tt c eq_refl), (bind_value _ _ c tt c eq_refl).
        rewrite (bind_value _ _ c off c (immutableMemoryOffset_bound v c off Hoff Hrt)).
        apply bind_generates; [apply emit_generates|].
        apply bind_generates; [apply append_generates|].
        apply bind_generates; [apply append_generates|apply emit_generates].
  - intros Hv. split; [|split].
    + cbn [LValue_retrieveValue]. unfold ImmutableItem_retrieveValue, fails.
      rewrite Hv. reflexivity.
    + cbn [LValue_storeValue]. unfold ImmutableItem_storeValue, fails.
      rewrite Hv. reflexivity.
    + cbn [LValue_setToZero]. unfold ImmutableItem_setToZero, fails.
      rewrite Hv. reflexivity.
Qed.
End Immutable.

(** C8 as stated fails on an immutable of a reference type: in runtime
    code [storeValue] and [setToZero] raise the not-yet-implemented error and
    no internal assertion, and [retrieveValue] raises it as well where the
    claim has the placeholder emitted. *)
Lemma immutable_reference_is_not_yet_implemented :
  let lv := ImmutableItem Example.mapping (mkDecl 1 Example.mapping true) in
  let c := Example.context false 1 in
  fails (LValue_storeValue Example.collaborators lv Example.mapping noLocation true) c
    (UnimplementedFeatureError "")
  /\ ~ (exists msg, fails (LValue_storeValue Example.collaborators lv Example.mapping
                            noLocation true) c (InternalCompilerError msg))
  /\ fails (LValue_setToZero Example.collaborators lv noLocation true) c
       (UnimplementedFeatureError "")
  /\ ~ (exists msg, fails (LValue_setToZero Example.collaborators lv noLocation true) c
                      (InternalCompilerError msg))
  /\ fails (LValue_retrieveValue Example.collaborators lv noLocation true) c
       (UnimplementedFeatureError "")
  /\ ~ (exists code, generates (LValue_retrieveValue Example.collaborators lv noLocation true)
                       c code).
Proof.
  intros lv c.
  split; [reflexivity|]. split; [intros [msg H]; discriminate H|].
  split; [reflexivity|]. split; [intros [msg H]; discriminate H|].
  split; [reflexivity|]. intros [code H]. discriminate H.
Qed.

(** The immutable [uint256] with declaration 1: in runtime code, and in
    creation code, where it is bound to the memory cell at 160. *)
Lemma ImmutableItem_phases_witness :
  let v := mkDecl 1 (Example.uint 256) true in
  ((exists msg, fails (LValue_storeValue Example.collaborators
                         (ImmutableItem (Example.uint 256) v) (Example.uint 256)
                         noLocation true) (Example.context false 1)
                  (InternalCompilerError msg))
   /\ (exists msg, fails (LValue_setToZero Example.collaborators
                            (ImmutableItem (Example.uint 256) v) noLocation true)
                     (Example.context false 1) (InternalCompilerError msg))
   /\ generates (LValue_retrieveValue Example.collaborators
                   (ImmutableItem (Example.uint 256) v) noLocation true)
        (Example.context false 1)
        (map PushImmutable (immutableVariableSlotNames Example.collaborators v)))
  /\ generates (LValue_storeValue Example.collaborators
                  (ImmutableItem (Example.uint 256) v) (Example.uint 256)
                  noLocation true) (Example.context true 1)
       ([] ++ [Push 160] ++ moveIntoStackCode 1 1
        ++ [Foreign "storeInMemoryDynamic" (-1)] ++ [Operation POP]).
Proof.
  intros v. split.
  - apply (ImmutableItem_phases Example.collaborators (Example.uint 256) (Example.uint 256)
             v noLocation true (Example.context false 1) []); reflexivity.
  - destruct (ImmutableItem_phases Example.collaborators (Example.uint 256)
                (Example.uint 256) v noLocation true (Example.context true 1) [])
      as [H _].
    destruct (H eq_refl (fun _ => eq_refl)) as [_ Hcreation].
    destruct (Hcreation eq_refl 160 eq_refl) as (_ & Hstore & _).
    apply (Hstore [Foreign "storeInMemoryDynamic" (-1)]); try reflexivity.
    simpl. lia.
Defined.

(** ** Zeroing without removing the reference *)

Section NonRemovingZero.
Variable C : Collaborators.

Lemma setToZero_array tr ty loc rm :
  Category_eqb (category ty) Array = true ->
  GenericStorageItem_setToZero C tr ty loc rm =
    ((if negb rm then copyToStackTop 2 2 else ret tt) ;;
     append (clearArray C ty)).
Proof.
  intros Ha. destruct ty; simpl in Ha.
  match goal with H : Category_eqb ?k _ = true |- _ => destruct k; try discriminate end. reflexivity.
Qed.

Lemma setToZero_struct_removing tr ty loc c code :
  Category_eqb (category ty) Struct = true ->
  generates (GenericStorageItem_setToZero C tr ty loc false) c code ->
  generates (GenericStorageItem_setToZero C tr ty loc true) c
    (code ++ [Operation POP; Operation POP]).
Proof.
  intros Hs.
  assert (Ha : Category_eqb (category ty) Array = false)
    by (destruct (category ty); try discriminate; reflexivity).
  rewrite !(setToZero_struct C) by assumption.
  unfold generates, bind. destruct (zeroMembers C ty (members ty) c) as [[[] c']|e];
    [|discriminate].
  unfold ret. intros [= ->].
  change (emit POP (appended c code)) with (OK (tt, appended (appended c code) [Operation POP])).
  cbv beta iota.
  change (emit POP (appended (appended c code) [Operation POP]))
    with (OK (tt, appended (appended (appended c code) [Operation POP]) [Operation POP])).
  rewrite !appended_app. reflexivity.
Qed.

(** C10 (amended). [setToZero] with [removeReference = false].  The
    linear-memory variant fails its internal assertion on every such call.
    The immutable variant fails on every such call as well: with the internal
    assertion when the type is a value type, and with the not-yet-implemented
    error, which is checked first, when it is not.  The byte-array element and
    the tuple fail an assertion too.  The storage-slot variant, persistent or
    transient, implements the call: for a value type and for an array it first
    duplicates its two addressing operands and then does what the removing
    call does, and for a struct it leaves the operands where the removing
    call pops them.  The stack-resident variant has no addressing operands
    and ignores the flag. *)
Theorem setToZero_keeping_the_reference (loc : SourceLocation) (c : CompilerContext) :
  (forall ty padded,
      fails (LValue_setToZero C (MemoryItem ty padded) loc false) c (InternalCompilerError ""))
  /\ (forall ty v, isValueType ty = true ->
        fails (LValue_setToZero C (ImmutableItem ty v) loc false) c (InternalCompilerError ""))
  /\ (forall ty v, isValueType ty = false ->
        fails (LValue_setToZero C (ImmutableItem ty v) loc false) c
          (UnimplementedFeatureError ""))
  /\ fails (LValue_setToZero C StorageByteArrayElement loc false) c (InternalCompilerError "")
  /\ (forall lvs,
        fails (LValue_setToZero C (TupleObject lvs) loc false) c
          (InternalCompilerError "Tried to delete tuple."))
  /\ (forall tr ty,
        Category_eqb (category ty) Array = false ->
        Category_eqb (category ty) Struct = false ->
        isValueType ty = true ->
        generates (LValue_setToZero C (GenericStorageItem tr ty) loc false) c
          (dups 2 2 ++ zeroCode tr (storageBytes ty))
        /\ generates (LValue_setToZero C (GenericStorageItem tr ty) loc true) c
             (zeroCode tr (storageBytes ty)))
  /\ (forall tr ty clear,
        Category_eqb (category ty) Array = true -> clearArray C ty = OK clear ->
        generates (LValue_setToZero C (GenericStorageItem tr ty) loc false) c
          (dups 2 2 ++ clear)
        /\ generates (LValue_setToZero C (GenericStorageItem tr ty) loc true) c clear)
  /\ (forall tr ty code,
        Category_eqb (category ty) Struct = true ->
        generates (LValue_setToZero C (GenericStorageItem tr ty) loc false) c code ->
        generates (LValue_setToZero C (GenericStorageItem tr ty) loc true) c
          (code ++ [Operation POP; Operation POP]))
  /\ (forall ty base size,
        LValue_setToZero C (StackVariable ty base size) loc false c
        = LValue_setToZero C (StackVariable ty base size) loc true c).
Proof.
  repeat match goal with |- _ /\ _ => split end.
  - intros ty padded. reflexivity.
  - intros ty v Hv. cbn [LValue_setToZero]. unfold ImmutableItem_setToZero, fails.
    rewrite Hv. reflexivity.
  - intros ty v Hv. cbn [LValue_setToZero]. unfold ImmutableItem_setToZero, fails.
    rewrite Hv. reflexivity.
  - reflexivity.
  - intros lvs. reflexivity.
  - intros tr ty Ha Hs Hv. split.
    + apply (setToZero_value_generates C tr ty loc false c Ha Hs Hv).
    + apply (setToZero_value_generates C tr ty loc true c Ha Hs Hv).
  - intros tr ty clear Ha Hclear. cbn [LValue_setToZero].
    rewrite !setToZero_array by assumption. rewrite Hclear. cbn [negb]. split.
    + apply bind_generates; [apply copyToStackTop_generates; lia|apply append_generates].
    + apply (bind_generates (ret tt) _ c [] clear); [apply ret_generates|apply append_generates].
  - intros tr ty code Hs H. now apply setToZero_struct_removing.
  - intros ty base size. reflexivity.
Qed.
End NonRemovingZero.

(** C10 as stated fails on an immutable of a reference type: the call
    with [removeReference = false] raises the not-yet-implemented error, not
    an internal assertion.  It fails on a struct in storage as well, for which
    the call duplicates no addressing operand: the code starts with the
    offset of the first member, and it is the code of the removing call
    without its two final [POP]s. *)
Lemma non_removing_zero_of_reference_types :
  let lv := ImmutableItem Example.mapping (mkDecl 1 Example.mapping true) in
  let st := GenericStorageItem false Example.structWithoutMapping in
  fails (LValue_setToZero Example.collaborators lv noLocation false)
    (Example.context true 0) (UnimplementedFeatureError "")
  /\ ~ (exists msg, fails (LValue_setToZero Example.collaborators lv noLocation false)
                      (Example.context true 0) (InternalCompilerError msg))
  /\ exists code,
       codeOf (LValue_setToZero Example.collaborators st noLocation false)
         (Example.context true 2) = OK code
       /\ hd_error code = Some (Push 0)
       /\ codeOf (LValue_setToZero Example.collaborators st noLocation true)
            (Example.context true 2) = OK (code ++ [Operation POP; Operation POP]).
Proof.
  intros lv st.
  split; [reflexivity|]. split; [intros [msg H]; discriminate H|].
  exists [Push 0; Operation (DUP 3); Operation ADD; Push 0; Operation POP; Push 0;
          Operation (SWAP 1); Operation SSTORE; Push 1; Operation (DUP 3); Operation ADD;
          Push 0; Push 256; Operation EXP; Operation (DUP 2); Operation SLOAD;
          Operation (SWAP 1); Push 255; Operation MUL; Operation NOT; Operation AND;
          Operation (SWAP 1); Operation SSTORE].
  repeat split; vm_compute; reflexivity.
Qed.

(** A memory cell, an immutable and a packed storage slot. *)
Lemma setToZero_keeping_the_reference_witness :
  fails (LValue_setToZero Example.collaborators (MemoryItem (Example.uint 256) true)
           noLocation false) (Example.context true 1) (InternalCompilerError "")
  /\ fails (LValue_setToZero Example.collaborators
              (ImmutableItem (Example.uint 256) (mkDecl 1 (Example.uint 256) true))
              noLocation false) (Example.context true 0) (InternalCompilerError "")
  /\ generates (LValue_setToZero Example.collaborators
                  (GenericStorageItem false (Example.uint 8)) noLocation false)
       (Example.context true 2)
       (dups 2 2 ++ zeroCode false (storageBytes (Example.uint 8))).
Proof.
  split; [|split].
  - apply (setToZero_keeping_the_reference Example.collaborators noLocation
             (Example.context true 1)).
  - apply (setToZero_keeping_the_reference Example.collaborators noLocation
             (Example.context true 0)); reflexivity.
  - destruct (setToZero_keeping_the_reference Example.collaborators noLocation
                (Example.context true 2)) as (_ & _ & _ & _ & _ & H & _).
    apply H; reflexivity.
Defined.

(** ** The transient variant and the reference types in storage *)

Section TransientVariant.
Variable C : Collaborators.

Lemma retrieveValue_packed_ignores_variant tr ty loc rm c :
  isValueType ty = true -> storageBytes ty <> 32 ->
  GenericStorageItem_retrieveValue C tr ty loc rm c
  = GenericStorageItem_retrieveValue C false ty loc rm c.
Proof.
  intros Hv Hw. unfold GenericStorageItem_retrieveValue.
  rewrite Hv. cbn [negb]. destruct (Z.eqb_spec (storageBytes ty) 32); [contradiction|].
  reflexivity.
Qed.

Lemma storeValue_transient_reference ty src loc mv c :
  isValueType ty = false ->
  fails (GenericStorageItem_storeValue C true ty src loc mv) c
    (UnimplementedFeatureError "Transient storage reference types are not supported yet.").
Proof. intros Hv. destruct ty; simpl in Hv |- *. rewrite Hv. reflexivity. Qed.

Lemma storeValue_wrong_category ty src loc mv c :
  isValueType ty = false -> Category_eqb (category src) (category ty) = false ->
  fails (GenericStorageItem_storeValue C false ty src loc mv) c
    (InternalCompilerError "Wrong type conversation for assignment.").
Proof.
  intros Hv Hc. destruct ty; simpl in Hv, Hc |- *. unfold fails.
  rewrite Hv. cbn [negb]. unfold bind at 1. cbn [solUnimplementedAssert ret].
  unfold bind at 1. rewrite Hc. reflexivity.
Qed.

Lemma storeValue_unsupported_reference ty src loc mv c :
  isValueType ty = false -> Category_eqb (category src) (category ty) = true ->
  Category_eqb (category ty) Array = false -> Category_eqb (category ty) Struct = false ->
  fails (GenericStorageItem_storeValue C false ty src loc mv) c
    (InternalCompilerError "Invalid non-value type for assignment.").
Proof.
  intros Hv Hc Ha Hs. destruct ty; simpl in Hv, Hc, Ha, Hs |- *. unfold fails.
  rewrite Hv, Ha, Hs. cbn [negb]. unfold bind at 1. cbn [solUnimplementedAssert ret].
  unfold bind at 1. rewrite Hc. reflexivity.
Qed.

(** X1. For every value type that does not fill its slot, [retrieveValue]
    is the same generator for the transient and for the persistent variant:
    the packed path loads the word with [SLOAD] whatever the variant is.  For
    an unsigned right-aligned type of one stack slot that is neither a function
    type nor a fixed-point type the consequence is shown on the machine: the packed [storeValue] of the transient variant writes
    the value into the window of the word of transient storage at the key,
    touches no other word of transient storage and leaves persistent storage
    as it was, and the code of the transient [retrieveValue] run after it
    pushes the field of the persistent word and not the value that was
    stored. *)
Theorem transient_packed_retrieve_loads_persistent_storage
    (ty : Ty) (loc : SourceLocation) (remove : bool) (c' : CompilerContext) :
  isValueType ty = true -> storageBytes ty <> 32 ->
  LValue_retrieveValue C (GenericStorageItem true ty) loc remove c'
  = LValue_retrieveValue C (GenericStorageItem false ty) loc remove c'
  /\ forall (t : Ty) (w o key v : Z) (move : bool) (c : CompilerContext)
       (convert : list AssemblyItem) (rest : list Z) (s : EVM.State),
       RoundTripType ty t w -> packedField w o ->
       leftAligned ty = false ->
       Category_eqb (category t) Integer && isSigned t = false ->
       convertType C ty ty true true = OK convert ->
       computes convert 1 (fun vs => hd 0 vs mod 2 ^ (8 * w)) ->
       Word.isWord v ->
       Word.isWord (EVM.storage s key) -> Word.isWord (EVM.transient s key) ->
       exists codeS codeR s1,
         generates (LValue_storeValue C (GenericStorageItem true ty) ty loc move) c codeS
         /\ generates (LValue_retrieveValue C (GenericStorageItem true ty) loc remove) c' codeR
         /\ EVM.exec codeS (withStack (o :: key :: v :: rest) s) = Some s1
         /\ EVM.transient s1 key
            = replaceWindow w o (EVM.transient s key) (v mod 2 ^ (8 * w))
         /\ field w o (EVM.transient s1 key) = v mod 2 ^ (8 * w)
         /\ (forall k, k <> key -> EVM.transient s1 k = EVM.transient s k)
         /\ EVM.storage s1 = EVM.storage s
         /\ EVM.exec codeR (withStack (o :: key :: EVM.stack s1) s1)
            = Some (withStack (field w o (EVM.storage s key)
                               :: (if remove then [] else [o; key]) ++ EVM.stack s1) s1).
Proof.
  intros Hvt Hne. split.
  { cbn [LValue_retrieveValue]. now apply retrieveValue_packed_ignores_variant. }
  intros t w o key v move c convert rest s
    (Hv & Ht & Hw & Htw & Hn & Htn & Hl & Hf & Htf & Hfp) Hfield Hla Hsg Hcv Hcomp
    Hword Hold Holdt.
  pose proof Hfield as (Hr & Ho & How).
  assert (Hrange : 0 <= v mod 2 ^ (8 * w) < 2 ^ (8 * w))
    by (apply Z.mod_pos_bound; apply Z.pow_pos_nonneg; lia).
  exists (packedStoreCode true w 1 convert move),
         (duplicateOperands remove ++ retrievePrefix ++ [Push (byteMask w); Operation AND]),
         (withSlot true (if move then rest else v :: rest) s key
            (packed w o (slots true s key) (v mod 2 ^ (8 * w)))).
  split; [|split; [|split; [|split; [|split; [|split; [|split]]]]]].
  - cbn [LValue_storeValue]. apply storeValue_plain_generates; assumption.
  - cbn [LValue_retrieveValue].
    apply retrieveValue_unsigned_generates with (t := t); try assumption; try lia.
    congruence.
  - apply (exec_packedStore_1 true w convert (fun vs => hd 0 vs mod 2 ^ (8 * w)));
      assumption.
  - change (EVM.transient ?x) with (slots true x).
    rewrite slots_withSlot_same. apply packed_replaceWindow; assumption || lia.
  - change (EVM.transient ?x) with (slots true x).
    rewrite slots_withSlot_same, packed_replaceWindow by (assumption || lia).
    apply field_replaceWindow_same; assumption || lia.
  - intros k Hk. change (EVM.transient ?x) with (slots true x).
    now apply slots_withSlot_other.
  - reflexivity.
  - rewrite (exec_retrieve_packed remove o key _ _ [Push (byteMask w); Operation AND]
               (fun vs => hd 0 vs mod 2 ^ (8 * w))).
    + cbn [hd]. change (EVM.storage (withSlot true ?st s key ?x)) with (EVM.storage s).
      rewrite div_mod_field by lia. reflexivity.
    + apply computes_mask_mod. lia.
    + change (EVM.storage (withSlot true ?st s key ?x)) with (EVM.storage s).
      apply isWord_div_exp256; [lia|assumption].
Qed.

(** X2. A storage item of a reference type.  The transient variant refuses
    to read and to assign it, with the not-yet-implemented error.  The
    persistent variant reads it as the storage key alone: the byte offset is
    popped when the operands are removed, and the key is duplicated over
    both operands when they are kept; a reference of any other size than one
    stack slot fails the assertion. *)
Theorem storage_reference_is_read_as_its_key (ty src : Ty) (loc : SourceLocation)
    (flag : bool) (c : CompilerContext) :
  isValueType ty = false ->
  fails (LValue_retrieveValue C (GenericStorageItem true ty) loc flag) c
    (UnimplementedFeatureError "Transient storage reference types are not supported yet.")
  /\ fails (LValue_storeValue C (GenericStorageItem true ty) src loc flag) c
       (UnimplementedFeatureError "Transient storage reference types are not supported yet.")
  /\ (sizeOnStack ty <> 1 ->
      fails (LValue_retrieveValue C (GenericStorageItem false ty) loc flag) c
        (InternalCompilerError "Invalid storage ref size."))
  /\ (sizeOnStack ty = 1 ->
      exists code,
        generates (LValue_retrieveValue C (GenericStorageItem false ty) loc flag) c code
        /\ code = [Operation (if flag then POP else DUP 2)]
        /\ forall o key rest s,
             EVM.exec code (withStack (o :: key :: rest) s)
             = Some (withStack (key :: (if flag then rest else o :: key :: rest)) s)).
Proof.
  intros Hv. split; [|split; [|split]].
  - cbn [LValue_retrieveValue]. unfold GenericStorageItem_retrieveValue, fails.
    rewrite Hv. reflexivity.
  - cbn [LValue_storeValue]. now apply storeValue_transient_reference.
  - intros Hn. cbn [LValue_retrieveValue]. unfold GenericStorageItem_retrieveValue, fails.
    rewrite Hv. cbn [negb]. unfold bind at 1. cbn [solUnimplementedAssert ret].
    unfold bind at 1. destruct (Z.eqb_spec (sizeOnStack ty) 1); [contradiction|reflexivity].
  - intros Hn. exists [Operation (if flag then POP else DUP 2)].
    split; [|split; [reflexivity|]].
    + cbn [LValue_retrieveValue]. unfold GenericStorageItem_retrieveValue.
      rewrite Hv, Hn. cbn [negb]. change (1 =? 1) with true.
      destruct flag; (eapply generates_eq; [repeat gen_step | reflexivity]).
    + intros o key rest s. destruct flag; reflexivity.
Qed.

(** X3. A reference type in storage that is neither an array nor a struct
    (a mapping, for one) can be read as a reference but neither assigned nor
    cleared: [setToZero] fails its assertion for both variants, and
    [storeValue] fails with the not-yet-implemented error for the transient
    variant and, for the persistent one, with the assertion on the category
    of the source when that differs and with the assertion on the target
    otherwise. *)
Theorem storage_reference_neither_array_nor_struct (tr : bool) (ty src : Ty)
    (loc : SourceLocation) (flag : bool) (c : CompilerContext) :
  isValueType ty = false ->
  Category_eqb (category ty) Array = false ->
  Category_eqb (category ty) Struct = false ->
  (exists message,
      fails (LValue_setToZero C (GenericStorageItem tr ty) loc flag) c
        (InternalCompilerError message))
  /\ fails (LValue_storeValue C (GenericStorageItem true ty) src loc flag) c
       (UnimplementedFeatureError "Transient storage reference types are not supported yet.")
  /\ (Category_eqb (category src) (category ty) = false ->
      fails (LValue_storeValue C (GenericStorageItem false ty) src loc flag) c
        (InternalCompilerError "Wrong type conversation for assignment."))
  /\ (Category_eqb (category src) (category ty) = true ->
      fails (LValue_storeValue C (GenericStorageItem false ty) src loc flag) c
        (InternalCompilerError "Invalid non-value type for assignment.")).
Proof.
  intros Hv Ha Hs. split; [|split; [|split]].
  - eexists. cbn [LValue_setToZero]. rewrite setToZero_value_type by assumption.
    unfold fails. rewrite Hv. reflexivity.
  - cbn [LValue_storeValue]. now apply storeValue_transient_reference.
  - intros Hc. cbn [LValue_storeValue]. now apply storeValue_wrong_category.
  - intros Hc. cbn [LValue_storeValue]. now apply storeValue_unsupported_reference.
Qed.

(** X4. What [storeValue] asserts of a value type before it emits the
    store, for either variant.  The type takes between 1 and 32 bytes of a
    slot, and a type of 32 bytes takes one stack slot.  For a type of fewer
    bytes, whose value of at most 13 stack slots is in reach of the [DUP] that
    copies it, the code tries the function branch first: a function type is
    implicitly convertible from the source, has no bound first argument and
    takes two stack slots when it is external and one otherwise.  Only a type
    that is not a function type is then asked for its alignment: a
    left-aligned one is assigned from fixed bytes only, and any other takes
    one stack slot.  So the assertion on fixed bytes is never made for an
    external function type, left-aligned or not: where the type has no bound
    first argument, its value of two slots is stored from a source of any
    category that implicitly converts to it. *)
Theorem storeValue_asserts_the_value_layout (tr : bool) (ty src : Ty)
    (loc : SourceLocation) (flag : bool) (c : CompilerContext) :
  isValueType ty = true ->
  (storageBytes ty <= 0 \/ 32 < storageBytes ty ->
     fails (LValue_storeValue C (GenericStorageItem tr ty) src loc flag) c
       (InternalCompilerError "Invalid storage bytes size."))
  /\ (storageBytes ty = 32 -> sizeOnStack ty <> 1 ->
     fails (LValue_storeValue C (GenericStorageItem tr ty) src loc flag) c
       (InternalCompilerError "Invalid stack size."))
  /\ (0 < storageBytes ty < 32 -> 0 <= sizeOnStack ty <= 13 ->
      (Category_eqb (category ty) Function = true ->
         (isImplicitlyConvertibleTo C src ty = false ->
          fails (LValue_storeValue C (GenericStorageItem tr ty) src loc flag) c
            (InternalCompilerError
               "function item stored but target is not implicitly convertible to source"))
         /\ (isImplicitlyConvertibleTo C src ty = true ->
             hasBoundFirstArgument ty = true ->
             fails (LValue_storeValue C (GenericStorageItem tr ty) src loc flag) c
               (InternalCompilerError ""))
         /\ (isImplicitlyConvertibleTo C src ty = true ->
             hasBoundFirstArgument ty = false ->
             sizeOnStack ty <> (if FunctionKind_eqb (kind ty) External then 2 else 1) ->
             fails (LValue_storeValue C (GenericStorageItem tr ty) src loc flag) c
               (InternalCompilerError "")))
      /\ (Category_eqb (category ty) Function = false -> leftAligned ty = true ->
          Category_eqb (category src) FixedBytes = false ->
          (forall e, encodingType src = Some e ->
                     Category_eqb (category e) FixedBytes = false) ->
          fails (LValue_storeValue C (GenericStorageItem tr ty) src loc flag) c
            (InternalCompilerError "source not fixed bytes"))
      /\ (Category_eqb (category ty) Function = false -> leftAligned ty = false ->
          sizeOnStack ty <> 1 ->
          fails (LValue_storeValue C (GenericStorageItem tr ty) src loc flag) c
            (InternalCompilerError "Invalid stack size for opaque type.")))
  /\ (forall combine,
        0 < storageBytes ty < 32 ->
        Category_eqb (category ty) Function = true ->
        FunctionKind_eqb (kind ty) External = true -> sizeOnStack ty = 2 ->
        isImplicitlyConvertibleTo C src ty = true -> hasBoundFirstArgument ty = false ->
        combineExternalFunctionType C false = OK combine ->
        generates (LValue_storeValue C (GenericStorageItem tr ty) src loc flag) c
          (packedStoreCode tr (storageBytes ty) 2 combine flag)).
Proof.
  intros Hv. cbn [LValue_storeValue]. split; [|split; [|split]].
  - rewrite storeValue_value_type by assumption.
    intros [H|H]; unfold fails, bind, solAssert.
    + destruct (Z.leb_spec (storageBytes ty) 32); [|reflexivity].
      cbn [ret]. destruct (Z.gtb_spec (storageBytes ty) 0); [lia|reflexivity].
    + destruct (Z.leb_spec (storageBytes ty) 32); [lia|reflexivity].
  - rewrite storeValue_value_type by assumption.
    intros Hw Hn. rewrite Hw. unfold fails, bind, solAssert.
    change (32 <=? 32) with true. change (32 >? 0) with true. change (32 =? 32) with true.
    cbn [ret]. destruct (Z.eqb_spec (sizeOnStack ty) 1); [contradiction|reflexivity].
  - intros Hw Hn. split; [|split].
    + intros Hf. split; [|split].
      * intros Hi. apply storeValue_alignment_fails; try assumption.
        intros c0. rewrite Hf, Hi. reflexivity.
      * intros Hi Hb. apply storeValue_alignment_fails; try assumption.
        intros c0. rewrite Hf, Hi, Hb. reflexivity.
      * intros Hi Hb Hsize. apply storeValue_alignment_fails; try assumption.
        intros c0. rewrite Hf, Hi, Hb. unfold fails, bind, solAssert. cbn [negb ret].
        destruct (FunctionKind_eqb (kind ty) External).
        -- destruct (Z.eqb_spec (sizeOnStack ty) 2); [contradiction|reflexivity].
        -- destruct (Z.eqb_spec (sizeOnStack ty) 1); [contradiction|reflexivity].
    + intros Hf Hl Hsrc Henc. apply storeValue_alignment_fails; try assumption.
      intros c0. rewrite Hf, Hl, Hsrc.
      assert (Hfix : match encodingType src with
                     | Some e => Category_eqb (category e) FixedBytes
                     | None => false
                     end = false).
      { destruct (encodingType src) as [e|] eqn:E; [now apply Henc|reflexivity]. }
      rewrite Hfix. reflexivity.
    + intros Hf Hl Hsize. apply storeValue_alignment_fails; try assumption.
      intros c0. rewrite Hf, Hl. unfold fails, bind, solAssert.
      destruct (Z.eqb_spec (sizeOnStack ty) 1); [contradiction|reflexivity].
  - intros combine Hw Hf Hk Hn Hi Hb Hcb.
    now apply storeValue_external_generates.
Qed.
End TransientVariant.

(** A [uint8] in byte 3 of the slot at key 5: [0xAB] is stored by the
    transient variant while persistent storage holds [0x1122334455], and the
    read pushes [0x22]. *)
Lemma transient_packed_retrieve_loads_persistent_storage_witness :
  let s := Example.state [] (fun _ => 73588229205) in
  let c := Example.context true 3 in
  let c' := Example.context true 2 in
  let ty := Example.uint 8 in
  LValue_retrieveValue Example.collaborators (GenericStorageItem true ty) noLocation true c'
  = LValue_retrieveValue Example.collaborators (GenericStorageItem false ty) noLocation true c'
  /\ exists codeS codeR s1,
       generates (LValue_storeValue Example.collaborators (GenericStorageItem true ty) ty
                    noLocation true) c codeS
       /\ generates (LValue_retrieveValue Example.collaborators (GenericStorageItem true ty)
                       noLocation true) c' codeR
       /\ EVM.exec codeS (withStack (3 :: 5 :: 171 :: []) s) = Some s1
       /\ EVM.transient s1 5 = replaceWindow 1 3 (EVM.transient s 5) (171 mod 2 ^ (8 * 1))
       /\ field 1 3 (EVM.transient s1 5) = 171 mod 2 ^ (8 * 1)
       /\ (forall k, k <> 5 -> EVM.transient s1 k = EVM.transient s k)
       /\ EVM.storage s1 = EVM.storage s
       /\ EVM.exec codeR (withStack (3 :: 5 :: EVM.stack s1) s1)
          = Some (withStack (field 1 3 (EVM.storage s 5) :: [] ++ EVM.stack s1) s1).
Proof.
  intros s c c' ty.
  destruct (transient_packed_retrieve_loads_persistent_storage Example.collaborators
              ty noLocation true c' eq_refl ltac:(discriminate)) as [Hsame Hrun].
  split; [exact Hsame|].
  apply (Hrun ty 1 3 5 171 true c [Push (byteMask 1); Operation AND] [] s).
  - repeat split.
  - unfold packedField. lia.
  - reflexivity.
  - reflexivity.
  - reflexivity.
  - apply computes_mask_mod. lia.
  - unfold Word.isWord, Word.modulus. lia.
  - unfold Word.isWord, Word.modulus. simpl. lia.
  - unfold Word.isWord, Word.modulus. simpl. lia.
Defined.

(** C9. The transient variant at a concrete input.  A reference type, here
    a mapping, is refused by [retrieveValue] and by [storeValue] with the
    not-yet-implemented error that names transient storage reference types.
    For the value type [uint8] at byte 3 of the slot with key 5,
    [storeValue] loads and stores the word with [TLOAD] and [TSTORE], as
    [retrieveValue] of the 32-byte [uint256] loads it with [TLOAD]; but
    [retrieveValue] of the packed [uint8] emits [SLOAD], item for item the
    code of the persistent variant.  So with [0x1122334455] in persistent and
    nothing in transient storage, the transient store of [0xAB] followed by
    the transient read pushes [0x22], the byte of persistent storage, and not
    [0xAB], which the same read with [TLOAD] in the place of [SLOAD]
    pushes. *)
Theorem transient_packed_read_loads_with_SLOAD :
  let K := Example.collaborators in
  let c := Example.context true 3 in
  let c' := Example.context true 2 in
  let s := EVM.mkState [] (fun _ => 73588229205) (fun _ => 0) in
  let s1 := withSlot true [] s 5 (171 * 2 ^ 24) in
  let read (load : Instruction) :=
    [Operation (SWAP 1); Operation load; Operation (SWAP 1); Push 256; Operation EXP;
     Operation (SWAP 1); Operation DIV; Push 255; Operation AND] in
  let write :=
    [Push 256; Operation EXP; Operation (DUP 2); Operation TLOAD;
     Operation (DUP 2); Push 255; Operation MUL; Operation NOT; Operation AND;
     Operation (SWAP 1); Operation (DUP 4); Push 255; Operation AND;
     Operation MUL; Operation OR; Operation (SWAP 1); Operation TSTORE;
     Operation POP] in
  fails (LValue_retrieveValue K (GenericStorageItem true Example.mapping) noLocation true) c'
    (UnimplementedFeatureError "Transient storage reference types are not supported yet.")
  /\ fails (LValue_storeValue K (GenericStorageItem true Example.mapping) Example.mapping
              noLocation true) c
       (UnimplementedFeatureError "Transient storage reference types are not supported yet.")
  /\ codeOf (LValue_storeValue K (GenericStorageItem true (Example.uint 8)) (Example.uint 8)
               noLocation true) c
     = OK write
  /\ codeOf (LValue_retrieveValue K (GenericStorageItem true (Example.uint 256))
               noLocation true) c'
     = OK [Operation POP; Operation TLOAD]
  /\ codeOf (LValue_retrieveValue K (GenericStorageItem true (Example.uint 8))
               noLocation true) c'
     = OK (read SLOAD)
  /\ codeOf (LValue_retrieveValue K (GenericStorageItem false (Example.uint 8))
               noLocation true) c'
     = OK (read SLOAD)
  /\ EVM.exec write (withStack [3; 5; 171] s) = Some s1
  /\ field 1 3 (EVM.transient s1 5) = 171
  /\ EVM.storage s1 5 = 73588229205
  /\ EVM.exec (read SLOAD) (withStack [3; 5] s1) = Some (withStack [34] s1)
  /\ EVM.exec (read TLOAD) (withStack [3; 5] s1) = Some (withStack [171] s1).
Proof.
  intros K c c' s s1 read write.
  repeat match goal with |- _ /\ _ => split end; vm_compute; reflexivity.
Qed.

(** A mapping, which is a reference type of one stack slot. *)
Lemma storage_reference_is_read_as_its_key_witness :
  fails (LValue_retrieveValue Example.collaborators
           (GenericStorageItem true Example.mapping) noLocation true)
    (Example.context true 2)
    (UnimplementedFeatureError "Transient storage reference types are not supported yet.")
  /\ exists code,
       generates (LValue_retrieveValue Example.collaborators
                    (GenericStorageItem false Example.mapping) noLocation true)
         (Example.context true 2) code
       /\ code = [Operation POP]
       /\ forall o key rest s,
            EVM.exec code (withStack (o :: key :: rest) s)
            = Some (withStack (key :: rest) s).
Proof.
  destruct (storage_reference_is_read_as_its_key Example.collaborators
              Example.mapping Example.mapping noLocation true (Example.context true 2)
              eq_refl) as (H1 & _ & _ & H4).
  split; [exact H1|]. apply H4. reflexivity.
Defined.

Lemma storage_reference_neither_array_nor_struct_witness :
  (exists message,
      fails (LValue_setToZero Example.collaborators
               (GenericStorageItem false Example.mapping) noLocation true)
        (Example.context true 2) (InternalCompilerError message))
  /\ fails (LValue_storeValue Example.collaborators
              (GenericStorageItem false Example.mapping) Example.mapping noLocation true)
       (Example.context true 3)
       (InternalCompilerError "Invalid non-value type for assignment.").
Proof.
  split.
  - apply (storage_reference_neither_array_nor_struct Example.collaborators false
             Example.mapping Example.mapping noLocation true (Example.context true 2));
      reflexivity.
  - destruct (storage_reference_neither_array_nor_struct Example.collaborators false
                Example.mapping Example.mapping noLocation true (Example.context true 3)
                eq_refl eq_refl eq_refl) as (_ & _ & _ & H).
    apply H. reflexivity.
Defined.

(** A value type that claims 33 bytes of a slot, [bytes4] assigned from an
    integer, and an external function assigned from one of its type. *)
Lemma storeValue_asserts_the_value_layout_witness :
  fails (LValue_storeValue Example.collaborators
           (GenericStorageItem false (Example.valueType Integer 33 false false))
           (Example.uint 256) noLocation true)
    (Example.context true 3) (InternalCompilerError "Invalid storage bytes size.")
  /\ fails (LValue_storeValue Example.collaborators
              (GenericStorageItem false (Example.bytesN 4)) (Example.uint 32) noLocation true)
       (Example.context true 3) (InternalCompilerError "source not fixed bytes")
  /\ generates (LValue_storeValue Example.collaborators
                  (GenericStorageItem false Example.externalFunction)
                  Example.externalFunction noLocation true)
       (Example.context true 4)
       (packedStoreCode false 24 2 [Foreign "combineExternalFunctionType" (-1)] true).
Proof.
  split; [|split].
  - destruct (storeValue_asserts_the_value_layout Example.collaborators false
                (Example.valueType Integer 33 false false) (Example.uint 256)
                noLocation true (Example.context true 3) eq_refl) as (H & _).
    apply H. right. simpl. lia.
  - destruct (storeValue_asserts_the_value_layout Example.collaborators false
                (Example.bytesN 4) (Example.uint 32)
                noLocation true (Example.context true 3) eq_refl) as (_ & _ & H & _).
    destruct H as (_ & H & _); [simpl; lia|simpl; lia|].
    apply H; try reflexivity. intros e H0. discriminate H0.
  - destruct (storeValue_asserts_the_value_layout Example.collaborators false
                Example.externalFunction Example.externalFunction
                noLocation true (Example.context true 4) eq_refl) as (_ & _ & _ & H).
    apply (H [Foreign "combineExternalFunctionType" (-1)]); try reflexivity.
    simpl. lia.
Defined.

(** ** Stack-resident values on the machine *)

Lemma nth_error_middle {A} (xs : list A) b ys :
  nth_error (xs ++ b :: ys) (List.length xs) = Some b.
Proof. induction xs; simpl; auto. Qed.

Lemma firstn_middle {A} (xs : list A) ys : firstn (List.length xs) (xs ++ ys) = xs.
Proof. induction xs; simpl; congruence. Qed.

Lemma skipn_middle {A} (xs : list A) b ys :
  skipn (S (List.length xs)) (xs ++ b :: ys) = ys.
Proof. induction xs; simpl; auto. Qed.

Lemma exec_swapPop d a xs b ys s :
  1 <= d <= 16 -> Z.of_nat (List.length xs) = d - 1 ->
  EVM.exec [Operation (SWAP d); Operation POP] (withStack (a :: xs ++ b :: ys) s)
  = Some (withStack (xs ++ a :: ys) s).
Proof.
  intros Hd Hlen. cbn [EVM.exec EVM.exec1 EVM.step].
  replace ((1 <=? d) && (d <=? 16)) with true
    by (symmetry; apply andb_true_intro; split; apply Z.leb_le; lia).
  replace (Z.to_nat d) with (S (List.length xs)) by lia.
  cbn [withStack EVM.stack EVM.swapTop].
  rewrite nth_error_middle, firstn_middle, skipn_middle. reflexivity.
Qed.

Lemma swapPops_succ d n :
  swapPops d (Z.of_nat (S n))
  = [Operation (SWAP d); Operation POP] ++ swapPops d (Z.of_nat n).
Proof. unfold swapPops. now rewrite !Nat2Z.id. Qed.

Lemma exec_swapPops d vs : forall pre old rest s,
  List.length vs = List.length old ->
  Z.of_nat (List.length vs + List.length pre) = d -> d <= 16 ->
  EVM.exec (swapPops d (Z.of_nat (List.length vs))) (withStack (vs ++ pre ++ old ++ rest) s)
  = Some (withStack (pre ++ vs ++ rest) s).
Proof.
  induction vs as [|a vs IH]; intros pre old rest s Hlen Hd H16.
  - destruct old; [|discriminate]. reflexivity.
  - destruct old as [|b old]; [discriminate|].
    cbn [List.length] in *. rewrite swapPops_succ, exec_app.
    replace ((a :: vs) ++ pre ++ (b :: old) ++ rest)
      with (a :: (vs ++ pre) ++ b :: (old ++ rest))
      by (cbn [app]; now rewrite <- app_assoc).
    rewrite exec_swapPop by (rewrite ?length_app; lia).
    replace ((vs ++ pre) ++ a :: old ++ rest) with (vs ++ (pre ++ [a]) ++ old ++ rest)
      by (rewrite <- !app_assoc; reflexivity).
    rewrite IH by (rewrite ?length_app; cbn [List.length]; lia).
    rewrite <- app_assoc. reflexivity.
Qed.

Lemma dups_succ d n : dups d (Z.of_nat (S n)) = Operation (DUP d) :: dups d (Z.of_nat n).
Proof. unfold dups. now rewrite !Nat2Z.id. Qed.

Lemma exec_dup d xs z ys s :
  1 <= d <= 16 -> Z.of_nat (List.length xs) = d - 1 ->
  EVM.exec1 (Operation (DUP d)) (withStack (xs ++ z :: ys) s)
  = Some (withStack (z :: xs ++ z :: ys) s).
Proof.
  intros Hd Hlen. cbn [EVM.exec1 EVM.step].
  replace ((1 <=? d) && (d <=? 16)) with true
    by (symmetry; apply andb_true_intro; split; apply Z.leb_le; lia).
  replace (Z.to_nat (d - 1)) with (List.length xs) by lia.
  cbn [withStack EVM.stack]. rewrite nth_error_middle. reflexivity.
Qed.

Lemma exec_dups d vs : forall pre rest s,
  Z.of_nat (List.length pre + List.length vs) = d -> d <= 16 ->
  EVM.exec (dups d (Z.of_nat (List.length vs))) (withStack (pre ++ vs ++ rest) s)
  = Some (withStack (vs ++ pre ++ vs ++ rest) s).
Proof.
  induction vs as [|z vs IH] using rev_ind; intros pre rest s Hd H16.
  - reflexivity.
  - rewrite length_app in *. cbn [List.length] in *.
    replace (List.length vs + 1)%nat with (S (List.length vs)) by lia.
    rewrite dups_succ.
    assert (E2 : (vs ++ [z]) ++ pre ++ (vs ++ [z]) ++ rest
                 = vs ++ (z :: pre) ++ vs ++ z :: rest)
      by (rewrite <- !app_assoc; reflexivity).
    assert (E : pre ++ (vs ++ [z]) ++ rest = (pre ++ vs) ++ z :: rest)
      by (rewrite <- !app_assoc; reflexivity).
    rewrite E2, E. cbn [EVM.exec].
    rewrite exec_dup by (rewrite ?length_app; lia).
    replace (z :: (pre ++ vs) ++ z :: rest) with ((z :: pre) ++ vs ++ z :: rest)
      by (cbn [app]; now rewrite <- app_assoc).
    apply IH; cbn [List.length]; lia.
Qed.

(** X5. A value of [size] slots assigned to a stack-resident variable, on
    the machine.  With the new value [vs] on top of the stack and the
    variable [old] at most 16 slots below, the moving [storeValue] replaces
    the slots of the variable by those of the value, in order, and leaves
    every other slot where it was; a [retrieveValue] generated next pushes
    those slots again, in order; and the [storeValue] that keeps the value
    generates the one code followed by the other. *)
Theorem StackVariable_store_then_retrieve (C : Collaborators) (ty src : Ty)
    (base size : Z) (loc : SourceLocation) (flag : bool) (c : CompilerContext)
    (vs mid old rest : list Z) (s : EVM.State) :
  Z.of_nat (List.length vs) = size -> Z.of_nat (List.length old) = size ->
  Z.of_nat (List.length rest) = base ->
  deposit c = Z.of_nat (List.length (vs ++ mid ++ old ++ rest)) ->
  deposit c < 2 ^ 32 ->
  storeDistance c base size <= 16 ->
  exists codeS codeR,
    generates (LValue_storeValue C (StackVariable ty base size) src loc true) c codeS
    /\ generates (LValue_retrieveValue C (StackVariable ty base size) loc flag)
         (appended c codeS) codeR
    /\ generates (LValue_storeValue C (StackVariable ty base size) src loc false) c
         (codeS ++ codeR)
    /\ EVM.exec codeS (withStack (vs ++ mid ++ old ++ rest) s)
       = Some (withStack (mid ++ vs ++ rest) s)
    /\ EVM.exec codeR (withStack (mid ++ vs ++ rest) s)
       = Some (withStack (vs ++ mid ++ vs ++ rest) s).
Proof.
  intros Hvs Hold Hrest Hh H32 Hd. unfold storeDistance in Hd.
  rewrite !length_app in Hh.
  set (d := deposit c - base - size) in *.
  assert (Hdm : Z.of_nat (List.length vs + List.length mid) = d) by (unfold d; lia).
  exists (swapPops d size), (dups d size).
  assert (HS : generates (StackVariable_storeValue base size src loc true) c
                 (swapPops d size)).
  { pose proof (store_ok base size src loc true c) as H. cbv iota in H.
    rewrite app_nil_r in H. apply H; unfold d in *; lia. }
  assert (HR : generates (StackVariable_retrieveValue base size loc flag)
                 (appended c (swapPops d size)) (dups d size)).
  { pose proof (retrieve_ok base size loc flag (appended c (swapPops d size))) as H.
    rewrite deposit_swapPops in H by lia.
    replace (deposit c - size - base) with d in H by (unfold d; lia).
    apply H; unfold d in *; lia. }
  split; [exact HS|]. split; [exact HR|]. split; [|split].
  - apply (store_ok base size src loc false c); unfold d in *; lia.
  - rewrite <- Hvs. apply exec_swapPops; lia.
  - rewrite <- Hvs. apply exec_dups; lia.
Qed.

Section StackVariableZero.
Variable C : Collaborators.

Lemma StackVariable_setToZero_generates ty base size loc flag c zero :
  pushZeroValue C ty = OK zero -> depositOf zero = size ->
  0 <= base -> 0 <= size -> base + size <= deposit c -> deposit c + size < 2 ^ 32 ->
  deposit c - base <= 16 ->
  generates (StackVariable_setToZero C ty base size loc flag) c
    (zero ++ swapPops (deposit c - base) size).
Proof.
  intros Hz Hdep Hb Hs Hh H32 Hd. unfold StackVariable_setToZero. rewrite Hz.
  apply bind_generates; [apply append_generates|].
  pose proof (store_ok base size ty loc true (appended c zero)) as H. cbv iota in H.
  rewrite app_nil_r, deposit_appended', Hdep in H.
  replace (deposit c + size - base - size) with (deposit c - base) in H by lia.
  apply H; lia.
Qed.

(** X6. [setToZero] of a stack-resident variable: the zero value of the
    type is pushed and then moved into the slots of the variable, so the
    variable is in reach exactly when a read of it is (at most 16 slots from
    the top), the tracked height of the stack is left as it was, and on the
    machine the slots of the variable, and only they, are replaced by what
    the zero value pushes.  Beyond the window the stack-too-deep error is
    raised with the location of the access.  The flag is ignored. *)
Theorem StackVariable_setToZero_overwrites_the_variable (ty : Ty) (base size : Z)
    (loc : SourceLocation) (flag : bool) (c : CompilerContext)
    (zero : list AssemblyItem) :
  pushZeroValue C ty = OK zero -> depositOf zero = size ->
  0 <= base -> 0 <= size -> base + size <= deposit c -> deposit c + size < 2 ^ 32 ->
  (retrieveDistance c base <= 16 ->
     exists code,
       generates (LValue_setToZero C (StackVariable ty base size) loc flag) c code
       /\ code = zero ++ swapPops (retrieveDistance c base) size
       /\ deposit (appended c code) = deposit c
       /\ forall (zs mid old rest : list Z) (s : EVM.State),
            (forall st, EVM.exec zero (withStack st s) = Some (withStack (zs ++ st) s)) ->
            Z.of_nat (List.length zs) = size -> Z.of_nat (List.length old) = size ->
            Z.of_nat (List.length rest) = base ->
            deposit c = Z.of_nat (List.length (mid ++ old ++ rest)) ->
            EVM.exec code (withStack (mid ++ old ++ rest) s)
            = Some (withStack (mid ++ zs ++ rest) s))
  /\ (16 < retrieveDistance c base ->
     fails (LValue_setToZero C (StackVariable ty base size) loc flag) c
       (StackTooDeepError (Some loc))).
Proof.
  intros Hz Hdep Hb Hs Hh H32. unfold retrieveDistance. split; intros Hd.
  - exists (zero ++ swapPops (deposit c - base) size).
    split; [now apply StackVariable_setToZero_generates|].
    split; [reflexivity|]. split.
    + rewrite <- appended_app, deposit_swapPops, deposit_appended' by lia. lia.
    + intros zs mid old rest s Hzero Hzs Hold Hrest Hlen.
      rewrite !length_app in Hlen.
      rewrite exec_app, Hzero. rewrite <- Hzs.
      apply exec_swapPops; lia.
  - cbn [LValue_setToZero]. unfold StackVariable_setToZero. rewrite Hz.
    eapply bind_fails_right; [apply append_generates|].
    apply store_too_deep; rewrite ?deposit_appended', ?Hdep; lia.
Qed.
End StackVariableZero.

(** Two variables of two slots each: the value [(7, 8)] assigned to the
    lower one, which held [(1, 2)], across the upper one. *)
Lemma StackVariable_store_then_retrieve_witness :
  let s := Example.state [] (fun _ => 0) in
  let ty := Example.tuple [Some (Example.uint 256); Some (Example.uint 256)] in
  exists codeS codeR,
    generates (LValue_storeValue Example.collaborators (StackVariable ty 1 2) ty
                 noLocation true) (Example.context true 7) codeS
    /\ generates (LValue_retrieveValue Example.collaborators (StackVariable ty 1 2)
                    noLocation true) (appended (Example.context true 7) codeS) codeR
    /\ generates (LValue_storeValue Example.collaborators (StackVariable ty 1 2) ty
                    noLocation false) (Example.context true 7) (codeS ++ codeR)
    /\ EVM.exec codeS (withStack ([7; 8] ++ [3; 4] ++ [1; 2] ++ [9]) s)
       = Some (withStack ([3; 4] ++ [7; 8] ++ [9]) s)
    /\ EVM.exec codeR (withStack ([3; 4] ++ [7; 8] ++ [9]) s)
       = Some (withStack ([7; 8] ++ [3; 4] ++ [7; 8] ++ [9]) s).
Proof.
  intros s ty.
  apply (StackVariable_store_then_retrieve Example.collaborators ty ty 1 2 noLocation true
           (Example.context true 7) [7; 8] [3; 4] [1; 2] [9] s);
    try reflexivity; unfold storeDistance; simpl; lia.
Defined.

(** A [uint256] variable at the bottom of a stack of three slots. *)
Lemma StackVariable_setToZero_overwrites_the_variable_witness :
  exists code,
    generates (LValue_setToZero Example.collaborators
                 (StackVariable (Example.uint 256) 0 1) noLocation true)
      (Example.context true 3) code
    /\ code = [Push 0] ++ swapPops (retrieveDistance (Example.context true 3) 0) 1
    /\ deposit (appended (Example.context true 3) code) = deposit (Example.context true 3)
    /\ forall (zs mid old rest : list Z) (s : EVM.State),
         (forall st, EVM.exec [Push 0] (withStack st s) = Some (withStack (zs ++ st) s)) ->
         Z.of_nat (List.length zs) = 1 -> Z.of_nat (List.length old) = 1 ->
         Z.of_nat (List.length rest) = 0 ->
         deposit (Example.context true 3) = Z.of_nat (List.length (mid ++ old ++ rest)) ->
         EVM.exec code (withStack (mid ++ old ++ rest) s)
         = Some (withStack (mid ++ zs ++ rest) s).
Proof.
  destruct (StackVariable_setToZero_overwrites_the_variable Example.collaborators
              (Example.uint 256) 0 1 noLocation true (Example.context true 3) [Push 0])
    as (H & _); try reflexivity; simpl; try lia.
  apply H. unfold retrieveDistance. simpl. lia.
Defined.

(** ** Whole slots, function values and state variables *)

Lemma exec_retrieve_full_variant tr rm o key st s :
  EVM.exec (duplicateOperands rm ++ [Operation POP; Operation (m_loadInstruction tr)])
    (withStack (o :: key :: st) s)
  = Some (withStack (slots tr s key :: (if rm then [] else [o; key]) ++ st) s).
Proof. destruct rm, tr; reflexivity. Qed.

Lemma exec_zero_full_variant tr rm o key rest s :
  EVM.exec (duplicateOperands rm ++ zeroCode tr 32) (withStack (o :: key :: rest) s)
  = Some (withSlot tr (if rm then rest else o :: key :: rest) s key 0).
Proof. destruct rm, tr; reflexivity. Qed.

Lemma check_value_type ty c :
  isValueType ty = true -> Category_eqb (category ty) Function = false ->
  storageSize ty = 1 -> sizeOnStack ty = 1 ->
  GenericStorageItem_check ty c = OK (tt, c).
Proof.
  intros Hv Hf Hs Hn. unfold GenericStorageItem_check. rewrite Hv, Hf, Hs, Hn. reflexivity.
Qed.

Lemma ofDeclaration_pushes_the_location tr d c :
  GenericStorageItem_check (declType d) c = OK (tt, c) -> immutable d = false ->
  GenericStorageItem_ofDeclaration tr d c
  = OK (GenericStorageItem tr (declType d),
        appended c [Push (fst (storageLocationOfVariable c (declId d)));
                    Push (snd (storageLocationOfVariable c (declId d)))]).
Proof.
  intros Hcheck Himm.
  unfold GenericStorageItem_ofDeclaration, GenericStorageItem_new.
  unfold bind at 1. unfold bind at 1. rewrite Hcheck. cbn [ret].
  unfold bind at 1. rewrite Himm. cbn [negb solAssert ret].
  unfold bind at 1. cbn [getContext].
  unfold bind, emit, ret, appended. cbn.
  rewrite <- app_assoc. reflexivity.
Qed.

Section WholeSlots.
Variable C : Collaborators.

(** X7. A value type that fills its slot (32 bytes), for the persistent
    and for the transient variant alike.  The byte offset on the stack is
    dropped unread.  [storeValue] writes the value to the key in the key
    space of the variant and [setToZero] writes zero there; either leaves
    every other key of that space, and the whole other space, as it was; and
    [retrieveValue] after the store pushes the value. *)
Theorem full_word_item_addresses_its_own_key_space (tr : bool) (ty src : Ty)
    (loc : SourceLocation) (move remove : bool) (c c' c'' : CompilerContext)
    (convert : list AssemblyItem) (o key v : Z) (rest : list Z) (s : EVM.State) :
  isValueType ty = true -> storageBytes ty = 32 -> sizeOnStack ty = 1 ->
  Category_eqb (category ty) Array = false ->
  Category_eqb (category ty) Struct = false ->
  convertType C src ty true false = OK convert ->
  computes convert 1 (fun vs => hd 0 vs) -> Word.isWord v ->
  exists codeS codeR codeZ s1 s2,
    generates (LValue_storeValue C (GenericStorageItem tr ty) src loc move) c codeS
    /\ generates (LValue_retrieveValue C (GenericStorageItem tr ty) loc remove) c' codeR
    /\ generates (LValue_setToZero C (GenericStorageItem tr ty) loc remove) c'' codeZ
    /\ EVM.exec codeS (withStack (o :: key :: v :: rest) s) = Some s1
    /\ EVM.stack s1 = (if move then rest else v :: rest)
    /\ slots tr s1 key = v
    /\ (forall k, k <> key -> slots tr s1 k = slots tr s k)
    /\ slots (negb tr) s1 = slots (negb tr) s
    /\ EVM.exec codeR (withStack (o :: key :: EVM.stack s1) s1)
       = Some (withStack (v :: (if remove then [] else [o; key]) ++ EVM.stack s1) s1)
    /\ EVM.exec codeZ (withStack (o :: key :: rest) s) = Some s2
    /\ EVM.stack s2 = (if remove then rest else o :: key :: rest)
    /\ slots tr s2 key = 0
    /\ (forall k, k <> key -> slots tr s2 k = slots tr s k)
    /\ slots (negb tr) s2 = slots (negb tr) s.
Proof.
  intros Hv Hw Hn Ha Hs Hcv Hcomp Hword.
  exists (fullStoreCode tr convert move),
         (duplicateOperands remove ++ [Operation POP; Operation (m_loadInstruction tr)]),
         (duplicateOperands remove ++ zeroCode tr 32),
         (withSlot tr (if move then rest else v :: rest) s key v),
         (withSlot tr (if remove then rest else o :: key :: rest) s key 0).
  split; [cbn [LValue_storeValue]; now apply storeValue_full_generates|].
  split; [cbn [LValue_retrieveValue]; now apply retrieveValue_full_generates|].
  split; [cbn [LValue_setToZero]; rewrite <- Hw; now apply setToZero_value_generates|].
  split; [now apply exec_fullStore|].
  split; [destruct tr; reflexivity|].
  split; [apply slots_withSlot_same|].
  split; [intros k Hk; now apply slots_withSlot_other|].
  split; [apply slots_withSlot_negb|].
  split.
  { rewrite exec_retrieve_full_variant, slots_withSlot_same. reflexivity. }
  split; [apply exec_zero_full_variant|].
  split; [destruct tr; reflexivity|].
  split; [apply slots_withSlot_same|].
  split; [intros k Hk; now apply slots_withSlot_other|].
  apply slots_withSlot_negb.
Qed.

(** X8. An internal function value of fewer than 32 bytes read from
    storage.  After the word is shifted down to the field, the code replaces
    a shifted word that is zero by the zero value of the function type (the
    value [z] that [pushZeroValue] pushes) and only then masks the result to
    the width of the field.  So the zero value is substituted exactly when
    the field and every byte above it in the word are zero; in every other
    case the field is pushed as it is stored. *)
Theorem internal_function_is_read_with_its_zero_value (tr : bool) (ty : Ty) (w o key z : Z)
    (loc : SourceLocation) (remove : bool) (c : CompilerContext)
    (zero : list AssemblyItem) (rest : list Z) (s : EVM.State) :
  isValueType ty = true -> storageBytes ty = w -> packedField w o ->
  Category_eqb (category ty) Function = true ->
  FunctionKind_eqb (kind ty) Internal = true -> sizeOnStack ty = 1 ->
  pushZeroValue C ty = OK zero ->
  (forall st s', EVM.exec zero (withStack st s') = Some (withStack (z :: st) s')) ->
  Word.isWord z -> Word.isWord (EVM.storage s key) ->
  exists code,
    generates (LValue_retrieveValue C (GenericStorageItem tr ty) loc remove) c code
    /\ EVM.exec code (withStack (o :: key :: rest) s)
       = Some (withStack
                 ((if Z.shiftr (EVM.storage s key) (8 * o) =? 0
                   then z mod 2 ^ (8 * w)
                   else field w o (EVM.storage s key))
                  :: (if remove then [] else [o; key]) ++ rest) s).
Proof.
  intros Hv Hw Hfield Hf Hk Hn Hz Hzero Hzw Hold.
  pose proof Hfield as (Hr & Ho & How).
  assert (Hcat : category ty = Function) by (destruct (category ty); try discriminate; reflexivity).
  assert (Hkind : kind ty = Internal) by (destruct (kind ty); try discriminate; reflexivity).
  assert (Ht : readType ty = Some ty) by (unfold readType; rewrite Hcat; reflexivity).
  exists (duplicateOperands remove ++ retrievePrefix
          ++ ([Operation (DUP 1); Operation ISZERO] ++ zero
              ++ [Operation MUL; Operation OR; Push (byteMask w); Operation AND])).
  split.
  - cbn [LValue_retrieveValue].
    apply retrieveValue_packed with (t := ty) (w := w); try assumption; [lia|].
    rewrite Hcat, Hkind, Hz, Hn, Hw. cbn [Category_eqb FunctionKind_eqb].
    change (1 =? 1) with true.
    eapply generates_eq; [repeat gen_step | list_norm; reflexivity].
  - rewrite (exec_retrieve_packed remove o key rest s _ _
               (computes_internal_function w zero z ltac:(lia) Hzw Hzero))
      by (apply isWord_div_exp256; [lia|assumption]).
    cbn [hd]. rewrite div_mod_field by lia. rewrite div_exp256 by lia. reflexivity.
Qed.

(** X9. A state variable of an unsigned value type packed into a slot, from
    its declaration: the constructor pushes the slot and the byte offset the
    context has assigned to the declaration, and the [retrieveValue] that
    follows pushes the field of the variable in place of them, so that the
    two together push the current value of the variable onto any stack.  A
    declaration that is immutable is refused by the constructor. *)
Theorem state_variable_is_read_from_its_location (tr : bool) (d : VariableDeclaration)
    (t : Ty) (w : Z) (loc : SourceLocation) (c : CompilerContext)
    (rest : list Z) (s : EVM.State) :
  RoundTripType (declType d) t w -> storageSize (declType d) = 1 ->
  leftAligned t = false ->
  Category_eqb (category t) Integer && isSigned t = false ->
  packedField w (snd (storageLocationOfVariable c (declId d))) ->
  Word.isWord (EVM.storage s (fst (storageLocationOfVariable c (declId d)))) ->
  (immutable d = true ->
     fails (GenericStorageItem_ofDeclaration tr d) c (InternalCompilerError ""))
  /\ (immutable d = false ->
     exists code,
       generates (lv <- GenericStorageItem_ofDeclaration false d ;;
                  LValue_retrieveValue C lv loc true) c code
       /\ EVM.exec code (withStack rest s)
          = Some (withStack
                    (field w (snd (storageLocationOfVariable c (declId d)))
                       (EVM.storage s (fst (storageLocationOfVariable c (declId d))))
                     :: rest) s)).
Proof.
  intros (Hv & Ht & Hw & Htw & Hn & Htn & Hl & Hf & Htf & Hfp) Hsize Hla Hsg Hfield Hold.
  pose proof Hfield as (Hr & Ho & How).
  assert (Hcheck : forall c0, GenericStorageItem_check (declType d) c0 = OK (tt, c0))
    by (intros c0; now apply check_value_type).
  split; intros Himm.
  - unfold fails, GenericStorageItem_ofDeclaration, GenericStorageItem_new.
    unfold bind at 1. unfold bind at 1. rewrite Hcheck. cbn [ret].
    unfold bind at 1. rewrite Himm. reflexivity.
  - set (slot := fst (storageLocationOfVariable c (declId d))) in *.
    set (off := snd (storageLocationOfVariable c (declId d))) in *.
    exists ([Push slot; Push off]
            ++ duplicateOperands true ++ retrievePrefix ++ [Push (byteMask w); Operation AND]).
    split.
    + unfold generates.
      rewrite (bind_value _ _ c _ _ (ofDeclaration_pushes_the_location false d c (Hcheck c) Himm)).
      fold slot off. rewrite <- appended_app. cbn [LValue_retrieveValue].
      apply retrieveValue_unsigned_generates with (t := t); try assumption; lia.
    + rewrite exec_app.
      change (EVM.exec [Push slot; Push off] (withStack rest s))
        with (Some (withStack (off :: slot :: rest) s)).
      cbv beta iota.
      rewrite (exec_retrieve_packed true off slot rest s _ _ (computes_mask_mod w ltac:(lia)))
        by (apply isWord_div_exp256; [lia|assumption]).
      cbn [hd app]. rewrite div_mod_field by lia. reflexivity.
Qed.
End WholeSlots.

Section ByteArrayRoundTrip.
Variable C : Collaborators.

(** X10. The round trip through an element of a byte array in storage:
    [storeValue] of [v] to the element with index [i], then [retrieveValue]
    of that element, pushes the most significant byte of [v], left-aligned,
    which is [v] itself when [v] is a left-aligned byte. *)
Theorem StorageByteArrayElement_round_trip (i ref v : Z) (rest : list Z) (s : EVM.State)
    (src : Ty) (loc : SourceLocation) (move remove : bool) (c c' : CompilerContext) :
  0 <= i <= 31 -> Word.isWord v -> Word.isWord (EVM.storage s ref) ->
  exists codeS codeR s1,
    generates (LValue_storeValue C StorageByteArrayElement src loc move) c codeS
    /\ generates (LValue_retrieveValue C StorageByteArrayElement loc remove) c' codeR
    /\ EVM.exec codeS (withStack (i :: ref :: v :: rest) s) = Some s1
    /\ EVM.stack s1 = (if move then rest else v :: rest)
    /\ EVM.exec codeR (withStack (i :: ref :: EVM.stack s1) s1)
       = Some (withStack (v / 2 ^ 248 * 2 ^ 248
                          :: (if remove then [] else [i; ref]) ++ EVM.stack s1) s1)
    /\ (isLeftAlignedValue 1 v -> v / 2 ^ 248 * 2 ^ 248 = v).
Proof.
  intros Hi Hv Hold.
  destruct (div_top_byte v Hv) as [Hdiv Hx].
  eexists (byteStoreCode move), _,
    (withSlot false (if move then rest else v :: rest) s ref
       (packed 1 (Word.sub 31 i) (EVM.storage s ref) (Word.div v (Z.shiftl 1 (256 - 8))))).
  split; [apply byteElement_store_generates|].
  split; [apply byteElement_retrieve_generates|].
  split; [apply exec_byteStore|].
  split; [reflexivity|]. split.
  - rewrite exec_byteRetrieve.
    change (EVM.storage (withStack ?st (withSlot false ?st' s ref ?x)) ref)
      with (EVM.storage (withSlot false st' s ref x) ref).
    rewrite storage_withSlot, sub31, Hdiv by assumption.
    rewrite packed_replaceWindow by (assumption || lia).
    rewrite byte_field by assumption.
    rewrite field_replaceWindow_same by (assumption || lia).
    rewrite mul_top_byte by exact Hx. reflexivity.
  - intros [_ Hlow]. change (256 - 8 * 1) with 248 in Hlow.
    pose proof (Z.div_mod v (2 ^ 248) ltac:(lia)). lia.
Qed.
End ByteArrayRoundTrip.

(** A [uint256] at key 5, in both key spaces. *)
Lemma full_word_item_addresses_its_own_key_space_witness :
  let s := Example.state [] (fun _ => 1) in
  let ty := Example.uint 256 in
  let c := Example.context true 3 in
  exists codeS codeR codeZ s1 s2,
    generates (LValue_storeValue Example.collaborators (GenericStorageItem true ty) ty
                 noLocation true) c codeS
    /\ generates (LValue_retrieveValue Example.collaborators (GenericStorageItem true ty)
                    noLocation true) c codeR
    /\ generates (LValue_setToZero Example.collaborators (GenericStorageItem true ty)
                    noLocation true) c codeZ
    /\ EVM.exec codeS (withStack (0 :: 5 :: 7 :: []) s) = Some s1
    /\ EVM.stack s1 = []
    /\ slots true s1 5 = 7
    /\ (forall k, k <> 5 -> slots true s1 k = slots true s k)
    /\ slots (negb true) s1 = slots (negb true) s
    /\ EVM.exec codeR (withStack (0 :: 5 :: EVM.stack s1) s1)
       = Some (withStack (7 :: [] ++ EVM.stack s1) s1)
    /\ EVM.exec codeZ (withStack (0 :: 5 :: []) s) = Some s2
    /\ EVM.stack s2 = []
    /\ slots true s2 5 = 0
    /\ (forall k, k <> 5 -> slots true s2 k = slots true s k)
    /\ slots (negb true) s2 = slots (negb true) s.
Proof.
  intros s ty c.
  apply (full_word_item_addresses_its_own_key_space Example.collaborators true ty ty
           noLocation true true c c c [] 0 5 7 [] s); try reflexivity.
  - intros vs rest0 s0 Hlen _. destruct vs as [|x [|? ?]]; try discriminate. reflexivity.
  - unfold Word.isWord, Word.modulus. lia.
Defined.

(** An internal function of 8 bytes at byte offset 4, with the zero value
    [z = 99], in a word whose bytes from offset 4 up are all zero. *)
Lemma internal_function_is_read_with_its_zero_value_witness :
  let fn := mkType Function true 8 1 1 false false Internal false true (fun _ => 8)
              None Storage 0 false [] (fun _ => (0, 0)) (fun _ => 0) [] in
  let K := mkCollaborators
             (convertType Example.collaborators) (fun _ => OK [Push 99])
             (splitExternalFunctionType Example.collaborators)
             (combineExternalFunctionType Example.collaborators)
             (loadFromMemoryDynamic Example.collaborators)
             (loadFromMemory Example.collaborators)
             (storeInMemoryDynamic Example.collaborators)
             (copyArrayToStorage Example.collaborators)
             (clearArray Example.collaborators)
             (callUpdateStorageValueFunction Example.collaborators)
             (immutableVariableSlotNames Example.collaborators)
             (typeEquals Example.collaborators)
             (isImplicitlyConvertibleTo Example.collaborators)
             (toString Example.collaborators) in
  let s := Example.state [] (fun _ => 65535) in
  exists code,
    generates (LValue_retrieveValue K (GenericStorageItem false fn) noLocation true)
      (Example.context true 2) code
    /\ EVM.exec code (withStack (4 :: 5 :: []) s)
       = Some (withStack
                 ((if Z.shiftr (EVM.storage s 5) (8 * 4) =? 0
                   then 99 mod 2 ^ (8 * 8)
                   else field 8 4 (EVM.storage s 5))
                  :: [] ++ []) s).
Proof.
  intros fn K s.
  apply (internal_function_is_read_with_its_zero_value K false fn 8 4 5 99 noLocation true
           (Example.context true 2) [Push 99] [] s); try reflexivity.
  - unfold packedField. lia.
  - unfold Word.isWord, Word.modulus. lia.
  - unfold Word.isWord, Word.modulus. simpl. lia.
Defined.

(** The [uint8] state variable with declaration 5, which the example
    context places at byte 0 of slot 5. *)
Lemma state_variable_is_read_from_its_location_witness :
  let d := mkDecl 5 (Example.uint 8) false in
  let s := Example.state [] (fun _ => 511) in
  exists code,
    generates (lv <- GenericStorageItem_ofDeclaration false d ;;
               LValue_retrieveValue Example.collaborators lv noLocation true)
      (Example.context true 0) code
    /\ EVM.exec code (withStack [] s)
       = Some (withStack
                 (field 1 (snd (storageLocationOfVariable (Example.context true 0) (declId d)))
                    (EVM.storage s
                       (fst (storageLocationOfVariable (Example.context true 0) (declId d))))
                  :: []) s).
Proof.
  intros d s.
  destruct (state_variable_is_read_from_its_location Example.collaborators false d
              (Example.uint 8) 1 noLocation (Example.context true 0) [] s) as (_ & H).
  - repeat split.
  - reflexivity.
  - reflexivity.
  - reflexivity.
  - unfold packedField. simpl. lia.
  - unfold Word.isWord, Word.modulus. simpl. lia.
  - apply H. reflexivity.
Defined.

(** The byte [0xAB] written to element 2 of the word at key 9. *)
Lemma StorageByteArrayElement_round_trip_witness :
  let s := Example.state [] (fun _ => 0) in
  let v := 171 * 2 ^ 248 in
  exists codeS codeR s1,
    generates (LValue_storeValue Example.collaborators StorageByteArrayElement
                 (Example.bytesN 1) noLocation true) (Example.context true 3) codeS
    /\ generates (LValue_retrieveValue Example.collaborators StorageByteArrayElement
                    noLocation true) (Example.context true 2) codeR
    /\ EVM.exec codeS (withStack (2 :: 9 :: v :: []) s) = Some s1
    /\ EVM.stack s1 = []
    /\ EVM.exec codeR (withStack (2 :: 9 :: EVM.stack s1) s1)
       = Some (withStack (v / 2 ^ 248 * 2 ^ 248 :: [] ++ EVM.stack s1) s1)
    /\ (isLeftAlignedValue 1 v -> v / 2 ^ 248 * 2 ^ 248 = v).
Proof.
  intros s v.
  apply (StorageByteArrayElement_round_trip Example.collaborators 2 9 v [] s
           (Example.bytesN 1) noLocation true true
           (Example.context true 3) (Example.context true 2)).
  - lia.
  - unfold Word.isWord, Word.modulus, v. lia.
  - unfold Word.isWord, Word.modulus. simpl. lia.
Defined.

(** ** Zeroing a struct of value members *)

Lemma check_generates ty c :
  isValueType ty = true ->
  (Category_eqb (category ty) Function = false -> storageSize ty = sizeOnStack ty) ->
  storageSize ty = 1 ->
  generates (GenericStorageItem_check ty) c [].
Proof.
  intros Hv Hf Hs. unfold generates, GenericStorageItem_check. rewrite Hv, appended_nil.
  destruct (Category_eqb (category ty) Function) eqn:E; cbn [negb].
  - rewrite Hs. reflexivity.
  - rewrite <- (Hf eq_refl), Hs. reflexivity.
Qed.

Lemma exec_zeroMemberCode owner key m o rest s :
  EVM.exec (zeroMemberCode owner m) (withStack (o :: key :: rest) s)
  = Some (withStack (o :: key :: rest)
            (EVM.mkState (EVM.stack s)
               (zeroMemberStorage owner key (EVM.storage s) m) (EVM.transient s))).
Proof.
  unfold zeroMemberCode. rewrite exec_app.
  change (EVM.exec [Push (fst (storageOffsetsOfMember owner (fst m))); Operation (DUP 3);
                    Operation ADD; Push (snd (storageOffsetsOfMember owner (fst m)))]
            (withStack (o :: key :: rest) s))
    with (Some (withStack (snd (storageOffsetsOfMember owner (fst m))
                           :: memberSlot owner key m :: o :: key :: rest) s)).
  cbv beta iota. unfold zeroMemberStorage.
  destruct (Z.eqb_spec (storageBytes (snd m)) 32) as [E|E].
  - rewrite E, exec_zeroCode_full. reflexivity.
  - rewrite exec_zeroCode_packed by assumption. reflexivity.
Qed.

Lemma exec_zeroMembersCode owner key o rest ms : forall s,
  EVM.exec (List.concat (map (zeroMemberCode owner) ms)) (withStack (o :: key :: rest) s)
  = Some (withStack (o :: key :: rest)
            (EVM.mkState (EVM.stack s)
               (fold_left (zeroMemberStorage owner key) ms (EVM.storage s))
               (EVM.transient s))).
Proof.
  induction ms as [|m ms IH]; intros s.
  - reflexivity.
  - cbn [map List.concat fold_left]. rewrite exec_app, exec_zeroMemberCode.
    rewrite IH. reflexivity.
Qed.

Lemma isWord_zeroMemberStorage owner key sto m :
  plainMember owner m -> (forall k, Word.isWord (sto k)) ->
  forall k, Word.isWord (zeroMemberStorage owner key sto m k).
Proof.
  intros (_ & _ & _ & _ & _ & _ & Hw) Hsto k. unfold zeroMemberStorage, EVM.upd.
  destruct (Z.eqb_spec k (memberSlot owner key m)); [|apply Hsto].
  destruct (Z.eqb_spec (storageBytes (snd m)) 32) as [E|E].
  - unfold Word.isWord, Word.modulus. lia.
  - destruct Hw as [Hw|(Hr & Ho & How)]; [contradiction|].
    rewrite packed_replaceWindow by (try apply Hsto; lia).
    apply isWord_replaceWindow; try apply Hsto; lia.
Qed.

Lemma testbit_zeroMemberStorage owner key sto m k n :
  plainMember owner m -> (forall k, Word.isWord (sto k)) -> 0 <= n ->
  Z.testbit (zeroMemberStorage owner key sto m k) n
  = Z.testbit (sto k) n && negb (memberCovers owner key [m] k n).
Proof.
  intros (_ & _ & _ & _ & _ & _ & Hw) Hsto Hn.
  unfold zeroMemberStorage, memberCovers, EVM.upd. cbn [existsb]. rewrite orb_false_r.
  destruct (Z.eqb_spec k (memberSlot owner key m)) as [->|Hk]; cbn [andb negb];
    [|now rewrite andb_true_r].
  destruct (Z.eqb_spec (storageBytes (snd m)) 32) as [E|E]; cbn [orb negb].
  - rewrite Z.testbit_0_l, andb_false_r. reflexivity.
  - destruct Hw as [Hw|(Hr & Ho & How)]; [contradiction|].
    rewrite testbit_packed by (try apply Hsto; lia). unfold inWindow.
    destruct ((8 * snd (storageOffsetsOfMember owner (fst m)) <=? n)
              && (n <? 8 * (snd (storageOffsetsOfMember owner (fst m)) + storageBytes (snd m))));
      cbn [negb].
    + rewrite Z.testbit_0_l, andb_false_r. reflexivity.
    + now rewrite andb_true_r.
Qed.

Lemma testbit_zeroMembersStorage owner key ms : forall sto k n,
  Forall (plainMember owner) ms -> (forall k, Word.isWord (sto k)) -> 0 <= n ->
  Z.testbit (fold_left (zeroMemberStorage owner key) ms sto k) n
  = Z.testbit (sto k) n && negb (memberCovers owner key ms k n).
Proof.
  induction ms as [|m ms IH]; intros sto k n Hms Hsto Hn.
  - cbn. now rewrite andb_true_r.
  - inversion Hms as [|? ? Hm Hrest]; subst. cbn [fold_left].
    rewrite IH by (try assumption; now apply isWord_zeroMemberStorage).
    rewrite testbit_zeroMemberStorage by assumption.
    unfold memberCovers. cbn [existsb]. rewrite orb_false_r, negb_orb, andb_assoc.
    reflexivity.
Qed.

Section StructZero.
Variable C : Collaborators.

Lemma zeroMembers_generates owner ms : forall c,
  Forall (plainMember owner) ms ->
  generates (zeroMembers C owner ms) c (List.concat (map (zeroMemberCode owner) ms)).
Proof.
  induction ms as [|[name t] ms IH]; intros c Hms.
  - apply ret_generates.
  - inversion Hms as [|? ? Hm Hrest]; subst.
    destruct Hm as (Hv & Hmap & Ha & Hs & Hf & Hsz & _). cbn [fst snd] in *.
    change (zeroMembers C owner ((name, t) :: ms))
      with (if Category_eqb (category t) Mapping then zeroMembers C owner ms
            else
              emitAll [Push (fst (storageOffsetsOfMember owner name));
                       Operation (DUP 3); Operation ADD;
                       Push (snd (storageOffsetsOfMember owner name))] ;;
              GenericStorageItem_check t ;;
              GenericStorageItem_setToZero C false t noLocation true ;;
              zeroMembers C owner ms).
    rewrite Hmap. cbn [map List.concat]. unfold zeroMemberCode at 1. cbn [fst snd].
    rewrite <- app_assoc.
    apply bind_generates; [apply emitAll_generates|].
    apply (bind_generates _ _ _ [] _); [now apply check_generates|].
    rewrite appended_nil.
    apply bind_generates.
    + apply (setToZero_value_generates C false t noLocation true); assumption.
    + apply IH. assumption.
Qed.

(** X11. Zeroing a struct in storage whose members, the mappings apart,
    are value types.  The code clears the members one after the other, each
    at the slot and byte offset the struct type gives it, and then pops the
    reference if it is to be removed.  On the machine, every bit of
    persistent storage that lies in the window of such a member (or anywhere
    in the slot of a member of 32 bytes) is zero afterwards and every other
    bit is what it was; transient storage is not touched, whichever variant
    the item is. *)
Theorem flat_struct_is_zeroed_member_by_member (tr : bool) (ty : Ty)
    (loc : SourceLocation) (remove : bool) (c : CompilerContext)
    (o key : Z) (rest : list Z) (s : EVM.State) :
  Category_eqb (category ty) Struct = true ->
  Forall (plainMember ty) (withoutMappings (members ty)) ->
  (forall k, Word.isWord (EVM.storage s k)) ->
  exists code s',
    generates (LValue_setToZero C (GenericStorageItem tr ty) loc remove) c code
    /\ code = List.concat (map (zeroMemberCode ty) (withoutMappings (members ty)))
              ++ (if remove then [Operation POP; Operation POP] else [])
    /\ EVM.exec code (withStack (o :: key :: rest) s) = Some s'
    /\ EVM.stack s' = (if remove then rest else o :: key :: rest)
    /\ EVM.transient s' = EVM.transient s
    /\ forall k n, 0 <= n ->
         Z.testbit (EVM.storage s' k) n
         = Z.testbit (EVM.storage s k) n
           && negb (memberCovers ty key (withoutMappings (members ty)) k n).
Proof.
  intros Hs Hms Hsto.
  assert (Ha : Category_eqb (category ty) Array = false)
    by (destruct (category ty); try discriminate; reflexivity).
  set (ms := withoutMappings (members ty)) in *.
  exists (List.concat (map (zeroMemberCode ty) ms)
          ++ (if remove then [Operation POP; Operation POP] else [])),
         (EVM.mkState (if remove then rest else o :: key :: rest)
            (fold_left (zeroMemberStorage ty key) ms (EVM.storage s)) (EVM.transient s)).
  split; [|split; [reflexivity|split; [|split; [reflexivity|split; [reflexivity|]]]]].
  - cbn [LValue_setToZero]. rewrite setToZero_struct by assumption.
    rewrite zeroMembers_withoutMappings. fold ms.
    apply bind_generates; [now apply zeroMembers_generates|].
    destruct remove; [|apply ret_generates].
    apply (bind_generates _ _ _ [Operation POP] [Operation POP]); apply emit_generates.
  - rewrite exec_app, exec_zeroMembersCode. destruct remove; reflexivity.
  - intros k n Hn. cbn [EVM.storage].
    apply testbit_zeroMembersStorage; assumption.
Qed.
End StructZero.

(** The struct with the members [a : uint256], [m] (a mapping) and
    [b : uint8], one member to a slot, at key 10. *)
Lemma flat_struct_is_zeroed_member_by_member_witness :
  let s := Example.state [] (fun _ => 511) in
  let ty := Example.structWithMapping in
  exists code s',
    generates (LValue_setToZero Example.collaborators (GenericStorageItem false ty)
                 noLocation true) (Example.context true 2) code
    /\ code = List.concat (map (zeroMemberCode ty) (withoutMappings (members ty)))
              ++ [Operation POP; Operation POP]
    /\ EVM.exec code (withStack (0 :: 10 :: []) s) = Some s'
    /\ EVM.stack s' = []
    /\ EVM.transient s' = EVM.transient s
    /\ forall k n, 0 <= n ->
         Z.testbit (EVM.storage s' k) n
         = Z.testbit (EVM.storage s k) n
           && negb (memberCovers ty 10 (withoutMappings (members ty)) k n).
Proof.
  intros s ty.
  apply (flat_struct_is_zeroed_member_by_member Example.collaborators false ty noLocation
           true (Example.context true 2) 0 10 [] s).
  - reflexivity.
  - repeat constructor; try discriminate; unfold packedField; simpl; lia.
  - intros k. unfold Word.isWord, Word.modulus. simpl. lia.
Defined.

(** ** Mapping members of a struct *)

Lemma memberCovers_other_slots owner key ms k n :
  (forall m, In m ms -> memberSlot owner key m <> k) ->
  memberCovers owner key ms k n = false.
Proof.
  intros H. unfold memberCovers.
  induction ms as [|m ms IH]; [reflexivity|]. cbn [existsb].
  rewrite IH by (intros m' Hin; apply H; now right).
  destruct (Z.eqb_spec k (memberSlot owner key m)) as [E|_]; [|reflexivity].
  exfalso. apply (H m); [now left|now symmetry].
Qed.

Section MappingMembers.
Variable C : Collaborators.

(** C1 (amended). Zeroing a storage struct skips its mapping-typed members
    entirely: the code is that of zeroing the same struct without them, so
    nothing is emitted for a mapping member, and where the other members are
    value types the code, run on the machine, leaves as it was every slot of
    a mapping member that no other member lies in.  The member-wise copy does
    not skip them: [storeValue] to a struct that contains a mapping is
    rejected, by the assertion that the struct has no nested mapping when the
    type reports one, and in any case, for a source in storage or memory, no
    code is generated for a struct with a mapping-typed member. *)
Theorem struct_zero_skips_mappings_and_copy_rejects_them (tr : bool) (ty src : Ty)
    (loc : SourceLocation) (flag : bool) (c : CompilerContext) :
  Category_eqb (category ty) Struct = true -> isValueType ty = false ->
  LValue_setToZero C (GenericStorageItem tr ty) loc flag c
  = LValue_setToZero C
      (GenericStorageItem tr (withMembers ty (withoutMappings (members ty)))) loc flag c
  /\ (Forall (plainMember ty) (withoutMappings (members ty)) ->
      forall (o key : Z) (rest : list Z) (s : EVM.State),
        (forall k, Word.isWord (EVM.storage s k)) ->
        exists code s',
          generates (LValue_setToZero C (GenericStorageItem tr ty) loc flag) c code
          /\ EVM.exec code (withStack (o :: key :: rest) s) = Some s'
          /\ forall m, In m (members ty) -> isMappingMember m = true ->
               (forall m', In m' (withoutMappings (members ty)) ->
                           memberSlot ty key m' <> memberSlot ty key m) ->
               EVM.storage s' (memberSlot ty key m) = EVM.storage s (memberSlot ty key m))
  /\ (containsNestedMapping ty = true ->
      (exists e, fails (LValue_storeValue C (GenericStorageItem tr ty) src loc flag) c e)
      /\ (Category_eqb (category src) (category ty) = true ->
          structDefinition ty = structDefinition src ->
          fails (LValue_storeValue C (GenericStorageItem false ty) src loc flag) c
            (InternalCompilerError "")))
  /\ (hasMappingMember (members ty) ->
      DataLocation_eqb (location src) CallData = false ->
      exists e, fails (LValue_storeValue C (GenericStorageItem tr ty) src loc flag) c e).
Proof.
  intros Hs Hv. split; [|split; [|split]].
  - cbn [LValue_setToZero]. now rewrite <- setToZero_skips_mappings.
  - intros Hms o key rest s Hsto.
    assert (Ha : Category_eqb (category ty) Array = false)
      by (destruct (category ty); try discriminate; reflexivity).
    set (ms := withoutMappings (members ty)) in *.
    exists (List.concat (map (zeroMemberCode ty) ms)
            ++ (if flag then [Operation POP; Operation POP] else [])),
           (EVM.mkState (if flag then rest else o :: key :: rest)
              (fold_left (zeroMemberStorage ty key) ms (EVM.storage s)) (EVM.transient s)).
    split; [|split].
    + cbn [LValue_setToZero]. rewrite setToZero_struct by assumption.
      rewrite zeroMembers_withoutMappings. fold ms.
      apply bind_generates; [now apply zeroMembers_generates|].
      destruct flag; [|apply ret_generates].
      apply (bind_generates _ _ _ [Operation POP] [Operation POP]); apply emit_generates.
    + rewrite exec_app, exec_zeroMembersCode. destruct flag; reflexivity.
    + intros m Hin Hmap Hslots. cbn [EVM.storage].
      apply Z.bits_inj'. intros n Hn.
      rewrite testbit_zeroMembersStorage by assumption.
      rewrite memberCovers_other_slots by assumption.
      apply andb_true_r.
  - intros Hn. split.
    + apply (storeValue_nested_mapping_never C tr ty src loc flag Hv Hs Hn c).
    + intros Hc Hd. now apply storeValue_nested_mapping_asserts.
  - intros Hm Hloc.
    apply (storeValue_struct_with_mapping_never C tr ty src loc flag Hv Hs Hloc Hm c).
Qed.
End MappingMembers.

(** C1 as stated fails on the copy: for the struct with members [a], [m]
    (a mapping) and [b], [storeValue] from storage to storage raises the
    assertion, while the struct with only [a] and [b] is copied. *)
Lemma struct_copy_does_not_skip_mapping :
  (exists code,
      codeOf (LValue_storeValue Example.collaborators
                (GenericStorageItem false Example.structWithoutMapping)
                Example.structWithoutMapping noLocation true) (Example.context true 3)
      = OK code)
  /\ codeOf (LValue_storeValue Example.collaborators
               (GenericStorageItem false Example.structWithMapping) Example.structWithMapping
               noLocation true) (Example.context true 3)
     = Throw (InternalCompilerError "")
  /\ fails (LValue_storeValue Example.collaborators
              (GenericStorageItem false Example.structWithMapping) Example.structWithMapping
              noLocation true) (Example.context true 3) (InternalCompilerError "").
Proof.
  split; [|split].
  - eexists. vm_compute. reflexivity.
  - reflexivity.
  - reflexivity.
Qed.

(** The struct with members [a : uint256], [m] (a mapping) and [b : uint8],
    one member to a slot, at key 10: its zeroing is that of the struct without
    [m] and leaves the slot of [m] as it was; its copy is refused. *)
Lemma struct_zero_skips_mappings_and_copy_rejects_them_witness :
  let ty := Example.structWithMapping in
  let s := Example.state [] (fun _ => 511) in
  LValue_setToZero Example.collaborators (GenericStorageItem false ty)
    noLocation true (Example.context true 2)
  = LValue_setToZero Example.collaborators
      (GenericStorageItem false (withMembers ty (withoutMappings (members ty))))
      noLocation true (Example.context true 2)
  /\ (exists code s',
        generates (LValue_setToZero Example.collaborators (GenericStorageItem false ty)
                     noLocation true) (Example.context true 2) code
        /\ EVM.exec code (withStack (0 :: 10 :: []) s) = Some s'
        /\ EVM.storage s' (memberSlot ty 10 ("m"%string, Example.mapping))
           = EVM.storage s (memberSlot ty 10 ("m"%string, Example.mapping)))
  /\ fails (LValue_storeValue Example.collaborators (GenericStorageItem false ty) ty
              noLocation true) (Example.context true 2) (InternalCompilerError "").
Proof.
  intros ty s.
  assert (Hplain : Forall (plainMember ty) (withoutMappings (members ty))).
  { constructor; [|constructor; [|constructor]].
    - repeat split; try reflexivity; try discriminate. left. reflexivity.
    - repeat split; try reflexivity; try discriminate. right.
      repeat split; try reflexivity; intros H; discriminate H. }
  assert (Hsto : forall k, Word.isWord (EVM.storage s k)).
  { intros k. unfold Word.isWord, Word.modulus. simpl. lia. }
  destruct (struct_zero_skips_mappings_and_copy_rejects_them Example.collaborators false
              ty ty noLocation true (Example.context true 2) eq_refl eq_refl)
    as (Hcode & Hrun & Hnested & _).
  split; [exact Hcode|]. split.
  - destruct (Hrun Hplain 0 10 [] s Hsto) as (code & s' & Hg & He & Hm).
    exists code, s'. split; [exact Hg|]. split; [exact He|].
    apply Hm.
    + right. left. reflexivity.
    + reflexivity.
    + intros m' [E|[E|[]]]; rewrite <- E; vm_compute; intros H; discriminate H.
  - destruct (Hnested eq_refl) as [_ H]. apply H; reflexivity.
Defined.

(** ** Values in memory *)

Ltac gen_move :=
  cbv beta; simpl negb; cbv iota;
  lazymatch goal with
  | |- generates (moveIntoStack _ _) _ _ => apply moveIntoStack_generates; lia
  | |- generates (moveToStackTop _ _) _ _ =>
      unfold moveToStackTop; apply moveIntoStack_generates; lia
  | |- _ => gen_step
  end.

Section MemoryValues.
Variable C : Collaborators.

(** X12. A memory item of a reference type holds the reference.
    [retrieveValue] loads it in place of the address, whether or not the
    address is to be kept.  [storeValue] stores the reference only, never
    copies or converts: a source of another type is refused with the
    not-yet-implemented error, and a reference that is not one stack slot
    fails the assertion.  The store consumes the address and, when it moves,
    the value. *)
Theorem MemoryItem_of_a_reference_type (ty src : Ty) (padded : bool)
    (loc : SourceLocation) (flag : bool) (c : CompilerContext) :
  isValueType ty = false ->
  generates (LValue_retrieveValue C (MemoryItem ty padded) loc flag) c [Operation MLOAD]
  /\ (typeEquals C src ty = false ->
      fails (LValue_storeValue C (MemoryItem ty padded) src loc flag) c
        (UnimplementedFeatureError "Conversion not implemented for assignment to memory."))
  /\ (typeEquals C src ty = true -> sizeOnStack ty <> 1 ->
      fails (LValue_storeValue C (MemoryItem ty padded) src loc flag) c
        (InternalCompilerError ""))
  /\ (typeEquals C src ty = true -> sizeOnStack ty = 1 ->
      exists code,
        generates (LValue_storeValue C (MemoryItem ty padded) src loc flag) c code
        /\ code = (if flag then [] else [Operation (DUP 2); Operation (SWAP 1)])
                  ++ [Operation MSTORE]
        /\ deposit (appended c code) = deposit c - (if flag then 2 else 1)).
Proof.
  intros Hv. cbn [LValue_retrieveValue LValue_storeValue].
  unfold MemoryItem_retrieveValue, MemoryItem_storeValue. rewrite Hv.
  split; [apply emit_generates|]. split; [|split].
  - intros He. unfold fails. rewrite He. reflexivity.
  - intros He Hn. unfold fails. rewrite He. unfold bind at 1. cbn [solUnimplementedAssert ret].
    unfold bind at 1. destruct (Z.eqb_spec (sizeOnStack ty) 1); [contradiction|reflexivity].
  - intros He Hn. rewrite He, Hn. change (1 =? 1) with true.
    eexists. split; [|split; [reflexivity|]].
    + destruct flag; (eapply generates_eq; [repeat gen_step | reflexivity]).
    + rewrite deposit_appended'. destruct flag; reflexivity.
Qed.

(** X13. A memory item of a value type of one stack slot, assigned from a
    value of one stack slot.  The value is brought above the address and
    converted to the target type; to keep it, it is copied below the address
    first.  A padded item is then written by the dynamic store, whose updated
    address is popped.  A non-padded item is one byte: its type must encode in
    one byte and must not be a user-defined value type, or an assertion fails;
    of fixed bytes the most significant byte is taken with [BYTE 0]; the byte
    is written with [MSTORE8].  A source that is no value type fails the
    assertion. *)
Theorem MemoryItem_assigns_a_value_type (ty src : Ty) (padded : bool)
    (loc : SourceLocation) (flag : bool) (c : CompilerContext)
    (convert : list AssemblyItem) :
  isValueType ty = true -> sizeOnStack ty = 1 -> sizeOnStack src = 1 ->
  convertType C src ty true false = OK convert ->
  let keep := if flag then [] else [Operation (SWAP 1); Operation (DUP 2)] in
  (isValueType src = false ->
     fails (LValue_storeValue C (MemoryItem ty padded) src loc flag) c
       (InternalCompilerError ""))
  /\ (isValueType src = true -> padded = true ->
      forall store, storeInMemoryDynamic C ty true = OK store ->
      generates (LValue_storeValue C (MemoryItem ty padded) src loc flag) c
        ([Operation (SWAP 1)] ++ convert ++ keep ++ store ++ [Operation POP]))
  /\ (isValueType src = true -> padded = false ->
      calldataEncodedSize ty false <> 1 ->
      fails (LValue_storeValue C (MemoryItem ty padded) src loc flag) c
        (InternalCompilerError "Invalid non-padded type."))
  /\ (isValueType src = true -> padded = false ->
      calldataEncodedSize ty false = 1 ->
      Category_eqb (category ty) UserDefinedValueType = true ->
      fails (LValue_storeValue C (MemoryItem ty padded) src loc flag) c
        (InternalCompilerError ""))
  /\ (isValueType src = true -> padded = false ->
      calldataEncodedSize ty false = 1 ->
      Category_eqb (category ty) UserDefinedValueType = false ->
      generates (LValue_storeValue C (MemoryItem ty padded) src loc flag) c
        ([Operation (SWAP 1)] ++ convert ++ keep
         ++ (if Category_eqb (category ty) FixedBytes then [Push 0; Operation BYTE] else [])
         ++ [Operation (SWAP 1); Operation MSTORE8])).
Proof.
  intros Hv Hn Hsn Hcv keep. cbn [LValue_storeValue].
  unfold MemoryItem_storeValue. rewrite Hv, Hn, Hsn, Hcv.
  change (Word.u32 (1 + 1)) with 2.
  assert (Hkeep : forall c0,
             generates
               (if negb flag then moveToStackTop 1 1 ;; copyToStackTop 2 1 else ret tt)
               c0 keep).
  { intros c0. unfold keep.
    destruct flag; (eapply generates_eq; [repeat gen_move | reflexivity]). }
  assert (Hmove : forall c0, generates (moveIntoStack 1 1) c0 [Operation (SWAP 1)])
    by (intros c0; apply (moveIntoStack_generates 1 1); lia).
  split; [|split; [|split; [|split]]].
  - intros Hs. unfold fails. rewrite Hs. reflexivity.
  - intros Hs -> store Hst. rewrite Hs, Hst. cbn [negb].
    apply (bind_generates _ _ c [] _); [apply ret_generates|]. rewrite appended_nil.
    apply (bind_generates _ _ _ [Operation (SWAP 1)] _); [apply Hmove|].
    apply bind_generates; [apply append_generates|].
    apply bind_generates; [apply Hkeep|].
    apply bind_generates; [apply append_generates|apply emit_generates].
  - intros Hs -> Hsize. rewrite Hs. cbn [negb].
    eapply bind_fails_right; [apply ret_generates|].
    apply (bind_fails_right _ _ _ [Operation (SWAP 1)]); [apply Hmove|].
    eapply bind_fails_right; [apply append_generates|].
    eapply bind_fails_right; [apply Hkeep|].
    unfold fails, bind, solAssert.
    destruct (Z.eqb_spec (calldataEncodedSize ty false) 1); [contradiction|reflexivity].
  - intros Hs -> Hsize Hudvt. rewrite Hs, Hsize, Hudvt. cbn [negb].
    eapply bind_fails_right; [apply ret_generates|].
    apply (bind_fails_right _ _ _ [Operation (SWAP 1)]); [apply Hmove|].
    eapply bind_fails_right; [apply append_generates|].
    eapply bind_fails_right; [apply Hkeep|].
    reflexivity.
  - intros Hs -> Hsize Hudvt. rewrite Hs, Hsize, Hudvt. cbn [negb].
    change (1 =? 1) with true.
    apply (bind_generates _ _ c [] _); [apply ret_generates|]. rewrite appended_nil.
    apply (bind_generates _ _ _ [Operation (SWAP 1)] _); [apply Hmove|].
    apply bind_generates; [apply append_generates|].
    apply bind_generates; [apply Hkeep|].
    destruct (Category_eqb (category ty) FixedBytes);
      (eapply generates_eq; [repeat gen_step | list_norm; reflexivity]).
Qed.

(** X14. A memory item read and cleared.  [retrieveValue] of a value type
    is the dynamic load at the address, which is duplicated first when it is
    to be kept.  [setToZero] stores the zero value of the type by the dynamic
    store and pops the updated address; with collaborators that push the
    slots of the zero value and consume those of the stored value, it lowers
    the tracked height of the stack by the one slot of the address. *)
Theorem MemoryItem_is_read_and_cleared_at_its_address (ty : Ty) (padded : bool)
    (loc : SourceLocation) (flag : bool) (c : CompilerContext)
    (load zero store : list AssemblyItem) :
  loadFromMemoryDynamic C ty false padded false = OK load ->
  pushZeroValue C ty = OK zero ->
  storeInMemoryDynamic C ty padded = OK store ->
  (isValueType ty = true ->
     generates (LValue_retrieveValue C (MemoryItem ty padded) loc flag) c
       ((if flag then [] else [Operation (DUP 1)]) ++ load))
  /\ generates (LValue_setToZero C (MemoryItem ty padded) loc true) c
       (zero ++ store ++ [Operation POP])
  /\ (depositOf zero = sizeOnStack ty -> depositOf store = - sizeOnStack ty ->
      deposit (appended c (zero ++ store ++ [Operation POP])) = deposit c - 1).
Proof.
  intros Hl Hz Hst. cbn [LValue_retrieveValue LValue_setToZero].
  unfold MemoryItem_retrieveValue, MemoryItem_setToZero. rewrite Hl, Hz, Hst.
  split; [|split].
  - intros ->. destruct flag; (eapply generates_eq; [repeat gen_step | reflexivity]).
  - eapply generates_eq; [repeat gen_step | reflexivity].
  - intros Hdz Hds. rewrite deposit_appended', !depositOf_app, Hdz, Hds.
    change (depositOf [Operation POP]) with (-1). lia.
Qed.
End MemoryValues.

(** A memory struct. *)
Lemma MemoryItem_of_a_reference_type_witness :
  let ty := Example.struct 1 Memory [] in
  generates (LValue_retrieveValue Example.collaborators (MemoryItem ty true)
               noLocation false) (Example.context true 1) [Operation MLOAD]
  /\ exists code,
       generates (LValue_storeValue Example.collaborators (MemoryItem ty true) ty
                    noLocation false) (Example.context true 2) code
       /\ code = [Operation (DUP 2); Operation (SWAP 1)] ++ [Operation MSTORE]
       /\ deposit (appended (Example.context true 2) code)
          = deposit (Example.context true 2) - 1.
Proof.
  intros ty. split.
  - apply (MemoryItem_of_a_reference_type Example.collaborators ty ty true noLocation false
             (Example.context true 1)). reflexivity.
  - destruct (MemoryItem_of_a_reference_type Example.collaborators ty ty true noLocation
                false (Example.context true 2) eq_refl) as (_ & _ & _ & H).
    apply H; reflexivity.
Defined.

(** A [bytes1] written without padding. *)
Lemma MemoryItem_assigns_a_value_type_witness :
  generates (LValue_storeValue Example.collaborators (MemoryItem (Example.bytesN 1) false)
               (Example.bytesN 1) noLocation true) (Example.context true 2)
    ([Operation (SWAP 1)] ++ [Push (byteMask 1); Operation AND] ++ []
     ++ [Push 0; Operation BYTE] ++ [Operation (SWAP 1); Operation MSTORE8])
  /\ fails (LValue_storeValue Example.collaborators (MemoryItem (Example.uint 16) false)
              (Example.uint 16) noLocation true) (Example.context true 2)
       (InternalCompilerError "Invalid non-padded type.").
Proof.
  split.
  - destruct (MemoryItem_assigns_a_value_type Example.collaborators (Example.bytesN 1)
                (Example.bytesN 1) false noLocation true (Example.context true 2)
                [Push (byteMask 1); Operation AND] eq_refl eq_refl eq_refl eq_refl)
      as (_ & _ & _ & _ & H).
    apply H; reflexivity.
  - destruct (MemoryItem_assigns_a_value_type Example.collaborators (Example.uint 16)
                (Example.uint 16) false noLocation true (Example.context true 2)
                [Push (byteMask 2); Operation AND] eq_refl eq_refl eq_refl eq_refl)
      as (_ & _ & H & _).
    apply H; try reflexivity. intros H0. vm_compute in H0. discriminate H0.
Defined.

(** A padded [uint256] in memory. *)
Lemma MemoryItem_is_read_and_cleared_at_its_address_witness :
  generates (LValue_setToZero Example.collaborators (MemoryItem (Example.uint 256) true)
               noLocation true) (Example.context true 1)
    ([Push 0] ++ [Foreign "storeInMemoryDynamic" (- 1)] ++ [Operation POP])
  /\ deposit (appended (Example.context true 1)
                ([Push 0] ++ [Foreign "storeInMemoryDynamic" (- 1)] ++ [Operation POP]))
     = deposit (Example.context true 1) - 1.
Proof.
  destruct (MemoryItem_is_read_and_cleared_at_its_address Example.collaborators
              (Example.uint 256) true noLocation true (Example.context true 1)
              [Foreign "loadFromMemoryDynamic" (1 - 1)] [Push 0]
              [Foreign "storeInMemoryDynamic" (- 1)] eq_refl eq_refl eq_refl)
    as (_ & H1 & H2).
  split; [exact H1|]. apply H2; reflexivity.
Defined.

(** ** Assignment to a tuple *)

Lemma bind_OK {A B} (g : Gen A) (k : A -> Gen B) c r :
  bind g k c = OK r -> exists a c', g c = OK (a, c') /\ k a c' = OK r.
Proof.
  unfold bind. destruct (g c) as [[a c']|e]; [|discriminate].
  intros H. now exists a, c'.
Qed.

Lemma TupleObject_assign_OK store refSize lvaluePresent valType loc valuePos c r :
  TupleObject_assign store refSize lvaluePresent valType loc valuePos c = OK r ->
  present valType = lvaluePresent.
Proof.
  unfold TupleObject_assign. intros H.
  apply bind_OK in H as (h & c1 & _ & H).
  apply bind_OK in H as ([] & c2 & Hassert & _).
  unfold solAssert in Hassert.
  destruct valType, lvaluePresent; cbn in Hassert |- *; try reflexivity; discriminate.
Qed.

Section TupleAssignment.
Variable C : Collaborators.

Lemma storeValue_tuple lvs src loc mv :
  LValue_storeValue C (TupleObject lvs) src loc mv =
    ((if Category_eqb (category src) Tuple then ret tt else throw BadCast) ;;
     solAssert (Nat.eqb (List.length (components src)) (List.length lvs)) "" ;;
     tupleAssign C loc lvs (components src) (LValue_sizeOnStack (TupleObject lvs)) ;;
     popStackElement src).
Proof. reflexivity. Qed.

Lemma tupleAssign_OK loc lvs : forall tys valuePos c r,
  List.length tys = List.length lvs ->
  tupleAssign C loc lvs tys valuePos c = OK r ->
  Forall2 (fun lv t => present lv = present t) lvs tys.
Proof.
  induction lvs as [|lv lvs IH]; intros tys valuePos c r Hlen H.
  - destruct tys; [constructor|discriminate].
  - destruct tys as [|t tys]; [discriminate|].
    cbn [tupleAssign] in H. apply bind_OK in H as (vp & c1 & Hrest & Hhere).
    constructor.
    + destruct lv as [l|]; apply TupleObject_assign_OK in Hhere; now rewrite Hhere.
    + apply (IH tys valuePos c (vp, c1)); [now injection Hlen|exact Hrest].
Qed.

(** X15. What an assignment to a tuple requires.  Whenever
    [TupleObject::storeValue] generates code, the source type is a tuple type
    with as many components as the tuple has members, and a component is
    omitted in the source exactly where the member is omitted in the tuple.
    The value is always moved: the flag has no effect on the code. *)
Theorem TupleObject_storeValue_requires_matching_components
    (lvs : list (option LValue)) (src : Ty) (loc : SourceLocation) (flag : bool)
    (c : CompilerContext) (code : list AssemblyItem) :
  generates (LValue_storeValue C (TupleObject lvs) src loc flag) c code ->
  category src = Tuple
  /\ List.length (components src) = List.length lvs
  /\ Forall2 (fun lv t => present lv = present t) lvs (components src)
  /\ generates (LValue_storeValue C (TupleObject lvs) src loc (negb flag)) c code.
Proof.
  intros H. split; [|split; [|split]]; [| | |exact H].
  all: unfold generates in H; rewrite storeValue_tuple in H.
  all: apply bind_OK in H as ([] & c1 & Hcast & H).
  all: apply bind_OK in H as ([] & c2 & Hlen & H).
  all: apply bind_OK in H as (vp & c3 & Hloop & _).
  - destruct (category src); try discriminate Hcast. reflexivity.
  - unfold solAssert in Hlen.
    destruct (Nat.eqb_spec (List.length (components src)) (List.length lvs));
      [assumption|discriminate].
  - unfold solAssert in Hlen.
    destruct (Nat.eqb_spec (List.length (components src)) (List.length lvs));
      [|discriminate].
    eapply tupleAssign_OK; eassumption.
Qed.

(** X16. What an assignment to a tuple refuses, in any context: a source
    that is no tuple type fails the cast, and a tuple type with another number
    of components fails the assertion. *)
Theorem TupleObject_storeValue_refuses_other_shapes
    (lvs : list (option LValue)) (src : Ty) (loc : SourceLocation) (flag : bool)
    (c : CompilerContext) :
  (Category_eqb (category src) Tuple = false ->
     fails (LValue_storeValue C (TupleObject lvs) src loc flag) c BadCast)
  /\ (Category_eqb (category src) Tuple = true ->
      List.length (components src) <> List.length lvs ->
      fails (LValue_storeValue C (TupleObject lvs) src loc flag) c
        (InternalCompilerError ""))
  /\ fails (LValue_retrieveValue C (TupleObject lvs) loc flag) c
       (InternalCompilerError "Tried to retrieve value of tuple.").
Proof.
  rewrite storeValue_tuple. split; [|split].
  - intros Hc. unfold fails, bind. rewrite Hc. reflexivity.
  - intros Hc Hlen. unfold fails, bind. rewrite Hc. cbn [ret].
    destruct (Nat.eqb_spec (List.length (components src)) (List.length lvs));
      [contradiction|reflexivity].
  - reflexivity.
Qed.
End TupleAssignment.

(** The assignment [(a, ) = (x, )] to the stack variable [a] at the bottom
    of a stack that holds [a] and the value [x]. *)
Lemma TupleObject_storeValue_requires_matching_components_witness :
  let lvs := [Some (StackVariable (Example.uint 256) 0 1); None] in
  let src := Example.tuple [Some (Example.uint 256); None] in
  category src = Tuple
  /\ List.length (components src) = List.length lvs
  /\ Forall2 (fun lv t => present lv = present t) lvs (components src)
  /\ generates (LValue_storeValue Example.collaborators (TupleObject lvs) src noLocation
                  (negb true)) (Example.context true 2)
       [Operation (DUP 1); Operation (SWAP 2); Operation POP; Operation POP].
Proof.
  intros lvs src.
  apply (TupleObject_storeValue_requires_matching_components Example.collaborators lvs src
           noLocation true (Example.context true 2)
           [Operation (DUP 1); Operation (SWAP 2); Operation POP; Operation POP]).
  reflexivity.
Defined.

Lemma TupleObject_storeValue_refuses_other_shapes_witness :
  fails (LValue_storeValue Example.collaborators
           (TupleObject [Some (StackVariable (Example.uint 256) 0 1)])
           (Example.uint 256) noLocation true) (Example.context true 2) BadCast
  /\ fails (LValue_storeValue Example.collaborators
              (TupleObject [Some (StackVariable (Example.uint 256) 0 1)])
              (Example.tuple []) noLocation true) (Example.context true 2)
       (InternalCompilerError "").
Proof.
  split.
  - apply (TupleObject_storeValue_refuses_other_shapes Example.collaborators
             [Some (StackVariable (Example.uint 256) 0 1)] (Example.uint 256)
             noLocation true (Example.context true 2)). reflexivity.
  - destruct (TupleObject_storeValue_refuses_other_shapes Example.collaborators
                [Some (StackVariable (Example.uint 256) 0 1)] (Example.tuple [])
                noLocation true (Example.context true 2)) as (_ & H & _).
    apply H; [reflexivity|discriminate].
Defined.

(** ** The loop of a tuple assignment *)

Lemma bind_ret_r {A} (g : Gen A) c : bind g ret c = g c.
Proof. unfold bind, ret. destruct (g c) as [[a c']|e]; reflexivity. Qed.

Lemma bind_ext {A B} (g g' : Gen A) (k : A -> Gen B) c :
  g c = g' c -> bind g k c = bind g' k c.
Proof. unfold bind. now intros ->. Qed.

Lemma solAssert_OK cond msg c r :
  solAssert cond msg c = OK r -> cond = true /\ r = (tt, c).
Proof. unfold solAssert. destruct cond; [intros [= <-]; now split|discriminate]. Qed.

Lemma stackHeight_OK c : 0 <= deposit c -> stackHeight c = OK (Word.u32 (deposit c), c).
Proof.
  intros H. unfold stackHeight, bind, getContext, solAssert.
  destruct (Z.leb_spec 0 (deposit c)); [reflexivity|lia].
Qed.

Lemma stackHeight_inv c r :
  stackHeight c = OK r -> 0 <= deposit c /\ r = (Word.u32 (deposit c), c).
Proof.
  unfold stackHeight, bind, getContext, solAssert.
  destruct (Z.leb_spec 0 (deposit c)); [intros [= <-]; now split|discriminate].
Qed.

Lemma emit_deposit it c c' :
  emit it c = OK (tt, c') -> deposit c' = deposit c + itemDeposit it.
Proof. unfold emit. intros [= <-]. reflexivity. Qed.

Lemma forEach_deposit {A} (l : list A) (body : A -> Gen unit) k : forall c c',
  (forall a c0 c1, body a c0 = OK (tt, c1) -> deposit c1 = deposit c0 + k) ->
  forEach l body c = OK (tt, c') ->
  deposit c' = deposit c + k * Z.of_nat (List.length l).
Proof.
  induction l as [|a l IH]; intros c c' Hbody H.
  - cbn in H. injection H as <-. cbn. lia.
  - cbn [forEach] in H. apply bind_OK in H as ([] & c1 & Ha & Hrest).
    rewrite (IH c1 c' Hbody Hrest), (Hbody a c c1 Ha). cbn [List.length]. lia.
Qed.

Lemma times_deposit n body k c c' :
  (forall c0 c1, body c0 = OK (tt, c1) -> deposit c1 = deposit c0 + k) ->
  times n body c = OK (tt, c') ->
  deposit c' = deposit c + k * Z.of_nat (Z.to_nat n).
Proof.
  intros Hbody H. unfold times in H.
  rewrite (forEach_deposit _ _ k c c' (fun _ => Hbody) H), repeat_length. reflexivity.
Qed.

Lemma emitDup_deposit n c c' : emitDup n c = OK (tt, c') -> deposit c' = deposit c + 1.
Proof.
  unfold emitDup, dupInstruction. intros H. apply bind_OK in H as (i & c1 & Hi & He).
  destruct ((1 <=? n) && (n <=? 16)); [|discriminate].
  injection Hi as <- <-. rewrite (emit_deposit _ _ _ He). cbn. lia.
Qed.

Lemma emitSwap_deposit n c c' : emitSwap n c = OK (tt, c') -> deposit c' = deposit c + 0.
Proof.
  unfold emitSwap, swapInstruction. intros H. apply bind_OK in H as (i & c1 & Hi & He).
  destruct ((1 <=? n) && (n <=? 16)); [|discriminate].
  injection Hi as <- <-. rewrite (emit_deposit _ _ _ He). cbn. lia.
Qed.

Lemma copyToStackTop_deposit d n c c' :
  copyToStackTop d n c = OK (tt, c') -> deposit c' = deposit c + Z.of_nat (Z.to_nat n).
Proof.
  unfold copyToStackTop. intros H. apply bind_OK in H as ([] & c1 & Hc & Ht).
  destruct (d <=? 16); [|discriminate]. injection Hc as <-.
  rewrite (times_deposit _ _ 1 c c' (emitDup_deposit d) Ht). lia.
Qed.

Lemma rotateStackUp_deposit items c c' :
  rotateStackUp items c = OK (tt, c') -> deposit c' = deposit c + 0.
Proof.
  unfold rotateStackUp. intros H. apply bind_OK in H as ([] & c1 & Hc & Ht).
  destruct (Word.u32 (items - 1) <=? 16); [|discriminate]. injection Hc as <-.
  rewrite (forEach_deposit _ _ 0 c c' (fun a => emitSwap_deposit _) Ht). lia.
Qed.

Lemma rotateStackDown_deposit items c c' :
  rotateStackDown items c = OK (tt, c') -> deposit c' = deposit c + 0.
Proof.
  unfold rotateStackDown. intros H. apply bind_OK in H as ([] & c1 & Hc & Ht).
  destruct (Word.u32 (items - 1) <=? 16); [|discriminate]. injection Hc as <-.
  rewrite (forEach_deposit _ _ 0 c c' (fun a => emitSwap_deposit _) Ht). lia.
Qed.

Lemma moveToStackTop_deposit depth size c c' :
  moveToStackTop depth size c = OK (tt, c') -> deposit c' = deposit c.
Proof.
  unfold moveToStackTop, moveIntoStack. intros H.
  destruct (size <=? depth).
  - rewrite (times_deposit _ _ 0 c c' (rotateStackDown_deposit _) H). lia.
  - rewrite (times_deposit _ _ 0 c c' (rotateStackUp_deposit _) H). lia.
Qed.

Lemma popStackElement_deposit ty c c' :
  popStackElement ty c = OK (tt, c') ->
  deposit c' = deposit c - Z.of_nat (Z.to_nat (sizeOnStack ty)).
Proof.
  unfold popStackElement, popStackSlots. intros H.
  rewrite (times_deposit _ _ (-1) c c' (fun c0 c1 H0 => emit_deposit (Operation POP) c0 c1 H0) H).
  lia.
Qed.

Lemma LValue_sizeOnStack_nonneg l : 0 <= LValue_sizeOnStack l.
Proof.
  destruct l as [| | | | |lvs]; cbn [LValue_sizeOnStack]; try lia.
  assert (H : forall size, 0 <= size ->
            0 <= (fix sum (l : list (option LValue)) (size : Z) : Z :=
                    match l with
                    | [] => size
                    | Some lv :: rest => sum rest (Word.u32 (size + LValue_sizeOnStack lv))
                    | None :: rest => sum rest size
                    end) lvs size).
  { induction lvs as [|[lv|] rest IH]; intros size Hs; [assumption| |now apply IH].
    apply IH. unfold Word.u32. apply Z.mod_pos_bound. reflexivity. }
  apply H. lia.
Qed.

Lemma operandSlots_nonneg lvs : 0 <= operandSlots lvs.
Proof.
  induction lvs as [|[l|] rest IH]; cbn [operandSlots]; try lia.
  pose proof (LValue_sizeOnStack_nonneg l). lia.
Qed.

Section TupleDestination.
Variable C : Collaborators.

Lemma tupleAssign_pair loc lv t vp c :
  tupleAssign C loc [lv] [t] vp c
  = match lv with
    | Some l =>
        TupleObject_assign (LValue_storeValue C l) (LValue_sizeOnStack l) true t loc vp c
    | None => TupleObject_assign (fun _ _ _ => ret tt) 0 false t loc vp c
    end.
Proof. destruct lv; reflexivity. Qed.

Lemma tupleAssign_cons loc lv lvs t tys vp c :
  tupleAssign C loc (lv :: lvs) (t :: tys) vp c
  = bind (tupleAssign C loc lvs tys vp) (tupleAssign C loc [lv] [t]) c.
Proof.
  cbn [tupleAssign]. unfold bind. destruct (tupleAssign C loc lvs tys vp c) as [[vp1 c1]|e];
    [|reflexivity].
  destruct lv; reflexivity.
Qed.

Lemma tupleAssign_snoc loc lv t lvs : forall tys vp c,
  List.length lvs = List.length tys ->
  tupleAssign C loc (lvs ++ [lv]) (tys ++ [t]) vp c
  = bind (tupleAssign C loc [lv] [t] vp) (tupleAssign C loc lvs tys) c.
Proof.
  induction lvs as [|lv0 lvs IH]; intros tys vp c Hlen.
  - destruct tys; [|discriminate]. cbn [app].
    change (tupleAssign C loc [] []) with (@ret Z). now rewrite bind_ret_r.
  - destruct tys as [|t0 tys]; [discriminate|]. cbn [app].
    rewrite tupleAssign_cons.
    rewrite (bind_ext _ (bind (tupleAssign C loc [lv] [t] vp) (tupleAssign C loc lvs tys)))
      by (apply IH; now injection Hlen).
    rewrite bind_assoc. unfold bind at 1 3.
    destruct (tupleAssign C loc [lv] [t] vp c) as [[vp1 c1]|e]; [|reflexivity].
    now rewrite tupleAssign_cons.
Qed.

Lemma tupleAssign_missing loc vp c :
  0 <= deposit c -> tupleAssign C loc [None] [None] vp c = OK (vp, c).
Proof.
  intros H. rewrite tupleAssign_pair. unfold TupleObject_assign.
  unfold bind at 1. rewrite stackHeight_OK by assumption. reflexivity.
Qed.

Lemma tupleAssign_mismatch loc vp c l vt :
  0 <= deposit c ->
  tupleAssign C loc [None] [Some vt] vp c = Throw (InternalCompilerError "")
  /\ tupleAssign C loc [Some l] [None] vp c = Throw (InternalCompilerError "").
Proof.
  intros H. rewrite !tupleAssign_pair. unfold TupleObject_assign.
  split; unfold bind at 1; rewrite stackHeight_OK by assumption; reflexivity.
Qed.

Lemma tupleAssign_present loc l vt vp c store :
  let pos := Word.u32 (vp + sizeOnStack vt) in
  let copy := dups pos (sizeOnStack vt) in
  let move := moveIntoStackCode (LValue_sizeOnStack l) (sizeOnStack vt) in
  let c' := appended c (copy ++ move ++ store) in
  0 <= deposit c -> 0 <= sizeOnStack vt -> pos <= 16 ->
  sizeOnStack vt <= 0 \/ 1 <= pos ->
  LValue_sizeOnStack l + sizeOnStack vt <= 17 ->
  generates (LValue_storeValue C l vt loc true) (appended c (copy ++ move)) store ->
  0 <= deposit c' ->
  tupleAssign C loc [Some l] [Some vt] vp c
  = OK (Word.u32 (pos + Word.u32 (Word.u32 (deposit c') - Word.u32 (deposit c))), c').
Proof.
  intros pos copy move c' Hd Hs Hpos Hreach Hmove Hstore Hd'.
  rewrite tupleAssign_pair. unfold TupleObject_assign.
  unfold bind at 1. rewrite stackHeight_OK by assumption.
  unfold bind at 1. cbn [solAssert Bool.eqb negb ret].
  fold pos.
  unfold bind at 1.
  rewrite (copyToStackTop_generates pos (sizeOnStack vt) c Hpos Hreach). fold copy.
  unfold bind at 1. unfold moveToStackTop.
  pose proof (LValue_sizeOnStack_nonneg l) as Href.
  rewrite (moveIntoStack_generates (LValue_sizeOnStack l) (sizeOnStack vt)
             (appended c copy) Href Hs Hmove). fold move.
  rewrite appended_app. unfold bind at 1. rewrite Hstore.
  rewrite appended_app, <- app_assoc. fold c'.
  unfold bind. rewrite stackHeight_OK by assumption. reflexivity.
Qed.

Lemma TupleObject_assign_deposit loc floor top lv t vp c vp' c' :
  tupleAssign C loc [lv] [t] vp c = OK (vp', c') ->
  pairConsumed C loc floor top lv t ->
  floor <= deposit c <= top ->
  deposit c' = deposit c - operandSlots [lv].
Proof.
  intros H Hp Hc. rewrite tupleAssign_pair in H. unfold TupleObject_assign in H.
  destruct lv as [l|].
  - apply bind_OK in H as (h0 & c1 & Hh & H). apply stackHeight_inv in Hh as [_ [= -> ->]].
    apply bind_OK in H as ([] & c2 & Ha & H). apply solAssert_OK in Ha as [Ha [= ->]].
    cbn [negb] in H. destruct t as [vt|]; [|discriminate].
    destruct Hp as (Hpos & Htop & Hcons).
    apply bind_OK in H as ([] & c3 & Hcopy & H). apply copyToStackTop_deposit in Hcopy.
    apply bind_OK in H as ([] & c4 & Hmv & H). apply moveToStackTop_deposit in Hmv.
    apply bind_OK in H as ([] & c5 & Hst & H).
    apply Hcons in Hst; [|rewrite Hmv, Hcopy; rewrite Z2Nat.id by lia; lia].
    apply bind_OK in H as (h1 & c6 & Hh & H). apply stackHeight_inv in Hh as [_ [= -> ->]].
    injection H as <- <-.
    rewrite Hst, Hmv, Hcopy. rewrite Z2Nat.id by lia. cbn [operandSlots]. lia.
  - apply bind_OK in H as (h0 & c1 & Hh & H). apply stackHeight_inv in Hh as [_ [= -> ->]].
    apply bind_OK in H as ([] & c2 & Ha & H). apply solAssert_OK in Ha as [Ha [= ->]].
    cbn [negb] in H. injection H as <- <-. cbn [operandSlots]. lia.
Qed.

Lemma tupleAssign_deposit loc floor top lvs : forall tys vp c vp' c',
  tupleAssign C loc lvs tys vp c = OK (vp', c') ->
  Forall2 (pairConsumed C loc floor top) lvs tys ->
  floor + operandSlots lvs <= deposit c <= top ->
  deposit c' = deposit c - operandSlots lvs.
Proof.
  induction lvs as [|lv lvs IH]; intros tys vp c vp' c' H Hp Hc.
  - destruct tys; injection H as <- <-; cbn [operandSlots]; lia.
  - inversion Hp as [|? t ? tys' Hlv Hrest]; subst.
    rewrite tupleAssign_cons in H. apply bind_OK in H as (vp1 & c1 & Hr & Hhere).
    pose proof (operandSlots_nonneg lvs) as Hn.
    pose proof (operandSlots_nonneg [lv]) as Hn1.
    assert (Hsum : operandSlots (lv :: lvs) = operandSlots [lv] + operandSlots lvs)
      by (destruct lv; cbn [operandSlots]; lia).
    rewrite Hsum in *.
    pose proof (IH tys' vp c vp1 c1 Hr Hrest ltac:(lia)) as E1.
    rewrite (TupleObject_assign_deposit loc floor top lv t vp1 c1 vp' c' Hhere Hlv) by lia.
    lia.
Qed.
End TupleDestination.

Section TupleDestinationTheorem.
Variable C : Collaborators.

(** C7 (amended). [TupleObject::storeValue] takes a source of a tuple
    type and runs its loop over the pairs of a member and a component, then
    pops the slots of the source.  It requires as many components as the tuple
    has members, and a component to be absent exactly where the member is: a
    value whose member is missing is not discarded, it fails the assertion.
    The pairs are processed strictly from right to left.  For a pair that is
    absent on both sides nothing is emitted.  For a pair that is present the
    value is copied to the top of the stack, the addressing operands of the
    member are moved above it, and the [storeValue] of the member is called
    with [move = true].  Where each member takes its value and its operands off
    the stack, the tracked height after the assignment is the height before
    it less the slots of the source and less the addressing operands of the
    members. *)
Theorem TupleObject_storeValue_assigns_right_to_left
    (lvs : list (option LValue)) (src : Ty) (loc : SourceLocation) (flag : bool)
    (c : CompilerContext) :
  LValue_storeValue C (TupleObject lvs) src loc flag
  = ((if Category_eqb (category src) Tuple then ret tt else throw BadCast) ;;
     solAssert (Nat.eqb (List.length (components src)) (List.length lvs)) "" ;;
     tupleAssign C loc lvs (components src) (LValue_sizeOnStack (TupleObject lvs)) ;;
     popStackElement src)
  /\ (forall code,
        generates (LValue_storeValue C (TupleObject lvs) src loc flag) c code ->
        List.length (components src) = List.length lvs
        /\ Forall2 (fun lv t => present lv = present t) lvs (components src))
  /\ (Category_eqb (category src) Tuple = true ->
      List.length (components src) <> List.length lvs ->
      fails (LValue_storeValue C (TupleObject lvs) src loc flag) c (InternalCompilerError ""))
  /\ (forall lv t lvs' tys vp,
        List.length lvs' = List.length tys ->
        tupleAssign C loc (lvs' ++ [lv]) (tys ++ [t]) vp c
        = bind (tupleAssign C loc [lv] [t] vp) (tupleAssign C loc lvs' tys) c)
  /\ (0 <= deposit c ->
      (forall vp, tupleAssign C loc [None] [None] vp c = OK (vp, c))
      /\ (forall vp vt,
            tupleAssign C loc [None] [Some vt] vp c = Throw (InternalCompilerError ""))
      /\ (forall vp l,
            tupleAssign C loc [Some l] [None] vp c = Throw (InternalCompilerError ""))
      /\ (forall vp l vt store,
            let pos := Word.u32 (vp + sizeOnStack vt) in
            let copy := dups pos (sizeOnStack vt) in
            let move := moveIntoStackCode (LValue_sizeOnStack l) (sizeOnStack vt) in
            let c' := appended c (copy ++ move ++ store) in
            0 <= sizeOnStack vt -> pos <= 16 -> sizeOnStack vt <= 0 \/ 1 <= pos ->
            LValue_sizeOnStack l + sizeOnStack vt <= 17 ->
            generates (LValue_storeValue C l vt loc true) (appended c (copy ++ move)) store ->
            0 <= deposit c' ->
            tupleAssign C loc [Some l] [Some vt] vp c
            = OK (Word.u32 (pos + Word.u32 (Word.u32 (deposit c') - Word.u32 (deposit c))),
                  c')))
  /\ (forall code,
        generates (LValue_storeValue C (TupleObject lvs) src loc flag) c code ->
        0 <= sizeOnStack src ->
        Forall2 (pairConsumed C loc (deposit c - operandSlots lvs - sizeOnStack src)
                   (deposit c)) lvs (components src) ->
        deposit (appended c code) = deposit c - operandSlots lvs - sizeOnStack src).
Proof.
  split; [reflexivity|]. split; [|split; [|split; [|split]]].
  - intros code H. unfold generates in H. rewrite storeValue_tuple in H.
    apply bind_OK in H as ([] & c1 & Hcast & H).
    apply bind_OK in H as ([] & c2 & Hlen & H).
    apply bind_OK in H as (vp & c3 & Hloop & _).
    apply solAssert_OK in Hlen as [Hlen _]. apply Nat.eqb_eq in Hlen.
    split; [exact Hlen|]. eapply tupleAssign_OK; eassumption.
  - intros Hc Hlen. rewrite storeValue_tuple. unfold fails, bind. rewrite Hc. cbn [ret].
    destruct (Nat.eqb_spec (List.length (components src)) (List.length lvs));
      [contradiction|reflexivity].
  - intros lv t lvs' tys vp Hlen. now apply tupleAssign_snoc.
  - intros Hd. split; [|split; [|split]].
    + intros vp. now apply tupleAssign_missing.
    + intros vp vt.
      apply (tupleAssign_mismatch C loc vp c (StackVariable vt 0 0) vt Hd).
    + intros vp l. apply (tupleAssign_mismatch C loc vp c l src Hd).
    + intros vp l vt store pos copy move c' Hs Hpos Hreach Hmove Hstore Hd'.
      now apply tupleAssign_present.
  - intros code H Hsrc Hpairs. unfold generates in H. rewrite storeValue_tuple in H.
    apply bind_OK in H as ([] & c1 & Hcast & H).
    assert (c1 = c) as ->.
    { destruct (Category_eqb (category src) Tuple); [now injection Hcast|discriminate]. }
    apply bind_OK in H as ([] & c2 & Hlen & H).
    apply solAssert_OK in Hlen as [_ [= ->]].
    apply bind_OK in H as (vp & c3 & Hloop & Hpop).
    apply popStackElement_deposit in Hpop. rewrite Z2Nat.id in Hpop by assumption.
    pose proof (operandSlots_nonneg lvs) as Hn.
    rewrite Hpop.
    rewrite (tupleAssign_deposit C loc _ _ lvs _ _ _ _ _ Hloop Hpairs) by lia.
    reflexivity.
Qed.
End TupleDestinationTheorem.

(** C7 as stated fails where a value stands over a missing member: the
    assignment of [(x, y)] to the tuple [(, b)] does not discard [x], it
    fails the assertion.  And the stack is left lower than by the source
    values where a member has addressing operands: the assignment of [(x, )]
    to a storage slot takes three slots off the stack, the value and the two
    operands of the slot. *)
Lemma tuple_assignment_discards_no_value :
  let b := StackVariable (Example.uint 256) 0 1 in
  let slot := GenericStorageItem false (Example.uint 256) in
  fails (LValue_storeValue Example.collaborators (TupleObject [None; Some b])
           (Example.tuple [Some (Example.uint 256); Some (Example.uint 256)])
           noLocation true) (Example.context true 3) (InternalCompilerError "")
  /\ exists code,
       generates (LValue_storeValue Example.collaborators (TupleObject [Some slot])
                    (Example.tuple [Some (Example.uint 256)]) noLocation true)
         (Example.context true 3) code
       /\ sizeOnStack (Example.tuple [Some (Example.uint 256)]) = 1
       /\ deposit (appended (Example.context true 3) code)
          = deposit (Example.context true 3) - 3.
Proof.
  intros b slot. split; [vm_compute; reflexivity|].
  exists [Operation (DUP 3); Operation (SWAP 2); Operation (SWAP 1); Operation POP;
          Operation (SWAP 1); Operation (SWAP 1); Operation SSTORE; Operation POP].
  repeat split; vm_compute; reflexivity.
Qed.

(** The assignment of [(, y)] to the tuple [(, b)], where [b] is the stack
    variable at the bottom of a stack that holds [b] and [y]: the pairs match,
    [y] is copied and moved into [b], and the height falls from 2 to 1. *)
Lemma TupleObject_storeValue_assigns_right_to_left_witness :
  let b := StackVariable (Example.uint 256) 0 1 in
  let lvs := [None; Some b] in
  let src := Example.tuple [None; Some (Example.uint 256)] in
  let c := Example.context true 2 in
  let code := [Operation (DUP 1); Operation (SWAP 2); Operation POP; Operation POP] in
  generates (LValue_storeValue Example.collaborators (TupleObject lvs) src noLocation true)
    c code
  /\ Forall2 (fun lv t => present lv = present t) lvs (components src)
  /\ tupleAssign Example.collaborators noLocation [None] [None] 0 c = OK (0, c)
  /\ deposit (appended c code) = 1.
Proof.
  intros b lvs src c code.
  assert (Hgen : generates (LValue_storeValue Example.collaborators (TupleObject lvs) src
                             noLocation true) c code) by reflexivity.
  assert (Hcons : consumesValue Example.collaborators noLocation 1 b (Example.uint 256)).
  { intros c0 c1 Hd H. cbn [LValue_storeValue b] in H.
    change (sizeOnStack (Example.uint 256)) with 1.
    change (LValue_sizeOnStack b) with 0.
    destruct (Z_le_gt_dec (deposit c0 - 0 - 1) 16) as [Hle|Hgt].
    - pose proof (store_ok 0 1 (Example.uint 256) noLocation true c0) as G.
      cbv iota in G. rewrite app_nil_r in G.
      unfold generates in G. rewrite G in H by lia. injection H as <-.
      rewrite deposit_swapPops by lia. lia.
    - pose proof (store_too_deep 0 1 (Example.uint 256) noLocation true c0) as G.
      unfold fails in G. rewrite G in H by lia. discriminate H. }
  destruct (TupleObject_storeValue_assigns_right_to_left Example.collaborators lvs src
              noLocation true c) as (_ & Hreq & _ & _ & Hpair & Hnet).
  split; [exact Hgen|]. split; [exact (proj2 (Hreq code Hgen))|].
  split.
  - destruct (Hpair ltac:(cbn; lia)) as [Hmissing _]. apply Hmissing.
  - rewrite (Hnet code Hgen).
    + reflexivity.
    + cbn. lia.
    + constructor; [exact I|]. constructor; [|constructor].
      split; [reflexivity|]. split; [reflexivity|]. exact Hcons.
Defined.

(** ** The driver of contract compilation *)

Lemma all_of_persistent vars :
  Forall persistentVariable vars -> all_of vars notTransient = OK true.
Proof.
  induction 1 as [|v vars (d & -> & Hd) _ IH]; [reflexivity|].
  cbn. destruct (referenceLocation d); try contradiction; exact IH.
Qed.

Lemma all_of_first_transient before d after :
  Forall persistentVariable before -> referenceLocation d = Location.Transient ->
  all_of (before ++ Some d :: after) notTransient = OK false.
Proof.
  intros Hb Hd. induction Hb as [|v vars (d' & -> & Hd') _ IH].
  - cbn. rewrite Hd. reflexivity.
  - cbn. destruct (referenceLocation d'); try contradiction; exact IH.
Qed.

Lemma all_of_first_null before after :
  Forall persistentVariable before ->
  all_of (before ++ None :: after) notTransient = Throw (InternalCompilerError "").
Proof.
  intros Hb. induction Hb as [|v vars (d' & -> & Hd') _ IH].
  - reflexivity.
  - cbn. destruct (referenceLocation d'); try contradiction; exact IH.
Qed.

Lemma all_of_true vars :
  all_of vars notTransient = OK true -> Forall persistentVariable vars.
Proof.
  induction vars as [|[d|] vars IH]; intros H; [constructor| |discriminate].
  cbn in H. destruct (referenceLocation d) eqn:E; try discriminate;
    (constructor; [exists d; split; [reflexivity|congruence]|now apply IH]).
Qed.

(** X17. [Compiler::compileContract] compiles no contract that has a
    transient state variable.  The state variables are examined in order,
    before either contract compiler is run: at the first one that is transient
    the compilation is refused with the not-yet-implemented error, and at a
    null declaration that comes first an assertion fails, whatever the
    compilers would do.  So when [compileContract] returns, every state
    variable of the contract is declared and none is transient, and the Yul
    utility functions have been appended to both contexts. *)
Theorem compileContract_refuses_transient_state_variables {S O : Type}
    (K : ContractCompiler S O) (contract : ContractDefinition) (others : O)
    (metadata : list Z) (m : S) :
  (forall before d after,
      stateVariables contract = before ++ Some d :: after ->
      Forall persistentVariable before ->
      referenceLocation d = Location.Transient ->
      Compiler_compileContract K contract others metadata m
      = Throw (UnimplementedFeatureError "Transient storage variables are not supported."))
  /\ (forall before after,
      stateVariables contract = before ++ None :: after ->
      Forall persistentVariable before ->
      Compiler_compileContract K contract others metadata m
      = Throw (InternalCompilerError ""))
  /\ (forall m',
      Compiler_compileContract K contract others metadata m = OK m' ->
      Forall persistentVariable (stateVariables contract)
      /\ context_appendYulUtilityFunctionsRan K m' = true
      /\ runtimeContext_appendYulUtilityFunctionsRan K m' = true).
Proof.
  unfold Compiler_compileContract. split; [|split].
  - intros before d after -> Hb Hd. now rewrite all_of_first_transient.
  - intros before after -> Hb. now rewrite all_of_first_null.
  - intros m' H.
    destruct (all_of (stateVariables contract) notTransient) as [[|]|e] eqn:Hall;
      try discriminate H.
    split; [now apply all_of_true|]. cbn in H.
    destruct (runtimeCompiler_compileContract K contract others m) as [m1|e];
      [|discriminate H]. cbn in H.
    destruct (creationCompiler_compileConstructor K contract others
                (appendToAuxiliaryData K metadata m1)) as [m2|e]; [|discriminate H].
    cbn in H. destruct (optimise K m2) as [m3|e]; [|discriminate H]. cbn in H.
    destruct (context_appendYulUtilityFunctionsRan K m3) eqn:E1; [|discriminate H].
    cbn in H.
    destruct (runtimeContext_appendYulUtilityFunctionsRan K m3) eqn:E2; [|discriminate H].
    cbn in H. injection H as <-. now split.
Qed.

(** A contract with a persistent and then a transient state variable, and
    compilers that would succeed. *)
Lemma compileContract_refuses_transient_state_variables_witness :
  let K := mkContractCompiler unit unit (fun _ _ m => OK m) (fun _ m => m)
             (fun _ _ m => OK m) (fun m => OK m) (fun _ => true) (fun _ => true) in
  let a := mkStateVariable (mkDecl 0 (Example.uint 256) false) Location.Unspecified in
  let b := mkStateVariable (mkDecl 1 (Example.uint 256) false) Location.Transient in
  Compiler_compileContract K (mkContract [Some a; Some b]) tt [] tt
  = Throw (UnimplementedFeatureError "Transient storage variables are not supported.")
  /\ Compiler_compileContract K (mkContract [Some a]) tt [] tt = OK tt.
Proof.
  intros K a b. split; [|reflexivity].
  destruct (compileContract_refuses_transient_state_variables K
              (mkContract [Some a; Some b]) tt [] tt) as (H & _).
  apply (H [Some a] b []); [reflexivity| |reflexivity].
  constructor; [|constructor]. exists a. split; [reflexivity|discriminate].
Defined.

(** ** Zeroed fields, the tracked stack height and the constructors *)

Lemma isSignedValue_zero w : isSignedValue w 0.
Proof.
  split; [unfold Word.isWord, Word.modulus; lia|].
  unfold Word.signextend. destruct (w - 1 <? 31); [|reflexivity].
  cbv zeta. rewrite Z.testbit_0_l. apply Z.land_0_l.
Qed.

Lemma isLeftAlignedValue_zero w : isLeftAlignedValue w 0.
Proof. split; [unfold Word.isWord, Word.modulus; lia|apply Zmod_0_l]. Qed.

Lemma depositOf_packedStoreCode tr w n align mv :
  0 <= n ->
  depositOf (packedStoreCode tr w n align mv)
  = depositOf align + n - 3 - (if mv then n else 0).
Proof.
  intros Hn. unfold packedStoreCode. rewrite !depositOf_app.
  replace (depositOf (storePrefix tr w)) with 1 by (destruct tr; reflexivity).
  replace (depositOf (storeSuffix tr)) with (-4) by (destruct tr; reflexivity).
  rewrite depositOf_dups by assumption.
  destruct mv; [rewrite depositOf_pops by assumption|change (depositOf []) with 0]; lia.
Qed.

Lemma depositOf_fullStoreCode tr convert mv :
  depositOf (fullStoreCode tr convert mv) = depositOf convert - 2 - (if mv then 1 else 0).
Proof.
  unfold fullStoreCode. rewrite !depositOf_app.
  replace (depositOf [Operation (SWAP 1); Operation (m_storeInstruction tr)]) with (-2)
    by (destruct tr; reflexivity).
  change (depositOf [Operation POP]) with (-1).
  change (depositOf [Operation (SWAP 1)]) with 0.
  destruct mv.
  - change (depositOf []) with 0. lia.
  - change (depositOf [Operation (DUP 2); Operation (SWAP 1)]) with 1. lia.
Qed.

Lemma depositOf_zeroCode tr w : depositOf (zeroCode tr w) = -2.
Proof. unfold zeroCode. destruct (w =? 32), tr; reflexivity. Qed.

Lemma depositOf_duplicateOperands rm : depositOf (duplicateOperands rm) = if rm then 0 else 2.
Proof. destruct rm; reflexivity. Qed.

Section ZeroedFields.
Variable C : Collaborators.

Lemma retrieve_after_zero ty w o key remove c' tail g st s :
  packedField w o -> Word.isWord (EVM.storage s key) ->
  generates (GenericStorageItem_retrieveValue C false ty noLocation remove) c'
    (duplicateOperands remove ++ retrievePrefix ++ tail) ->
  computes tail 1 g ->
  (forall old, Word.isWord old ->
     g [Word.div (replaceWindow w o old 0) (Word.exp 256 o)] = 0) ->
  EVM.exec (duplicateOperands remove ++ retrievePrefix ++ tail)
    (withStack (o :: key :: st)
       (withSlot false st s key (packed w o (slots false s key) 0)))
  = Some (withStack (0 :: (if remove then [] else [o; key]) ++ st)
            (withSlot false st s key (packed w o (slots false s key) 0))).
Proof.
  intros (Hr & Ho & How) Hold _ Htail Hback.
  assert (H0 : 0 <= 0 < 2 ^ (8 * w)) by (split; [lia|apply Z.pow_pos_nonneg; lia]).
  rewrite packed_replaceWindow by (assumption || lia).
  rewrite exec_retrieve_packed with (f := g); try assumption.
  - rewrite storage_withSlot. unfold slots. rewrite Hback by assumption. reflexivity.
  - rewrite storage_withSlot. apply isWord_div_exp256; [lia|].
    apply isWord_replaceWindow; assumption || lia.
Qed.

(** X18. A cleared field reads as zero.  For a value type of one stack
    slot other than a function type or a fixed-point type, of 1 to 32 bytes,
    unsigned, signed or left-aligned: after the persistent [setToZero] at
    [(key, o)], whether or not it keeps its operands, [retrieveValue] at
    [(key, o)] pushes zero, whatever the slot held before. *)
Theorem zeroed_field_reads_as_zero (ty t : Ty) (w o key : Z) (loc : SourceLocation)
    (keep remove : bool) (c c' : CompilerContext) (rest : list Z) (s : EVM.State) :
  RoundTripType ty t w -> 0 < w <= 32 -> 0 <= o -> o + w <= 32 ->
  Category_eqb (category ty) Array = false ->
  Category_eqb (category ty) Struct = false ->
  Word.isWord (EVM.storage s key) ->
  exists codeZ codeR s1,
    generates (LValue_setToZero C (GenericStorageItem false ty) loc keep) c codeZ
    /\ generates (LValue_retrieveValue C (GenericStorageItem false ty) noLocation remove)
         c' codeR
    /\ EVM.exec codeZ (withStack (o :: key :: rest) s) = Some s1
    /\ EVM.stack s1 = (if keep then rest else o :: key :: rest)
    /\ EVM.exec codeR (withStack (o :: key :: EVM.stack s1) s1)
       = Some (withStack (0 :: (if remove then [] else [o; key]) ++ EVM.stack s1) s1).
Proof.
  intros HT Hw Ho How Ha Hs Hold.
  pose proof HT as (Hv & Ht & Hsb & Htw & Hn & Htn & Hl & Hf & Htf & Hfp).
  set (st1 := if keep then rest else o :: key :: rest).
  destruct (Z.eq_dec w 32) as [->|Hne].
  - exists (duplicateOperands keep ++ zeroCode false 32),
           (duplicateOperands remove ++ [Operation POP; Operation (m_loadInstruction false)]),
           (withSlot false st1 s key 0).
    split; [cbn [LValue_setToZero]; rewrite <- Hsb; now apply setToZero_value_generates|].
    split; [cbn [LValue_retrieveValue]; now apply retrieveValue_full_generates|].
    split; [rewrite exec_app, exec_duplicateOperands, exec_zeroCode_full;
            unfold st1; destruct keep; reflexivity|].
    split; [reflexivity|].
    change (EVM.stack (withSlot false st1 s key 0)) with st1.
    rewrite exec_retrieve_full, storage_withSlot. reflexivity.
  - assert (Hfield : packedField w o) by (unfold packedField; lia).
    assert (Hzero : EVM.exec (duplicateOperands keep ++ zeroCode false w)
                      (withStack (o :: key :: rest) s)
                    = Some (withSlot false st1 s key (packed w o (slots false s key) 0))).
    { rewrite exec_app, exec_duplicateOperands. cbv beta iota.
      unfold st1. destruct keep; now rewrite exec_zeroCode_packed. }
    assert (HZ : generates (LValue_setToZero C (GenericStorageItem false ty) loc keep) c
                   (duplicateOperands keep ++ zeroCode false w))
      by (cbn [LValue_setToZero]; rewrite <- Hsb; now apply setToZero_value_generates).
    destruct (leftAligned t) eqn:Hleft;
      [|destruct (Category_eqb (category t) Integer && isSigned t) eqn:Hsigned].
    + exists (duplicateOperands keep ++ zeroCode false w),
             (duplicateOperands remove ++ retrievePrefix
              ++ leftShiftCode (hasBitwiseShifting c') (256 - 8 * w)),
             (withSlot false st1 s key (packed w o (slots false s key) 0)).
      assert (HR : generates (GenericStorageItem_retrieveValue C false ty noLocation remove) c'
                     (duplicateOperands remove ++ retrievePrefix
                      ++ leftShiftCode (hasBitwiseShifting c') (256 - 8 * w)))
        by (apply retrieveValue_leftAligned_generates with (t := t); try assumption; lia).
      split; [exact HZ|]. split; [exact HR|]. split; [exact Hzero|]. split; [reflexivity|].
      change (EVM.stack (withSlot false st1 s key ?x)) with st1.
      apply (retrieve_after_zero ty w o key remove c' _
               (fun vs => Word.wrap (Z.shiftl (hd 0 vs) (256 - 8 * w)))); try assumption.
      * apply computes_leftShift. lia.
      * intros old Hold'. cbn [hd].
        pose proof (left_extract w o old 0 ltac:(lia) Ho How Hold'
                      (isLeftAlignedValue_zero w)) as E.
        rewrite Z.shiftr_0_l in E. exact E.
    + exists (duplicateOperands keep ++ zeroCode false w),
             (duplicateOperands remove ++ retrievePrefix
              ++ [Push (Word.u32 (w - 1)); Operation SIGNEXTEND]),
             (withSlot false st1 s key (packed w o (slots false s key) 0)).
      assert (HR : generates (GenericStorageItem_retrieveValue C false ty noLocation remove) c'
                     (duplicateOperands remove ++ retrievePrefix
                      ++ [Push (Word.u32 (w - 1)); Operation SIGNEXTEND]))
        by (apply retrieveValue_signed_generates with (t := t); assumption).
      split; [exact HZ|]. split; [exact HR|]. split; [exact Hzero|]. split; [reflexivity|].
      change (EVM.stack (withSlot false st1 s key ?x)) with st1.
      apply (retrieve_after_zero ty w o key remove c' _
               (fun vs => Word.signextend (Word.u32 (w - 1)) (hd 0 vs))); try assumption.
      * apply computes_signextend.
      * intros old Hold'. cbn [hd].
        pose proof (signed_extract w o old 0 ltac:(lia) Ho How Hold'
                      (isSignedValue_zero w)) as E.
        rewrite Zmod_0_l in E. exact E.
    + exists (duplicateOperands keep ++ zeroCode false w),
             (duplicateOperands remove ++ retrievePrefix
              ++ [Push (byteMask w); Operation AND]),
             (withSlot false st1 s key (packed w o (slots false s key) 0)).
      assert (HR : generates (GenericStorageItem_retrieveValue C false ty noLocation remove) c'
                     (duplicateOperands remove ++ retrievePrefix
                      ++ [Push (byteMask w); Operation AND]))
        by (apply retrieveValue_unsigned_generates with (t := t); assumption).
      split; [exact HZ|]. split; [exact HR|]. split; [exact Hzero|]. split; [reflexivity|].
      change (EVM.stack (withSlot false st1 s key ?x)) with st1.
      apply (retrieve_after_zero ty w o key remove c' _
               (fun vs => Z.land (byteMask w) (hd 0 vs))); try assumption.
      * apply computes_mask. lia.
      * intros old Hold'. cbn [hd]. apply unsigned_extract; try assumption; try lia.
Qed.

(** X19. The tracked height of the stack across the operations of a storage
    item of a value type.  With a conversion that replaces the slots of the
    value by one word, [storeValue] lowers the height by the two addressing
    operands and, when it moves, by the slots of the value; [setToZero] lowers
    it by the two operands when it removes them and leaves it as it was
    otherwise; and [retrieveValue] of a type that fills its slot replaces the
    operands by one slot or adds one slot above them. *)
Theorem storage_item_keeps_the_stack_balanced (tr : bool) (ty src : Ty)
    (loc : SourceLocation) (flag : bool) (c : CompilerContext) (w : Z)
    (n : nat) (align : list AssemblyItem) (f : list Z -> Z) :
  isValueType ty = true ->
  Category_eqb (category ty) Array = false ->
  Category_eqb (category ty) Struct = false ->
  storageBytes ty = w ->
  (0 < w < 32 ->
     PackedAlignment C ty src w (hasBitwiseShifting c) n align f ->
     depositOf align = 1 - Z.of_nat n ->
     exists code,
       generates (LValue_storeValue C (GenericStorageItem tr ty) src loc flag) c code
       /\ deposit (appended c code)
          = deposit c - 2 - (if flag then Z.of_nat n else 0))
  /\ (w = 32 -> sizeOnStack ty = 1 ->
      convertType C src ty true false = OK align -> depositOf align = 0 ->
      (exists code,
          generates (LValue_storeValue C (GenericStorageItem tr ty) src loc flag) c code
          /\ deposit (appended c code) = deposit c - 2 - (if flag then 1 else 0))
      /\ (exists code,
          generates (LValue_retrieveValue C (GenericStorageItem tr ty) loc flag) c code
          /\ deposit (appended c code) = deposit c + (if flag then -1 else 1)))
  /\ (exists code,
      generates (LValue_setToZero C (GenericStorageItem tr ty) loc flag) c code
      /\ deposit (appended c code) = deposit c - (if flag then 2 else 0)).
Proof.
  intros Hv Ha Hs Hw. split; [|split].
  - intros Hr Hal Hd. exists (packedStoreCode tr w (Z.of_nat n) align flag).
    split; [cbn [LValue_storeValue]; now apply PackedAlignment_generates with (f := f)|].
    rewrite deposit_appended', depositOf_packedStoreCode, Hd by lia.
    destruct flag; lia.
  - intros -> Hn Hcv Hd. split.
    + exists (fullStoreCode tr align flag).
      split; [cbn [LValue_storeValue]; now apply storeValue_full_generates|].
      rewrite deposit_appended', depositOf_fullStoreCode, Hd. destruct flag; lia.
    + exists (duplicateOperands flag ++ [Operation POP; Operation (m_loadInstruction tr)]).
      split; [cbn [LValue_retrieveValue]; now apply retrieveValue_full_generates|].
      rewrite deposit_appended', depositOf_app, depositOf_duplicateOperands.
      replace (depositOf [Operation POP; Operation (m_loadInstruction tr)]) with (-1)
        by (destruct tr; reflexivity).
      destruct flag; lia.
  - exists (duplicateOperands flag ++ zeroCode tr (storageBytes ty)).
    split; [cbn [LValue_setToZero]; now apply setToZero_value_generates|].
    rewrite deposit_appended', depositOf_app, depositOf_duplicateOperands, depositOf_zeroCode.
    destruct flag; lia.
Qed.

(** X20. The constructors from a declaration.  A stack variable records
    the base offset the context has for the declaration and the size of its
    type on the stack, and emits nothing.  An immutable item is constructed
    from an immutable declaration only, and a storage item from a declaration
    that is not immutable only: no declaration yields both. *)
Theorem constructors_tell_immutables_from_state_variables (tr : bool)
    (d : VariableDeclaration) (c : CompilerContext) :
  StackVariable_new d c
  = OK (StackVariable (declType d) (baseStackOffsetOfVariable c (declId d))
          (sizeOnStack (declType d)), c)
  /\ (immutable d = true ->
      ImmutableItem_new d c = OK (ImmutableItem (declType d) d, c)
      /\ exists e, fails (GenericStorageItem_ofDeclaration tr d) c e)
  /\ (immutable d = false ->
      fails (ImmutableItem_new d) c (InternalCompilerError "")
      /\ forall lv c', GenericStorageItem_ofDeclaration tr d c = OK (lv, c') ->
           lv = GenericStorageItem tr (declType d)
           /\ c' = appended c [Push (fst (storageLocationOfVariable c (declId d)));
                               Push (snd (storageLocationOfVariable c (declId d)))]).
Proof.
  split; [reflexivity|]. split; intros Himm.
  - split; [unfold ImmutableItem_new, bind, solAssert; now rewrite Himm|].
    unfold fails, GenericStorageItem_ofDeclaration, GenericStorageItem_new.
    unfold bind at 1. unfold bind at 1.
    destruct (GenericStorageItem_check (declType d) c) as [[[] c1]|e]; [|now exists e].
    cbn [ret]. unfold bind at 1. rewrite Himm. eexists. reflexivity.
  - split; [unfold fails, ImmutableItem_new, bind, solAssert; now rewrite Himm|].
    intros lv c' H.
    assert (Hcheck : GenericStorageItem_check (declType d) c = OK (tt, c)).
    { unfold GenericStorageItem_ofDeclaration, GenericStorageItem_new in H.
      unfold bind at 1 in H. unfold bind at 1 in H.
      unfold GenericStorageItem_check, bind, solAssert, ret in *.
      destruct (isValueType (declType d)); [|reflexivity].
      destruct (negb (Category_eqb (category (declType d)) Function));
        [destruct (storageSize (declType d) =? sizeOnStack (declType d)); [|discriminate H]|];
        (destruct (storageSize (declType d) =? 1); [reflexivity|discriminate H]). }
    rewrite (ofDeclaration_pushes_the_location tr d c Hcheck Himm) in H.
    injection H as <- <-. split; reflexivity.
Qed.
End ZeroedFields.

(** An [int16] at byte offset 5 of the slot at key 7. *)
Lemma zeroed_field_reads_as_zero_witness :
  let s := Example.state [] (fun _ => 2 ^ 200 - 1) in
  let ty := Example.int 16 in
  exists codeZ codeR s1,
    generates (LValue_setToZero Example.collaborators (GenericStorageItem false ty)
                 noLocation true) (Example.context true 2) codeZ
    /\ generates (LValue_retrieveValue Example.collaborators (GenericStorageItem false ty)
                    noLocation true) (Example.context true 2) codeR
    /\ EVM.exec codeZ (withStack (5 :: 7 :: []) s) = Some s1
    /\ EVM.stack s1 = []
    /\ EVM.exec codeR (withStack (5 :: 7 :: EVM.stack s1) s1)
       = Some (withStack (0 :: [] ++ EVM.stack s1) s1).
Proof.
  intros s ty.
  apply (zeroed_field_reads_as_zero Example.collaborators ty ty 2 5 7 noLocation true true
           (Example.context true 2) (Example.context true 2) [] s); try reflexivity; try lia.
  - repeat split.
  - unfold Word.isWord, Word.modulus. simpl. lia.
Defined.

(** A [uint8] stored with the value moved. *)
Lemma storage_item_keeps_the_stack_balanced_witness :
  exists code,
    generates (LValue_storeValue Example.collaborators
                 (GenericStorageItem false (Example.uint 8)) (Example.uint 8)
                 noLocation true) (Example.context true 3) code
    /\ deposit (appended (Example.context true 3) code)
       = deposit (Example.context true 3) - 2 - Z.of_nat 1.
Proof.
  destruct (storage_item_keeps_the_stack_balanced Example.collaborators false
              (Example.uint 8) (Example.uint 8) noLocation true (Example.context true 3)
              1 1 [Push (byteMask 1); Operation AND] (fun vs => hd 0 vs mod 2 ^ (8 * 1))
              eq_refl eq_refl eq_refl eq_refl) as (H & _).
  apply H.
  - lia.
  - apply AlignRight; try reflexivity. apply computes_mask_mod. lia.
  - reflexivity.
Defined.

(** The declaration 3 of a [uint256], as a state variable and as an
    immutable. *)
Lemma constructors_tell_immutables_from_state_variables_witness :
  fails (ImmutableItem_new (mkDecl 3 (Example.uint 256) false)) (Example.context true 0)
    (InternalCompilerError "")
  /\ (exists e, fails (GenericStorageItem_ofDeclaration false
                         (mkDecl 3 (Example.uint 256) true)) (Example.context true 0) e).
Proof.
  split.
  - destruct (constructors_tell_immutables_from_state_variables false
                (mkDecl 3 (Example.uint 256) false) (Example.context true 0))
      as (_ & _ & H).
    apply H. reflexivity.
  - destruct (constructors_tell_immutables_from_state_variables false
                (mkDecl 3 (Example.uint 256) true) (Example.context true 0))
      as (_ & H & _).
    apply H. reflexivity.
Defined.

(** ** Copying a struct of value members from storage to storage *)

Lemma add_comm_word a b : Word.add a b = Word.add b a.
Proof. unfold Word.add. now rewrite Z.add_comm. Qed.

Lemma isWord_field w o word : 0 < w < 32 -> Word.isWord (field w o word).
Proof.
  intros Hw. pose proof (field_range w o word ltac:(lia)) as H.
  unfold Word.isWord, Word.modulus.
  assert (2 ^ (8 * w) < 2 ^ 256) by (apply Z.pow_lt_mono_r; lia). lia.
Qed.

Section StructCopy.
Variable C : Collaborators.
Variables owner src : Ty.
Variables tkey skey : Z.

Let f := copyMemberStorage owner src tkey skey.

Lemma isWord_copyMemberStorage sto m :
  copyableMember C owner src m -> (forall k, Word.isWord (sto k)) ->
  forall k, Word.isWord (copyMemberStorage owner src tkey skey sto m k).
Proof.
  intros (st & cv & _ & _ & _ & _ & _ & Hw) Hsto k. unfold copyMemberStorage, EVM.upd.
  destruct (Z.eqb_spec k (memberSlot owner tkey m)); [|apply Hsto].
  destruct Hw as [(Hw & _)|((Hr & Ho & How) & (Hr' & Ho' & How') & _)].
  - rewrite Hw. apply Hsto.
  - destruct (Z.eqb_spec (storageBytes (snd m)) 32); [lia|].
    pose proof (field_range (storageBytes (snd m))
                  (snd (storageOffsetsOfMember src (fst m)))
                  (sto (sourceSlot src skey m)) ltac:(lia)).
    rewrite packed_replaceWindow by (try apply Hsto; assumption || lia).
    apply isWord_replaceWindow; try apply Hsto; assumption || lia.
Qed.

Lemma isWord_fold_copy ms : forall sto,
  Forall (copyableMember C owner src) ms -> (forall k, Word.isWord (sto k)) ->
  forall k, Word.isWord (fold_left f ms sto k).
Proof.
  induction ms as [|m ms IH]; intros sto Hms Hsto k; [apply Hsto|].
  inversion Hms; subst. cbn [fold_left]. apply IH; [assumption|].
  now apply isWord_copyMemberStorage.
Qed.

Lemma copy_other_slot ms : forall sto k,
  (forall m, In m ms -> k <> memberSlot owner tkey m) ->
  fold_left f ms sto k = sto k.
Proof.
  induction ms as [|m ms IH]; intros sto k Hk; [reflexivity|].
  cbn [fold_left]. rewrite IH by (intros m' Hm'; apply Hk; now right).
  unfold f, copyMemberStorage, EVM.upd.
  destruct (Z.eqb_spec k (memberSlot owner tkey m)) as [E|]; [|reflexivity].
  exfalso. apply (Hk m); [now left|exact E].
Qed.

Lemma copy_keeps_window m ms : forall sto,
  copyableMember C owner src m ->
  Forall (copyableMember C owner src) ms ->
  Forall (windowsApart owner tkey m) ms ->
  (forall k, Word.isWord (sto k)) ->
  memberValue (storageBytes (snd m)) (snd (storageOffsetsOfMember owner (fst m)))
    (fold_left f ms sto (memberSlot owner tkey m))
  = memberValue (storageBytes (snd m)) (snd (storageOffsetsOfMember owner (fst m)))
      (sto (memberSlot owner tkey m)).
Proof.
  induction ms as [|m' ms IH]; intros sto Hm Hms Hapart Hsto; [reflexivity|].
  inversion Hms as [|? ? Hm' Hms']; subst.
  inversion Hapart as [|? ? Ha Hapart']; subst.
  cbn [fold_left]. rewrite IH by (try assumption; now apply isWord_copyMemberStorage).
  unfold f, copyMemberStorage, EVM.upd.
  destruct (Z.eqb_spec (memberSlot owner tkey m) (memberSlot owner tkey m')) as [E|];
    [|reflexivity].
  destruct Ha as [Hne|(Hw & Hw' & Hdis)]; [contradiction|].
  destruct (Z.eqb_spec (storageBytes (snd m')) 32); [contradiction|].
  unfold memberValue. destruct (Z.eqb_spec (storageBytes (snd m)) 32); [contradiction|].
  destruct Hm' as (st' & cv' & _ & _ & _ & _ & _ & [(Hx & _)|((Hr & Ho & How) & (Hr' & Ho' & How') & _)]);
    [contradiction|].
  destruct Hm as (st & cv & _ & _ & _ & _ & _ & [(Hx & _)|((Hq & Hp & Hpw) & (Hq' & Hp' & Hpw') & _)]);
    [contradiction|].
  pose proof (field_range (storageBytes (snd m'))
                (snd (storageOffsetsOfMember src (fst m')))
                (sto (sourceSlot src skey m')) ltac:(lia)).
  rewrite packed_replaceWindow by (try apply Hsto; assumption || lia).
  rewrite <- E.
  apply field_replaceWindow_disjoint; try apply Hsto; try assumption; lia.
Qed.

Lemma copy_sets_window sto m :
  copyableMember C owner src m -> (forall k, Word.isWord (sto k)) ->
  memberValue (storageBytes (snd m)) (snd (storageOffsetsOfMember owner (fst m)))
    (copyMemberStorage owner src tkey skey sto m (memberSlot owner tkey m))
  = memberValue (storageBytes (snd m)) (snd (storageOffsetsOfMember src (fst m)))
      (sto (sourceSlot src skey m)).
Proof.
  intros (st & cv & _ & _ & _ & _ & _ & Hw) Hsto.
  unfold copyMemberStorage, EVM.upd, memberValue. rewrite Z.eqb_refl.
  destruct Hw as [(Hw & _)|((Hr & Ho & How) & (Hr' & Ho' & How') & _)].
  - rewrite Hw. reflexivity.
  - destruct (Z.eqb_spec (storageBytes (snd m)) 32); [lia|].
    pose proof (field_range (storageBytes (snd m))
                  (snd (storageOffsetsOfMember src (fst m)))
                  (sto (sourceSlot src skey m)) ltac:(lia)).
    rewrite packed_replaceWindow by (try apply Hsto; assumption || lia).
    apply field_replaceWindow_same; try apply Hsto; assumption || lia.
Qed.

Lemma copy_gives_each_member_its_source ms : forall sto,
  Forall (copyableMember C owner src) ms ->
  separated owner src tkey skey ms ->
  (forall k, Word.isWord (sto k)) ->
  Forall (fun m =>
            memberValue (storageBytes (snd m)) (snd (storageOffsetsOfMember owner (fst m)))
              (fold_left f ms sto (memberSlot owner tkey m))
            = memberValue (storageBytes (snd m)) (snd (storageOffsetsOfMember src (fst m)))
                (sto (sourceSlot src skey m))) ms.
Proof.
  induction ms as [|m ms IH]; intros sto Hms [Hsrc Hpairs] Hsto; [constructor|].
  inversion Hms as [|? ? Hm Hms']; subst.
  inversion Hpairs as [|? ? Hapart Hpairs']; subst.
  constructor.
  - cbn [fold_left]. rewrite copy_keeps_window by
      (try assumption; now apply isWord_copyMemberStorage).
    now apply copy_sets_window.
  - assert (IH' := IH (f sto m) Hms'
                     (conj (fun a b Ha Hb => Hsrc a b (or_intror Ha) (or_intror Hb)) Hpairs')
                     (isWord_copyMemberStorage sto m Hm Hsto)).
    cbn [fold_left]. rewrite Forall_forall in IH' |- *. intros m' Hin.
    rewrite (IH' m' Hin). unfold f, copyMemberStorage, EVM.upd.
    destruct (Z.eqb_spec (sourceSlot src skey m') (memberSlot owner tkey m)) as [E|];
      [|reflexivity].
    exfalso. apply (Hsrc m' m); [now right|now left|exact E].
Qed.

Lemma exec_copyMember cv w sso sbo tso tbo (rest : list Z) (s : EVM.State) :
  (w = 32 /\ computes cv 1 (fun vs => hd 0 vs)
   \/ packedField w sbo /\ packedField w tbo
      /\ computes cv 1 (fun vs => hd 0 vs mod 2 ^ (8 * w))) ->
  (forall k, Word.isWord (EVM.storage s k)) ->
  EVM.exec
    ([Push sso; Operation (DUP 3); Operation ADD; Push sbo]
     ++ (if w =? 32 then [Operation POP; Operation SLOAD]
         else retrievePrefix ++ [Push (byteMask w); Operation AND])
     ++ [Operation (DUP 2); Push tso; Operation ADD; Push tbo]
     ++ (if w =? 32 then fullStoreCode false cv true else packedStoreCode false w 1 cv true))
    (withStack (tkey :: skey :: rest) s)
  = Some (withStack (tkey :: skey :: rest)
            (EVM.mkState (EVM.stack s)
               (EVM.upd (EVM.storage s) (Word.add tso tkey)
                  (if w =? 32 then EVM.storage s (Word.add skey sso)
                   else packed w tbo (EVM.storage s (Word.add tso tkey))
                          (field w sbo (EVM.storage s (Word.add skey sso)))))
               (EVM.transient s))).
Proof.
  intros Hw Hsto. rewrite exec_app.
  change (EVM.exec [Push sso; Operation (DUP 3); Operation ADD; Push sbo]
            (withStack (tkey :: skey :: rest) s))
    with (Some (withStack (sbo :: Word.add skey sso :: tkey :: skey :: rest) s)).
  cbv beta iota. rewrite exec_app.
  destruct Hw as [(-> & Hcv)|((Hr & Ho & How) & (Hr' & Ho' & How') & Hcv)].
  - change (32 =? 32) with true. cbv iota.
    change (EVM.exec [Operation POP; Operation SLOAD]
              (withStack (sbo :: Word.add skey sso :: tkey :: skey :: rest) s))
      with (Some (withStack (EVM.storage s (Word.add skey sso) :: tkey :: skey :: rest) s)).
    cbv beta iota. rewrite exec_app.
    change (EVM.exec [Operation (DUP 2); Push tso; Operation ADD; Push tbo]
              (withStack (EVM.storage s (Word.add skey sso) :: tkey :: skey :: rest) s))
      with (Some (withStack (tbo :: Word.add tso tkey :: EVM.storage s (Word.add skey sso)
                             :: tkey :: skey :: rest) s)).
    cbv beta iota. rewrite (exec_fullStore false cv true) by (assumption || apply Hsto).
    reflexivity.
  - destruct (Z.eqb_spec w 32); [lia|].
    pose proof (exec_retrieve_packed true sbo (Word.add skey sso) (tkey :: skey :: rest) s
                  [Push (byteMask w); Operation AND] (fun vs => hd 0 vs mod 2 ^ (8 * w))
                  (computes_mask_mod w ltac:(lia))
                  (isWord_div_exp256 _ sbo ltac:(lia) (Hsto _))) as E.
    cbn [duplicateOperands app hd] in E. rewrite div_mod_field in E by lia.
    rewrite E. cbv beta iota. rewrite exec_app.
    set (v := field w sbo (EVM.storage s (Word.add skey sso))).
    change (EVM.exec [Operation (DUP 2); Push tso; Operation ADD; Push tbo]
              (withStack (v :: tkey :: skey :: rest) s))
      with (Some (withStack (tbo :: Word.add tso tkey :: v :: tkey :: skey :: rest) s)).
    cbv beta iota.
    rewrite (exec_packedStore_1 false w cv (fun vs => hd 0 vs mod 2 ^ (8 * w)))
      by (assumption || (apply isWord_field; lia)).
    cbn [hd]. rewrite (Z.mod_small v) by (apply field_range; lia).
    reflexivity.
Qed.

Lemma plainStored_check t c : plainStored t -> generates (GenericStorageItem_check t) c [].
Proof.
  intros (Hv & _ & _ & Hf & _ & _ & _ & _ & Hs & Hn).
  apply check_generates; [assumption| |assumption]. intros _. congruence.
Qed.

Lemma assignMembers_copies loc ms :
  DataLocation_eqb (location src) Storage = true ->
  Forall (copyableMember C owner src) ms ->
  exists code,
    (forall c, generates (assignMembers C owner src loc ms) c code)
    /\ forall rest s,
         (forall k, Word.isWord (EVM.storage s k)) ->
         EVM.exec code (withStack (tkey :: skey :: rest) s)
         = Some (withStack (tkey :: skey :: rest)
                   (EVM.mkState (EVM.stack s) (fold_left f ms (EVM.storage s))
                      (EVM.transient s))).
Proof.
  intros Hloc Hms. induction Hms as [|[name t] ms Hm Hms IH].
  - exists []. split; [intros c; apply ret_generates|reflexivity].
  - destruct IH as (codeRest & Hgen & Hexec).
    pose proof Hm as Hm0.
    destruct Hm as (st & cv & Hst & Hname & Hps & Hpt & Hbytes & Hw). cbn [fst snd] in *.
    pose proof Hps as (Hsv & Hsa & Hss & Hsf & Hsfp & Hsu & Hsl & Hssg & Hssz & Hsn).
    pose proof Hpt as (Htv & Hta & Hts & Htf & Htfp & Htu & Htl & Htsg & Htsz & Htn).
    set (w := storageBytes t) in *.
    set (sso := fst (storageOffsetsOfMember src name)) in *.
    set (sbo := snd (storageOffsetsOfMember src name)) in *.
    set (tso := fst (storageOffsetsOfMember owner name)) in *.
    set (tbo := snd (storageOffsetsOfMember owner name)) in *.
    exists ([Push sso; Operation (DUP 3); Operation ADD; Push sbo]
            ++ (if w =? 32 then [Operation POP; Operation SLOAD]
                else retrievePrefix ++ [Push (byteMask w); Operation AND])
            ++ [Operation (DUP 2); Push tso; Operation ADD; Push tbo]
            ++ (if w =? 32 then fullStoreCode false cv true
                else packedStoreCode false w 1 cv true)
            ++ codeRest).
    split.
    + intros c.
      change (assignMembers C owner src loc ((name, t) :: ms))
        with (solAssert (nameable t) "" ;;
              sourceMemberType <-
                match memberType src name with
                | Some t0 => ret t0
                | None => throw (InternalCompilerError "null member type")
                end ;;
              (if DataLocation_eqb (location src) Storage then
                 emitAll [Push (fst (storageOffsetsOfMember src name));
                          Operation (DUP 3); Operation ADD] ;;
                 emit (Push (snd (storageOffsetsOfMember src name))) ;;
                 GenericStorageItem_check sourceMemberType ;;
                 GenericStorageItem_retrieveValue C false sourceMemberType loc true
               else
                 solAssert (DataLocation_eqb (location src) Memory) "" ;;
                 emit (Push (memoryOffsetOfMember src name)) ;;
                 emit (DUP 3) ;; emit ADD ;;
                 MemoryItem_retrieveValue C sourceMemberType true loc true) ;;
              emitDup (Word.u32 (1 + sizeOnStack sourceMemberType)) ;;
              emit (Push (fst (storageOffsetsOfMember owner name))) ;;
              emit ADD ;;
              emit (Push (snd (storageOffsetsOfMember owner name))) ;;
              GenericStorageItem_check t ;;
              GenericStorageItem_storeValue C false t sourceMemberType loc true ;;
              assignMembers C owner src loc ms).
      rewrite Hname, Hst, Hloc. fold sso sbo tso tbo.
      apply (bind_generates _ _ c [] _); [apply ret_generates|]. rewrite appended_nil.
      apply bind_ret_generates. rewrite Hsn. change (Word.u32 (1 + 1)) with 2.
      assert (HR : forall c0,
                 generates (GenericStorageItem_retrieveValue C false st loc true) c0
                   (if w =? 32 then [Operation POP; Operation SLOAD]
                    else retrievePrefix ++ [Push (byteMask w); Operation AND])).
      { intros c0. destruct Hw as [(Hw32 & _)|((Hr & _) & _)].
        - rewrite Hw32. change (32 =? 32) with true. cbv iota.
          apply (retrieveValue_full_generates C false st loc true c0); congruence.
        - destruct (Z.eqb_spec w 32); [lia|].
          apply (retrieveValue_unsigned_generates C false st loc true c0 st w);
            try assumption; try lia.
          unfold readType. now rewrite Hsu. }
      assert (HS : forall c0,
                 generates (GenericStorageItem_storeValue C false t st loc true) c0
                   (if w =? 32 then fullStoreCode false cv true
                    else packedStoreCode false w 1 cv true)).
      { intros c0. destruct Hw as [(Hw32 & Hcv & _)|((Hr & _) & _ & Hcv & _)].
        - rewrite Hw32. change (32 =? 32) with true. cbv iota.
          now apply storeValue_full_generates.
        - destruct (Z.eqb_spec w 32); [lia|].
          apply storeValue_plain_generates; try assumption; try reflexivity. }
      eapply generates_eq.
      * eapply bind_generates.
        { eapply bind_generates; [apply emitAll_generates|].
          eapply bind_generates; [apply emit_generates|].
          eapply (bind_generates _ _ _ [] _); [now apply plainStored_check|].
          rewrite appended_nil. apply HR. }
        eapply bind_generates; [apply (emitDup_generates 2); lia|].
        eapply bind_generates; [apply emit_generates|].
        eapply bind_generates; [apply emit_generates|].
        eapply bind_generates; [apply emit_generates|].
        eapply (bind_generates _ _ _ [] _); [now apply plainStored_check|].
        rewrite appended_nil.
        eapply bind_generates; [apply HS|apply Hgen].
      * rewrite <- !app_assoc. reflexivity.
    + intros rest s Hsto.
      match goal with
      | |- EVM.exec (?p1 ++ ?r ++ ?p2 ++ ?st ++ codeRest) _ = _ =>
          replace (p1 ++ r ++ p2 ++ st ++ codeRest) with ((p1 ++ r ++ p2 ++ st) ++ codeRest)
            by (now rewrite <- !app_assoc)
      end.
      assert (Ef : copyMemberStorage owner src tkey skey (EVM.storage s) (name, t)
                   = EVM.upd (EVM.storage s) (Word.add tso tkey)
                       (if w =? 32 then EVM.storage s (Word.add skey sso)
                        else packed w tbo (EVM.storage s (Word.add tso tkey))
                               (field w sbo (EVM.storage s (Word.add skey sso))))).
      { unfold copyMemberStorage, memberSlot, sourceSlot. cbn [fst snd].
        rewrite (add_comm_word tkey (fst (storageOffsetsOfMember owner name))).
        reflexivity. }
      rewrite exec_app.
      rewrite (exec_copyMember cv w sso sbo tso tbo rest s); try assumption.
      * rewrite Hexec.
        -- cbn [fold_left EVM.stack EVM.storage EVM.transient]. rewrite <- Ef. reflexivity.
        -- intros k. cbn [EVM.storage]. rewrite <- Ef.
           exact (isWord_copyMemberStorage (EVM.storage s) (name, t) Hm0 Hsto k).
      * destruct Hw as [(Hw32 & _ & Hcomp)|(Hp & Hp' & _ & Hcomp)]; [left|right]; tauto.
Qed.

End StructCopy.

Section StructCopyTheorem.
Variable C : Collaborators.

(** X21. The member-wise copy of a struct from storage to storage, for a
    struct whose members are value types stored and read as unsigned words of
    their width.  With the byte offset, the key of the target and the key of
    the source on the stack, [storeValue] drops the offset, copies the members
    one after the other in declared order, each read from its slot and window
    in the source and written to its slot and window in the target, and
    finally pops both keys or, when the value is kept, leaves the key of the
    target.  The result in persistent storage is that of the copies done in
    order; transient storage and every slot that is no slot of a member of the
    target are as before; and when the source is not written and the windows
    of the members of the target are pairwise apart, every member of the
    target holds afterwards what the member of the source held before. *)
Theorem flat_struct_is_copied_member_by_member (ty src : Ty) (loc : SourceLocation)
    (move : bool) (c : CompilerContext) (o tkey skey : Z) (rest : list Z) (s : EVM.State) :
  isValueType ty = false ->
  Category_eqb (category ty) Struct = true ->
  Category_eqb (category src) (category ty) = true ->
  structDefinition ty = structDefinition src ->
  containsNestedMapping ty = false ->
  DataLocation_eqb (location src) Storage = true ->
  sizeOnStack src = 1 ->
  Forall (copyableMember C ty src) (members ty) ->
  (forall k, Word.isWord (EVM.storage s k)) ->
  exists code s',
    generates (LValue_storeValue C (GenericStorageItem false ty) src loc move) c code
    /\ EVM.exec code (withStack (o :: tkey :: skey :: rest) s) = Some s'
    /\ EVM.stack s' = (if move then rest else tkey :: rest)
    /\ EVM.transient s' = EVM.transient s
    /\ EVM.storage s'
       = fold_left (copyMemberStorage ty src tkey skey) (members ty) (EVM.storage s)
    /\ (forall k, (forall m, In m (members ty) -> k <> memberSlot ty tkey m) ->
          EVM.storage s' k = EVM.storage s k)
    /\ (separated ty src tkey skey (members ty) ->
        Forall (fun m =>
                  memberValue (storageBytes (snd m))
                    (snd (storageOffsetsOfMember ty (fst m)))
                    (EVM.storage s' (memberSlot ty tkey m))
                  = memberValue (storageBytes (snd m))
                      (snd (storageOffsetsOfMember src (fst m)))
                      (EVM.storage s (sourceSlot src skey m))) (members ty)).
Proof.
  intros Hv Hs Hcat Hdef Hnest Hloc Hsize Hms Hsto.
  destruct (assignMembers_copies C ty src tkey skey loc (members ty) Hloc Hms)
    as (body & Hgen & Hexec).
  assert (Hcd : DataLocation_eqb (location src) CallData = false)
    by (destruct (location src); try discriminate; reflexivity).
  exists ([Operation POP] ++ body
          ++ (if move then pops 2 else [Operation (SWAP 1); Operation POP])),
         (EVM.mkState (if move then rest else tkey :: rest)
            (fold_left (copyMemberStorage ty src tkey skey) (members ty) (EVM.storage s))
            (EVM.transient s)).
  split; [|split; [|split; [reflexivity|split; [reflexivity|split; [reflexivity|split]]]]].
  - cbn [LValue_storeValue]. rewrite storeValue_struct by assumption.
    rewrite Hcat, Hdef, Z.eqb_refl, Hnest, Hcd, Hsize. cbn [negb]. change (1 =? 1) with true.
    apply (bind_generates _ _ c [] _); [apply ret_generates|]. rewrite appended_nil.
    apply (bind_generates _ _ c [] _); [apply ret_generates|]. rewrite appended_nil.
    apply (bind_generates _ _ _ [Operation POP] _); [apply emit_generates|].
    apply (bind_generates _ _ _ [] _); [apply ret_generates|]. rewrite appended_nil.
    apply (bind_generates _ _ _ [] _); [apply ret_generates|]. rewrite appended_nil.
    apply bind_generates; [apply Hgen|].
    apply (bind_generates _ _ _ [] _); [apply ret_generates|]. rewrite appended_nil.
    destruct move; [apply popStackSlots_generates|].
    apply (bind_generates _ _ _ [Operation (SWAP 1)] [Operation POP]); apply emit_generates.
  - rewrite exec_app.
    change (EVM.exec [Operation POP] (withStack (o :: tkey :: skey :: rest) s))
      with (Some (withStack (tkey :: skey :: rest) s)).
    cbv beta iota. rewrite exec_app, Hexec by assumption. destruct move; reflexivity.
  - intros k Hk. cbn [EVM.storage]. now apply copy_other_slot.
  - intros Hsep. cbn [EVM.storage].
    now apply (copy_gives_each_member_its_source C ty src tkey skey).
Qed.
End StructCopyTheorem.

(** The struct with the members [a : uint256] and [b : uint8], one to a
    slot, copied from key 20 to key 10. *)
Lemma flat_struct_is_copied_member_by_member_witness :
  let ty := Example.structWithoutMapping in
  let s := Example.state [] (fun k => if k =? 20 then 7 else if k =? 21 then 9 else 1) in
  exists code s',
    generates (LValue_storeValue Example.collaborators (GenericStorageItem false ty) ty
                 noLocation true) (Example.context true 3) code
    /\ EVM.exec code (withStack (0 :: 10 :: 20 :: []) s) = Some s'
    /\ EVM.stack s' = []
    /\ EVM.transient s' = EVM.transient s
    /\ EVM.storage s'
       = fold_left (copyMemberStorage ty ty 10 20) (members ty) (EVM.storage s)
    /\ (forall k, (forall m, In m (members ty) -> k <> memberSlot ty 10 m) ->
          EVM.storage s' k = EVM.storage s k)
    /\ (separated ty ty 10 20 (members ty) ->
        Forall (fun m =>
                  memberValue (storageBytes (snd m))
                    (snd (storageOffsetsOfMember ty (fst m)))
                    (EVM.storage s' (memberSlot ty 10 m))
                  = memberValue (storageBytes (snd m))
                      (snd (storageOffsetsOfMember ty (fst m)))
                      (EVM.storage s (sourceSlot ty 20 m))) (members ty)).
Proof.
  intros ty s.
  apply (flat_struct_is_copied_member_by_member Example.collaborators ty ty noLocation true
           (Example.context true 3) 0 10 20 [] s); try reflexivity.
  - constructor; [|constructor; [|constructor]].
    + exists (Example.uint 256), [].
      split; [reflexivity|]. split; [reflexivity|]. split; [repeat split|].
      split; [repeat split|]. split; [reflexivity|].
      left. split; [reflexivity|]. split; [reflexivity|].
      intros vs rest0 s0 Hlen _. destruct vs as [|x [|? ?]]; try discriminate. reflexivity.
    + exists (Example.uint 8), [Push (byteMask 1); Operation AND].
      split; [reflexivity|]. split; [reflexivity|]. split; [repeat split|].
      split; [repeat split|]. split; [reflexivity|].
      right.
      split; [repeat split; reflexivity || (intros H; discriminate H)|].
      split; [repeat split; reflexivity || (intros H; discriminate H)|].
      split; [reflexivity|].
      apply (computes_mask_mod 1). lia.
  - intros k. unfold Word.isWord, Word.modulus. simpl.
    destruct (k =? 20); [lia|]. destruct (k =? 21); lia.
Defined.
